(** * Uniform support of SLA islands: a shallow embedding

    This development embeds the island sampling engine of
    [src/libslic3r/SLA/SupportIslands/UniformSupportIsland.cpp] and states
    the properties of its specification over that embedding.
    The support point generator of
    [src/libslic3r/SLA/SupportPointGenerator.cpp], which calls the engine,
    and [find_and_remove] of [src/libseqarrange/src/seq_utilities.cpp] are
    embedded in sections of their own, with the same conventions.

    Conventions.
    - [coord_t] values are integers ([Z]); the width of [coord_t] is declared
      outside the embedded file and signed overflow is undefined in C++, so
      coordinates are taken without wrap-around, and a property that
      depends on sums or differences staying within 32 bits states the
      range of its coordinates.  [size_t] counters are 64-bit and their
      wrap-around is written out ([wrap_size_t]).
    - [double] and [float] values are the rational numbers they stand for
      ([Q]); [static_cast<coord_t>] truncates toward zero.  The arithmetic
      of [sample_expolygon] on [float], and the ratio and the sum of
      lengths of [sample_outline], are rounded as IEEE 754 rounds them
      (section Floating point); other arithmetic on [double] is exact.
    - Pointers to neighbors and nodes are identifiers ([nat]); pointer
      comparison is comparison of identifiers.
    - [assert] is compiled out (the [NDEBUG] build); the assertions of the
      source are quoted in the comments of the definitions they belong to.
    - A [while (true)] or work-list loop takes a fuel argument and returns
      [None] when the fuel runs out; a dereference of a null pointer or of
      an empty optional is [None] as well. *)

From Stdlib Require Import ZArith List Lia Bool QArith Qround Permutation Sorted.
From Stdlib Require Import Lqa.
From Stdlib Require Ascii String SpecFloat.
Import ListNotations.
Open Scope Z_scope.

(* ===================================================================== *)
(** * Geometry primitives *)
(* ===================================================================== *)

Record Point : Type := mkPoint { px : Z; py : Z }.

Definition Points : Type := list Point.

Definition point_eqb (a b : Point) : bool :=
  (px a =? px b) && (py a =? py b).

(** [Point / 2] and [Point + Point]: component-wise, the division being the
    integer division of C++ (truncation toward zero). *)
Definition point_half (a : Point) : Point :=
  mkPoint (Z.quot (px a) 2) (Z.quot (py a) 2).

Definition point_add (a b : Point) : Point :=
  mkPoint (px a + px b) (py a + py b).

(** A polygon is its ordered sequence of points, implicitly closed. *)
Definition Polygon : Type := Points.

Record ExPolygon : Type := mkExPolygon {
  contour : Polygon;
  holes : list Polygon
}.

(** [ExPolygon::empty()]: the contour has no points. *)
Definition expolygon_empty (e : ExPolygon) : bool :=
  match contour e with [] => true | _ => false end.

Definition empty_expolygon : ExPolygon := mkExPolygon [] [].

Record Line : Type := mkLine { line_a : Point; line_b : Point }.

Definition Lines : Type := list Line.

(** [static_cast<coord_t>(double)]: truncation toward zero. *)
Definition to_coord (q : Q) : Z := Z.quot (Qnum q) (Zpos (Qden q)).

(** [std::round(double)] followed by the cast to [coord_t]: the nearest
    integer, halves away from zero. *)
Definition round_coord (q : Q) : Z :=
  if Qle_bool 0 q then Qfloor (q + (1 # 2)) else Qceiling (q - (1 # 2)).

(* ===================================================================== *)
(** * Floating point *)
(* ===================================================================== *)

(** A [double] or a [float] of the source is the rational number it
    stands for.  Where the source rounds and a property depends on the
    result, the operation is that of the IEEE 754 specification of the
    standard library, rounding to nearest, ties to even: binary32 (24 bits
    of precision) for [float], binary64 (53 bits) for [double]. *)

(** The number a [float] or a [double] stands for.  An infinity or a NaN,
    whose cast to [coord_t] is undefined, reads as 0: the operations below
    do not give one on the values they are used with. *)
Definition float_value (f : SpecFloat.spec_float) : Q :=
  match f with
  | SpecFloat.S754_finite s m e =>
      let mantissa := if s then Z.neg m else Z.pos m in
      if 0 <=? e then inject_Z (mantissa * 2 ^ e)
      else mantissa # (2 ^ Z.to_pos (- e))
  | _ => 0
  end.

(** The conversion of a [coord_t] in an operation with a [float], and the
    operations on [float]. *)
Definition float_of_coord (value : Z) : SpecFloat.spec_float :=
  SpecFloat.binary_normalize 24 128 value 0 false.

Definition float_mul : SpecFloat.spec_float -> SpecFloat.spec_float -> SpecFloat.spec_float :=
  SpecFloat.SFmul 24 128.

Definition float_div : SpecFloat.spec_float -> SpecFloat.spec_float -> SpecFloat.spec_float :=
  SpecFloat.SFdiv 24 128.

(** The conversion of a [coord_t] in an operation with a [double]; it is
    exact. *)
Definition double_of_coord (value : Z) : SpecFloat.spec_float :=
  SpecFloat.binary_normalize 53 1024 value 0 false.

Definition integer_float (value : Z) : SpecFloat.spec_float :=
  match value with
  | Z0 => SpecFloat.S754_zero false
  | Zpos m => SpecFloat.S754_finite false m 0
  | Zneg m => SpecFloat.S754_finite true m 0
  end.

(** The [double] nearest to a rational number: the [double] itself when
    the number is the value of one. *)
Definition double_of (q : Q) : SpecFloat.spec_float :=
  SpecFloat.SFdiv 53 1024 (integer_float (Qnum q)) (integer_float (Zpos (Qden q))).

Definition double_add : SpecFloat.spec_float -> SpecFloat.spec_float -> SpecFloat.spec_float :=
  SpecFloat.SFadd 53 1024.

Definition double_div : SpecFloat.spec_float -> SpecFloat.spec_float -> SpecFloat.spec_float :=
  SpecFloat.SFdiv 53 1024.

(** [static_cast<float>(double)]. *)
Definition float_of_double (d : SpecFloat.spec_float) : SpecFloat.spec_float :=
  match d with
  | SpecFloat.S754_finite s m e =>
      SpecFloat.binary_normalize 24 128 (if s then Z.neg m else Z.pos m) e s
  | _ => d
  end.

(* ===================================================================== *)
(** * Configuration *)
(* ===================================================================== *)

Record SampleConfig : Type := mkSampleConfig {
  head_radius : Z;
  simplification_tolerance : Q;
  thin_max_width : Z;
  thick_min_width : Z;
  thin_max_distance : Z;
  thick_outline_max_distance : Z;
  thick_inner_max_distance : Z;
  minimal_distance_from_outline : Z;
  maximal_distance_from_outline : Z;
  max_align_distance : Z;
  min_part_length : Z;
  count_iteration : Z;     (* size_t *)
  minimal_move : Z;
  max_length_for_one_support_point : Z;
  max_length_for_two_support_points : Z;
  max_length_ratio_for_two_support_points : Q
}.

(** Arithmetic of [size_t]. *)
Definition size_t_modulus : Z := 2 ^ 64.

Definition wrap_size_t (z : Z) : Z := z mod size_t_modulus.

(* ===================================================================== *)
(** * get_center *)
(* ===================================================================== *)

(** One coordinate of the loop body of [get_center]: [lo] and [hi] are the
    running extremes, [v] the coordinate of the current point.  [None] is
    the early [return false]. *)
Definition extend_range (max_radius lo hi v : Z) : option (Z * Z) :=
  if v <? lo then
    if max_radius <? hi - v then None else Some (v, hi)
  else if hi <? v then
    if max_radius <? v - lo then None else Some (lo, v)
  else Some (lo, hi).

Fixpoint get_center_loop (max_radius : Z) (rest : Points) (min max : Point)
  : option (Point * Point) :=
  match rest with
  | [] => Some (min, max)
  | it :: rest' =>
      match extend_range max_radius (px min) (px max) (px it) with
      | None => None
      | Some (min_x, max_x) =>
          match extend_range max_radius (py min) (py max) (py it) with
          | None => None
          | Some (min_y, max_y) =>
              get_center_loop max_radius rest'
                (mkPoint min_x min_y) (mkPoint max_x max_y)
          end
      end
  end.

(** [bool get_center(const Points&, coord_t max_radius, Point& output_center)]:
    [Some center] is [true] with [output_center] set. *)
Definition get_center (points : Points) (max_radius : Z) : option Point :=
  if (length points <=? 2)%nat then None
  else
    match points with
    | [] => None
    | first :: rest =>
        match get_center_loop max_radius rest first first with
        | None => None
        | Some (min, max) => Some (point_add (point_half min) (point_half max))
        end
    end.

(* ===================================================================== *)
(** * Skeleton graph *)
(* ===================================================================== *)

(** [VoronoiGraph::Node::Neighbor]: a directed skeleton edge.  [n_id] stands
    for the address of the record, [n_node] for the target node and
    [n_twin] for the address of the reverse neighbor, which starts at the
    target node. *)
Record Neighbor : Type := mkNeighbor {
  n_id : nat;
  n_node : nat;
  n_twin : nat;
  n_length : Q;
  n_min_width : Z;
  n_max_width : Z
}.

Record Node : Type := mkNode {
  node_id : nat;
  neighbors : list Neighbor
}.

Definition VoronoiGraph : Type := list Node.

Definition get_node (g : VoronoiGraph) (id : nat) : option Node :=
  find (fun n => Nat.eqb (node_id n) id) g.

(** [VoronoiGraphUtils::get_neighbor(from, to)]: the neighbor of [from]
    whose target is [to], a null pointer when there is none. *)
Definition get_neighbor (from to : Node) : option Neighbor :=
  find (fun nb => Nat.eqb (n_node nb) (node_id to)) (neighbors from).

(** [VoronoiGraphUtils::get_twin(neighbor)]: looked up among the neighbors
    of the target node. *)
Definition get_twin (g : VoronoiGraph) (n : Neighbor) : option Neighbor :=
  match get_node g (n_node n) with
  | None => None
  | Some target => find (fun nb => Nat.eqb (n_id nb) (n_twin n)) (neighbors target)
  end.

(** [VoronoiGraph::Position]: a neighbor and a ratio along it. *)
Record Position : Type := mkPosition {
  pos_neighbor : Neighbor;
  pos_ratio : Q
}.

(** [Position::calc_distance()]: distance from the source node,
    [ratio * length] as a [coord_t]. *)
Definition calc_distance (p : Position) : Z :=
  to_coord (n_length (pos_neighbor p) * pos_ratio p).

(** [VoronoiGraph::Path] / [ExPath]: the node sequence and its length. *)
Record Path : Type := mkPath {
  path_nodes : list Node;
  path_length : Q
}.

(** [ThinPart] and [ThickPart]. *)
Record ThinPart : Type := mkThinPart {
  thin_center : Position;
  thin_ends : list Position      (* sorted by address of neighbor *)
}.

Record ThickPart : Type := mkThickPart {
  thick_start : Neighbor;
  thick_ends : list Position
}.

(* ===================================================================== *)
(** * Support points *)
(* ===================================================================== *)

(** [SupportIslandPoint::Type]. *)
Inductive SupportType : Type :=
| one_bb_center_point
| one_center_point
| two_points
| two_points_backup
| thin_part
| thin_part_change
| thin_part_loop
| thick_part_outline
| thick_part_inner
| undefined.

Definition SupportType_eqb (a b : SupportType) : bool :=
  match a, b with
  | one_bb_center_point, one_bb_center_point
  | one_center_point, one_center_point
  | two_points, two_points
  | two_points_backup, two_points_backup
  | thin_part, thin_part
  | thin_part_change, thin_part_change
  | thin_part_loop, thin_part_loop
  | thick_part_outline, thick_part_outline
  | thick_part_inner, thick_part_inner
  | undefined, undefined => true
  | _, _ => false
  end.

(** [SupportOutlineIslandPoint::Restriction]: the line sequence a point
    slides along; [r_circle] tells [RestrictionCircleSequence] from
    [RestrictionLineSequence]. *)
Record Restriction : Type := mkRestriction {
  r_lines : Lines;
  r_lengths : list Q;
  r_max_align_distance : Z;
  r_circle : bool
}.

(** The four classes of support point, by their movement policy:
    [SupportIslandNoMovePoint], [SupportCenterIslandPoint],
    [SupportOutlineIslandPoint], [SupportIslandInnerPoint]. *)
Inductive Movement : Type :=
| NoMovePoint
| CenterIslandPoint (position : Position)
| OutlineIslandPoint (index : nat) (ratio : Q) (restriction : Restriction)
| InnerPoint (inner : ExPolygon).

Record SupportIslandPoint : Type := mkSupport {
  point : Point;
  type : SupportType;
  movement : Movement
}.

Definition SupportIslandPoints : Type := list SupportIslandPoint.

Definition to_points (support_points : SupportIslandPoints) : Points :=
  map point support_points.

(** [can_move()]: only [SupportIslandNoMovePoint] answers [false]. *)
Definition can_move (p : SupportIslandPoint) : bool :=
  match movement p with
  | NoMovePoint => false
  | _ => true
  end.

(* ===================================================================== *)
(** * Collaborators declared outside the embedded file *)
(* ===================================================================== *)

(** The functions below are called by the embedded file and live in other
    files of libslic3r (Voronoi construction, Clipper, the polygon
    classes, [VoronoiGraphUtils], [SupportIslandPoint.cpp]) or are the
    geometry-heavy parts of the file itself that no property below looks
    into.  They are parameters of the embedding. *)
Class Collaborators : Type := {
  (** [ExPolygon::simplify(tolerance)] (Douglas-Peucker). *)
  simplify : ExPolygon -> Q -> list ExPolygon;
  (** [to_lines(expolygon)]: contour first, then each hole. *)
  to_lines : ExPolygon -> Lines;
  (** [construct_voronoi], [annotate_inside_outside], [create_skeleton],
      [getFirstContourNode] and [create_longest_path] in one step. *)
  create_longest_path : Lines -> VoronoiGraph * Path;
  (** [VoronoiGraphUtils::get_max_width(path)]. *)
  get_max_width : Path -> Z;
  (** [VoronoiGraphUtils::get_position_with_width(neighbor, width, lines)]. *)
  get_position_with_width : Neighbor -> Z -> Lines -> Position;
  (** [VoronoiGraphUtils::ends_in_distanace(position, max_distance)]. *)
  ends_in_distanace : Position -> Z -> bool;
  (** [VoronoiGraphUtils::create_edge_point(position)]. *)
  create_edge_point : Position -> Point;
  (** The point of a [SupportOutlineIslandPoint::Position] on its
      restriction. *)
  calc_outline_point : Restriction -> nat -> Q -> Point;
  (** [move(destination)] of the three movable classes: the restricted
      destination as new state, new point and displacement. *)
  move_restricted : Movement -> Point -> Point -> Movement * Point * Z;
  (** [separate_thin_thick(path, lines, config)], the segmentation driver;
      its steps [add_part], [detect_interface], [merge_island_parts] and
      [merge_middle_parts_into_biggest_neighbor] are embedded below. *)
  separate_thin_thick :
    VoronoiGraph -> Path -> Lines -> SampleConfig -> list ThinPart * list ThickPart;
  (** [create_thick_field(part, lines, config)], reduced to what the
      samplers read: border, outline flags, inset and index map. *)
  create_thick_field :
    ThickPart -> Lines -> SampleConfig ->
    ExPolygon * list bool * ExPolygon * list (nat * nat);
  (** [sample_expolygon_with_centering(expoly, triangle_side)]. *)
  sample_expolygon_with_centering : ExPolygon -> Z -> Points;
  (** Clipper's [offset(expolygon, delta, jtSquare)]. *)
  offset : ExPolygon -> Q -> list Polygon;
  (** The index map of [outline_offset], from the lines of the field to
      the lines of its inset (direction and distance matching). *)
  match_offset_lines : Lines -> Lines -> Q -> list (nat * nat);
  (** [create_voronoi_cells_cgal(points, max_distance)]: one cell per point. *)
  create_voronoi_cells_cgal : Points -> Z -> list Polygon;
  (** Clipper's [intersection(polygon, expolygon)]. *)
  intersection : Polygon -> ExPolygon -> list Polygon;
  (** [Polygon::contains(point)] and [Polygon::centroid()]. *)
  polygon_contains : Polygon -> Point -> bool;
  centroid : Polygon -> Point;
  (** [Line::length()]. *)
  line_length : Line -> Q
}.

(** [SupportIslandPoint::move(destination)]: the displacement is returned.
    [SupportIslandNoMovePoint] stays where it is and returns 0. *)
Definition move `{Collaborators} (p : SupportIslandPoint) (destination : Point)
  : SupportIslandPoint * Z :=
  match movement p with
  | NoMovePoint => (p, 0)
  | m =>
      let '(m', new_point, distance) := move_restricted m (point p) destination in
      (mkSupport new_point (type p) m', distance)
  end.

(** Constructors of the point classes. *)
Definition SupportIslandNoMovePoint (p : Point) (t : SupportType) : SupportIslandPoint :=
  mkSupport p t NoMovePoint.

Definition SupportCenterIslandPoint `{Collaborators} (position : Position) (t : SupportType)
  : SupportIslandPoint :=
  mkSupport (create_edge_point position) t (CenterIslandPoint position).

Definition SupportOutlineIslandPoint `{Collaborators}
  (index : nat) (ratio : Q) (restriction : Restriction) (t : SupportType)
  : SupportIslandPoint :=
  mkSupport (calc_outline_point restriction index ratio) t
    (OutlineIslandPoint index ratio restriction).

Definition SupportIslandInnerPoint (p : Point) (inner : ExPolygon) (t : SupportType)
  : SupportIslandPoint :=
  mkSupport p t (InnerPoint inner).

(* ===================================================================== *)
(** * Simplification and points on the longest path *)
(* ===================================================================== *)

(** [get_expolygon_with_biggest_contour], entered with the front of the
    vector as [biggest]: the first expolygon with the most contour
    points. *)
Fixpoint get_expolygon_with_biggest_contour (biggest : ExPolygon) (rest : list ExPolygon) : ExPolygon :=
  match rest with
  | [] => biggest
  | current :: rest' =>
      if (length (contour biggest) <? length (contour current))%nat
      then get_expolygon_with_biggest_contour current rest'
      else get_expolygon_with_biggest_contour biggest rest'
  end.

Definition get_simplified `{Collaborators} (island : ExPolygon) (config : SampleConfig)
  : ExPolygon :=
  match simplify island (simplification_tolerance config) with
  | [] => island
  | first :: rest => get_expolygon_with_biggest_contour first rest
  end.

Definition create_no_move_point `{Collaborators} (position : Position) (t : SupportType)
  : SupportIslandPoint :=
  SupportIslandNoMovePoint (create_edge_point position) t.

(** [create_position_on_path(path, distance)]: the loop over the nodes,
    [prev_node] and [actual_distance] being its state. *)
Fixpoint create_position_on_path_loop (path : list Node) (prev_node : Node)
  (actual_distance distance : Q) : option Position :=
  match path with
  | [] => None
  | node :: path' =>
      match get_neighbor prev_node node with
      | None => None
      | Some neighbor =>
          let actual_distance := (actual_distance + n_length neighbor)%Q in
          if Qle_bool distance actual_distance then
            let behind_position := (actual_distance - distance)%Q in
            let ratio := (1 - behind_position / n_length neighbor)%Q in
            Some (mkPosition neighbor ratio)
          else create_position_on_path_loop path' node actual_distance distance
      end
  end.

Definition create_position_on_path (path : list Node) (distance : Q) : option Position :=
  match path with
  | [] => None
  | first :: path' => create_position_on_path_loop path' first 0%Q distance
  end.

(** [create_position_on_path(path, lines, width, max_distance)]:
    [max_distance] is an in/out parameter, returned with the position. *)
Fixpoint create_position_on_path_width_loop `{Collaborators}
  (path : list Node) (prev_node : Node) (actual_distance : Z)
  (lines : Lines) (width max_distance : Z) : option (Position * Z) :=
  match path with
  | [] => None
  | node :: path' =>
      match get_neighbor prev_node node with
      | None => None
      | Some neighbor =>
          let found :=
            if width <=? n_max_width neighbor then
              let position := get_position_with_width neighbor width lines in
              let rest_distance := calc_distance position in
              let distance := actual_distance + rest_distance in
              if distance <? max_distance then Some (position, distance) else None
            else None in
          match found with
          | Some result => Some result
          | None =>
              let actual_distance := actual_distance + to_coord (n_length neighbor) in
              if max_distance <=? actual_distance then
                let behind_position := actual_distance - max_distance in
                let ratio := (1 - inject_Z behind_position / n_length neighbor)%Q in
                Some (mkPosition neighbor ratio, max_distance)
              else
                create_position_on_path_width_loop path' node actual_distance
                  lines width max_distance
          end
      end
  end.

Definition create_position_on_path_width `{Collaborators}
  (path : list Node) (lines : Lines) (width max_distance : Z)
  : option (Position * Z) :=
  match path with
  | [] => None
  | first :: path' =>
      create_position_on_path_width_loop path' first 0 lines width max_distance
  end.

(** [create_middle_path_point]: a null pointer when the position is
    missing. *)
Definition create_middle_path_point `{Collaborators} (path : Path) (t : SupportType)
  : option SupportIslandPoint :=
  match create_position_on_path (path_nodes path) (path_length path / 2)%Q with
  | None => None
  | Some position => Some (create_no_move_point position t)
  end.

(** [create_side_points]: [*pos1] and [*pos2] are dereferenced without a
    check, so a missing position has no result. *)
Definition create_side_points `{Collaborators}
  (path : Path) (lines : Lines) (config : SampleConfig) (t : SupportType)
  : option SupportIslandPoints :=
  let max_distance_by_length :=
    to_coord (path_length path * max_length_ratio_for_two_support_points config) in
  let max_distance := Z.min (maximal_distance_from_outline config) max_distance_by_length in
  let reverse_path := rev (path_nodes path) in
  let width := 2 * head_radius config in
  match create_position_on_path_width (path_nodes path) lines width max_distance,
        create_position_on_path_width reverse_path lines width max_distance with
  | Some (pos1, _), Some (pos2, _) =>
      Some [create_no_move_point pos1 t; create_no_move_point pos2 t]
  | _, _ => None
  end.

(* ===================================================================== *)
(** * Alignment *)
(* ===================================================================== *)

Definition origin : Point := mkPoint 0 0.

Fixpoint set_nth {A : Type} (i : nat) (x : A) (l : list A) : list A :=
  match l, i with
  | [], _ => []
  | _ :: l', O => x :: l'
  | y :: l', S i' => y :: set_nth i' x l'
  end.

(** [cmp_index]: order of two indices by the points they name, by x and
    then by y. *)
Definition cmp_index (aligned : Points) (a_index b_index : nat) : bool :=
  let a := nth a_index aligned origin in
  let b := nth b_index aligned origin in
  (px a <? px b) || ((px a =? px b) && (py a <? py b)).

(** [std::sort] on a short range is an insertion sort: an element is put
    in front of the first element it is smaller than, so elements that
    compare equal keep their order. *)
Fixpoint sort_insert (less : nat -> nat -> bool) (x : nat) (l : list nat) : list nat :=
  match l with
  | [] => [x]
  | y :: l' => if less x y then x :: y :: l' else y :: sort_insert less x l'
  end.

Definition std_sort (less : nat -> nat -> bool) (l : list nat) : list nat :=
  fold_left (fun acc x => sort_insert less x acc) l [].

(** The lambda [get_duplicit_index]: the index of the second point of the
    first pair of equal neighbours in sorted order, [sorted.size()] when
    there is none. *)
Fixpoint get_duplicit_index_loop (aligned : Points) (prev_p : Point)
  (rest : list nat) (size : nat) : nat :=
  match rest with
  | [] => size
  | i :: rest' =>
      let p := nth i aligned origin in
      if point_eqb prev_p p then i
      else get_duplicit_index_loop aligned p rest' size
  end.

Definition get_duplicit_index (sorted : list nat) (aligned : Points) : nat :=
  match sorted with
  | [] => length sorted
  | first :: rest =>
      get_duplicit_index_loop aligned (nth first aligned origin) rest (length sorted)
  end.

(** The [do { ... } while (true)] of [move_duplicit_positions].  The source
    asserts [move_distance > 0] ("It must move") after the move. *)
Fixpoint move_duplicit_positions_loop `{Collaborators} (fuel : nat)
  (supports : SupportIslandPoints) (aligned : Points) (sorted : list nat)
  (prev_position : Points) : option SupportIslandPoints :=
  match fuel with
  | O => None
  | S fuel' =>
      let duplicit_index := get_duplicit_index sorted aligned in
      if (length sorted <=? duplicit_index)%nat then Some supports
      else
        let new_pos :=
          point_add (point_half (nth duplicit_index prev_position origin))
                    (point_half (nth duplicit_index aligned origin)) in
        match nth_error supports duplicit_index with
        | None => None
        | Some support =>
            let '(support', move_distance) := move support new_pos in
            let supports := set_nth duplicit_index support' supports in
            let aligned := set_nth duplicit_index (point support') aligned in
            let sorted := std_sort (cmp_index aligned) sorted in
            move_duplicit_positions_loop fuel' supports aligned sorted prev_position
        end
  end.

Definition move_duplicit_positions `{Collaborators} (fuel : nat)
  (supports : SupportIslandPoints) (prev_position : Points)
  : option SupportIslandPoints :=
  let aligned := to_points supports in
  let sorted := std_sort (cmp_index aligned) (seq 0 (length aligned)) in
  move_duplicit_positions_loop fuel supports aligned sorted prev_position.

(** Body of the [for] loop of [align_once] for one support; a [continue]
    leaves the support and [max_move] as they are.  A cell missing from
    [cell_polygons] counts as an invalid cell. *)
Definition align_support `{Collaborators} (island : ExPolygon)
  (cell_polygon : Polygon) (support : SupportIslandPoint) (max_move : Z)
  : SupportIslandPoint * Z :=
  if negb (can_move support) then (support, max_move)
  else if (length cell_polygon <? 3)%nat then (support, max_move)
  else
    let intersections := intersection cell_polygon island in
    let island_cell :=
      match intersections with
      | [cell] => Some cell
      | _ => find (fun cell => polygon_contains cell (point support)) intersections
      end in
    match island_cell with
    | None => (support, max_move)
    | Some cell =>
        let island_cell_center := centroid cell in
        let '(support', act_move) := move support island_cell_center in
        (support', if max_move <? act_move then act_move else max_move)
    end.

Fixpoint align_once_loop `{Collaborators} (island : ExPolygon)
  (cell_polygons : list Polygon) (i : nat) (supports : SupportIslandPoints)
  (max_move : Z) : SupportIslandPoints * Z :=
  match supports with
  | [] => ([], max_move)
  | support :: rest =>
      let '(support', max_move) :=
        align_support island (nth i cell_polygons []) support max_move in
      let '(rest', max_move) :=
        align_once_loop island cell_polygons (S i) rest max_move in
      (support' :: rest', max_move)
  end.

(** [align_once]: the aligned supports and the maximal move. *)
Definition align_once `{Collaborators} (fuel : nat)
  (supports : SupportIslandPoints) (island : ExPolygon) (config : SampleConfig)
  : option (SupportIslandPoints * Z) :=
  let points := to_points supports in
  let max_distance :=
    Z.max (Z.max (thin_max_distance config) (thick_inner_max_distance config))
          (thick_outline_max_distance config) in
  let cell_polygons := create_voronoi_cells_cgal points max_distance in
  let '(supports, max_move) := align_once_loop island cell_polygons 0 supports 0 in
  match move_duplicit_positions fuel supports points with
  | None => None
  | Some supports => Some (supports, max_move)
  end.

(** The loop [while (--count_iteration > 1)] of [align_samples] over a
    sweep function.  [count_iteration] is a [size_t]: the decrement wraps.
    The second component of the result counts the sweeps made; it is not
    part of the program state. *)
Fixpoint align_samples_loop
  (sweep : SupportIslandPoints -> option (SupportIslandPoints * Z))
  (minimal_move : Z) (fuel : nat) (count_iteration : Z)
  (samples : SupportIslandPoints) (sweeps : Z)
  : option (SupportIslandPoints * Z) :=
  match fuel with
  | O => None
  | S fuel' =>
      let count_iteration := wrap_size_t (count_iteration - 1) in
      if 1 <? count_iteration then
        match sweep samples with
        | None => None
        | Some (samples, max_move) =>
            if max_move <? minimal_move then Some (samples, sweeps + 1)
            else align_samples_loop sweep minimal_move fuel' count_iteration
                   samples (sweeps + 1)
        end
      else Some (samples, sweeps)
  end.

Definition align_samples_with
  (sweep : SupportIslandPoints -> option (SupportIslandPoints * Z))
  (fuel : nat) (samples : SupportIslandPoints) (config : SampleConfig)
  : option (SupportIslandPoints * Z) :=
  if (length samples =? 1)%nat then Some (samples, 0)
  else if negb (existsb can_move samples) then Some (samples, 0)
  else align_samples_loop sweep (minimal_move config) fuel
         (count_iteration config) samples 0.

(** [align_samples(samples, island, config)]; [fuel] bounds the sweeps and
    [fuel_duplicit] the duplicate resolution of each sweep. *)
Definition align_samples `{Collaborators} (fuel fuel_duplicit : nat)
  (samples : SupportIslandPoints) (island : ExPolygon) (config : SampleConfig)
  : option (SupportIslandPoints * Z) :=
  align_samples_with (fun s => align_once fuel_duplicit s island config)
    fuel samples config.

(* ===================================================================== *)
(** * Thin part sampler *)
(* ===================================================================== *)

(** The local [struct SupportIn]: the arc length still owed before the next
    support, and the neighbor to continue on. *)
Record SupportIn : Type := mkSupportIn {
  support_in : Z;
  si_neighbor : Neighbor
}.

(** State of the [while] loop of [create_supports_for_thin_part];
    [curr_neighbor = None] is the null pointer. *)
Record ThinState : Type := mkThinState {
  curr_support_in : Z;
  curr_neighbor : option Neighbor;
  process : list SupportIn;
  is_first_neighbor : bool;
  results : SupportIslandPoints
}.

(** [std::lower_bound] over the ends (sorted by address of neighbor),
    followed by the test [curr.neighbor == part_end_it->neighbor]. *)
Definition find_part_end (ends : list Position) (n : Neighbor) : option Position :=
  match find (fun e => negb (n_id (pos_neighbor e) <? n_id n)%nat) ends with
  | Some e => if (n_id (pos_neighbor e) =? n_id n)%nat then Some e else None
  | None => None
  end.

(** [while (edge_length >= curr.support_in)]: supports on the current
    neighbor. *)
Fixpoint thin_add_supports `{Collaborators} (fuel : nat) (neighbor : Neighbor)
  (edge_length support_distance support_in : Z) (results : SupportIslandPoints)
  : option (Z * SupportIslandPoints) :=
  match fuel with
  | O => None
  | S fuel' =>
      if support_in <=? edge_length then
        let ratio := (inject_Z support_in / n_length neighbor)%Q in
        let position := mkPosition neighbor ratio in
        thin_add_supports fuel' neighbor edge_length support_distance
          (support_in + support_distance)
          (results ++ [SupportCenterIslandPoint position thin_part_change])
      else Some (support_in, results)
  end.

(** [std::find_if] and [erase] on the process queue. *)
Definition in_process (twin : Neighbor) (process : list SupportIn) : bool :=
  existsb (fun p => (n_id (si_neighbor p) =? n_id twin)%nat) process.

Fixpoint erase_first (twin : Neighbor) (process : list SupportIn) : list SupportIn :=
  match process with
  | [] => []
  | p :: process' =>
      if (n_id (si_neighbor p) =? n_id twin)%nat then process'
      else p :: erase_first twin process'
  end.

(** The current neighbor at the start of a turn: [curr] itself, or, when
    its neighbor is null, the back of the process queue, which is popped. *)
Definition thin_part_current (st : ThinState) : option (Z * Neighbor * list SupportIn) :=
  match curr_neighbor st with
  | Some n => Some (curr_support_in st, n, process st)
  | None =>
      match rev (process st) with
      | [] => None
      | back :: front => Some (support_in back, si_neighbor back, rev front)
      end
  end.

(** One turn of the [while] loop, entered with a non-null current neighbor
    or a non-empty process queue. *)
Definition thin_part_step `{Collaborators} (fuel : nat) (g : VoronoiGraph)
  (part : ThinPart) (config : SampleConfig) (st : ThinState) : option ThinState :=
  let support_distance := thin_max_distance config in
  let half_support_distance := Z.quot support_distance 2 in
  match thin_part_current st with
  | None => None
  | Some (curr_in, neighbor, process) =>
      let part_end := find_part_end (thin_ends part) neighbor in
      let edge_length :=
        match part_end with
        | Some e => calc_distance e
        | None => to_coord (n_length neighbor)
        end in
      match thin_add_supports fuel neighbor edge_length support_distance
              curr_in (results st) with
      | None => None
      | Some (curr_in, results) =>
          let curr_in := curr_in - edge_length in
          match part_end with
          | Some e =>
              let results :=
                if curr_in <? half_support_distance
                then results ++ [SupportCenterIslandPoint e thin_part]
                else results in
              Some (mkThinState curr_in None process (is_first_neighbor st) results)
          | None =>
              match get_twin g neighbor with
              | None => None
              | Some twin =>
                  if negb (is_first_neighbor st) && in_process twin process then
                    (* self loop detected *)
                    let results :=
                      if curr_in <? half_support_distance
                      then results ++
                           [SupportCenterIslandPoint (mkPosition neighbor 1) thin_part_loop]
                      else results in
                    Some (mkThinState curr_in None (erase_first twin process) false results)
                  else
                    match get_node g (n_node neighbor) with
                    | None => None
                    | Some node =>
                        let others :=
                          filter (fun nb => negb (n_id nb =? n_id twin)%nat)
                                 (neighbors node) in
                        let next_neighbor := hd_error others in
                        let process :=
                          process ++ map (mkSupportIn curr_in) (tl others) in
                        Some (mkThinState curr_in next_neighbor process false results)
                    end
              end
          end
      end
  end.

Fixpoint thin_part_while `{Collaborators} (fuel : nat) (g : VoronoiGraph)
  (part : ThinPart) (config : SampleConfig) (st : ThinState)
  : option SupportIslandPoints :=
  match fuel with
  | O => None
  | S fuel' =>
      match curr_neighbor st, process st with
      | None, [] => Some (results st)
      | _, _ =>
          match thin_part_step fuel g part config st with
          | None => None
          | Some st' => thin_part_while fuel' g part config st'
          end
      end
  end.

(** [create_supports_for_thin_part(part, results, config)]. *)
Definition create_supports_for_thin_part `{Collaborators} (fuel : nat)
  (g : VoronoiGraph) (part : ThinPart) (results : SupportIslandPoints)
  (config : SampleConfig) : option SupportIslandPoints :=
  let support_distance := thin_max_distance config in
  let half_support_distance := Z.quot support_distance 2 in
  let curr_in := half_support_distance + calc_distance (thin_center part) in
  let neighbor := pos_neighbor (thin_center part) in
  match get_twin g neighbor with
  | None => None
  | Some twin_start =>
      let twin_support_in :=
        to_coord (n_length twin_start) - curr_in + support_distance in
      thin_part_while fuel g part config
        (mkThinState curr_in (Some neighbor)
           [mkSupportIn twin_support_in twin_start] true results)
  end.

(* ===================================================================== *)
(** * Thick part: outline sampler *)
(* ===================================================================== *)

(** [struct Field]; [field_2_inner] is a [std::map]. *)
Record Field : Type := mkField {
  border : ExPolygon;
  is_outline : list bool;
  inner : ExPolygon;
  field_2_inner : list (nat * nat)
}.

(** [to_lines(polygon)]: the lines of an expolygon without holes. *)
Definition polygon_to_lines `{Collaborators} (polygon : Polygon) : Lines :=
  to_lines (mkExPolygon polygon []).

(** [static_cast<float>((sample_distance - last_support) / line_length_double)]:
    the quotient is a [double], the ratio of the position a [float]. *)
Definition sample_ratio (distance : Z) (line_length_double : Q) : Q :=
  float_value
    (float_of_double (double_div (double_of_coord distance) (double_of line_length_double))).

(** [sum_lengths += length] over the lines of a run, from
    [double sum_lengths = 0]. *)
Definition sum_lengths_of (lengths : list Q) : Q :=
  float_value
    (fold_left (fun sum length => double_add sum (double_of length)) lengths
       (SpecFloat.S754_zero false)).

(** The [while] loop of the lambda [add_sample]. *)
Fixpoint add_sample_loop `{Collaborators} (fuel : nat) (index : nat)
  (restriction : Restriction) (line_length : Z) (line_length_double : Q)
  (sample_distance last_support : Z) (result : SupportIslandPoints)
  : option (Z * SupportIslandPoints) :=
  match fuel with
  | O => None
  | S fuel' =>
      if sample_distance <? last_support + line_length then
        let ratio := sample_ratio (sample_distance - last_support) line_length_double in
        add_sample_loop fuel' index restriction line_length line_length_double
          sample_distance (last_support - sample_distance)
          (result ++ [SupportOutlineIslandPoint index ratio restriction thick_part_outline])
      else Some (last_support, result)
  end.

(** The lambda [add_sample(index, restriction, last_support)];
    [last_support] is an in/out parameter. *)
Definition add_sample `{Collaborators} (fuel : nat) (sample_distance : Z)
  (index : nat) (restriction : Restriction) (last_support : Z)
  (result : SupportIslandPoints) : option (Z * SupportIslandPoints) :=
  let line_length_double := nth index (r_lengths restriction) 0%Q in
  let line_length := round_coord line_length_double in
  match add_sample_loop fuel index restriction line_length line_length_double
          sample_distance last_support result with
  | None => None
  | Some (last_support, result) => Some (last_support + line_length, result)
  end.

(** [for (index = 0; index < lines.size(); ++index) add_sample(...)],
    entered at [index] with [count] lines to go. *)
Fixpoint add_samples `{Collaborators} (fuel : nat) (sample_distance : Z)
  (restriction : Restriction) (index count : nat) (last_support : Z)
  (result : SupportIslandPoints) : option (Z * SupportIslandPoints) :=
  match count with
  | O => Some (last_support, result)
  | S count' =>
      match add_sample fuel sample_distance index restriction last_support result with
      | None => None
      | Some (last_support, result) =>
          add_samples fuel sample_distance restriction (S index) count'
            last_support result
      end
  end.

(** What [add_circle_sample] and [add_lines_samples] do alike once the
    lines of the run are known: lengths, restriction, the first support
    owed after half a spacing, then [add_sample] on every line. *)
Definition sample_line_sequence `{Collaborators} (fuel : nat) (config : SampleConfig)
  (circle : bool) (lines : Lines) (result : SupportIslandPoints)
  : option SupportIslandPoints :=
  let sample_distance := thick_outline_max_distance config in
  let lengths := map line_length lines in
  let sum_lengths := sum_lengths_of lengths in
  let restriction := mkRestriction lines lengths (max_align_distance config) circle in
  let last_support := Z.quot (Z.min (to_coord sum_lengths) sample_distance) 2 in
  match add_samples fuel sample_distance restriction 0 (length lines)
          last_support result with
  | None => None
  | Some (_, result) => Some result
  end.

Definition add_circle_sample `{Collaborators} (fuel : nat) (config : SampleConfig)
  (polygon : Polygon) (result : SupportIslandPoints) : option SupportIslandPoints :=
  sample_line_sequence fuel config true (polygon_to_lines polygon) result.

(** [add_lines_samples(inner_lines, first_index, last_index)]: the run may
    pass over the start of the ring. *)
Definition add_lines_samples `{Collaborators} (fuel : nat) (config : SampleConfig)
  (inner_lines : Lines) (first_index last_index : nat)
  (result : SupportIslandPoints) : option SupportIslandPoints :=
  let last_index := S last_index in
  let lines :=
    if (last_index <? first_index)%nat
    then skipn first_index inner_lines ++ firstn last_index inner_lines
    else skipn first_index (firstn last_index inner_lines) in
  sample_line_sequence fuel config false lines result.

(** First index of [polygon] that is not outline, [polygon.size()] when
    every index is. *)
Fixpoint first_change_index_from (is_outline : list bool)
  (index_offset polygon_index count : nat) : nat :=
  match count with
  | O => polygon_index
  | S count' =>
      if negb (nth (polygon_index + index_offset) is_outline false)
      then polygon_index
      else first_change_index_from is_outline index_offset (S polygon_index) count'
  end.

(** The [do ... while] of [sample_polygon]: [Some None] is the [return]
    of a polygon without an edge to support. *)
Fixpoint search_first_outline (fuel : nat) (is_outline : list bool)
  (index_offset size first_change_index polygon_index : nat) : option (option nat) :=
  match fuel with
  | O => None
  | S fuel' =>
      let polygon_index := S polygon_index in
      if (polygon_index =? size)%nat && (first_change_index =? 0)%nat then Some None
      else
        let polygon_index := if (polygon_index =? size)%nat then O else polygon_index in
        if nth (polygon_index + index_offset) is_outline false
        then Some (Some polygon_index)
        else search_first_outline fuel' is_outline index_offset size
               first_change_index polygon_index
  end.

Definition lookup_index (key : nat) (m : list (nat * nat)) : option nat :=
  match find (fun kv => (fst kv =? key)%nat) m with
  | Some kv => Some (snd kv)
  | None => None
  end.

(** The [for] loop of [sample_polygon] over the indices after the first
    change; [inner_invalid] marks an unset index.  The subtraction
    [second - index_offset] is taken on naturals. *)
Fixpoint sample_runs `{Collaborators} (fuel : nat) (config : SampleConfig)
  (field : Field) (inner_lines : Lines) (index_offset size stop_index : nat)
  (polygon_index inner_first inner_last : nat) (result : SupportIslandPoints)
  : option SupportIslandPoints :=
  let inner_invalid := length inner_lines in
  match fuel with
  | O => None
  | S fuel' =>
      if (polygon_index =? stop_index)%nat then
        if (inner_first =? inner_invalid)%nat then Some result
        else add_lines_samples fuel config inner_lines inner_first inner_last result
      else
        let polygon_index := if (polygon_index =? size)%nat then O else polygon_index in
        let index := (polygon_index + index_offset)%nat in
        if negb (nth index (is_outline field) false) then
          if (inner_first =? inner_invalid)%nat then
            sample_runs fuel' config field inner_lines index_offset size stop_index
              (S polygon_index) inner_first inner_last result
          else
            match add_lines_samples fuel config inner_lines inner_first inner_last result with
            | None => None
            | Some result =>
                sample_runs fuel' config field inner_lines index_offset size stop_index
                  (S polygon_index) inner_invalid inner_invalid result
            end
        else
          match lookup_index index (field_2_inner field) with
          | None =>
              sample_runs fuel' config field inner_lines index_offset size stop_index
                (S polygon_index) inner_first inner_last result
          | Some second =>
              let inner_last := (second - index_offset)%nat in
              let inner_first :=
                if (inner_first =? inner_invalid)%nat then inner_last else inner_first in
              sample_runs fuel' config field inner_lines index_offset size stop_index
                (S polygon_index) inner_first inner_last result
          end
  end.

(** The lambda [sample_polygon(polygon, inner_polygon, index_offset)]. *)
Definition sample_polygon `{Collaborators} (fuel : nat) (config : SampleConfig)
  (field : Field) (polygon inner_polygon : Polygon) (index_offset : nat)
  (result : SupportIslandPoints) : option SupportIslandPoints :=
  match inner_polygon with
  | [] => Some result
  | _ =>
      let size := length polygon in
      let first_change_index :=
        first_change_index_from (is_outline field) index_offset 0 size in
      if (first_change_index =? size)%nat then
        add_circle_sample fuel config inner_polygon result
      else
        let inner_lines := polygon_to_lines inner_polygon in
        let inner_invalid := length inner_lines in
        let stop_index := if (first_change_index =? 0)%nat then size else first_change_index in
        match search_first_outline fuel (is_outline field) index_offset size
                first_change_index first_change_index with
        | None => None
        | Some None => Some result
        | Some (Some polygon_index) =>
            sample_runs fuel config field inner_lines index_offset size stop_index
              polygon_index inner_invalid inner_invalid result
        end
  end.

Fixpoint sample_holes `{Collaborators} (fuel : nat) (config : SampleConfig)
  (field : Field) (border_holes inner_holes : list Polygon) (index_offset : nat)
  (result : SupportIslandPoints) : option SupportIslandPoints :=
  match border_holes, inner_holes with
  | hole :: border_holes', inner_hole :: inner_holes' =>
      match sample_polygon fuel config field hole inner_hole index_offset result with
      | None => None
      | Some result =>
          sample_holes fuel config field border_holes' inner_holes'
            (index_offset + length hole)%nat result
      end
  | _, _ => Some result
  end.

(** [sample_outline(field, config)]. *)
Definition sample_outline `{Collaborators} (fuel : nat) (field : Field)
  (config : SampleConfig) : option SupportIslandPoints :=
  if (length (contour (inner field)) <? 3)%nat then Some []
  else
    match sample_polygon fuel config field (contour (border field))
            (contour (inner field)) 0 [] with
    | None => None
    | Some result =>
        if negb (length (holes (border field)) =? length (holes (inner field)))%nat
        then Some result
        else sample_holes fuel config field (holes (border field))
               (holes (inner field)) (length (contour (border field))) result
    end.

(** [outline_offset(island, offset_delta)]. *)
Definition outline_offset `{Collaborators} (island : ExPolygon) (offset_delta : Q)
  : ExPolygon * list (nat * nat) :=
  match offset island (- offset_delta)%Q with
  | [] => (empty_expolygon, [])
  | front :: rest =>
      let offseted := mkExPolygon front rest in
      (offseted, match_offset_lines (to_lines island) (to_lines offseted) offset_delta)
  end.

(* ===================================================================== *)
(** * Segmentation into thin, middle and thick parts *)
(* ===================================================================== *)

Inductive IslandPartType : Type := thin | middle | thick.

Definition IslandPartType_eqb (a b : IslandPartType) : bool :=
  match a, b with
  | thin, thin | middle, middle | thick, thick => true
  | _, _ => false
  end.

(** Transition into a neighbor part. *)
Record IslandPartChange : Type := mkChange {
  change_position : Position;
  part_index : nat
}.

Record IslandPart : Type := mkIslandPart {
  part_type : IslandPartType;
  changes : list IslandPartChange;
  sum_lengths : Z
}.

Definition IslandParts : Type := list IslandPart.

(** In-place update of [island_parts[i]]. *)
Fixpoint modify_nth {A : Type} (i : nat) (f : A -> A) (l : list A) : list A :=
  match l, i with
  | [], _ => []
  | x :: l', O => f x :: l'
  | x :: l', S i' => x :: modify_nth i' f l'
  end.

Definition set_part_type (t : IslandPartType) (p : IslandPart) : IslandPart :=
  mkIslandPart t (changes p) (sum_lengths p).

(** [add_part]: the island parts after the call and the returned index. *)
Definition add_part `{Collaborators} (g : VoronoiGraph) (island_parts : IslandParts)
  (part_index : nat) (to_type : IslandPartType) (neighbor : Neighbor)
  (limit : Z) (lines : Lines) (config : SampleConfig)
  : option (IslandParts * nat) :=
  let position := get_position_with_width neighbor limit lines in
  (* Do not create part, when it is too close to island contour *)
  if ends_in_distanace position (min_part_length config) then
    Some (island_parts, part_index)
  else
    let new_part_index := length island_parts in
    match get_twin g neighbor with
    | None => None
    | Some twin =>
        let twin_position := mkPosition twin (1 - pos_ratio position)%Q in
        if (new_part_index =? 1)%nat &&
           ends_in_distanace twin_position (min_part_length config) then
          (* First island is too close to border to create new island part *)
          Some (modify_nth 0 (set_part_type to_type) island_parts, part_index)
        else
          let island_parts :=
            modify_nth part_index
              (fun p => mkIslandPart (part_type p)
                          (changes p ++ [mkChange position new_part_index])
                          (sum_lengths p + calc_distance position))
              island_parts in
          let sum_lengths := calc_distance twin_position in
          let changes := [mkChange twin_position part_index] in
          Some (island_parts ++ [mkIslandPart to_type changes sum_lengths],
                new_part_index)
    end.

(** The last statements of [detect_interface], without a new interface. *)
Definition same_part (island_parts : IslandParts) (part_index : nat)
  (neighbor : Neighbor) : option (IslandParts * nat) :=
  Some (modify_nth part_index
          (fun p => mkIslandPart (part_type p) (changes p)
                      (sum_lengths p + to_coord (n_length neighbor)))
          island_parts,
        part_index).

(** [detect_interface]: the island parts after the call and the next part
    index. *)
Definition detect_interface `{Collaborators} (g : VoronoiGraph)
  (island_parts : IslandParts) (part_index : nat) (neighbor : Neighbor)
  (lines : Lines) (config : SampleConfig) : option (IslandParts * nat) :=
  let min := thick_min_width config in
  let max := thin_max_width config in
  match nth_error island_parts part_index with
  | None => None
  | Some part =>
      match part_type part with
      | thin =>
          if n_max_width neighbor <? min then same_part island_parts part_index neighbor
          else
            match add_part g island_parts part_index middle neighbor min lines config with
            | None => None
            | Some (island_parts, next_part_index) =>
                if n_max_width neighbor <? max then Some (island_parts, next_part_index)
                else add_part g island_parts next_part_index thick neighbor max lines config
            end
      | middle =>
          if n_min_width neighbor <? min then
            add_part g island_parts part_index thin neighbor min lines config
          else if max <? n_max_width neighbor then
            add_part g island_parts part_index thick neighbor max lines config
          else same_part island_parts part_index neighbor
      | thick =>
          if max <? n_max_width neighbor then same_part island_parts part_index neighbor
          else
            match add_part g island_parts part_index middle neighbor max lines config with
            | None => None
            | Some (island_parts, next_part_index) =>
                if min <? n_min_width neighbor then Some (island_parts, next_part_index)
                else add_part g island_parts next_part_index thin neighbor min lines config
            end
      end
  end.

Fixpoint erase_nth {A : Type} (i : nat) (l : list A) : list A :=
  match l, i with
  | [], _ => []
  | _ :: l', O => l'
  | x :: l', S i' => x :: erase_nth i' l'
  end.

Definition points_to (i : nat) (change : IslandPartChange) : bool :=
  (part_index change =? i)%nat.

(** The last loop of [merge_island_parts]: indices after the erased
    part. *)
Definition fix_index (index remove_index : nat) (change : IslandPartChange)
  : IslandPartChange :=
  if (part_index change =? remove_index)%nat
  then mkChange (change_position change) index
  else if (remove_index <? part_index change)%nat
  then mkChange (change_position change) (part_index change - 1)
  else change.

(** [merge_island_parts(island_parts, index, remove_index)]; the source
    asserts [index < remove_index].  An index out of range, or the part
    merged with itself, has no result. *)
Definition merge_island_parts (island_parts : IslandParts) (index remove_index : nat)
  : option IslandParts :=
  if (index =? remove_index)%nat then None
  else
    match nth_error island_parts index, nth_error island_parts remove_index with
    | Some part, Some remove_part =>
        (* changes of the removed part, without those back to merged part *)
        let remove_changes :=
          filter (fun c => negb (points_to index c)) (changes remove_part) in
        (* changes of the merged part, without those into removed part *)
        let kept :=
          filter (fun c => negb (points_to remove_index c)) (changes part) in
        let island_parts :=
          modify_nth index
            (fun p => mkIslandPart (part_type p) (kept ++ remove_changes) (sum_lengths p))
            island_parts in
        let island_parts := erase_nth remove_index island_parts in
        Some (map (fun p => mkIslandPart (part_type p)
                              (map (fix_index index remove_index) (changes p))
                              (sum_lengths p))
                  island_parts)
    | _, _ => None
    end.

Definition part_sum_lengths (island_parts : IslandParts) (i : nat) : Z :=
  match nth_error island_parts i with
  | Some p => sum_lengths p
  | None => 0
  end.

(** [std::max_element(first, last, comp)]: the running largest element is
    replaced only by a strictly greater one. *)
Fixpoint max_element_from {A : Type} (comp : A -> A -> bool) (largest : A)
  (rest : list A) : A :=
  match rest with
  | [] => largest
  | x :: rest' =>
      if comp largest x then max_element_from comp x rest'
      else max_element_from comp largest rest'
  end.

Definition max_element {A : Type} (comp : A -> A -> bool) (l : list A) : option A :=
  match l with
  | [] => None
  | first :: rest => Some (max_element_from comp first rest)
  end.

(** The comparison of [merge_middle_parts_into_biggest_neighbor]. *)
Definition less_sum_lengths (island_parts : IslandParts) (a b : IslandPartChange) : bool :=
  part_sum_lengths island_parts (part_index a) <?
  part_sum_lengths island_parts (part_index b).

(** Body of the [for] loop of [merge_middle_parts_into_biggest_neighbor]
    at a middle part with a change: the island parts after the merge; the
    loop then looks at the same [index] again. *)
Definition merge_middle_part (island_parts : IslandParts) (index : nat)
  (max_change : IslandPartChange) : option IslandParts :=
  match nth_error island_parts (part_index max_change) with
  | None => None
  | Some neighbor_part =>
      (* set island type by merged one (Thin OR Thick) *)
      let island_parts :=
        modify_nth index (set_part_type (part_type neighbor_part)) island_parts in
      let merged_index := index in
      let remove_index := part_index max_change in
      if (remove_index <? merged_index)%nat
      then merge_island_parts island_parts remove_index merged_index
      else merge_island_parts island_parts merged_index remove_index
  end.

Fixpoint merge_middle_parts_loop (fuel : nat) (island_parts : IslandParts)
  (index : nat) : option IslandParts :=
  match fuel with
  | O => None
  | S fuel' =>
      match nth_error island_parts index with
      | None => Some island_parts          (* index >= island_parts.size() *)
      | Some island_part =>
          match part_type island_part with
          | middle =>
              match max_element (less_sum_lengths island_parts) (changes island_part) with
              | None => merge_middle_parts_loop fuel' island_parts (S index)
              | Some max_change =>
                  match merge_middle_part island_parts index max_change with
                  | None => None
                  | Some island_parts =>
                      merge_middle_parts_loop fuel' island_parts index
                  end
              end
          | _ => merge_middle_parts_loop fuel' island_parts (S index)
          end
      end
  end.

(** [merge_middle_parts_into_biggest_neighbor(island_parts)]. *)
Definition merge_middle_parts_into_biggest_neighbor (fuel : nat)
  (island_parts : IslandParts) : option IslandParts :=
  merge_middle_parts_loop fuel island_parts 0.

(* ===================================================================== *)
(** * Thick part sampling and the entry points *)
(* ===================================================================== *)

(** [create_supports_for_thick_part(part, results, lines, config)]. *)
Definition create_supports_for_thick_part `{Collaborators} (fuel : nat)
  (part : ThickPart) (results : SupportIslandPoints) (lines : Lines)
  (config : SampleConfig) : option SupportIslandPoints :=
  let '(field_border, field_is_outline, field_inner, field_map) :=
    create_thick_field part lines config in
  let field := mkField field_border field_is_outline field_inner field_map in
  if expolygon_empty (inner field) then Some results
  else
    match sample_outline fuel field config with
    | None => None
    | Some outline_support =>
        let inner_points :=
          sample_expolygon_with_centering (inner field) (thick_inner_max_distance config) in
        Some (results ++ outline_support ++
              map (fun p => SupportIslandInnerPoint p (inner field) thick_part_inner)
                  inner_points)
    end.

Fixpoint sample_thin_parts `{Collaborators} (fuel : nat) (g : VoronoiGraph)
  (parts : list ThinPart) (supports : SupportIslandPoints) (config : SampleConfig)
  : option SupportIslandPoints :=
  match parts with
  | [] => Some supports
  | part :: parts' =>
      match create_supports_for_thin_part fuel g part supports config with
      | None => None
      | Some supports => sample_thin_parts fuel g parts' supports config
      end
  end.

Fixpoint sample_thick_parts `{Collaborators} (fuel : nat)
  (parts : list ThickPart) (supports : SupportIslandPoints) (lines : Lines)
  (config : SampleConfig) : option SupportIslandPoints :=
  match parts with
  | [] => Some supports
  | part :: parts' =>
      match create_supports_for_thick_part fuel part supports lines config with
      | None => None
      | Some supports => sample_thick_parts fuel parts' supports lines config
      end
  end.

Definition Qlt_bool (a b : Q) : bool := negb (Qle_bool b a).

(** [uniform_support_island] after the bounding-box test failed: skeleton,
    longest path and the cases 1), 2) and 4) of the source.  A null
    pointer pushed into the result has no result here. *)
Definition support_by_skeleton `{Collaborators} (fuel : nat)
  (island simplified_island : ExPolygon) (config : SampleConfig)
  : option SupportIslandPoints :=
  let lines := to_lines simplified_island in
  let '(skeleton, longest_path) := create_longest_path lines in
  (* 1) One support point *)
  if Qlt_bool (path_length longest_path)
       (inject_Z (max_length_for_one_support_point config)) then
    match create_middle_path_point longest_path one_center_point with
    | None => None
    | Some p => Some [p]
    end
  (* 2) Two support points have to stretch island *)
  else if (get_max_width longest_path <? thin_max_width config) &&
          Qlt_bool (path_length longest_path)
            (inject_Z (max_length_for_two_support_points config)) then
    create_side_points longest_path lines config two_points
  (* 4) Divide island on Thin & Thick part and support by parts *)
  else
    let '(thin_parts, thick_parts) :=
      separate_thin_thick skeleton longest_path lines config in
    match sample_thin_parts fuel skeleton thin_parts [] config with
    | None => None
    | Some supports =>
        match sample_thick_parts fuel thick_parts supports lines config with
        | None => None
        | Some supports =>
            if (length supports <=? 2)%nat then
              create_side_points longest_path lines config two_points_backup
            else
              match align_samples fuel fuel supports island config with
              | None => None
              | Some (supports, _) => Some supports
              end
        end
    end.

(** [uniform_support_island(island, config)]. *)
Definition uniform_support_island `{Collaborators} (fuel : nat)
  (island : ExPolygon) (config : SampleConfig) : option SupportIslandPoints :=
  let simplified_island := get_simplified island config in
  (* 0) When island is smaller than minimal-head diameter,
        it will be supported whole by support point in center *)
  match get_center (contour simplified_island) (head_radius config) with
  | Some center => Some [SupportIslandNoMovePoint center one_bb_center_point]
  | None => support_by_skeleton fuel island simplified_island config
  end.

Record Peninsula : Type := mkPeninsula {
  unsuported_area : ExPolygon;
  peninsula_is_outline : list bool
}.

(** [uniform_support_peninsula(peninsula, config)]; the source asserts
    [!field.inner.empty()] before it tests the same condition. *)
Definition uniform_support_peninsula `{Collaborators} (fuel : nat)
  (peninsula : Peninsula) (config : SampleConfig) : option SupportIslandPoints :=
  let '(field_inner, field_map) :=
    outline_offset (unsuported_area peninsula)
      (inject_Z (minimal_distance_from_outline config)) in
  let field :=
    mkField (unsuported_area peninsula) (peninsula_is_outline peninsula)
      field_inner field_map in
  if expolygon_empty (inner field) then Some []   (* no inner part *)
  else
    match sample_outline fuel field config with
    | None => None
    | Some results =>
        let inner_points :=
          sample_expolygon_with_centering (inner field) (thick_inner_max_distance config) in
        let results :=
          results ++
          map (fun p => SupportIslandInnerPoint p (inner field) thick_part_inner)
              inner_points in
        match align_samples fuel fuel results (unsuported_area peninsula) config with
        | None => None
        | Some (results, _) => Some results
        end
    end.

(* ===================================================================== *)
(** * Notions of the specification *)
(* ===================================================================== *)

(** Extreme coordinates of a point list: the axis-aligned bounding box. *)
Definition coord_min (f : Point -> Z) (points : Points) : Z :=
  match points with
  | [] => 0
  | first :: rest => fold_left Z.min (map f rest) (f first)
  end.

Definition coord_max (f : Point -> Z) (points : Points) : Z :=
  match points with
  | [] => 0
  | first :: rest => fold_left Z.max (map f rest) (f first)
  end.

Definition bbox_width (points : Points) : Z := coord_max px points - coord_min px points.
Definition bbox_height (points : Points) : Z := coord_max py points - coord_min py points.

(** A box fits within a disk of radius [r] when its diagonal is at most
    the diameter. *)
Definition bbox_fits_in_disk (points : Points) (r : Z) : bool :=
  bbox_width points * bbox_width points + bbox_height points * bbox_height points
  <=? (2 * r) * (2 * r).

(** The centroid of the box, when its coordinates are integers. *)
Definition is_bbox_centroid (points : Points) (c : Point) : Prop :=
  2 * px c = coord_min px points + coord_max px points /\
  2 * py c = coord_min py points + coord_max py points.

(** The edges of a closed polygon. *)
Definition polygon_edges (polygon : Polygon) : list (Point * Point) :=
  match polygon with
  | [] => []
  | first :: rest => combine polygon (rest ++ [first])
  end.

Definition cross (a b p : Point) : Z :=
  (px b - px a) * (py p - py a) - (py b - py a) * (px p - px a).

Definition on_edge (p : Point) (e : Point * Point) : bool :=
  let (a, b) := e in
  (cross a b p =? 0) &&
  (Z.min (px a) (px b) <=? px p) && (px p <=? Z.max (px a) (px b)) &&
  (Z.min (py a) (py b) <=? py p) && (py p <=? Z.max (py a) (py b)).

(** Does the horizontal ray from [p] to the right cross the edge? *)
Definition ray_crosses (p : Point) (e : Point * Point) : bool :=
  let (a, b) := e in
  let dy := py b - py a in
  let lhs := (px p - px a) * dy in
  let rhs := (px b - px a) * (py p - py a) in
  xorb (py p <? py a) (py p <? py b) &&
  (if 0 <? dy then lhs <? rhs else rhs <? lhs).

Definition on_boundary (polygon : Polygon) (p : Point) : bool :=
  existsb (on_edge p) (polygon_edges polygon).

Definition inside_polygon (polygon : Polygon) (p : Point) : bool :=
  Nat.odd (length (filter (ray_crosses p) (polygon_edges polygon))).

(** Modelled from the spec: [ExPolygon::contains], which is declared
    outside the embedded file.  An ExPolygon is a contour plus holes that
    lie inside it; a point is contained when it is inside or on the
    contour and not strictly inside a hole. *)
Definition expolygon_contains (e : ExPolygon) (p : Point) : bool :=
  (on_boundary (contour e) p || inside_polygon (contour e) p) &&
  forallb (fun hole => on_boundary hole p || negb (inside_polygon hole p)) (holes e).

(** Pairwise distinct positions. *)
Definition distinct_positions (supports : SupportIslandPoints) : Prop :=
  NoDup (to_points supports).

(* ===================================================================== *)
(** * Concrete collaborators for examples *)
(* ===================================================================== *)

(** Collaborators that leave an island unsimplified, put every width
    crossing at the middle of its edge, never find a transition close to
    the contour, map a position on an edge to the point
    (id of the neighbor, distance from its source), and let a movable
    point reach its destination. *)
Definition plain_collaborators : Collaborators := {|
  simplify := fun island _ => [island];
  to_lines := fun _ => [];
  create_longest_path := fun _ => ([], mkPath [] 0);
  get_max_width := fun _ => 0;
  get_position_with_width := fun neighbor _ _ => mkPosition neighbor (1 # 2);
  ends_in_distanace := fun _ _ => false;
  create_edge_point := fun position =>
    mkPoint (Z.of_nat (n_id (pos_neighbor position))) (calc_distance position);
  calc_outline_point := fun _ index ratio =>
    mkPoint (Z.of_nat index) (Qnum ratio);
  move_restricted := fun m current destination =>
    (m, destination,
     Z.abs (px destination - px current) + Z.abs (py destination - py current));
  separate_thin_thick := fun _ _ _ _ => ([], []);
  create_thick_field := fun _ _ _ => (empty_expolygon, [], empty_expolygon, []);
  sample_expolygon_with_centering := fun _ _ => [];
  offset := fun _ _ => [];
  match_offset_lines := fun _ _ _ => [];
  create_voronoi_cells_cgal := fun points _ => map (fun _ => []) points;
  intersection := fun _ _ => [];
  polygon_contains := fun _ _ => false;
  centroid := fun _ => origin;
  line_length := fun l =>
    inject_Z (Z.abs (px (line_b l) - px (line_a l)) + Z.abs (py (line_b l) - py (line_a l)))
|}.

(** Configuration used by the examples: 0.4 mm head, spacings of a few
    millimetres, all lengths in nanometres. *)
Definition example_config : SampleConfig := {|
  head_radius := 400000;
  simplification_tolerance := 50000;
  thin_max_width := 2000000;
  thick_min_width := 1500000;
  thin_max_distance := 5000000;
  thick_outline_max_distance := 6000000;
  thick_inner_max_distance := 5000000;
  minimal_distance_from_outline := 400000;
  maximal_distance_from_outline := 2000000;
  max_align_distance := 1000000;
  min_part_length := 1000000;
  count_iteration := 100;
  minimal_move := 1000;
  max_length_for_one_support_point := 1000000;
  max_length_for_two_support_points := 3000000;
  max_length_ratio_for_two_support_points := 1 # 4
|}.

(** An L-shaped island, 0.3 mm by 0.3 mm, with arms 0.1 mm thick. *)
Definition l_shaped_island : ExPolygon :=
  mkExPolygon
    [mkPoint 0 0; mkPoint 300000 0; mkPoint 300000 100000;
     mkPoint 100000 100000; mkPoint 100000 300000; mkPoint 0 300000] [].

(** A rectangle 0.7 mm by 0.2 mm and a triangle, 0.3 mm wide, with odd
    coordinates. *)
Definition flat_rectangle : ExPolygon :=
  mkExPolygon [mkPoint 0 0; mkPoint 700000 0; mkPoint 700000 200000; mkPoint 0 200000] [].

Definition odd_triangle : ExPolygon :=
  mkExPolygon [mkPoint 1 1; mkPoint 300003 1; mkPoint 1 300003] [].

(** A configuration without iteration budget and without a minimal move. *)
Definition zero_iteration_config : SampleConfig := {|
  head_radius := 400000;
  simplification_tolerance := 50000;
  thin_max_width := 2000000;
  thick_min_width := 1500000;
  thin_max_distance := 5000000;
  thick_outline_max_distance := 6000000;
  thick_inner_max_distance := 5000000;
  minimal_distance_from_outline := 400000;
  maximal_distance_from_outline := 2000000;
  max_align_distance := 1000000;
  min_part_length := 1000000;
  count_iteration := 0;
  minimal_move := 0;
  max_length_for_one_support_point := 1000000;
  max_length_for_two_support_points := 3000000;
  max_length_ratio_for_two_support_points := 1 # 4
|}.

(** Three movable points in a square inset. *)
Definition square_inset : ExPolygon :=
  mkExPolygon [mkPoint 0 0; mkPoint 9000000 0; mkPoint 9000000 9000000; mkPoint 0 9000000] [].

Definition three_inner_points : SupportIslandPoints :=
  [SupportIslandInnerPoint (mkPoint 2000000 2000000) square_inset thick_part_inner;
   SupportIslandInnerPoint (mkPoint 7000000 2000000) square_inset thick_part_inner;
   SupportIslandInnerPoint (mkPoint 4000000 7000000) square_inset thick_part_inner].

(** A sweep in which no point moves. *)
Definition still_sweep (s : SupportIslandPoints) : option (SupportIslandPoints * Z) :=
  Some (s, 0).

(** After a sweep: a movable point that moved from (0,0) onto the position
    of a point that cannot move. *)
Definition collided_supports : SupportIslandPoints :=
  [SupportIslandInnerPoint (mkPoint 4000000 2000000) square_inset thick_part_inner;
   SupportIslandNoMovePoint (mkPoint 4000000 2000000) thin_part].

Definition collided_prev_position : Points :=
  [mkPoint 0 0; mkPoint 4000000 2000000].

(** The neighbors walked by [create_position_on_path] along a node
    sequence, when every node is a neighbor of the one before. *)
Fixpoint path_neighbors (prev_node : Node) (path : list Node) : option (list Neighbor) :=
  match path with
  | [] => Some []
  | node :: path' =>
      match get_neighbor prev_node node, path_neighbors node path' with
      | Some neighbor, Some rest => Some (neighbor :: rest)
      | _, _ => None
      end
  end.

Definition edges_of_path (path : list Node) : option (list Neighbor) :=
  match path with
  | [] => None
  | first :: path' => path_neighbors first path'
  end.

(** Length of a neighbor as the loop adds it up, and the distance from the
    start of the path to the start of its [k]-th neighbor. *)
Definition coord_length (e : Neighbor) : Z := to_coord (n_length e).

Definition distance_before (edges : list Neighbor) (k : nat) : Z :=
  fold_right Z.add 0 (map coord_length (firstn k edges)).

(** The wanted width is met on neighbor [e], which starts at distance
    [start], before the cap. *)
Definition width_reached `{Collaborators} (lines : Lines) (width cap start : Z)
  (e : Neighbor) : bool :=
  (width <=? n_max_width e) &&
  (start + calc_distance (get_position_with_width e width lines) <? cap).

(** [position], at distance [d] from the start of the path, is the first
    position where the width is met before the cap, or else the position
    at the cap: no earlier neighbor meets the width before the cap or
    reaches the cap, and on its own neighbor the position is the one with
    the wanted width, or, when there is none before the cap, the one at
    distance [cap]. *)
Definition first_width_or_cap `{Collaborators} (lines : Lines) (width cap : Z)
  (edges : list Neighbor) (position : Position) (d : Z) : Prop :=
  exists (k : nat) (e : Neighbor),
    nth_error edges k = Some e /\
    (forall (j : nat) (ej : Neighbor),
        (j < k)%nat -> nth_error edges j = Some ej ->
        width_reached lines width cap (distance_before edges j) ej = false /\
        distance_before edges (S j) < cap) /\
    ((width_reached lines width cap (distance_before edges k) e = true /\
      position = get_position_with_width e width lines /\
      d = distance_before edges k + calc_distance position /\
      d < cap)
     \/
     (width_reached lines width cap (distance_before edges k) e = false /\
      cap <= distance_before edges (S k) /\
      position =
        mkPosition e (1 - inject_Z (distance_before edges (S k) - cap) / n_length e)%Q /\
      d = cap)).

(** A skeleton of three nodes in a row, 1 mm between neighbours, the
    widest place 1 mm wide. *)
Definition row_01 : Neighbor := mkNeighbor 0 1 1 1000000 0 1000000.
Definition row_10 : Neighbor := mkNeighbor 1 0 0 1000000 0 1000000.
Definition row_12 : Neighbor := mkNeighbor 2 2 3 1000000 0 1000000.
Definition row_21 : Neighbor := mkNeighbor 3 1 2 1000000 0 1000000.

Definition row_node0 : Node := mkNode 0 [row_01].
Definition row_node1 : Node := mkNode 1 [row_10; row_12].
Definition row_node2 : Node := mkNode 2 [row_21].

Definition row_graph : VoronoiGraph := [row_node0; row_node1; row_node2].

Definition row_path : Path := mkPath [row_node0; row_node1; row_node2] 2000000.

(** Collaborators as [plain_collaborators], with the row as skeleton and
    longest path of every island. *)
Definition row_collaborators : Collaborators := {|
  simplify := fun island _ => [island];
  to_lines := fun _ => [];
  create_longest_path := fun _ => (row_graph, row_path);
  get_max_width := fun _ => 1000000;
  get_position_with_width := fun neighbor _ _ => mkPosition neighbor (1 # 2);
  ends_in_distanace := fun _ _ => false;
  create_edge_point := fun position =>
    mkPoint (Z.of_nat (n_id (pos_neighbor position))) (calc_distance position);
  calc_outline_point := fun _ index ratio =>
    mkPoint (Z.of_nat index) (Qnum ratio);
  move_restricted := fun m current destination =>
    (m, destination,
     Z.abs (px destination - px current) + Z.abs (py destination - py current));
  separate_thin_thick := fun _ _ _ _ => ([], []);
  create_thick_field := fun _ _ _ => (empty_expolygon, [], empty_expolygon, []);
  sample_expolygon_with_centering := fun _ _ => [];
  offset := fun _ _ => [];
  match_offset_lines := fun _ _ _ => [];
  create_voronoi_cells_cgal := fun points _ => map (fun _ => []) points;
  intersection := fun _ _ => [];
  polygon_contains := fun _ _ => false;
  centroid := fun _ => origin;
  line_length := fun l =>
    inject_Z (Z.abs (px (line_b l) - px (line_a l)) + Z.abs (py (line_b l) - py (line_a l)))
|}.

(** A skeleton edge whose width runs between 1 mm and 1.8 mm, and its
    twin. *)
Definition taper_01 : Neighbor := mkNeighbor 0 1 1 1000000 1000000 1800000.
Definition taper_10 : Neighbor := mkNeighbor 1 0 0 1000000 1000000 1800000.

Definition taper_graph : VoronoiGraph :=
  [mkNode 0 [taper_01]; mkNode 1 [taper_10]].

(** Island parts met so far: a thin part and the middle part entered from
    it. *)
Definition thin_then_middle : IslandParts :=
  [mkIslandPart thin [mkChange (mkPosition row_01 (1 # 2)) 1] 500000;
   mkIslandPart middle [mkChange (mkPosition row_10 (1 # 2)) 0] 500000].

(** A peninsula: a square of 0.5 mm, every line of it outline. *)
Definition small_peninsula : Peninsula :=
  mkPeninsula
    (mkExPolygon [mkPoint 0 0; mkPoint 500000 0; mkPoint 500000 500000; mkPoint 0 500000] [])
    [true; true; true; true].

(** A middle part between a thin part (index 0) and a thick part
    (index 2) of equal [sum_lengths]; the change into the thick part comes
    first in the middle part's list. *)
Definition tied_parts : IslandParts :=
  [mkIslandPart thin [mkChange (mkPosition row_01 (1 # 2)) 1] 700000;
   mkIslandPart middle
     [mkChange (mkPosition row_12 (1 # 2)) 2; mkChange (mkPosition row_10 (1 # 2)) 0]
     300000;
   mkIslandPart thick [mkChange (mkPosition row_21 (1 # 2)) 1] 700000].

(** A thin part that is a ring of three skeleton edges, 50 mm, 50 mm and
    51.5 mm long, with its centre 26 mm along the first edge. *)
Definition ring_ab : Neighbor := mkNeighbor 0 1 1 50000000 1000000 1000000.
Definition ring_ba : Neighbor := mkNeighbor 1 0 0 50000000 1000000 1000000.
Definition ring_bc : Neighbor := mkNeighbor 2 2 3 50000000 1000000 1000000.
Definition ring_cb : Neighbor := mkNeighbor 3 1 2 50000000 1000000 1000000.
Definition ring_ca : Neighbor := mkNeighbor 4 0 5 51500000 1000000 1000000.
Definition ring_ac : Neighbor := mkNeighbor 5 2 4 51500000 1000000 1000000.

Definition ring_graph : VoronoiGraph :=
  [mkNode 0 [ring_ab; ring_ac]; mkNode 1 [ring_ba; ring_bc]; mkNode 2 [ring_cb; ring_ca]].

Definition ring_part : ThinPart := mkThinPart (mkPosition ring_ab (26 # 50)) [].

(** The cursor back on the first edge of the ring, 2 mm before its next
    support, with the twin of the edge still in the process queue. *)
Definition ring_state : ThinState :=
  mkThinState 2000000 (Some ring_ab) [mkSupportIn 26500000 ring_ba] false [].

(** Arc lengths [first], [first + spacing], ... below [total]. *)
Definition sample_count (spacing first total : Z) : nat :=
  if first <? total then Z.to_nat ((total - first - 1) / spacing + 1) else 0%nat.

Definition arc_samples (spacing first total : Z) : list Z :=
  map (fun k => first + Z.of_nat k * spacing) (seq 0 (sample_count spacing first total)).

(** The line that holds the arc length [arc], counted from the start of
    the line with index [index], by the rounded lengths of the lines, and
    the rest of the arc length on that line. *)
Fixpoint locate_arc (rounded : list Z) (index : nat) (arc : Z) : nat * Z :=
  match rounded with
  | [] => (index, arc)
  | l :: rest => if arc <? l then (index, arc) else locate_arc rest (S index) (arc - l)
  end.

(** The outline point at arc length [arc] of a line sequence. *)
Definition outline_point_at `{Collaborators} (restriction : Restriction)
  (rounded : list Z) (index : nat) (arc : Z) : SupportIslandPoint :=
  let (i, rest) := locate_arc rounded index arc in
  SupportOutlineIslandPoint i (sample_ratio rest (nth i (r_lengths restriction) 0%Q))
    restriction thick_part_outline.

Definition sum_Z (l : list Z) : Z := fold_right Z.add 0 l.

(** Island parts are well linked when every change names another part
    that exists. *)
Definition well_linked (island_parts : IslandParts) : Prop :=
  forall (i : nat) (part : IslandPart) (c : IslandPartChange),
    nth_error island_parts i = Some part -> In c (changes part) ->
    (part_index c < length island_parts)%nat /\ part_index c <> i.

(** What the segmentation reads of a part besides its length: its type
    and its changes. *)
Definition part_links (part : IslandPart) : IslandPartType * list IslandPartChange :=
  (part_type part, changes part).

(** Outcomes of [detect_interface] at a neighbor, from the island parts
    and the current index [before] to those [after].

    The walk goes on in its part: the index stays, no part is added and
    every part keeps its type and its changes. *)
Definition goes_on (before after : IslandParts * nat) : Prop :=
  snd after = snd before /\
  map part_links (fst after) = map part_links (fst before).

(** A part of [to_type] is appended and becomes the current part: it has
    the next free index and one change, back into the part that was
    current, at [twin_position]; the part that was current keeps its type
    and gets one more change, into the new part at [position]; every
    other part keeps its type and its changes. *)
Definition appended (to_type : IslandPartType) (position twin_position : Position)
  (before after : IslandParts * nat) : Prop :=
  let from := snd before in
  let next := snd after in
  next = length (fst before) /\
  length (fst after) = S (length (fst before)) /\
  option_map part_links (nth_error (fst after) next) =
    Some (to_type, [mkChange twin_position from]) /\
  (forall part : IslandPart,
     nth_error (fst before) from = Some part ->
     option_map part_links (nth_error (fst after) from) =
       Some (part_type part, changes part ++ [mkChange position next])) /\
  (forall i : nat,
     i <> from -> (i < length (fst before))%nat ->
     option_map part_links (nth_error (fst after) i) =
     option_map part_links (nth_error (fst before) i)).

(** The first part, alone so far, takes [to_type]; the index stays. *)
Definition retyped (to_type : IslandPartType) (before after : IslandParts * nat) : Prop :=
  snd after = snd before /\
  exists part : IslandPart,
    fst before = [part] /\
    fst after = [mkIslandPart to_type (changes part) (sum_lengths part)].

(** One transition into a part of [to_type] where the width of [neighbor]
    passes [limit]:
    - suppressed, nothing changes, when the position of the transition
      ends within [min_part_length];
    - otherwise, with the position on the twin at the opposite ratio (a
      double in the source), the first part takes [to_type] when it is the
      only part and the twin position ends within [min_part_length];
    - otherwise a part of [to_type] is appended. *)
Definition crossing `{Collaborators} (twin neighbor : Neighbor) (lines : Lines)
  (config : SampleConfig) (to_type : IslandPartType) (limit : Z)
  (before after : IslandParts * nat) : Prop :=
  let position := get_position_with_width neighbor limit lines in
  if ends_in_distanace position (min_part_length config) then after = before
  else
    exists twin_ratio : Q,
      let twin_position := mkPosition twin twin_ratio in
      if (length (fst before) =? 1)%nat &&
         ends_in_distanace twin_position (min_part_length config)
      then retyped to_type before after
      else appended to_type position twin_position before after.

(** Collaborators that find every transition to end close to the
    contour. *)
Definition near_collaborators : Collaborators := {|
  simplify := simplify (Collaborators := plain_collaborators);
  to_lines := to_lines (Collaborators := plain_collaborators);
  create_longest_path := create_longest_path (Collaborators := plain_collaborators);
  get_max_width := get_max_width (Collaborators := plain_collaborators);
  get_position_with_width := get_position_with_width (Collaborators := plain_collaborators);
  ends_in_distanace := fun _ _ => true;
  create_edge_point := create_edge_point (Collaborators := plain_collaborators);
  calc_outline_point := calc_outline_point (Collaborators := plain_collaborators);
  move_restricted := move_restricted (Collaborators := plain_collaborators);
  separate_thin_thick := separate_thin_thick (Collaborators := plain_collaborators);
  create_thick_field := create_thick_field (Collaborators := plain_collaborators);
  sample_expolygon_with_centering :=
    sample_expolygon_with_centering (Collaborators := plain_collaborators);
  offset := offset (Collaborators := plain_collaborators);
  match_offset_lines := match_offset_lines (Collaborators := plain_collaborators);
  create_voronoi_cells_cgal := create_voronoi_cells_cgal (Collaborators := plain_collaborators);
  intersection := intersection (Collaborators := plain_collaborators);
  polygon_contains := polygon_contains (Collaborators := plain_collaborators);
  centroid := centroid (Collaborators := plain_collaborators);
  line_length := line_length (Collaborators := plain_collaborators)
|}.

(* ===================================================================== *)
(** * Outline sampler: the runs of a ring and their points *)
(* ===================================================================== *)

(** Whether the line [i] of the ring whose lines start at [index_offset]
    in the field is outline. *)
Definition ring_outline (field : Field) (index_offset i : nat) : bool :=
  nth (i + index_offset) (is_outline field) false.

(** The first line of the ring that is not outline. *)
Definition first_change (field : Field) (index_offset size : nat) : option nat :=
  find (fun i => negb (ring_outline field index_offset i)) (seq 0 size).

(** The lines of the ring after the line [c], in the order of the ring:
    [c + 1], ..., [size - 1], [0], ..., [c - 1]. *)
Definition ring_after (size c : nat) : list nat :=
  seq (S c) (size - S c) ++ seq 0 c.

(** The maximal runs of consecutive outline lines among the lines
    [order]; [run] holds the lines of the run that is open. *)
Fixpoint outline_runs (flag : nat -> bool) (order run : list nat) : list (list nat) :=
  match order with
  | [] => match run with [] => [] | _ => [run] end
  | i :: order' =>
      if flag i then outline_runs flag order' (run ++ [i])
      else
        match run with
        | [] => outline_runs flag order' []
        | _ => run :: outline_runs flag order' []
        end
  end.

(** The lines of the inset that the lines of a run are mapped to by
    [field_2_inner], in the order of the run, counted within the ring of
    the inset. *)
Definition inner_of_run (field : Field) (index_offset : nat) (run : list nat) : list nat :=
  flat_map (fun i => match lookup_index (i + index_offset) (field_2_inner field) with
                     | Some second => [(second - index_offset)%nat]
                     | None => []
                     end)
           run.

(** The lines of the inset from the line [first] to the line [last]; over
    the end of the ring and its start when [last + 1 < first]; no line
    when [last + 1 = first]. *)
Definition inner_run_lines (inner_lines : Lines) (first last : nat) : Lines :=
  if (S last <? first)%nat
  then skipn first inner_lines ++ firstn (S last) inner_lines
  else skipn first (firstn (S last) inner_lines).

(** The lengths of the lines as the sampler counts them: rounded to
    whole numbers. *)
Definition rounded_lengths `{Collaborators} (lines : Lines) : list Z :=
  map round_coord (map line_length lines).

(** The length of a run as the sampler reads it: the sum of the lengths
    of its lines, cut to a whole number. *)
Definition run_length `{Collaborators} (lines : Lines) : Z :=
  to_coord (sum_lengths_of (map line_length lines)).

(** The arc length of the first point of a run: half a spacing from the
    start for a run of at least one spacing; for a shorter run, a spacing
    less half the length of the run. *)
Definition first_arc (spacing length : Z) : Z :=
  if spacing <=? length then spacing - Z.quot spacing 2
  else spacing - Z.quot length 2.

(** The points of a line sequence: at the arc lengths [first_arc],
    [first_arc + spacing], ... below the sum of the rounded lengths of the
    lines, each on the line that holds its arc length. *)
Definition sequence_samples `{Collaborators} (config : SampleConfig) (circle : bool)
  (lines : Lines) : SupportIslandPoints :=
  let spacing := thick_outline_max_distance config in
  let lengths := map line_length lines in
  let restriction := mkRestriction lines lengths (max_align_distance config) circle in
  map (outline_point_at restriction (rounded_lengths lines) 0)
      (arc_samples spacing (first_arc spacing (run_length lines))
         (sum_Z (rounded_lengths lines))).

(** The points of a run: none when no line of the run has a line of the
    inset; otherwise those of the lines of the inset from the first to the
    last one that a line of the run is mapped to. *)
Definition run_samples `{Collaborators} (config : SampleConfig) (field : Field)
  (inner_lines : Lines) (index_offset : nat) (run : list nat) : SupportIslandPoints :=
  match inner_of_run field index_offset run with
  | [] => []
  | first :: rest =>
      sequence_samples config false (inner_run_lines inner_lines first (last rest first))
  end.

(** The points of a ring: those of the whole ring of the inset, as one
    circle, when every line of the ring is outline; otherwise those of its
    maximal runs of outline lines, in the order of the ring from the first
    line that is not outline. *)
Definition polygon_samples `{Collaborators} (config : SampleConfig) (field : Field)
  (polygon inner_polygon : Polygon) (index_offset : nat) : SupportIslandPoints :=
  match inner_polygon with
  | [] => []
  | _ =>
      let size := length polygon in
      match first_change field index_offset size with
      | None => sequence_samples config true (polygon_to_lines inner_polygon)
      | Some c =>
          flat_map (run_samples config field (polygon_to_lines inner_polygon) index_offset)
                   (outline_runs (ring_outline field index_offset) (ring_after size c) [])
      end
  end.

Fixpoint holes_samples `{Collaborators} (config : SampleConfig) (field : Field)
  (border_holes inner_holes : list Polygon) (index_offset : nat) : SupportIslandPoints :=
  match border_holes, inner_holes with
  | hole :: border_holes', inner_hole :: inner_holes' =>
      polygon_samples config field hole inner_hole index_offset ++
      holes_samples config field border_holes' inner_holes' (index_offset + length hole)%nat
  | _, _ => []
  end.

(** The points of a field: those of the contour, then those of each
    hole. *)
Definition outline_samples `{Collaborators} (config : SampleConfig) (field : Field)
  : SupportIslandPoints :=
  if (length (contour (inner field)) <? 3)%nat then []
  else
    polygon_samples config field (contour (border field)) (contour (inner field)) 0 ++
    (if (length (holes (border field)) =? length (holes (inner field)))%nat
     then holes_samples config field (holes (border field)) (holes (inner field))
            (length (contour (border field)))
     else []).

(** A ring within the range of the sampler: [is_outline] covers its lines
    (asserted by the source), every line of the inset that a line of the
    ring is mapped to is a line of the ring of the inset, no line of the
    inset has a negative length, the rounded lengths sum up to less than
    [2^30], so that no sum of [coord_t] overflows, and [fuel] covers the
    turns of the loops. *)
Definition ring_in_range `{Collaborators} (fuel : nat) (config : SampleConfig)
  (field : Field) (polygon inner_polygon : Polygon) (index_offset : nat) : Prop :=
  let inner_lines := polygon_to_lines inner_polygon in
  let rounded := rounded_lengths inner_lines in
  (length polygon + index_offset <= length (is_outline field))%nat /\
  Forall (fun i => match lookup_index (i + index_offset) (field_2_inner field) with
                   | Some second =>
                       (index_offset <= second < index_offset + length inner_lines)%nat
                   | None => True
                   end)
         (seq 0 (length polygon)) /\
  Forall (fun line => (0 <= line_length line)%Q) inner_lines /\
  sum_Z rounded < 2 ^ 30 /\
  (length polygon + 2 + Z.to_nat (sum_Z rounded / thick_outline_max_distance config)
   < fuel)%nat.

Fixpoint holes_in_range `{Collaborators} (fuel : nat) (config : SampleConfig)
  (field : Field) (border_holes inner_holes : list Polygon) (index_offset : nat) : Prop :=
  match border_holes, inner_holes with
  | hole :: border_holes', inner_hole :: inner_holes' =>
      ring_in_range fuel config field hole inner_hole index_offset /\
      holes_in_range fuel config field border_holes' inner_holes'
        (index_offset + length hole)%nat
  | _, _ => True
  end.

Definition field_in_range `{Collaborators} (fuel : nat) (config : SampleConfig)
  (field : Field) : Prop :=
  ring_in_range fuel config field (contour (border field)) (contour (inner field)) 0 /\
  holes_in_range fuel config field (holes (border field)) (holes (inner field))
    (length (contour (border field))).

(** The loop variable [polygon_index] of [sample_polygon] before the
    lines [rest] of the ring, the last of them before [stop_index]. *)
Fixpoint at_cursor (size stop_index polygon_index : nat) (rest : list nat) : Prop :=
  match rest with
  | [] => polygon_index = stop_index
  | i :: rest' =>
      polygon_index <> stop_index /\
      i = (if (polygon_index =? size)%nat then 0%nat else polygon_index) /\
      at_cursor size stop_index (S i) rest'
  end.

(** [inner_first] and [inner_last] of [sample_polygon] within the run
    [run]: unset, or the first and the last line of the inset that a line
    of the run is mapped to. *)
Definition run_state (field : Field) (index_offset inner_invalid : nat)
  (run : list nat) (inner_first inner_last : nat) : Prop :=
  match inner_of_run field index_offset run with
  | [] => inner_first = inner_invalid
  | first :: rest => inner_first = first /\ inner_last = last rest first
  end.

(** A field 20 mm square with a hole 4 mm square, and its inset by 2 mm.
    The bottom line and the right line of the contour are outline, the
    top line and the left line are not; every line of the hole is
    outline.  Line [i] of the field has line [i] of the inset. *)
Definition two_sided_field : Field := {|
  border :=
    mkExPolygon
      [mkPoint 0 0; mkPoint 20000000 0; mkPoint 20000000 20000000; mkPoint 0 20000000]
      [[mkPoint 9000000 9000000; mkPoint 9000000 11000000;
        mkPoint 11000000 11000000; mkPoint 11000000 9000000]];
  is_outline := [true; true; false; false; true; true; true; true];
  inner :=
    mkExPolygon
      [mkPoint 2000000 2000000; mkPoint 18000000 2000000;
       mkPoint 18000000 18000000; mkPoint 2000000 18000000]
      [[mkPoint 8000000 8000000; mkPoint 8000000 12000000;
        mkPoint 12000000 12000000; mkPoint 12000000 8000000]];
  field_2_inner :=
    [(0, 0); (1, 1); (2, 2); (3, 3); (4, 4); (5, 5); (6, 6); (7, 7)]%nat
|}.

(** A field 7 mm by 5 mm whose inset is 5 mm by 3 mm; only the line
    [outline_line] of the contour is outline. *)
Definition one_sided_field (outline_line : nat) : Field := {|
  border :=
    mkExPolygon
      [mkPoint 0 0; mkPoint 7000000 0; mkPoint 7000000 5000000; mkPoint 0 5000000] [];
  is_outline := map (Nat.eqb outline_line) [0; 1; 2; 3]%nat;
  inner :=
    mkExPolygon
      [mkPoint 1000000 1000000; mkPoint 6000000 1000000;
       mkPoint 6000000 4000000; mkPoint 1000000 4000000] [];
  field_2_inner := [(0, 0); (1, 1); (2, 2); (3, 3)]%nat
|}.

(* ===================================================================== *)
(** * Sequential arrangement: text utilities *)
(* ===================================================================== *)

(** [find_and_remove] of [src/libseqarrange/src/seq_utilities.cpp], over
    [std::string] as the strings of the standard library. *)
Section SequentialText.
Import Ascii String.

(** [std::string::string_find(key)]: the lowest position at which [key] occurs in
    [src]; [None] is [std::string::npos]. *)
Fixpoint string_find (key src : string) : option nat :=
  if prefix key src then Some 0%nat
  else
    match src with
    | EmptyString => None
    | String _ src' => option_map S (string_find key src')
    end.

(** [std::string::string_erase(pos, len)] for [pos <= size()], the only case the
    embedded file reaches: the characters from [pos] on, at most [len] of
    them, are removed. *)
Fixpoint string_drop (len : nat) (src : string) : string :=
  match len, src with
  | S len', String _ src' => string_drop len' src'
  | _, _ => src
  end.

Fixpoint string_erase (pos len : nat) (src : string) : string :=
  match pos, src with
  | S pos', String c src' => String c (string_erase pos' len src')
  | _, _ => string_drop len src
  end.

(** [bool find_and_remove(std::string& src, const std::string& key)]: the
    returned flag and [src] after the call. *)
Definition find_and_remove (src key : string) : bool * string :=
  match string_find key src with
  | Some pos => (true, string_erase pos (length key) src)
  | None => (false, src)
  end.

End SequentialText.

(** [std::sort] with a comparison, as the insertion sort of short ranges
    (see [std_sort]). *)
Fixpoint sort_insert_by {A : Type} (less : A -> A -> bool) (x : A) (l : list A) : list A :=
  match l with
  | [] => [x]
  | y :: l' => if less x y then x :: y :: l' else y :: sort_insert_by less x l'
  end.

Definition std_sort_by {A : Type} (less : A -> A -> bool) (l : list A) : list A :=
  fold_left (fun acc x => sort_insert_by less x acc) l [].

(* ===================================================================== *)
(** * Support point generator *)
(* ===================================================================== *)

(** The functions of [src/libslic3r/SLA/SupportPointGenerator.cpp], in a
    module of their own: several members have the names of local
    variables of the island sampling. *)
Module SupportPointGenerator.

(** ** Sampling of overhangs *)
(** Functions [SupportPointGenerator.cpp] calls and that live in other
    files or libraries. *)
Class GeneratorCollaborators : Type := {
  (** [operator<] of [Point], the order of [std::sort] and
      [std::lower_bound] on points. *)
  point_less : Point -> Point -> bool;
  (** [sqrt] of [<cmath>]. *)
  double_sqrt : Q -> Q;
  (** The constructor of [Point] from two [double] coordinates. *)
  point_of_doubles : Q -> Q -> Point;
  (** Clipper's [diff_ex(shape, polygons)]. *)
  diff_ex : ExPolygon -> list Polygon -> list ExPolygon
}.

(** [std::lower_bound(first, last, value)] on a range sorted by [less]:
    the range that starts at the first element not less than [value]. *)
Fixpoint lower_bound {A : Type} (less : A -> A -> bool) (l : list A) (value : A) : list A :=
  match l with
  | [] => []
  | x :: l' => if less x value then lower_bound less l' value else l
  end.

(** [intersection_line_circle(p1, p2, cnt, r2)].  The source asserts
    [discriminant >= 0].  With [p1 == p2] the quotient by [2 * a] is not a
    number and both range tests fail. *)
Definition intersection_line_circle `{GeneratorCollaborators}
  (p1 p2 cnt : Point) (r2 : Q) : Point :=
  let dp_x := inject_Z (px p2 - px p1) in
  let dp_y := inject_Z (py p2 - py p1) in
  let f_x := inject_Z (px p1 - px cnt) in
  let f_y := inject_Z (py p1 - py cnt) in
  let a := (dp_x * dp_x + dp_y * dp_y)%Q in
  let b := (2 * (f_x * dp_x + f_y * dp_y))%Q in
  let c := (f_x * f_x + f_y * f_y - r2)%Q in
  let discriminant := (b * b - 4 * a * c)%Q in
  if Qlt_bool discriminant 0 then origin      (* No intersection *)
  else if Qeq_bool a 0 then origin
  else
    let discriminant := double_sqrt discriminant in
    let t1 := ((- b - discriminant) / (2 * a))%Q in
    if Qle_bool 0 t1 && Qle_bool t1 1 then
      point_of_doubles (inject_Z (px p1) + t1 * dp_x)%Q (inject_Z (py p1) + t1 * dp_y)%Q
    else
      let t2 := ((- b + discriminant) / (2 * a))%Q in
      if Qle_bool 0 t2 && Qle_bool t2 1 && negb (Qeq_bool t1 t2) then
        point_of_doubles (inject_Z (px p1) + t2 * dp_x)%Q (inject_Z (py p1) + t2 * dp_y)%Q
      else origin.

(** [(a - b).cast<double>().squaredNorm()]. *)
Definition squared_distance (a b : Point) : Q :=
  inject_Z ((px a - px b) * (px a - px b) + (py a - py b) * (py a - py b)).

(** The [while (p_dist2 > dist2)] of [sample] on the segment that ends in
    [pt]; [prev_pt] is the start of the segment at first and the last
    sample afterwards, [r] the samples so far. *)
Fixpoint sample_segment `{GeneratorCollaborators} (fuel : nat) (dist2 : Q)
  (prev_pt pt : Point) (r : Points) : option Points :=
  match fuel with
  | O => None
  | S fuel' =>
      if Qlt_bool dist2 (squared_distance (last r origin) pt) then
        let r := r ++ [intersection_line_circle prev_pt pt (last r origin) dist2] in
        sample_segment fuel' dist2 (last r origin) pt r
      else Some r
  end.

(** The [for] loop of [sample]: [it] is the point before [rest]. *)
Fixpoint sample_loop `{GeneratorCollaborators} (fuel : nat) (dist2 : Q)
  (it : Point) (rest : Points) (r : Points) : option Points :=
  match rest with
  | [] => Some r
  | pt :: rest' =>
      match sample_segment fuel dist2 it pt r with
      | None => None
      | Some r => sample_loop fuel dist2 pt rest' r
      end
  end.

(** [sample(b, e, dist2)] on the points of the range [b, e); the source
    asserts [e - b >= 2]. *)
Definition sample `{GeneratorCollaborators} (fuel : nat) (points : Points) (dist2 : Q)
  : option Points :=
  match points with
  | b :: (_ :: _) as rest => sample_loop fuel dist2 b rest [b]
  | _ => Some []                      (* at least one line(2 points) *)
  end.

(** [contain_point(p, sorted_points)]. *)
Definition contain_point `{GeneratorCollaborators} (p : Point) (sorted_points : Points)
  : bool :=
  match lower_bound point_less sorted_points p with
  | [] => false
  | _ :: it =>                        (* ++it *)
      match it with
      | [] => false
      | next :: _ => (px next =? px p) && (py next =? py p)
      end
  end.

(** The points of the iterator range [first, last) of [pts]. *)
Definition points_range (pts : Points) (first last : nat) : Points :=
  firstn (last - first) (skipn first pts).

(** The [for] loop of the lambda [sample_overhang]; iterators are indices
    into [pts], [pts.end()] being [length pts]; [it] is the index of the
    first point of [rest]. *)
Fixpoint sample_overhang_loop `{GeneratorCollaborators} (fuel : nat)
  (prev_points : Points) (dist2 : Q) (pts : Points) (it : nat) (rest : Points)
  (first_bad start_it : nat) (samples : Points) : option (nat * nat * Points) :=
  match rest with
  | [] => Some (first_bad, start_it, samples)
  | p :: rest' =>
      if contain_point p prev_points then
        let first_bad := if (first_bad =? length pts)%nat then it else first_bad in
        if negb (start_it =? length pts)%nat then
          (* finish sampling *)
          match sample fuel (points_range pts start_it it) dist2 with
          | None => None
          | Some s =>
              sample_overhang_loop fuel prev_points dist2 pts (S it) rest'
                first_bad (length pts) (samples ++ s)
          end
        else
          sample_overhang_loop fuel prev_points dist2 pts (S it) rest'
            first_bad start_it samples
      else if (start_it =? length pts)%nat then
        sample_overhang_loop fuel prev_points dist2 pts (S it) rest'
          first_bad it samples
      else
        sample_overhang_loop fuel prev_points dist2 pts (S it) rest'
          first_bad start_it samples
  end.

(** The lambda [sample_overhang(polygon, samples)] of [sample_overhangs]. *)
Definition sample_overhang `{GeneratorCollaborators} (fuel : nat)
  (prev_points : Points) (dist2 : Q) (polygon : Polygon) (samples : Points)
  : option Points :=
  let pts := polygon in
  let pts_end := length pts in
  match sample_overhang_loop fuel prev_points dist2 pts 0 pts pts_end pts_end samples with
  | None => None
  | Some (first_bad, start_it, samples) =>
      (* sample last segment *)
      let last_segment :=
        if (start_it =? pts_end)%nat then         (* tail is without points *)
          if negb (first_bad =? 0)%nat            (* only begining *)
          then Some (points_range pts 0 first_bad)
          else None
        else if (first_bad =? 0)%nat then         (* only tail *)
          Some (points_range pts start_it pts_end)
        else if (start_it =? 0)%nat then          (* whole polygon is overhang *)
          Some (pts ++ firstn 1 pts)
        else                                      (* need connect begining and tail *)
          Some (points_range pts start_it pts_end ++ points_range pts 0 first_bad) in
      match last_segment with
      | None => Some samples
      | Some segment =>
          match sample fuel segment dist2 with
          | None => None
          | Some s => Some (samples ++ s)
          end
      end
  end.

(** [get_polygons(part_links)] on the shapes the links name. *)
Definition get_polygons (shapes : list ExPolygon) : list Polygon :=
  flat_map (fun shape => contour shape :: holes shape) shapes.

Fixpoint sample_overhang_holes `{GeneratorCollaborators} (fuel : nat)
  (prev_points : Points) (dist2 : Q) (polygons : list Polygon) (samples : Points)
  : option Points :=
  match polygons with
  | [] => Some samples
  | polygon :: polygons' =>
      match sample_overhang fuel prev_points dist2 polygon samples with
      | None => None
      | Some samples => sample_overhang_holes fuel prev_points dist2 polygons' samples
      end
  end.

(** [sample_overhangs(part, dist2)]: [shape] is the shape of the part and
    [prev_shapes] the shapes its [prev_parts] name. *)
Definition sample_overhangs `{GeneratorCollaborators} (fuel : nat)
  (shape : ExPolygon) (prev_shapes : list ExPolygon) (dist2 : Q) : option Points :=
  let prev_polygons := get_polygons prev_shapes in
  let overhangs := diff_ex shape prev_polygons in
  match overhangs with
  | [] => Some []              (* above part is smaller in whole contour *)
  | _ =>
      let prev_points := std_sort_by point_less (concat prev_polygons) in
      sample_overhang_holes fuel prev_points dist2
        (flat_map (fun overhang => contour overhang :: holes overhang) overhangs) []
  end.

(** Collaborators of the generator for examples: points are ordered by x
    and then by y, the square root is the integer square root and a point
    takes the nearest integer coordinates. *)
Definition plain_generator : GeneratorCollaborators := {|
  point_less := fun a b => (px a <? px b) || ((px a =? px b) && (py a <? py b));
  double_sqrt := fun q => inject_Z (Z.sqrt (Qfloor q));
  point_of_doubles := fun x y => mkPoint (round_coord x) (round_coord y);
  diff_ex := fun shape _ => [shape]
|}.

(** ** Supports of a layer *)

(** [SupportPointType], the two values the embedded file sets. *)
Module SupportPointType.
Inductive t : Type := island | slope.
End SupportPointType.

Record Vec3f : Type := mkVec3f { v_x : Q; v_y : Q; v_z : Q }.

(** A point of the support curve: [x()] is the supported radius, [y()]
    the height above the support. *)
Record Vec2f : Type := mkVec2f { c_x : Q; c_y : Q }.

(** [LayerSupportPoint], with the members of its base [SupportPoint]. *)
Record LayerSupportPoint : Type := mkLayerSupportPoint {
  lsp_pos : Vec3f;
  head_front_radius : Q;
  lsp_type : SupportPointType.t;
  position_on_layer : Point;
  direction_to_mass : Point;
  radius_curve_index : nat;
  current_radius : Z
}.

Definition LayerSupportPoints : Type := list LayerSupportPoint.

Record SupportPointGeneratorConfig : Type := mkGeneratorConfig {
  density_relative : Q;
  support_curve : list Vec2f;
  head_diameter : Q;
  removing_delta : Q;
  island_configuration : SampleConfig
}.

(** [LayerPart]: links to parts of the neighbour layers are indices into
    the parts of that layer. *)
Record LayerPart : Type := mkLayerPart {
  shape : ExPolygon;
  prev_parts : list nat;
  next_parts : list nat;
  samples : Points;
  peninsulas : list Peninsula
}.

Record Layer : Type := mkLayer {
  print_z : Q;
  parts : list LayerPart
}.

(** What the generator calls outside its file: the scaling macros, the
    k-d tree over indices into the support storage, Clipper and the
    geometry classes. *)
Class LayerCollaborators : Type := {
  (** [scale_(val)] and [unscale<float>(coord)]. *)
  scale_ : Q -> Q;
  unscale : Z -> Q;
  (** [is_approx(x, y, precision)]. *)
  is_approx : Q -> Q -> Q -> bool;
  (** [ExPolygon::contains(point)]. *)
  contains : ExPolygon -> Point -> bool;
  (** Clipper's [offset_ex(shape, delta, jtSquare)]. *)
  offset_ex : ExPolygon -> Q -> list ExPolygon;
  (** [KDTreeIndirect<2, coord_t, PointAccessor>]: the tree read through
      the support storage, the empty tree, [clear()] followed by
      [build(indices)], [get_nodes()] and [find_nearby_points]. *)
  Tree : Type;
  empty_tree : Tree;
  build : LayerSupportPoints -> list nat -> Tree;
  get_nodes : Tree -> list nat;
  find_nearby_points : LayerSupportPoints -> Tree -> Point -> Z -> list nat;
  (** [load_curve_from_file()]. *)
  load_curve_from_file : list Vec2f
}.

Section NearPoints.
Context `{LayerCollaborators}.

(** [NearPoints] is a tree over the storage of all support points, which
    every grid shares: the storage is passed to each method and returned
    by the ones that change it. *)

(** [NearPoints::get_indices()]: the nodes that are indices into the
    storage. *)
Definition get_indices (supports : LayerSupportPoints) (tree : Tree) : list nat :=
  filter (fun i => negb (length supports <=? i)%nat) (get_nodes tree).

(** [pts.at(point_index)] for the indices of [get_indices]: they lie below
    the size of the storage, so that [at] does not throw and the value
    behind the storage is not read. *)
Definition support_at (supports : LayerSupportPoints) (i : nat) : LayerSupportPoint :=
  nth i supports
    (mkLayerSupportPoint (mkVec3f 0 0 0) 0 SupportPointType.island origin origin 0 0).

(** [NearPoints::remove_out_of(shapes)]. *)
Definition remove_out_of (supports : LayerSupportPoints) (tree : Tree)
  (shapes : list ExPolygon) : Tree :=
  let indices := get_indices supports tree in
  let kept :=
    filter (fun point_index =>
              let p := position_on_layer (support_at supports point_index) in
              existsb (fun shape => contains shape p) shapes)
           indices in
  if (length kept =? length indices)%nat then tree   (* no point to remove *)
  else build supports kept.

(** [NearPoints::add(point)]: the storage and the tree after the call. *)
Definition add (supports : LayerSupportPoints) (tree : Tree) (point : LayerSupportPoint)
  : LayerSupportPoints * Tree :=
  let indices := get_indices supports tree in
  let index := length supports in
  let supports := supports ++ [point] in
  (supports, build supports (indices ++ [index])).

(** [std::any_of] over the nearby indices in [exist_true_in_radius]:
    [points.at(point_index)] throws for an index behind the storage, which
    is [None]; the indices after the first support that answers [true] are
    not read. *)
Fixpoint any_support (supports : LayerSupportPoints)
  (fnc : LayerSupportPoint -> Point -> bool) (pos : Point) (point_indices : list nat)
  : option bool :=
  match point_indices with
  | [] => Some false
  | point_index :: point_indices' =>
      match nth_error supports point_index with
      | None => None
      | Some support =>
          if fnc support pos then Some true
          else any_support supports fnc pos point_indices'
      end
  end.

(** [NearPoints::exist_true_in_radius(pos, radius, fnc)]. *)
Definition exist_true_in_radius (supports : LayerSupportPoints) (tree : Tree)
  (pos : Point) (radius : Z) (fnc : LayerSupportPoint -> Point -> bool) : option bool :=
  any_support supports fnc pos (find_nearby_points supports tree pos radius).

(** [std::unique]: of equal neighbours the first is kept. *)
Fixpoint unique_from (prev : nat) (rest : list nat) : list nat :=
  match rest with
  | [] => []
  | x :: rest' =>
      if (prev =? x)%nat then unique_from prev rest' else x :: unique_from x rest'
  end.

Definition unique (l : list nat) : list nat :=
  match l with
  | [] => []
  | x :: rest => x :: unique_from x rest
  end.

(** The indices [NearPoints::merge] rebuilds the tree from. *)
Definition merge_indices (supports : LayerSupportPoints) (tree near_point : Tree)
  : list nat :=
  let indices := get_indices supports tree ++ get_indices supports near_point in
  (* remove duplicit indices - Diamond case *)
  unique (std_sort Nat.ltb indices).

(** [NearPoints::merge(near_point)]. *)
Definition merge (supports : LayerSupportPoints) (tree near_point : Tree) : Tree :=
  build supports (merge_indices supports tree near_point).

(** [create_near_points(prev_layer_parts, part, prev_grids)].  A grid is
    moved out of [prev_grids] when its part has one part above and copied
    otherwise; the tree is the same in both cases.  [None] is an index
    out of [prev_grids] or a part without previous part. *)
Fixpoint merge_prev_grids (supports : LayerSupportPoints) (prev_grids : list Tree)
  (near_points : Tree) (links : list nat) : option Tree :=
  match links with
  | [] => Some near_points
  | index_of_prev_part :: links' =>
      match nth_error prev_grids index_of_prev_part with
      | None => None
      | Some grid =>
          merge_prev_grids supports prev_grids (merge supports near_points grid) links'
      end
  end.

Definition create_near_points (supports : LayerSupportPoints) (part : LayerPart)
  (prev_grids : list Tree) : option Tree :=
  match prev_parts part with
  | [] => None
  | index_of_prev_part :: links =>
      match nth_error prev_grids index_of_prev_part with
      | None => None
      | Some near_points => merge_prev_grids supports prev_grids near_points links
      end
  end.

(** The lambda [is_supported] of [support_part_overhangs]. *)
Definition is_supported (support_point : LayerSupportPoint) (p : Point) : bool :=
  let r := current_radius support_point in
  let dp_x := px (position_on_layer support_point) - px p in
  let dp_y := py (position_on_layer support_point) - py p in
  if r <? Z.abs dp_x then false
  else if r <? Z.abs dp_y then false
  else
    let r2 := (inject_Z r * inject_Z r)%Q in
    Qlt_bool (inject_Z dp_x * inject_Z dp_x + inject_Z dp_y * inject_Z dp_y) r2.

(** [current_radius] of a new support:
    [static_cast<coord_t>(scale_(support_curve.front().x()))]; the front
    of an empty curve has no value. *)
Definition first_radius (config : SupportPointGeneratorConfig) : option Z :=
  match support_curve config with
  | [] => None
  | front :: _ => Some (to_coord (scale_ (c_x front)))
  end.

(** The [LayerSupportPoint] that [support_part_overhangs], [support_island]
    and [support_peninsulas] add at [p]. *)
Definition new_support (config : SupportPointGeneratorConfig)
  (type : SupportPointType.t) (p direction : Point) (part_z : Q) (radius : Z)
  : LayerSupportPoint :=
  mkLayerSupportPoint
    (mkVec3f (unscale (px p)) (unscale (py p)) part_z)
    (head_diameter config / 2)
    type p direction 0 radius.

(** [support_part_overhangs(part, config, near_points, part_z,
    maximal_radius)], the loop over the samples of the part. *)
Fixpoint support_part_overhangs (part_samples : Points)
  (config : SupportPointGeneratorConfig) (supports : LayerSupportPoints)
  (near_points : Tree) (part_z : Q) (maximal_radius : Z)
  : option (LayerSupportPoints * Tree) :=
  match part_samples with
  | [] => Some (supports, near_points)
  | p :: part_samples' =>
      match exist_true_in_radius supports near_points p maximal_radius is_supported with
      | None => None
      | Some false =>
          (* not supported sample, soo create new support point *)
          match first_radius config with
          | None => None
          | Some radius =>
              let '(supports, near_points) :=
                add supports near_points
                  (new_support config SupportPointType.slope p (mkPoint 1 0) part_z
                     radius) in
              support_part_overhangs part_samples' config supports near_points
                part_z maximal_radius
          end
      | Some true =>
          support_part_overhangs part_samples' config supports near_points
            part_z maximal_radius
      end
  end.

(** The loop of [support_island] and [support_peninsulas] over the
    supports of an island. *)
Fixpoint add_island_supports (island_points : Points)
  (config : SupportPointGeneratorConfig) (supports : LayerSupportPoints)
  (near_points : Tree) (part_z : Q) : option (LayerSupportPoints * Tree) :=
  match island_points with
  | [] => Some (supports, near_points)
  | p :: island_points' =>
      match first_radius config with
      | None => None
      | Some radius =>
          let '(supports, near_points) :=
            add supports near_points
              (new_support config SupportPointType.island p (mkPoint 0 0) part_z radius) in
          add_island_supports island_points' config supports near_points part_z
      end
  end.

(** [support_island(part, near_points, part_z, cfg)]. *)
Definition support_island `{Collaborators} (fuel : nat) (part : LayerPart)
  (supports : LayerSupportPoints) (near_points : Tree) (part_z : Q)
  (cfg : SupportPointGeneratorConfig) : option (LayerSupportPoints * Tree) :=
  match uniform_support_island fuel (shape part) (island_configuration cfg) with
  | None => None
  | Some island_samples =>
      add_island_supports (to_points island_samples) cfg supports near_points part_z
  end.

(** [support_peninsulas(peninsulas, near_points, part_z, cfg)]. *)
Fixpoint support_peninsulas `{Collaborators} (fuel : nat) (part_peninsulas : list Peninsula)
  (supports : LayerSupportPoints) (near_points : Tree) (part_z : Q)
  (cfg : SupportPointGeneratorConfig) : option (LayerSupportPoints * Tree) :=
  match part_peninsulas with
  | [] => Some (supports, near_points)
  | peninsula :: part_peninsulas' =>
      match uniform_support_peninsula fuel peninsula (island_configuration cfg) with
      | None => None
      | Some peninsula_supports =>
          match add_island_supports (to_points peninsula_supports) cfg supports
                  near_points part_z with
          | None => None
          | Some (supports, near_points) =>
              support_peninsulas fuel part_peninsulas' supports near_points part_z cfg
          end
      end
  end.

(** The lambda [set_radius] of [prepare_supports_for_layer], called with
    the curve index the loop has reached.  A relative density of zero
    gives a radius that is not a number of [coord_t]. *)
Definition set_radius (config : SupportPointGeneratorConfig)
  (support : LayerSupportPoint) (index : nat) (radius : Q)
  : option LayerSupportPoint :=
  let with_radius (radius : Q) :=
    mkLayerSupportPoint (lsp_pos support) (head_front_radius support)
      (lsp_type support) (position_on_layer support) (direction_to_mass support)
      index (to_coord (scale_ radius)) in
  if negb (is_approx (density_relative config) 1 (1 # 10000)) then
    (* exist relative density *)
    if Qeq_bool (density_relative config) 0 then None
    else Some (with_radius (radius / density_relative config)%Q)
  else Some (with_radius radius).

(** [while ((index + 1) < curve.size() && diff_z > curve[index + 1].y())
    ++index;], [next] being the curve from [index + 1] on. *)
Fixpoint find_current_segment (next : list Vec2f) (diff_z : Q) (index : nat) : nat :=
  match next with
  | [] => index
  | c :: next' =>
      if Qlt_bool (c_y c) diff_z then find_current_segment next' diff_z (S index)
      else index
  end.

(** Body of the loop of [prepare_supports_for_layer] for one support.  The
    quotient by [b.y() - a.y()] has no value when both heights are equal:
    the cast of the radius to [coord_t] is then undefined. *)
Definition prepare_support (config : SupportPointGeneratorConfig) (layer_z : Q)
  (support : LayerSupportPoint) : option LayerSupportPoint :=
  let curve := support_curve config in
  let index := radius_curve_index support in
  if (length curve <=? index + 1)%nat then Some support   (* already contain maximal radius *)
  else
    (* find current segment *)
    let diff_z := (layer_z - v_z (lsp_pos support))%Q in
    let index := find_current_segment (skipn (S index) curve) diff_z index in
    if (length curve <=? index + 1)%nat then
      (* set maximal radius *)
      set_radius config support index (c_x (last curve (mkVec2f 0 0)))
    else
      (* interpolate radius on input curve *)
      let a := nth index curve (mkVec2f 0 0) in
      let b := nth (S index) curve (mkVec2f 0 0) in
      if Qeq_bool (c_y b) (c_y a) then None
      else
        let t := ((diff_z - c_y a) / (c_y b - c_y a))%Q in
        set_radius config support index (c_x a + t * (c_x b - c_x a))%Q.

(** [prepare_supports_for_layer(supports, layer_z, config)]. *)
Fixpoint prepare_supports_for_layer (supports : LayerSupportPoints) (layer_z : Q)
  (config : SupportPointGeneratorConfig) : option LayerSupportPoints :=
  match supports with
  | [] => Some []
  | support :: supports' =>
      match prepare_support config layer_z support,
            prepare_supports_for_layer supports' layer_z config with
      | Some support, Some supports' => Some (support :: supports')
      | _, _ => None
      end
  end.

(** [remove_supports_out_of_part(near_points, part, config)]. *)
Definition remove_supports_out_of_part (supports : LayerSupportPoints)
  (near_points : Tree) (part : LayerPart) (config : SupportPointGeneratorConfig)
  : Tree :=
  let extend_shape := offset_ex (shape part) (removing_delta config) in
  remove_out_of supports near_points extend_shape.

(** Body of the loop of [generate_support_points] over the parts of a
    layer: the storage after the part and the grid of the part. *)
Definition support_layer_part `{Collaborators} (fuel : nat)
  (config : SupportPointGeneratorConfig) (layer_z : Q) (maximal_radius : Z)
  (prev_grids : list Tree) (supports : LayerSupportPoints) (part : LayerPart)
  : option (LayerSupportPoints * Tree) :=
  match prev_parts part with
  | [] =>
      (* new island - needs support no doubt *)
      support_island fuel part supports empty_tree layer_z config
  | _ =>
      match create_near_points supports part prev_grids with
      | None => None
      | Some near_points =>
          let near_points := remove_supports_out_of_part supports near_points part config in
          match support_peninsulas fuel (peninsulas part) supports near_points
                  layer_z config with
          | None => None
          | Some (supports, near_points) =>
              support_part_overhangs (samples part) config supports near_points
                layer_z maximal_radius
          end
      end
  end.

Fixpoint support_layer_parts `{Collaborators} (fuel : nat)
  (config : SupportPointGeneratorConfig) (layer_z : Q) (maximal_radius : Z)
  (prev_grids : list Tree) (layer_parts : list LayerPart)
  (supports : LayerSupportPoints) (grids : list Tree)
  : option (LayerSupportPoints * list Tree) :=
  match layer_parts with
  | [] => Some (supports, grids)
  | part :: layer_parts' =>
      match support_layer_part fuel config layer_z maximal_radius prev_grids
              supports part with
      | None => None
      | Some (supports, grid) =>
          support_layer_parts fuel config layer_z maximal_radius prev_grids
            layer_parts' supports (grids ++ [grid])
      end
  end.

(** The loop of [generate_support_points] over the layers. *)
Fixpoint support_layers `{Collaborators} (fuel : nat)
  (config : SupportPointGeneratorConfig) (maximal_radius : Z)
  (layers : list Layer) (result : LayerSupportPoints) (prev_grids : list Tree)
  : option LayerSupportPoints :=
  match layers with
  | [] => Some result
  | layer :: layers' =>
      match prepare_supports_for_layer result (print_z layer) config with
      | None => None
      | Some result =>
          match support_layer_parts fuel config (print_z layer) maximal_radius
                  prev_grids (parts layer) result [] with
          | None => None
          | Some (result, grids) =>
              support_layers fuel config maximal_radius layers' result grids
          end
      end
  end.

(** [generate_support_points(data, config, throw_on_cancel, statusfn)]
    without cancellation; the progress reports are left out.  An empty
    [support_curve] is replaced by the curve of the resource file. *)
Definition generate_support_points `{Collaborators} (fuel : nat)
  (layers : list Layer) (config : SupportPointGeneratorConfig)
  : option LayerSupportPoints :=
  let config :=
    match support_curve config with
    | [] => mkGeneratorConfig (density_relative config) load_curve_from_file
              (head_diameter config) (removing_delta config)
              (island_configuration config)
    | _ => config
    end in
  match rev (support_curve config) with
  | [] => None                          (* back() of an empty curve *)
  | back :: _ =>
      let max_support_radius := c_x back in
      let maximal_radius := to_coord (scale_ max_support_radius) in
      support_layers fuel config maximal_radius layers [] []
  end.

End NearPoints.

(** What [prepare_supports_for_layer] leaves alone: where a support is,
    its head and its type. *)
Definition placement (support : LayerSupportPoint)
  : Vec3f * Q * SupportPointType.t * Point * Point :=
  (lsp_pos support, head_front_radius support, lsp_type support,
   position_on_layer support, direction_to_mass support).

(** A k-d tree for examples: the nodes are the indices it was built from,
    followed by one unused leaf. *)
Definition example_npos : nat := 1000.

Definition list_tree : LayerCollaborators := {|
  scale_ := fun q => (q * 1000000)%Q;
  unscale := fun z => (inject_Z z / 1000000)%Q;
  is_approx := fun x y precision =>
    Qlt_bool (x - y) precision && Qlt_bool (y - x) precision;
  contains := expolygon_contains;
  offset_ex := fun shape _ => [shape];
  Tree := list nat;
  empty_tree := [];
  build := fun _ indices => indices ++ [example_npos];
  get_nodes := fun tree => tree;
  find_nearby_points := fun supports tree pos radius =>
    filter (fun i =>
              match nth_error supports i with
              | Some support =>
                  (Z.abs (px (position_on_layer support) - px pos) <=? radius) &&
                  (Z.abs (py (position_on_layer support) - py pos) <=? radius)
              | None => false
              end)
           tree;
  load_curve_from_file := [mkVec2f 5 0; mkVec2f 5 1]
|}.

(** A support curve from 1 mm at the support to 5 mm, 2 mm above it and
    higher, and a configuration with it. *)
Definition example_curve : list Vec2f :=
  [mkVec2f 1 0; mkVec2f 3 1; mkVec2f 5 2].

Definition example_generator_config : SupportPointGeneratorConfig :=
  mkGeneratorConfig 1 example_curve (4 # 10) (1 # 10) example_config.

(** Two supports on the first layer, 3 mm apart, and a part that is a
    new island. *)
Definition example_supports : LayerSupportPoints :=
  [mkLayerSupportPoint (mkVec3f 0 0 0) (2 # 10) SupportPointType.island
     (mkPoint 0 0) origin 0 1000000;
   mkLayerSupportPoint (mkVec3f 3 0 0) (2 # 10) SupportPointType.slope
     (mkPoint 3000000 0) (mkPoint 1 0) 0 1000000].

Definition island_part : LayerPart := mkLayerPart flat_rectangle [] [] [] [].

(** A part over two parts of the layer below, with one sample. *)
Definition joining_part : LayerPart :=
  mkLayerPart flat_rectangle [0%nat; 1%nat] [] [mkPoint 350000 100000] [].

(** What [prepare_supports_for_layer] does to one support. *)
Definition prepared (curve : list Vec2f) (layer_z : Q)
  (support support' : LayerSupportPoint) : Prop :=
  let index := radius_curve_index support in
  let index' := radius_curve_index support' in
  let diff_z := (layer_z - v_z (lsp_pos support))%Q in
  placement support' = placement support /\
  (index <= index')%nat /\
  ((index < length curve)%nat -> (index' < length curve)%nat) /\
  ((length curve <= index + 1)%nat -> support' = support) /\
  (forall j, (index < j <= index')%nat ->
             (c_y (nth j curve (mkVec2f 0 0)) < diff_z)%Q) /\
  ((index + 1 < length curve)%nat -> (index' + 1 < length curve)%nat ->
   (diff_z <= c_y (nth (S index') curve (mkVec2f 0 0)))%Q).

End SupportPointGenerator.

(* ===================================================================== *)
(** * Thick part: samples on a triangular grid *)
(* ===================================================================== *)

(** The arithmetic of [sample_expolygon] is on [float]: every result is
    rounded to single precision.

    [static const float coef2 = sqrt(3.) / 2.]: the [float] nearest to the
    quotient, 14529495 / 2^24. *)
Definition coef2 : SpecFloat.spec_float := SpecFloat.S754_finite false 14529495 (-24).

(** The loop of [sample_expolygon] over the points of the contour: the
    range of y, entered with the y of the front for both ends. *)
Definition extend_y_range (range : Z * Z) (point : Point) : Z * Z :=
  let (min_y, max_y) := range in
  if py point <? min_y then (py point, max_y)
  else if max_y <? py point then (min_y, py point)
  else (min_y, max_y).

(** The lines of [sample_expolygon]: without the lines parallel with
    axe x, each directed from its lower y to its higher y, sorted by the y
    of their start. *)
Definition sampling_lines (lines : Lines) : Lines :=
  let lines := filter (fun l => negb (py (line_a l) =? py (line_b l))) lines in
  let lines :=
    map (fun line =>
           if py (line_b line) <? py (line_a line)
           then mkLine (line_b line) (line_a line) else line)
        lines in
  std_sort_by (fun l1 l2 => py (line_a l1) <? py (line_a l2)) lines.

(** The x at which [line] meets the row [y]:
    [a.x() + static_cast<coord_t>(x_range * ratio)], with [y_range],
    [x_range], [ratio] and the product in [float]. *)
Definition row_intersection (line : Line) (y : Z) : Z :=
  let a := line_a line in
  let b := line_b line in
  let y_range := float_of_coord (py b - py a) in
  let x_range := float_of_coord (px b - px a) in
  let ratio := float_div (float_of_coord (y - py a)) y_range in
  px a + to_coord (float_value (float_mul x_range ratio)).

(** The loop over the lines from [start_index] on for the row [y]:
    [start_index] after the loop and the intersections found. *)
Fixpoint row_intersections (lines : Lines) (y : Z) (increase_start_index : bool)
  (start_index : nat) : nat * list Z :=
  match lines with
  | [] => (start_index, [])
  | line :: lines' =>
      if py (line_b line) <=? y then
        (* removing lines is slow, start index is faster *)
        row_intersections lines' y increase_start_index
          (if increase_start_index then S start_index else start_index)
      else if y <=? py (line_a line) then (start_index, [])      (* break *)
      else
        let '(start_index, intersections) :=
          row_intersections lines' y false start_index in
        (start_index, row_intersection line y :: intersections)
  end.

(** [while (x < end_x) { result.emplace_back(x, y); x += triangle_side; }] *)
Fixpoint sample_interval (fuel : nat) (triangle_side y end_x x : Z) (result : Points)
  : option Points :=
  match fuel with
  | O => None
  | S fuel' =>
      if x <? end_x then
        sample_interval fuel' triangle_side y end_x (x + triangle_side)
          (result ++ [mkPoint x y])
      else Some result
  end.

(** The x of the first sample at or after [start_x] on a row; the
    quotient by a [triangle_side] of zero has no value. *)
Definition first_sample_x (triangle_side half_triangle_side : Z) (is_odd : bool)
  (start_x : Z) : option Z :=
  let start_x := if is_odd then start_x + half_triangle_side else start_x in
  if triangle_side =? 0 then None
  else
    let div := Z.quot start_x triangle_side in
    let div := if 0 <? start_x then div + 1 else div in
    let x := div * triangle_side in
    Some (if is_odd then x - half_triangle_side else x).

(** [for (index = 0; index + 1 < intersections.size(); index += 2)] over
    the sorted intersections of a row. *)
Fixpoint sample_row (fuel : nat) (triangle_side half_triangle_side : Z)
  (is_odd : bool) (y : Z) (intersections : list Z) (result : Points)
  : option Points :=
  match intersections with
  | start_x :: end_x :: intersections' =>
      match first_sample_x triangle_side half_triangle_side is_odd start_x with
      | None => None
      | Some x =>
          match sample_interval fuel triangle_side y end_x x result with
          | None => None
          | Some result =>
              sample_row fuel triangle_side half_triangle_side is_odd y
                intersections' result
          end
      end
  | _ => Some result
  end.

(** [for (coord_t y = min_y + triangle_height / 2; y < max_y;
    y += triangle_height)]. *)
Fixpoint sample_rows (fuel : nat) (lines : Lines)
  (triangle_side half_triangle_side triangle_height max_y y : Z)
  (start_index : nat) (is_odd : bool) (result : Points) : option Points :=
  match fuel with
  | O => None
  | S fuel' =>
      if y <? max_y then
        let is_odd := negb is_odd in
        let '(start_index, intersections) :=
          row_intersections (skipn start_index lines) y true start_index in
        let intersections := std_sort_by Z.ltb intersections in
        match sample_row fuel triangle_side half_triangle_side is_odd y
                intersections result with
        | None => None
        | Some result =>
            sample_rows fuel' lines triangle_side half_triangle_side
              triangle_height max_y (y + triangle_height) start_index is_odd result
        end
      else Some result
  end.

(** [static_cast<coord_t>(std::round(triangle_side * coef2))]: the
    product is a [float], and [std::round] of a [float] is a whole number
    that is a [float] again. *)
Definition triangle_height_of (triangle_side : Z) : Z :=
  round_coord (float_value (float_mul (float_of_coord triangle_side) coef2)).

(** [sample_expolygon(expoly, triangle_side)]; the source asserts that
    the contour has points, the front of an empty contour has no value. *)
Definition sample_expolygon `{Collaborators} (fuel : nat) (expoly : ExPolygon)
  (triangle_side : Z) : option Points :=
  match contour expoly with
  | [] => None
  | front :: _ =>
      (* get y range *)
      let '(min_y, max_y) :=
        fold_left extend_y_range (contour expoly) (py front, py front) in
      let half_triangle_side := Z.quot triangle_side 2 in
      let triangle_height := triangle_height_of triangle_side in
      let lines := sampling_lines (to_lines expoly) in
      sample_rows fuel lines triangle_side half_triangle_side triangle_height
        max_y (min_y + Z.quot triangle_height 2) 0 false []
  end.

(** Coordinates and sides on which the 32-bit [coord_t] arithmetic of
    [sample_expolygon] stays in range: at most 2^28 in absolute value. *)
Definition sample_coord_limit : Z := 2 ^ 28.

Definition within_sample_limit (p : Point) : Prop :=
  Z.abs (px p) <= sample_coord_limit /\ Z.abs (py p) <= sample_coord_limit.

Definition lines_within_sample_limit (lines : Lines) : Prop :=
  Forall (fun line => within_sample_limit (line_a line) /\
                      within_sample_limit (line_b line))
         lines.

(** The rows of [sample_expolygon]: row [k] lies at [first_y + k * height],
    and its samples are shifted by half a side when [k] is even. *)
Definition on_triangular_grid (triangle_side triangle_height first_y max_y : Z)
  (p : Point) : Prop :=
  exists k m : Z,
    0 <= k /\ py p = first_y + k * triangle_height /\ py p < max_y /\
    px p = m * triangle_side - (if Z.even k then Z.quot triangle_side 2 else 0).

(** [p] lies on a row between two lines [l1] and [l2] that cross the row,
    at or right of the first and left of the second. *)
Definition between_crossings (lines : Lines) (p : Point) : Prop :=
  exists l1 l2 : Line,
    In l1 lines /\ In l2 lines /\
    py (line_a l1) < py p < py (line_b l1) /\
    py (line_a l2) < py p < py (line_b l2) /\
    row_intersection l1 (py p) <= px p < row_intersection l2 (py p).

(** Collaborators as [plain_collaborators], with the lines of an
    expolygon: contour first, then each hole. *)
Definition outline_collaborators : Collaborators := {|
  simplify := fun island _ => [island];
  to_lines := fun expoly =>
    map (fun edge => mkLine (fst edge) (snd edge))
        (polygon_edges (contour expoly) ++ flat_map polygon_edges (holes expoly));
  create_longest_path := fun _ => ([], mkPath [] 0);
  get_max_width := fun _ => 0;
  get_position_with_width := fun neighbor _ _ => mkPosition neighbor (1 # 2);
  ends_in_distanace := fun _ _ => false;
  create_edge_point := fun position =>
    mkPoint (Z.of_nat (n_id (pos_neighbor position))) (calc_distance position);
  calc_outline_point := fun _ index ratio =>
    mkPoint (Z.of_nat index) (Qnum ratio);
  move_restricted := fun m current destination =>
    (m, destination,
     Z.abs (px destination - px current) + Z.abs (py destination - py current));
  separate_thin_thick := fun _ _ _ _ => ([], []);
  create_thick_field := fun _ _ _ => (empty_expolygon, [], empty_expolygon, []);
  sample_expolygon_with_centering := fun _ _ => [];
  offset := fun _ _ => [];
  match_offset_lines := fun _ _ _ => [];
  create_voronoi_cells_cgal := fun points _ => map (fun _ => []) points;
  intersection := fun _ _ => [];
  polygon_contains := fun _ _ => false;
  centroid := fun _ => origin;
  line_length := fun l =>
    inject_Z (Z.abs (px (line_b l) - px (line_a l)) + Z.abs (py (line_b l) - py (line_a l)))
|}.

(** A square of 10 mm with a square hole of 2 mm in its middle. *)
Definition holed_square : ExPolygon :=
  mkExPolygon
    [mkPoint 0 0; mkPoint 10000000 0; mkPoint 10000000 10000000; mkPoint 0 10000000]
    [[mkPoint 4000000 4000000; mkPoint 4000000 6000000;
      mkPoint 6000000 6000000; mkPoint 6000000 4000000]].

(* ===================================================================== *)
(** * Thick part: the biggest hole as contour *)
(* ===================================================================== *)

(** The first loop of [set_biggest_hole_as_contour]: the index of the hole
    that becomes the contour, or the [contour_index] it was entered with.
    [bounding_box_size] is [BoundingBox(points).size()], which is declared
    outside the embedded file. *)
Fixpoint find_biggest_hole (bounding_box_size : Points -> Point)
  (shape_holes : list Polygon) (hole_index : nat) (contour_size_x : Z)
  (contour_index : nat) : nat :=
  match shape_holes with
  | [] => contour_index
  | hole :: shape_holes' =>
      let hole_size := bounding_box_size hole in
      if px hole_size <? contour_size_x then   (* size is smaller it is really hole *)
        find_biggest_hole bounding_box_size shape_holes' (S hole_index)
          contour_size_x contour_index
      else
        find_biggest_hole bounding_box_size shape_holes' (S hole_index)
          (px hole_size) hole_index
  end.

(** [set_biggest_hole_as_contour(shape, ids)]: the returned flag, the
    shape and the indices after the call.  The old contour is inserted
    from [ids] itself, from a range in front of the place of insertion.
    [None] is a range of a hole that reaches beyond [ids]. *)
Definition set_biggest_hole_as_contour (bounding_box_size : Points -> Point)
  (shape : ExPolygon) (ids : list nat) : option (bool * ExPolygon * list nat) :=
  let contour_size := bounding_box_size (contour shape) in
  let contour_index :=
    find_biggest_hole bounding_box_size (holes shape) 0 (px contour_size)
      (length (holes shape)) in
  if (contour_index =? length (holes shape))%nat then
    Some (false, shape, ids)            (* contour is set correctly *)
  else
    (* swap source indices *)
    let contour_count := length (contour shape) in
    let hole_index_offset :=
      fold_left (fun offset hole => (offset + length hole)%nat)
        (firstn contour_index (holes shape)) contour_count in
    let hole := nth contour_index (holes shape) [] in
    let hole_index_end := (hole_index_offset + length hole)%nat in
    if (length ids <? hole_index_end)%nat then None
    else
      (* swap contour with hole *)
      let shape' :=
        mkExPolygon hole (set_nth contour_index (contour shape) (holes shape)) in
      (* Temp copy of the old hole(newly contour) indices *)
      let contour_indices :=
        firstn (hole_index_end - hole_index_offset) (skipn hole_index_offset ids) in
      (* remove copied contour *)
      let ids := firstn hole_index_offset ids ++ skipn hole_index_end ids in
      (* insert old contour(newly hole) *)
      let ids :=
        firstn hole_index_offset ids ++ firstn contour_count ids ++
        skipn hole_index_offset ids in
      (* remove old contour *)
      let ids := skipn contour_count ids in
      Some (true, shape', contour_indices ++ ids).

(** The size of the box around a point list, for examples. *)
Definition box_size (points : Points) : Point :=
  mkPoint (bbox_width points) (bbox_height points).

(** A field whose second hole is wider than its contour. *)
Definition inverted_field : ExPolygon :=
  mkExPolygon [mkPoint 4 4; mkPoint 6 4; mkPoint 6 6; mkPoint 4 6]
    [[mkPoint 5 5; mkPoint 5 6; mkPoint 6 5];
     [mkPoint 0 0; mkPoint 0 10; mkPoint 10 10; mkPoint 10 0]].

(** Points whose coordinates lie in [-2^30, 2^30): the differences
    [max - min] of [get_center] then stay within the 32 bits of
    [coord_t]. *)
Definition in_half_coord_range (p : Point) : Prop :=
  - 2 ^ 30 <= px p < 2 ^ 30 /\ - 2 ^ 30 <= py p < 2 ^ 30.

(** Every change of a part has a change back from the part it leads
    into. *)
Definition linked_back (island_parts : IslandParts) : Prop :=
  forall (i : nat) (part : IslandPart) (c : IslandPartChange),
    nth_error island_parts i = Some part -> In c (changes part) ->
    exists (neighbor_part : IslandPart) (back : IslandPartChange),
      nth_error island_parts (part_index c) = Some neighbor_part /\
      In back (changes neighbor_part) /\ part_index back = i.

(** What alignment may do to a support: the type stays, and a support
    that cannot move stays as it is. *)
Definition aligned_from (support support' : SupportIslandPoint) : Prop :=
  type support' = type support /\ (can_move support = false -> support' = support).

(** A part the merge of middle parts leaves alone: not a middle part, or
    one without a change. *)
Definition settled (part : IslandPart) : Prop :=
  part_type part = middle -> changes part = [].

(** [std::find_if] of [merge_same_neighbor_type_parts]: the first change
    into a part of the type [type], [Some None] for [changes.end()].  A
    change that leads to no part has no result. *)
Fixpoint find_same_type (island_parts : IslandParts) (type : IslandPartType)
  (changes : list IslandPartChange) : option (option IslandPartChange) :=
  match changes with
  | [] => Some None
  | change :: changes' =>
      match nth_error island_parts (part_index change) with
      | None => None
      | Some neighbor_part =>
          if IslandPartType_eqb (part_type neighbor_part) type then Some (Some change)
          else find_same_type island_parts type changes'
      end
  end.

(** The loops of [merge_same_neighbor_type_parts].  [in_while] tells a
    turn of the inner [while] after a merge, which reads
    [island_parts[island_part_index]] without a look at the size, from the
    first turn after the test of the [for].  A turn either merges a
    neighbor of the same type into the part at [island_part_index] or
    breaks and steps to the next index. *)
Fixpoint merge_same_neighbor_type_parts_loop (fuel : nat) (island_parts : IslandParts)
  (island_part_index : nat) (in_while : bool) : option IslandParts :=
  match fuel with
  | O => None
  | S fuel' =>
      match nth_error island_parts island_part_index with
      | None => if in_while then None else Some island_parts
      | Some island_part =>
          match find_same_type island_parts (part_type island_part)
                  (changes island_part) with
          | None => None
          | Some None =>                   (* no more changes *)
              merge_same_neighbor_type_parts_loop fuel' island_parts
                (S island_part_index) false
          | Some (Some change) =>
              match merge_island_parts island_parts island_part_index
                      (part_index change) with
              | None => None
              | Some island_parts =>
                  merge_same_neighbor_type_parts_loop fuel' island_parts
                    island_part_index true
              end
          end
      end
  end.

(** [merge_same_neighbor_type_parts(island_parts)]. *)
Definition merge_same_neighbor_type_parts (fuel : nat) (island_parts : IslandParts)
  : option IslandParts :=
  merge_same_neighbor_type_parts_loop fuel island_parts 0 false.

(** No change of the part at [index] leads into a part of its own type. *)
Definition no_same_type_neighbor (island_parts : IslandParts) (index : nat) : Prop :=
  forall (part neighbor_part : IslandPart) (c : IslandPartChange),
    nth_error island_parts index = Some part -> In c (changes part) ->
    nth_error island_parts (part_index c) = Some neighbor_part ->
    part_type neighbor_part <> part_type part.

(** Two thin parts next to each other, followed by a thick part. *)
Definition twin_parts : IslandParts :=
  [mkIslandPart thin [mkChange (mkPosition row_01 (1 # 2)) 1] 700000;
   mkIslandPart thin
     [mkChange (mkPosition row_10 (1 # 2)) 0; mkChange (mkPosition row_12 (1 # 2)) 2]
     300000;
   mkIslandPart thick [mkChange (mkPosition row_21 (1 # 2)) 1] 700000].

(** A support that cannot move beside two that can. *)
Definition mixed_supports : SupportIslandPoints :=
  [SupportIslandNoMovePoint (mkPoint 4000000 2000000) thin_part;
   SupportIslandInnerPoint (mkPoint 2000000 2000000) square_inset thick_part_inner;
   SupportIslandInnerPoint (mkPoint 7000000 2000000) square_inset thick_part_inner].

(** A check of every change of every part, [index] being the index of the
    first part of [island_parts]. *)
Fixpoint links_from (check : nat -> IslandPartChange -> bool) (index : nat)
  (island_parts : IslandParts) : bool :=
  match island_parts with
  | [] => true
  | part :: island_parts' =>
      forallb (check index) (changes part) && links_from check (S index) island_parts'
  end.

(** [well_linked] and [linked_back] as checks. *)
Definition well_linkedb (island_parts : IslandParts) : bool :=
  links_from
    (fun i c => (part_index c <? length island_parts)%nat &&
                negb (part_index c =? i)%nat)
    0 island_parts.

Definition linked_backb (island_parts : IslandParts) : bool :=
  links_from
    (fun i c =>
       match nth_error island_parts (part_index c) with
       | Some neighbor_part =>
           existsb (fun back => (part_index back =? i)%nat) (changes neighbor_part)
       | None => false
       end)
    0 island_parts.

(* ===================================================================== *)
(** * Properties of the bounding-box case *)
(* ===================================================================== *)

Lemma fold_min_le (l : list Z) (v : Z) : fold_left Z.min l v <= v.
Proof.
  revert v; induction l as [|x l IH]; intros v; simpl; [lia|].
  specialize (IH (Z.min v x)); lia.
Qed.

Lemma fold_max_ge (l : list Z) (v : Z) : v <= fold_left Z.max l v.
Proof.
  revert v; induction l as [|x l IH]; intros v; simpl; [lia|].
  specialize (IH (Z.max v x)); lia.
Qed.

Lemma extend_range_eq (r lo hi v : Z) :
  lo <= hi -> hi - lo <= r ->
  extend_range r lo hi v =
  if Z.max hi v - Z.min lo v <=? r then Some (Z.min lo v, Z.max hi v) else None.
Proof.
  intros Hle Hr. unfold extend_range.
  destruct (v <? lo) eqn:E1; [apply Z.ltb_lt in E1 | apply Z.ltb_ge in E1].
  - replace (Z.max hi v) with hi by lia. replace (Z.min lo v) with v by lia.
    destruct (r <? hi - v) eqn:E2; [apply Z.ltb_lt in E2 | apply Z.ltb_ge in E2];
      destruct (hi - v <=? r) eqn:E3;
      try apply Z.leb_le in E3; try apply Z.leb_gt in E3; try lia; reflexivity.
  - replace (Z.min lo v) with lo by lia.
    destruct (hi <? v) eqn:E2; [apply Z.ltb_lt in E2 | apply Z.ltb_ge in E2].
    + replace (Z.max hi v) with v by lia.
      destruct (r <? v - lo) eqn:E4; [apply Z.ltb_lt in E4 | apply Z.ltb_ge in E4];
        destruct (v - lo <=? r) eqn:E3;
        try apply Z.leb_le in E3; try apply Z.leb_gt in E3; try lia; reflexivity.
    + replace (Z.max hi v) with hi by lia.
      destruct (hi - lo <=? r) eqn:E3;
        [reflexivity | apply Z.leb_gt in E3; lia].
Qed.

(** The loop of [get_center] computes the bounding box and succeeds exactly
    when both of its sides are at most [max_radius]. *)
Lemma get_center_loop_eq (r : Z) (rest : Points) (lx ly hx hy : Z) :
  lx <= hx -> ly <= hy -> hx - lx <= r -> hy - ly <= r ->
  get_center_loop r rest (mkPoint lx ly) (mkPoint hx hy) =
  let lx' := fold_left Z.min (map px rest) lx in
  let hx' := fold_left Z.max (map px rest) hx in
  let ly' := fold_left Z.min (map py rest) ly in
  let hy' := fold_left Z.max (map py rest) hy in
  if (hx' - lx' <=? r) && (hy' - ly' <=? r)
  then Some (mkPoint lx' ly', mkPoint hx' hy') else None.
Proof.
  revert lx ly hx hy.
  induction rest as [|it rest IH]; intros lx ly hx hy Hx Hy Hrx Hry; cbn zeta.
  - simpl. destruct (hx - lx <=? r) eqn:E1; [|apply Z.leb_gt in E1; lia].
    destruct (hy - ly <=? r) eqn:E2; [|apply Z.leb_gt in E2; lia].
    reflexivity.
  - cbn [get_center_loop px py map fold_left].
    rewrite (extend_range_eq r lx hx (px it)) by assumption.
    pose proof (fold_min_le (map px rest) (Z.min lx (px it))) as Hm1.
    pose proof (fold_max_ge (map px rest) (Z.max hx (px it))) as Hm2.
    pose proof (fold_min_le (map py rest) (Z.min ly (py it))) as Hm3.
    pose proof (fold_max_ge (map py rest) (Z.max hy (py it))) as Hm4.
    destruct (Z.max hx (px it) - Z.min lx (px it) <=? r) eqn:E1;
      [apply Z.leb_le in E1 | apply Z.leb_gt in E1].
    + rewrite (extend_range_eq r ly hy (py it)) by assumption.
      destruct (Z.max hy (py it) - Z.min ly (py it) <=? r) eqn:E2;
        [apply Z.leb_le in E2 | apply Z.leb_gt in E2].
      * rewrite IH by lia. reflexivity.
      * match goal with |- None = (if ?a && ?b then _ else _) =>
          destruct b eqn:E3; [apply Z.leb_le in E3; lia | rewrite andb_false_r; reflexivity]
        end.
    + match goal with |- None = (if ?a && ?b then _ else _) =>
        destruct a eqn:E3; [apply Z.leb_le in E3; lia | reflexivity]
      end.
Qed.

Lemma get_center_eq (points : Points) (r : Z) :
  0 <= r ->
  get_center points r =
  if (2 <? length points)%nat && (bbox_width points <=? r) && (bbox_height points <=? r)
  then Some (mkPoint (Z.quot (coord_min px points) 2 + Z.quot (coord_max px points) 2)
                     (Z.quot (coord_min py points) 2 + Z.quot (coord_max py points) 2))
  else None.
Proof.
  intros Hr. unfold get_center.
  destruct (length points <=? 2)%nat eqn:E.
  - apply Nat.leb_le in E.
    destruct (2 <? length points)%nat eqn:E'; [apply Nat.ltb_lt in E'; lia | reflexivity].
  - apply Nat.leb_gt in E.
    destruct (2 <? length points)%nat eqn:E'; [| apply Nat.ltb_ge in E'; lia].
    destruct points as [|[fx fy] rest]; [simpl in E; lia|].
    rewrite get_center_loop_eq by lia.
    unfold bbox_width, bbox_height, coord_min, coord_max. cbn [px py andb].
    destruct (_ && _); reflexivity.
Qed.


(* ===================================================================== *)
(** * Origin of the type [one_bb_center_point] *)
(* ===================================================================== *)

Section SkeletonTypes.
Context `{Collaborators}.

Local Abbreviation no_bb_center := (Forall (fun p => type p <> one_bb_center_point)).

Ltac add_point :=
  apply Forall_app; split; [assumption|];
  repeat constructor; cbn; discriminate.

Lemma move_type (p : SupportIslandPoint) (destination : Point) :
  type (fst (move p destination)) = type p.
Proof.
  unfold move. destruct (movement p); try reflexivity;
    destruct (move_restricted _ _ _) as [[m q] d]; reflexivity.
Qed.

Lemma set_nth_Forall {A : Type} (P : A -> Prop) (i : nat) (x : A) (l : list A) :
  P x -> Forall P l -> Forall P (set_nth i x l).
Proof.
  intros Hx. revert i; induction l as [|y l IH]; intros [|i] Hl; cbn;
    inversion Hl; subst; constructor; auto.
Qed.

Lemma thin_add_supports_types (neighbor : Neighbor) (edge_length support_distance : Z) :
  forall fuel support_in results next_in placed,
    thin_add_supports fuel neighbor edge_length support_distance support_in results =
      Some (next_in, placed) ->
    no_bb_center results -> no_bb_center placed.
Proof.
  induction fuel as [|fuel IH]; intros support_in results next_in placed Hrun Hres;
    [discriminate|].
  cbn [thin_add_supports] in Hrun.
  destruct (support_in <=? edge_length).
  - apply IH in Hrun; [exact Hrun|]. add_point.
  - injection Hrun as _ <-. exact Hres.
Qed.

Lemma thin_part_step_types (fuel : nat) (g : VoronoiGraph) (part : ThinPart)
  (config : SampleConfig) (st st' : ThinState) :
  thin_part_step fuel g part config st = Some st' ->
  no_bb_center (results st) -> no_bb_center (results st').
Proof.
  unfold thin_part_step. intros Hrun Hres.
  destruct (thin_part_current st) as [[[curr_in neighbor] process]|]; [|discriminate].
  destruct (thin_add_supports _ _ _ _ _ _) as [[next_in placed]|] eqn:Hplaced;
    [|discriminate].
  apply thin_add_supports_types in Hplaced; [|exact Hres].
  destruct (find_part_end _ _).
  - injection Hrun as <-. cbn [results].
    destruct (_ <? _); [add_point | exact Hplaced].
  - destruct (get_twin g neighbor) as [twin|]; [|discriminate].
    destruct (_ && _).
    + injection Hrun as <-. cbn [results].
      destruct (_ <? _); [add_point | exact Hplaced].
    + destruct (get_node g _); [|discriminate].
      injection Hrun as <-. exact Hplaced.
Qed.

Lemma thin_part_while_types (g : VoronoiGraph) (part : ThinPart) (config : SampleConfig) :
  forall fuel st out,
    thin_part_while fuel g part config st = Some out ->
    no_bb_center (results st) -> no_bb_center out.
Proof.
  induction fuel as [|fuel IH]; intros st out Hrun Hres; [discriminate|].
  cbn [thin_part_while] in Hrun.
  destruct (thin_part_step (S fuel) g part config st) as [st'|] eqn:Hstep.
  - pose proof (thin_part_step_types _ _ _ _ _ _ Hstep Hres) as Hres'.
    destruct (curr_neighbor st); [exact (IH _ _ Hrun Hres')|].
    destruct (process st); [injection Hrun as <-; exact Hres | exact (IH _ _ Hrun Hres')].
  - destruct (curr_neighbor st); [discriminate|].
    destruct (process st); [injection Hrun as <-; exact Hres | discriminate].
Qed.

Lemma sample_thin_parts_types (fuel : nat) (g : VoronoiGraph) (config : SampleConfig) :
  forall parts supports out,
    sample_thin_parts fuel g parts supports config = Some out ->
    no_bb_center supports -> no_bb_center out.
Proof.
  induction parts as [|part parts IH]; intros supports out Hrun Hres;
    cbn [sample_thin_parts] in Hrun.
  - injection Hrun as <-. exact Hres.
  - destruct (create_supports_for_thin_part fuel g part supports config)
      as [supports'|] eqn:Hpart; [|discriminate].
    apply (IH _ _ Hrun).
    unfold create_supports_for_thin_part in Hpart.
    destruct (get_twin g _); [|discriminate].
    exact (thin_part_while_types _ _ _ _ _ _ Hpart Hres).
Qed.

Lemma add_sample_loop_types (index : nat) (restriction : Restriction)
  (line_length : Z) (line_length_double : Q) (sample_distance : Z) :
  forall fuel last_support result last_support' out,
    add_sample_loop fuel index restriction line_length line_length_double
      sample_distance last_support result = Some (last_support', out) ->
    no_bb_center result -> no_bb_center out.
Proof.
  induction fuel as [|fuel IH]; intros last_support result last_support' out Hrun Hres;
    [discriminate|].
  cbn [add_sample_loop] in Hrun.
  destruct (sample_distance <? last_support + line_length).
  - apply IH in Hrun; [exact Hrun|]. add_point.
  - injection Hrun as _ <-. exact Hres.
Qed.

Lemma add_samples_types (fuel : nat) (sample_distance : Z) (restriction : Restriction) :
  forall count index last_support result last_support' out,
    add_samples fuel sample_distance restriction index count last_support result =
      Some (last_support', out) ->
    no_bb_center result -> no_bb_center out.
Proof.
  induction count as [|count IH]; intros index last_support result last_support' out
    Hrun Hres; cbn [add_samples] in Hrun.
  - injection Hrun as _ <-. exact Hres.
  - unfold add_sample in Hrun.
    destruct (add_sample_loop _ _ _ _ _ _ _ _) as [[ls placed]|] eqn:Hloop; [|discriminate].
    apply (IH _ _ _ _ _ Hrun).
    exact (add_sample_loop_types _ _ _ _ _ _ _ _ _ _ Hloop Hres).
Qed.

Lemma sample_line_sequence_types (fuel : nat) (config : SampleConfig) (circle : bool)
  (lines : Lines) (result out : SupportIslandPoints) :
  sample_line_sequence fuel config circle lines result = Some out ->
  no_bb_center result -> no_bb_center out.
Proof.
  unfold sample_line_sequence. intros Hrun Hres.
  destruct (add_samples _ _ _ _ _ _ _) as [[ls placed]|] eqn:Hsamples; [|discriminate].
  injection Hrun as <-.
  exact (add_samples_types _ _ _ _ _ _ _ _ _ Hsamples Hres).
Qed.

Lemma sample_runs_types (config : SampleConfig) (field : Field) (inner_lines : Lines)
  (index_offset size stop_index : nat) :
  forall fuel polygon_index inner_first inner_last result out,
    sample_runs fuel config field inner_lines index_offset size stop_index
      polygon_index inner_first inner_last result = Some out ->
    no_bb_center result -> no_bb_center out.
Proof.
  induction fuel as [|fuel IH];
    intros polygon_index inner_first inner_last result out Hrun Hres; [discriminate|].
  cbn [sample_runs] in Hrun.
  destruct (polygon_index =? stop_index)%nat.
  - destruct (inner_first =? length inner_lines)%nat.
    + injection Hrun as <-. exact Hres.
    + exact (sample_line_sequence_types _ _ _ _ _ _ Hrun Hres).
  - destruct (negb _).
    + destruct (inner_first =? length inner_lines)%nat; [exact (IH _ _ _ _ _ Hrun Hres)|].
      destruct (add_lines_samples _ _ _ _ _ _) as [placed|] eqn:Hlines; [|discriminate].
      apply (IH _ _ _ _ _ Hrun).
      exact (sample_line_sequence_types _ _ _ _ _ _ Hlines Hres).
    + destruct (lookup_index _ _); exact (IH _ _ _ _ _ Hrun Hres).
Qed.

Lemma sample_polygon_types (fuel : nat) (config : SampleConfig) (field : Field)
  (polygon inner_polygon : Polygon) (index_offset : nat)
  (result out : SupportIslandPoints) :
  sample_polygon fuel config field polygon inner_polygon index_offset result = Some out ->
  no_bb_center result -> no_bb_center out.
Proof.
  unfold sample_polygon. intros Hrun Hres.
  destruct inner_polygon as [|p inner_polygon]; [injection Hrun as <-; exact Hres|].
  destruct (_ =? _)%nat.
  - exact (sample_line_sequence_types _ _ _ _ _ _ Hrun Hres).
  - destruct (search_first_outline _ _ _ _ _ _) as [[start|]|]; [| |discriminate].
    + exact (sample_runs_types _ _ _ _ _ _ _ _ _ _ _ _ Hrun Hres).
    + injection Hrun as <-. exact Hres.
Qed.

Lemma sample_holes_types (fuel : nat) (config : SampleConfig) (field : Field) :
  forall border_holes inner_holes index_offset result out,
    sample_holes fuel config field border_holes inner_holes index_offset result = Some out ->
    no_bb_center result -> no_bb_center out.
Proof.
  induction border_holes as [|hole border_holes IH];
    intros inner_holes index_offset result out Hrun Hres; cbn [sample_holes] in Hrun.
  - injection Hrun as <-. exact Hres.
  - destruct inner_holes as [|inner_hole inner_holes]; [injection Hrun as <-; exact Hres|].
    destruct (sample_polygon _ _ _ _ _ _ _) as [placed|] eqn:Hpoly; [|discriminate].
    apply (IH _ _ _ _ Hrun).
    exact (sample_polygon_types _ _ _ _ _ _ _ _ Hpoly Hres).
Qed.

Lemma sample_outline_types (fuel : nat) (field : Field) (config : SampleConfig)
  (out : SupportIslandPoints) :
  sample_outline fuel field config = Some out -> no_bb_center out.
Proof.
  unfold sample_outline. intros Hrun.
  destruct (_ <? _)%nat; [injection Hrun as <-; constructor|].
  destruct (sample_polygon _ _ _ _ _ _ _) as [placed|] eqn:Hpoly; [|discriminate].
  apply sample_polygon_types in Hpoly; [|constructor].
  destruct (negb _); [injection Hrun as <-; exact Hpoly|].
  exact (sample_holes_types _ _ _ _ _ _ _ _ Hrun Hpoly).
Qed.

Lemma sample_thick_parts_types (fuel : nat) (lines : Lines) (config : SampleConfig) :
  forall parts supports out,
    sample_thick_parts fuel parts supports lines config = Some out ->
    no_bb_center supports -> no_bb_center out.
Proof.
  induction parts as [|part parts IH]; intros supports out Hrun Hres;
    cbn [sample_thick_parts] in Hrun.
  - injection Hrun as <-. exact Hres.
  - destruct (create_supports_for_thick_part fuel part supports lines config)
      as [supports'|] eqn:Hpart; [|discriminate].
    apply (IH _ _ Hrun).
    unfold create_supports_for_thick_part in Hpart.
    destruct (create_thick_field part lines config) as [[[b o] i] m].
    destruct (expolygon_empty _); [injection Hpart as <-; exact Hres|].
    destruct (sample_outline _ _ _) as [outline|] eqn:Houtline; [|discriminate].
    injection Hpart as <-.
    apply Forall_app; split; [exact Hres|].
    apply Forall_app; split; [exact (sample_outline_types _ _ _ _ Houtline)|].
    apply Forall_forall. intros p Hp. apply in_map_iff in Hp as (q & <- & _).
    cbn. discriminate.
Qed.

Lemma create_side_points_types (path : Path) (lines : Lines) (config : SampleConfig)
  (t : SupportType) (out : SupportIslandPoints) :
  t <> one_bb_center_point ->
  create_side_points path lines config t = Some out -> no_bb_center out.
Proof.
  unfold create_side_points. intros Ht Hrun.
  destruct (create_position_on_path_width _ _ _ _) as [[pos1 d1]|]; [|discriminate].
  destruct (create_position_on_path_width _ _ _ _) as [[pos2 d2]|]; [|discriminate].
  injection Hrun as <-. repeat constructor; exact Ht.
Qed.

Lemma move_duplicit_positions_loop_types (prev_position : Points) :
  forall fuel supports aligned sorted out,
    move_duplicit_positions_loop fuel supports aligned sorted prev_position = Some out ->
    no_bb_center supports -> no_bb_center out.
Proof.
  induction fuel as [|fuel IH]; intros supports aligned sorted out Hrun Hres;
    [discriminate|].
  cbn [move_duplicit_positions_loop] in Hrun.
  destruct (_ <=? _)%nat; [injection Hrun as <-; exact Hres|].
  destruct (nth_error supports _) as [support|] eqn:Hnth; [|discriminate].
  pose proof (move_type support
                (point_add (point_half (nth (get_duplicit_index sorted aligned)
                                          prev_position origin))
                           (point_half (nth (get_duplicit_index sorted aligned)
                                          aligned origin)))) as Htype.
  destruct (move support _) as [support' d]. cbn [fst] in Htype.
  apply (IH _ _ _ _ Hrun).
  apply set_nth_Forall; [|exact Hres].
  rewrite Htype. rewrite Forall_forall in Hres.
  apply Hres. exact (nth_error_In _ _ Hnth).
Qed.

Lemma align_once_loop_types (island : ExPolygon) (cell_polygons : list Polygon) :
  forall supports i max_move,
    no_bb_center supports ->
    no_bb_center (fst (align_once_loop island cell_polygons i supports max_move)).
Proof.
  induction supports as [|support supports IH]; intros i max_move Hres;
    cbn [align_once_loop]; [constructor|].
  inversion Hres as [|? ? Hhead Htail]; subst.
  destruct (align_support island (nth i cell_polygons []) support max_move)
    as [support' m] eqn:Hsupport.
  specialize (IH (S i) m Htail).
  destruct (align_once_loop island cell_polygons (S i) supports m) as [rest m'].
  cbn [fst] in *. constructor; [|exact IH].
  unfold align_support in Hsupport.
  destruct (negb _); [injection Hsupport as <- _; exact Hhead|].
  destruct (_ <? _)%nat; [injection Hsupport as <- _; exact Hhead|].
  match type of Hsupport with
  | match ?c with _ => _ end = _ => destruct c as [cell|]
  end; [|injection Hsupport as <- _; exact Hhead].
  pose proof (move_type support (centroid cell)) as Htype.
  destruct (move support (centroid cell)) as [moved d]. cbn [fst] in Htype.
  injection Hsupport as <- _. rewrite Htype. exact Hhead.
Qed.

Lemma align_once_types (fuel : nat) (supports : SupportIslandPoints)
  (island : ExPolygon) (config : SampleConfig) (out : SupportIslandPoints) (m : Z) :
  align_once fuel supports island config = Some (out, m) ->
  no_bb_center supports -> no_bb_center out.
Proof.
  unfold align_once. intros Hrun Hres.
  pose proof (align_once_loop_types island
                (create_voronoi_cells_cgal (to_points supports)
                   (Z.max (Z.max (thin_max_distance config)
                                 (thick_inner_max_distance config))
                          (thick_outline_max_distance config)))
                supports 0%nat 0 Hres) as Hloop.
  destruct (align_once_loop _ _ _ _ _) as [moved m'].
  cbn [fst] in Hloop.
  unfold move_duplicit_positions in Hrun.
  destruct (move_duplicit_positions_loop _ _ _ _ _) as [r|] eqn:Hdup; [|discriminate].
  injection Hrun as <- _.
  exact (move_duplicit_positions_loop_types _ _ _ _ _ _ Hdup Hloop).
Qed.

Lemma align_samples_loop_types
  (sweep : SupportIslandPoints -> option (SupportIslandPoints * Z))
  (minimal_move' : Z) :
  (forall s s' m, sweep s = Some (s', m) -> no_bb_center s -> no_bb_center s') ->
  forall fuel count samples sweeps out k,
    align_samples_loop sweep minimal_move' fuel count samples sweeps = Some (out, k) ->
    no_bb_center samples -> no_bb_center out.
Proof.
  intros Hsweep.
  induction fuel as [|fuel IH]; intros count samples sweeps out k Hrun Hres;
    [discriminate|].
  cbn [align_samples_loop] in Hrun.
  destruct (1 <? _); [|injection Hrun as <- _; exact Hres].
  destruct (sweep samples) as [[s' m]|] eqn:Es; [|discriminate].
  pose proof (Hsweep _ _ _ Es Hres) as Hres'.
  destruct (m <? minimal_move'); [injection Hrun as <- _; exact Hres'|].
  exact (IH _ _ _ _ _ Hrun Hres').
Qed.

(** The cases of [uniform_support_island] that follow the bounding-box
    test return no point of type [one_bb_center_point]. *)
Lemma support_by_skeleton_types (fuel : nat) (island simplified_island : ExPolygon)
  (config : SampleConfig) (out : SupportIslandPoints) :
  support_by_skeleton fuel island simplified_island config = Some out ->
  no_bb_center out.
Proof.
  unfold support_by_skeleton. intros Hrun.
  destruct (create_longest_path _) as [skeleton longest_path].
  destruct (Qlt_bool _ _).
  { unfold create_middle_path_point in Hrun.
    destruct (create_position_on_path _ _); [|discriminate].
    injection Hrun as <-. repeat constructor. cbn. discriminate. }
  destruct (_ && _).
  { eapply create_side_points_types; [|exact Hrun]. discriminate. }
  destruct (separate_thin_thick _ _ _ _) as [thin_parts thick_parts].
  destruct (sample_thin_parts _ _ _ _ _) as [thin_supports|] eqn:Hthin; [|discriminate].
  apply sample_thin_parts_types in Hthin; [|constructor].
  destruct (sample_thick_parts _ _ _ _ _) as [supports|] eqn:Hthick; [|discriminate].
  apply sample_thick_parts_types in Hthick; [|exact Hthin].
  destruct (_ <=? _)%nat.
  { eapply create_side_points_types; [|exact Hrun]. discriminate. }
  destruct (align_samples _ _ _ _ _) as [[aligned k]|] eqn:Halign; [|discriminate].
  injection Hrun as <-.
  unfold align_samples, align_samples_with in Halign.
  destruct (_ =? _)%nat; [injection Halign as <- _; exact Hthick|].
  destruct (negb _); [injection Halign as <- _; exact Hthick|].
  refine (align_samples_loop_types _ _ _ _ _ _ _ _ _ Halign Hthick).
  intros s s' m Hs. exact (align_once_types _ _ _ _ _ _ Hs).
Qed.

End SkeletonTypes.

Section BoundingBoxCase.
Context `{Collaborators}.

(** C2 (amended).  With a non-negative [head_radius], the bounding-box case
    is taken exactly when the simplified contour has at least three points
    and both sides of its axis-aligned bounding box are at most
    [head_radius]; the result then is exactly one point of type
    [one_bb_center_point], a [SupportIslandNoMovePoint], at
    [min / 2 + max / 2] computed per coordinate with the truncating
    division, and nothing else is computed.  Otherwise the result is the
    one of the skeleton-based cases. *)
Theorem uniform_support_island_bounding_box
  (fuel : nat) (island : ExPolygon) (config : SampleConfig) :
  0 <= head_radius config ->
  let simplified_island := get_simplified island config in
  let points := contour simplified_island in
  uniform_support_island fuel island config =
  if (2 <? length points)%nat
     && (bbox_width points <=? head_radius config)
     && (bbox_height points <=? head_radius config)
  then Some [mkSupport
               (mkPoint (Z.quot (coord_min px points) 2 + Z.quot (coord_max px points) 2)
                        (Z.quot (coord_min py points) 2 + Z.quot (coord_max py points) 2))
               one_bb_center_point NoMovePoint]
  else support_by_skeleton fuel island simplified_island config.
Proof.
  intros Hr simplified_island points. unfold uniform_support_island.
  fold simplified_island. fold points.
  rewrite (get_center_eq points (head_radius config) Hr).
  destruct (_ && _ && _); reflexivity.
Qed.

End BoundingBoxCase.

Lemma uniform_support_island_bounding_box_witness :
  0 <= head_radius example_config /\
  uniform_support_island (H := plain_collaborators) 0 l_shaped_island example_config =
  Some [mkSupport (mkPoint 150000 150000) one_bb_center_point NoMovePoint].
Proof.
  split; [vm_compute; discriminate|].
  exact (uniform_support_island_bounding_box (H := plain_collaborators)
           0 l_shaped_island example_config ltac:(vm_compute; discriminate)).
Defined.

(** C2, counterexample.  (a) The bounding box of the 0.7 mm by 0.2 mm
    rectangle fits within a disk of radius 0.4 mm (its diagonal is shorter
    than 0.8 mm), yet [get_center] fails on it, and whenever the
    simplification keeps this island no point of the result has the type
    [one_bb_center_point].  (b) For the triangle (1,1), (300003,1),
    (1,300003) the single point returned is (150001,150001), while the
    centroid of the bounding box is (150002,150002). *)
Lemma uniform_support_island_bounding_box_counterexample :
  (bbox_fits_in_disk (contour flat_rectangle) (head_radius example_config) = true /\
   get_center (contour flat_rectangle) (head_radius example_config) = None /\
   forall (C : Collaborators) (fuel : nat) (result : SupportIslandPoints),
     get_simplified flat_rectangle example_config = flat_rectangle ->
     uniform_support_island fuel flat_rectangle example_config = Some result ->
     Forall (fun p => type p <> one_bb_center_point) result) /\
  (uniform_support_island (H := plain_collaborators) 0 odd_triangle example_config =
   Some [mkSupport (mkPoint 150001 150001) one_bb_center_point NoMovePoint] /\
   is_bbox_centroid (contour odd_triangle) (mkPoint 150002 150002) /\
   bbox_fits_in_disk (contour odd_triangle) (head_radius example_config) = true).
Proof.
  split.
  - split; [reflexivity|]. split; [reflexivity|].
    intros C fuel result Hs. unfold uniform_support_island. rewrite Hs.
    change (get_center (contour flat_rectangle) (head_radius example_config)) with (@None Point).
    apply support_by_skeleton_types.
  - split; [reflexivity|]. split; [split; reflexivity | reflexivity].
Qed.

(** C1, the code at the failing input.  For the L-shaped island, whose
    bounding box (0.3 mm) is smaller than the head radius (0.4 mm), the only
    support point returned is the centre of the bounding box, and this
    point is not contained in the island. *)
Theorem bounding_box_center_outside_island (fuel : nat) :
  uniform_support_island (H := plain_collaborators) fuel l_shaped_island example_config =
    Some [mkSupport (mkPoint 150000 150000) one_bb_center_point NoMovePoint] /\
  expolygon_contains l_shaped_island (mkPoint 150000 150000) = false.
Proof. split; reflexivity. Qed.

(* ===================================================================== *)
(** * Properties of the alignment loop *)
(* ===================================================================== *)

Section AlignmentLoop.
Variable sweep : SupportIslandPoints -> option (SupportIslandPoints * Z).
Variable minimal_move' : Z.

Lemma wrap_size_t_small (z : Z) : 0 <= z < size_t_modulus -> wrap_size_t z = z.
Proof. intros Hz. unfold wrap_size_t. apply Z.mod_small. exact Hz. Qed.

Lemma size_t_modulus_value : size_t_modulus = 18446744073709551616.
Proof. reflexivity. Qed.

Lemma align_samples_loop_unfold (fuel : nat) (c : Z) (s : SupportIslandPoints) (k : Z) :
  align_samples_loop sweep minimal_move' (S fuel) c s k =
  if 1 <? wrap_size_t (c - 1) then
    match sweep s with
    | None => None
    | Some (s1, max_move) =>
        if max_move <? minimal_move' then Some (s1, k + 1)
        else align_samples_loop sweep minimal_move' fuel (wrap_size_t (c - 1)) s1 (k + 1)
    end
  else Some (s, k).
Proof. reflexivity. Qed.

(** With a counter that does not wrap, the loop makes at most
    [count_iteration - 2] sweeps and needs no more fuel than that. *)
Lemma align_samples_loop_bounded (n : nat) :
  forall (c : Z) (s : SupportIslandPoints) (k : Z) (fuel : nat),
    (forall s0, sweep s0 <> None) ->
    1 <= c < size_t_modulus -> c - 2 <= Z.of_nat n -> (n < fuel)%nat ->
    exists s' k',
      align_samples_loop sweep minimal_move' fuel c s k = Some (s', k') /\
      k <= k' <= k + Z.max 0 (c - 2).
Proof.
  induction n as [|n IH]; intros c s k fuel Htotal Hc Hn Hfuel;
    (destruct fuel as [|fuel]; [lia|]); cbn [align_samples_loop];
    rewrite wrap_size_t_small by lia.
  - destruct (1 <? c - 1) eqn:E; [apply Z.ltb_lt in E; lia|].
    exists s, k. split; [reflexivity | lia].
  - destruct (1 <? c - 1) eqn:E; [apply Z.ltb_lt in E | exists s, k; split; [reflexivity|lia]].
    destruct (sweep s) as [[s1 mv]|] eqn:Es; [|exfalso; exact (Htotal s Es)].
    destruct (mv <? minimal_move').
    + exists s1, (k + 1). split; [reflexivity | lia].
    + destruct (IH (c - 1) s1 (k + 1) fuel Htotal) as (s' & k' & Hrun & Hk); try lia.
      exists s', k'. split; [exact Hrun | lia].
Qed.

(** With sweeps that never move less than [minimal_move], the loop makes
    exactly [count_iteration - 2] sweeps from a counter that is at least
    2. *)
Lemma align_samples_loop_exhausts (n : nat) :
  forall (c : Z) (s : SupportIslandPoints) (k : Z) (fuel : nat),
    (forall s0, exists s1 mv, sweep s0 = Some (s1, mv) /\ minimal_move' <= mv) ->
    2 <= c < size_t_modulus -> Z.of_nat n = c - 2 -> (n < fuel)%nat ->
    exists s',
      align_samples_loop sweep minimal_move' fuel c s k = Some (s', k + Z.of_nat n).
Proof.
  induction n as [|n IH]; intros c s k fuel Hsweep Hc Hn Hfuel;
    (destruct fuel as [|fuel]; [lia|]); cbn [align_samples_loop];
    rewrite wrap_size_t_small by lia.
  - destruct (1 <? c - 1) eqn:E; [apply Z.ltb_lt in E; lia|].
    exists s. rewrite Z.add_0_r. reflexivity.
  - destruct (1 <? c - 1) eqn:E; [|apply Z.ltb_ge in E; lia].
    destruct (Hsweep s) as (s1 & mv & Es & Hmv). rewrite Es.
    destruct (mv <? minimal_move') eqn:E2; [apply Z.ltb_lt in E2; lia|].
    destruct (IH (c - 1) s1 (k + 1) fuel Hsweep) as (s' & Hrun); try lia.
    exists s'. rewrite Hrun.
    replace (k + 1 + Z.of_nat n) with (k + Z.of_nat (S n)) by lia.
    reflexivity.
Qed.

End AlignmentLoop.

(** [align_samples] returns for every value of [count_iteration], given
    sweeps that return: the wrapped counter only goes down. *)
Lemma align_samples_terminates
  (sweep : SupportIslandPoints -> option (SupportIslandPoints * Z))
  (samples : SupportIslandPoints) (config : SampleConfig) :
  (forall s, sweep s <> None) ->
  0 <= count_iteration config < size_t_modulus ->
  exists fuel result,
    align_samples_with sweep fuel samples config = Some result.
Proof.
  intros Htotal Hcount. unfold align_samples_with.
  destruct (length samples =? 1)%nat; [exists 0%nat; eexists; reflexivity|].
  destruct (negb (existsb can_move samples)); [exists 0%nat; eexists; reflexivity|].
  pose proof size_t_modulus_value as Hm.
  destruct (Z.eq_dec (count_iteration config) 0) as [Hzero|Hpos].
  - exists (S (S (Z.to_nat (size_t_modulus - 3)))).
    rewrite Hzero, align_samples_loop_unfold.
    replace (wrap_size_t (0 - 1)) with (size_t_modulus - 1) by reflexivity.
    replace (1 <? size_t_modulus - 1) with true by reflexivity.
    destruct (sweep samples) as [[s1 mv]|] eqn:Es; [|exfalso; exact (Htotal _ Es)].
    destruct (mv <? minimal_move config); [eexists; reflexivity|].
    destruct (align_samples_loop_bounded sweep (minimal_move config)
                (Z.to_nat (size_t_modulus - 3)) (size_t_modulus - 1) s1 (0 + 1)
                (S (Z.to_nat (size_t_modulus - 3))) Htotal)
      as (s' & k' & Hrun & _); try lia.
    exists (s', k'). exact Hrun.
  - destruct (align_samples_loop_bounded sweep (minimal_move config)
                (Z.to_nat (count_iteration config)) (count_iteration config) samples 0
                (S (Z.to_nat (count_iteration config))) Htotal)
      as (s' & k' & Hrun & _); try lia.
    exists (S (Z.to_nat (count_iteration config))), (s', k'). exact Hrun.
Qed.

(** C3, the code at the failing input.  With [count_iteration = 0] the
    decrement [--count_iteration] wraps to [2^64 - 1]: on a sample set
    that has a movable point and sweeps that never move less than
    [minimal_move], [align_samples] makes [2^64 - 2] sweeps, not at most
    [count_iteration = 0]. *)
Theorem align_samples_zero_count_iteration
  (sweep : SupportIslandPoints -> option (SupportIslandPoints * Z))
  (samples : SupportIslandPoints) (config : SampleConfig) :
  count_iteration config = 0 ->
  length samples <> 1%nat ->
  existsb can_move samples = true ->
  (forall s, exists s' max_move,
      sweep s = Some (s', max_move) /\ minimal_move config <= max_move) ->
  exists fuel result,
    align_samples_with sweep fuel samples config = Some (result, 2 ^ 64 - 2).
Proof.
  intros Hcount Hlen Hmov Hsweep.
  exists (S (S (Z.to_nat (size_t_modulus - 3)))).
  unfold align_samples_with.
  destruct (length samples =? 1)%nat eqn:E; [apply Nat.eqb_eq in E; contradiction|].
  rewrite Hmov. cbn [negb]. rewrite Hcount.
  rewrite align_samples_loop_unfold.
  replace (wrap_size_t (0 - 1)) with (size_t_modulus - 1) by reflexivity.
  replace (1 <? size_t_modulus - 1) with true by reflexivity.
  destruct (Hsweep samples) as (s1 & mv & Es & Hmv). rewrite Es.
  destruct (mv <? minimal_move config) eqn:E2; [apply Z.ltb_lt in E2; lia|].
  pose proof size_t_modulus_value as Hm.
  destruct (align_samples_loop_exhausts sweep (minimal_move config)
              (Z.to_nat (size_t_modulus - 3)) (size_t_modulus - 1) s1 (0 + 1)
              (S (Z.to_nat (size_t_modulus - 3))) Hsweep) as (s' & Hrun);
    try lia.
  exists s'. rewrite Hrun. rewrite Z2Nat.id by lia.
  replace (0 + 1 + (size_t_modulus - 3)) with (2 ^ 64 - 2) by (rewrite Hm; reflexivity).
  reflexivity.
Qed.

Lemma align_samples_zero_count_iteration_witness :
  count_iteration zero_iteration_config = 0 /\
  length three_inner_points <> 1%nat /\
  existsb can_move three_inner_points = true /\
  (forall s, exists s' max_move,
      still_sweep s = Some (s', max_move) /\
      minimal_move zero_iteration_config <= max_move) /\
  exists fuel result,
    align_samples_with still_sweep fuel three_inner_points zero_iteration_config =
    Some (result, 2 ^ 64 - 2).
Proof.
  assert (Hsweep : forall s, exists s' max_move,
             still_sweep s = Some (s', max_move) /\
             minimal_move zero_iteration_config <= max_move).
  { intros s. exists s, 0. split; [reflexivity | simpl; lia]. }
  split; [reflexivity|]. split; [simpl; lia|]. split; [reflexivity|].
  split; [exact Hsweep|].
  apply (align_samples_zero_count_iteration still_sweep three_inner_points
           zero_iteration_config); [reflexivity | simpl; lia | reflexivity | exact Hsweep].
Defined.

(* ===================================================================== *)
(** * Properties of the duplicate resolution *)
(* ===================================================================== *)

Section InsertionSort.
Variable less : nat -> nat -> bool.
Hypothesis less_asym : forall a b, less a b = true -> less b a = false.
Hypothesis not_less_trans :
  forall a b c, less b a = false -> less c b = false -> less c a = false.

Lemma sort_insert_perm (x : nat) (l : list nat) :
  Permutation (sort_insert less x l) (x :: l).
Proof.
  induction l as [|y l IH]; cbn [sort_insert]; [reflexivity|].
  destruct (less x y); [reflexivity|].
  rewrite IH. apply perm_swap.
Qed.

Lemma std_sort_perm (l : list nat) : Permutation (std_sort less l) l.
Proof.
  unfold std_sort.
  assert (Hgen : forall acc, Permutation (fold_left (fun a x => sort_insert less x a) l acc)
                                         (acc ++ l)).
  { induction l as [|x l IH]; intros acc; cbn [fold_left].
    - rewrite app_nil_r. reflexivity.
    - rewrite IH, sort_insert_perm. apply Permutation_middle. }
  exact (Hgen []).
Qed.

Lemma sort_insert_sorted (x : nat) (l : list nat) :
  StronglySorted (fun a b => less b a = false) l ->
  StronglySorted (fun a b => less b a = false) (sort_insert less x l).
Proof.
  induction 1 as [|y l Hsorted IH Hall]; cbn [sort_insert].
  - constructor; constructor.
  - destruct (less x y) eqn:Hxy.
    + constructor; [constructor; assumption|].
      constructor; [apply less_asym; exact Hxy|].
      apply Forall_forall. intros z Hz. rewrite Forall_forall in Hall.
      apply not_less_trans with y; [apply less_asym; exact Hxy | apply Hall; exact Hz].
    + constructor; [exact IH|].
      apply Forall_forall. intros z Hz.
      apply (Permutation_in _ (sort_insert_perm x l)) in Hz.
      destruct Hz as [<-|Hz]; [exact Hxy|].
      rewrite Forall_forall in Hall. apply Hall. exact Hz.
Qed.

Lemma std_sort_sorted (l : list nat) :
  StronglySorted (fun a b => less b a = false) (std_sort less l).
Proof.
  unfold std_sort.
  assert (Hgen : forall acc,
             StronglySorted (fun a b => less b a = false) acc ->
             StronglySorted (fun a b => less b a = false)
               (fold_left (fun a x => sort_insert less x a) l acc)).
  { induction l as [|x l IH]; intros acc Hacc; cbn [fold_left]; [exact Hacc|].
    apply IH, sort_insert_sorted, Hacc. }
  apply Hgen. constructor.
Qed.

End InsertionSort.

Lemma cmp_index_asym (aligned : Points) (a b : nat) :
  cmp_index aligned a b = true -> cmp_index aligned b a = false.
Proof.
  unfold cmp_index.
  destruct (Z.ltb_spec (px (nth a aligned origin)) (px (nth b aligned origin)));
  destruct (Z.ltb_spec (px (nth b aligned origin)) (px (nth a aligned origin)));
  destruct (Z.eqb_spec (px (nth a aligned origin)) (px (nth b aligned origin)));
  destruct (Z.eqb_spec (px (nth b aligned origin)) (px (nth a aligned origin)));
  destruct (Z.ltb_spec (py (nth a aligned origin)) (py (nth b aligned origin)));
  destruct (Z.ltb_spec (py (nth b aligned origin)) (py (nth a aligned origin)));
  cbn; intros; try reflexivity; try discriminate; lia.
Qed.

Lemma cmp_index_not_less_trans (aligned : Points) (a b c : nat) :
  cmp_index aligned b a = false -> cmp_index aligned c b = false ->
  cmp_index aligned c a = false.
Proof.
  unfold cmp_index.
  destruct (Z.ltb_spec (px (nth b aligned origin)) (px (nth a aligned origin)));
  destruct (Z.eqb_spec (px (nth b aligned origin)) (px (nth a aligned origin)));
  destruct (Z.ltb_spec (py (nth b aligned origin)) (py (nth a aligned origin)));
  destruct (Z.ltb_spec (px (nth c aligned origin)) (px (nth b aligned origin)));
  destruct (Z.eqb_spec (px (nth c aligned origin)) (px (nth b aligned origin)));
  destruct (Z.ltb_spec (py (nth c aligned origin)) (py (nth b aligned origin)));
  destruct (Z.ltb_spec (px (nth c aligned origin)) (px (nth a aligned origin)));
  destruct (Z.eqb_spec (px (nth c aligned origin)) (px (nth a aligned origin)));
  destruct (Z.ltb_spec (py (nth c aligned origin)) (py (nth a aligned origin)));
  cbn; intros; try reflexivity; try discriminate; lia.
Qed.

Lemma cmp_index_strict (aligned : Points) (a b : nat) :
  cmp_index aligned b a = false ->
  point_eqb (nth a aligned origin) (nth b aligned origin) = false ->
  cmp_index aligned a b = true.
Proof.
  unfold cmp_index, point_eqb.
  destruct (Z.ltb_spec (px (nth b aligned origin)) (px (nth a aligned origin)));
  destruct (Z.eqb_spec (px (nth b aligned origin)) (px (nth a aligned origin)));
  destruct (Z.ltb_spec (py (nth b aligned origin)) (py (nth a aligned origin)));
  destruct (Z.ltb_spec (px (nth a aligned origin)) (px (nth b aligned origin)));
  destruct (Z.eqb_spec (px (nth a aligned origin)) (px (nth b aligned origin)));
  destruct (Z.eqb_spec (py (nth a aligned origin)) (py (nth b aligned origin)));
  destruct (Z.ltb_spec (py (nth a aligned origin)) (py (nth b aligned origin)));
  cbn; intros; try reflexivity; try discriminate; lia.
Qed.

Lemma cmp_index_irrefl_points (aligned : Points) (a b : nat) :
  cmp_index aligned a b = true -> nth a aligned origin <> nth b aligned origin.
Proof.
  unfold cmp_index. intros Hlt Heq. rewrite Heq in Hlt.
  rewrite Z.ltb_irrefl, Z.ltb_irrefl, andb_false_r in Hlt. discriminate.
Qed.

(** In sorted order, when the search for a duplicate finds none, the
    points named by the indices are pairwise distinct. *)
Lemma no_duplicit_index_NoDup (aligned : Points) (size : nat) :
  forall (rest : list nat) (first : nat),
    StronglySorted (fun a b => cmp_index aligned b a = false) (first :: rest) ->
    Forall (fun i => (i < size)%nat) rest ->
    (size <= get_duplicit_index_loop aligned (nth first aligned origin) rest size)%nat ->
    NoDup (map (fun i => nth i aligned origin) (first :: rest)) /\
    Forall (fun j => cmp_index aligned first j = true) rest.
Proof.
  induction rest as [|i rest IH]; intros first Hsorted Hsize Hnone.
  - split; [repeat constructor; intros [] | constructor].
  - cbn [get_duplicit_index_loop] in Hnone.
    inversion Hsize as [|? ? Hi Hrest]; subst.
    destruct (point_eqb (nth first aligned origin) (nth i aligned origin)) eqn:Heq; [lia|].
    inversion Hsorted as [|? ? Htail Hhead]; subst.
    destruct (IH i Htail Hrest Hnone) as [Hnodup Hlater].
    inversion Hhead as [|? ? Hfi Hfrest]; subst.
    pose proof (cmp_index_strict aligned first i Hfi Heq) as Hstrict.
    assert (Hall : Forall (fun j => cmp_index aligned first j = true) (i :: rest)).
    { constructor; [exact Hstrict|].
      rewrite Forall_forall in *. intros j Hj.
      specialize (Hlater j Hj). specialize (Hfrest j Hj).
      destruct (cmp_index aligned first j) eqn:Hfj; [reflexivity|].
      (* j <= first and first <= i give j <= i, against i < j *)
      pose proof (cmp_index_not_less_trans aligned j first i) as Ht.
      rewrite (cmp_index_asym aligned first i Hstrict) in Ht.
      rewrite Ht in Hlater; [discriminate | exact Hfj | reflexivity]. }
    split; [|exact Hall].
    change (map (fun i0 => nth i0 aligned origin) (first :: i :: rest))
      with (nth first aligned origin :: map (fun i0 => nth i0 aligned origin) (i :: rest)).
    constructor; [|exact Hnodup].
    intros Hin. apply in_map_iff in Hin as (j & Hj & Hjin).
    rewrite Forall_forall in Hall.
    exact (cmp_index_irrefl_points aligned first j (Hall j Hjin) (eq_sym Hj)).
Qed.

Lemma map_set_nth {A B : Type} (f : A -> B) (i : nat) (x : A) (l : list A) :
  map f (set_nth i x l) = set_nth i (f x) (map f l).
Proof.
  revert i; induction l as [|y l IH]; intros [|i]; cbn; try reflexivity.
  rewrite IH. reflexivity.
Qed.

Lemma length_set_nth {A : Type} (i : nat) (x : A) (l : list A) :
  length (set_nth i x l) = length l.
Proof.
  revert i; induction l as [|y l IH]; intros [|i]; cbn; try reflexivity.
  rewrite IH. reflexivity.
Qed.

Lemma map_nth_seq (aligned : Points) :
  map (fun i => nth i aligned origin) (seq 0 (length aligned)) = aligned.
Proof.
  apply nth_ext with (d := origin) (d' := origin).
  - rewrite length_map, length_seq. reflexivity.
  - intros n Hn. rewrite length_map, length_seq in Hn.
    rewrite (nth_indep _ origin (nth 0 aligned origin)) by (rewrite length_map, length_seq; exact Hn).
    rewrite (map_nth (fun i => nth i aligned origin)), seq_nth by exact Hn. reflexivity.
Qed.

(** When the loop of [move_duplicit_positions] ends, the positions of the
    supports are pairwise distinct. *)
Lemma move_duplicit_positions_loop_distinct `{Collaborators}
  (prev_position : Points) :
  forall (fuel : nat) (supports : SupportIslandPoints) (sorted : list nat)
         (result : SupportIslandPoints),
    Permutation sorted (seq 0 (length supports)) ->
    StronglySorted (fun a b => cmp_index (to_points supports) b a = false) sorted ->
    move_duplicit_positions_loop fuel supports (to_points supports) sorted
      prev_position = Some result ->
    distinct_positions result.
Proof.
  induction fuel as [|fuel IH]; intros supports sorted result Hperm Hsorted Hrun;
    [discriminate|].
  cbn [move_duplicit_positions_loop] in Hrun.
  destruct (Nat.leb_spec (length sorted) (get_duplicit_index sorted (to_points supports)))
    as [Hnone|Hfound].
  - injection Hrun as <-. unfold distinct_positions.
    assert (Hpoints : Permutation
                        (map (fun i => nth i (to_points supports) origin) sorted)
                        (to_points supports)).
    { pose proof (map_nth_seq (to_points supports)) as Hseq.
      unfold to_points in Hseq at 2. rewrite length_map in Hseq.
      eapply Permutation_trans; [apply Permutation_map; exact Hperm|].
      rewrite Hseq. reflexivity. }
    apply (Permutation_NoDup Hpoints).
    destruct sorted as [|first rest]; [constructor|].
    cbn [get_duplicit_index] in Hnone.
    apply (no_duplicit_index_NoDup (to_points supports) (length (first :: rest)) rest first
             Hsorted); [|exact Hnone].
    apply Forall_forall. intros i Hi.
    assert (Hin : In i (seq 0 (length supports)))
      by (apply (Permutation_in _ Hperm); right; exact Hi).
    apply in_seq in Hin. rewrite (Permutation_length Hperm), length_seq. lia.
  - set (d := get_duplicit_index sorted (to_points supports)) in *.
    destruct (nth_error supports d) as [support|]; [|discriminate].
    destruct (move support _) as [support' move_distance].
    assert (Hpoints : set_nth d (point support') (to_points supports) =
                      to_points (set_nth d support' supports)).
    { unfold to_points. rewrite map_set_nth. reflexivity. }
    rewrite Hpoints in Hrun.
    apply IH in Hrun; [exact Hrun | |].
    + rewrite length_set_nth.
      rewrite std_sort_perm. exact Hperm.
    + apply std_sort_sorted;
        [apply cmp_index_asym | apply cmp_index_not_less_trans].
Qed.

Lemma move_duplicit_positions_distinct `{Collaborators}
  (fuel : nat) (supports : SupportIslandPoints) (prev_position : Points)
  (result : SupportIslandPoints) :
  move_duplicit_positions fuel supports prev_position = Some result ->
  distinct_positions result.
Proof.
  unfold move_duplicit_positions. intros Hrun.
  refine (move_duplicit_positions_loop_distinct prev_position fuel supports
            (std_sort (cmp_index (to_points supports))
               (seq 0 (length (to_points supports)))) result _ _ Hrun).
  - unfold to_points at 2. rewrite length_map. apply std_sort_perm.
  - apply std_sort_sorted; [apply cmp_index_asym | apply cmp_index_not_less_trans].
Qed.

(** A sweep of [align_once] that returns leaves pairwise distinct
    positions. *)
Lemma align_once_distinct `{Collaborators}
  (fuel : nat) (supports : SupportIslandPoints) (island : ExPolygon)
  (config : SampleConfig) (result : SupportIslandPoints) (max_move : Z) :
  align_once fuel supports island config = Some (result, max_move) ->
  distinct_positions result.
Proof.
  unfold align_once. intros Hrun.
  destruct (align_once_loop _ _ _ _ _) as [moved m].
  destruct (move_duplicit_positions fuel moved (to_points supports)) as [r|] eqn:Hdup;
    [|discriminate].
  injection Hrun as <- _.
  exact (move_duplicit_positions_distinct _ _ _ _ Hdup).
Qed.

Lemma point_eqb_refl (p : Point) : point_eqb p p = true.
Proof. unfold point_eqb. rewrite !Z.eqb_refl. reflexivity. Qed.



(* ===================================================================== *)
(** * Properties of the two-point case *)
(* ===================================================================== *)

Section TwoPoints.
Context `{Collaborators}.
Variable lines : Lines.
Variables width cap : Z.

Lemma distance_before_cons (e : Neighbor) (edges : list Neighbor) (k : nat) :
  distance_before (e :: edges) (S k) = coord_length e + distance_before edges k.
Proof. reflexivity. Qed.

Lemma distance_before_all (edges : list Neighbor) (k : nat) :
  distance_before edges (length edges + k) =
  fold_right Z.add 0 (map coord_length edges).
Proof.
  unfold distance_before. rewrite firstn_all2 by lia. reflexivity.
Qed.

(** The loop, entered at the neighbor after the prefix [done] of the
    neighbors of the path, finds the first position with the wanted width
    before the cap, or the position at the cap. *)
Lemma create_position_on_path_width_loop_spec (path : list Node) :
  forall (prev_node : Node) (rest all done : list Neighbor),
    path_neighbors prev_node path = Some rest ->
    all = done ++ rest ->
    rest <> [] ->
    cap <= distance_before all (length all) ->
    (forall (j : nat) (ej : Neighbor),
        (j < length done)%nat -> nth_error all j = Some ej ->
        width_reached lines width cap (distance_before all j) ej = false /\
        distance_before all (S j) < cap) ->
    exists position d,
      create_position_on_path_width_loop path prev_node
        (distance_before all (length done)) lines width cap = Some (position, d) /\
      first_width_or_cap lines width cap all position d.
Proof.
  induction path as [|node path IH];
    intros prev_node rest all done Hpath Hall Hne Hcap Hdone.
  - simpl in Hpath. injection Hpath as <-. contradiction.
  - cbn [path_neighbors] in Hpath.
    destruct (get_neighbor prev_node node) as [e|] eqn:Hnb; [|discriminate].
    destruct (path_neighbors node path) as [rest'|] eqn:Hrest; [|discriminate].
    injection Hpath as <-.
    assert (Hk : nth_error all (length done) = Some e).
    { rewrite Hall, nth_error_app2 by lia. rewrite Nat.sub_diag. reflexivity. }
    assert (Hnext : distance_before all (S (length done)) =
                    distance_before all (length done) + coord_length e).
    { rewrite Hall. unfold distance_before.
      replace (S (length done)) with (length done + 1)%nat by lia.
      rewrite firstn_app_2. rewrite firstn_app, firstn_all, Nat.sub_diag.
      cbn [firstn]. rewrite app_nil_r, !map_app, !fold_right_app.
      cbn [map fold_right].
      generalize (map coord_length done) as l. intros l.
      induction l as [|x l IHl]; cbn [fold_right]; lia. }
    cbn [create_position_on_path_width_loop]. rewrite Hnb.
    destruct (width_reached lines width cap (distance_before all (length done)) e)
      eqn:Hw.
    + (* the wanted width is met before the cap *)
      pose proof Hw as Hw'. unfold width_reached in Hw'.
      apply andb_true_iff in Hw' as [Hw1 Hw2].
      rewrite Hw1, Hw2.
      eexists _, _. split; [reflexivity|].
      exists (length done), e. split; [exact Hk|].
      split; [exact Hdone|]. left.
      split; [exact Hw|]. split; [reflexivity|]. split; [reflexivity|].
      apply Z.ltb_lt in Hw2. exact Hw2.
    + assert (Hfound :
        (if width <=? n_max_width e
         then
           if distance_before all (length done) +
              calc_distance (get_position_with_width e width lines) <? cap
           then Some (get_position_with_width e width lines,
                      distance_before all (length done) +
                      calc_distance (get_position_with_width e width lines))
           else None
         else None) = None).
      { unfold width_reached in Hw.
        destruct (width <=? n_max_width e); [|reflexivity].
        cbn [andb] in Hw. rewrite Hw. reflexivity. }
      rewrite Hfound. fold (coord_length e). rewrite <- Hnext.
      destruct (cap <=? distance_before all (S (length done))) eqn:Hc;
        [apply Z.leb_le in Hc | apply Z.leb_gt in Hc].
      * (* the cap lies on this neighbor *)
        eexists _, _. split; [reflexivity|].
        exists (length done), e. split; [exact Hk|].
        split; [exact Hdone|]. right.
        split; [exact Hw|]. split; [exact Hc|]. split; reflexivity.
      * (* go on with the next neighbor *)
        assert (Hlen : length (done ++ [e]) = S (length done)).
        { rewrite length_app. simpl. lia. }
        destruct (IH node rest' all (done ++ [e]) Hrest) as (position & d & Hrun & Hspec).
        { rewrite Hall, <- app_assoc. reflexivity. }
        { intros ->. rewrite Hall in Hcap, Hc.
          rewrite <- Hlen in Hc. lia. }
        { exact Hcap. }
        { intros j ej Hj Hnth. rewrite Hlen in Hj.
          destruct (Nat.eq_dec j (length done)) as [->|Hneq].
          - rewrite Hk in Hnth. injection Hnth as <-. split; [exact Hw | exact Hc].
          - apply Hdone; [lia | exact Hnth]. }
        rewrite Hlen in Hrun.
        exists position, d. split; [exact Hrun | exact Hspec].
Qed.

End TwoPoints.

Lemma create_position_on_path_width_spec `{Collaborators}
  (lines : Lines) (width cap : Z) (path : list Node) (edges : list Neighbor) :
  edges_of_path path = Some edges ->
  edges <> [] ->
  cap <= distance_before edges (length edges) ->
  exists position d,
    create_position_on_path_width path lines width cap = Some (position, d) /\
    first_width_or_cap lines width cap edges position d /\
    d <= cap.
Proof.
  intros Hedges Hne Hcap.
  destruct path as [|first path]; [discriminate|].
  cbn [edges_of_path] in Hedges.
  destruct (create_position_on_path_width_loop_spec lines width cap path
              first edges edges [] Hedges eq_refl Hne Hcap)
    as (position & d & Hrun & Hspec).
  { intros j ej Hj. simpl in Hj. lia. }
  exists position, d. split; [exact Hrun|]. split; [exact Hspec|].
  destruct Hspec as (k & e & _ & _ & [(_ & _ & _ & Hd) | (_ & _ & _ & Hd)]); lia.
Qed.



(* ===================================================================== *)
(** * Properties of the peninsula entry point *)
(* ===================================================================== *)

(** C10.  When the inward offset of the unsupported area by
    [minimal_distance_from_outline] is empty, [uniform_support_peninsula]
    returns the empty list.  The result does not depend on the fuel, not
    even on there being any: nothing is sampled and no alignment sweep is
    made; and it is a result, not a failure. *)
Theorem uniform_support_peninsula_no_inner `{Collaborators}
  (fuel : nat) (peninsula : Peninsula) (config : SampleConfig) :
  offset (unsuported_area peninsula)
         (- inject_Z (minimal_distance_from_outline config))%Q = [] ->
  outline_offset (unsuported_area peninsula)
    (inject_Z (minimal_distance_from_outline config)) = (empty_expolygon, []) /\
  uniform_support_peninsula fuel peninsula config = Some [].
Proof.
  intros Hoffset.
  assert (Hout : outline_offset (unsuported_area peninsula)
                   (inject_Z (minimal_distance_from_outline config)) =
                 (empty_expolygon, [])).
  { unfold outline_offset. rewrite Hoffset. reflexivity. }
  split; [exact Hout|].
  unfold uniform_support_peninsula. rewrite Hout. reflexivity.
Qed.

Lemma uniform_support_peninsula_no_inner_witness :
  offset (Collaborators := plain_collaborators) (unsuported_area small_peninsula)
         (- inject_Z (minimal_distance_from_outline example_config))%Q = [] /\
  uniform_support_peninsula (H := plain_collaborators) 0 small_peninsula example_config =
  Some [].
Proof.
  split; [reflexivity|].
  exact (proj2 (uniform_support_peninsula_no_inner (H := plain_collaborators)
                  0 small_peninsula example_config eq_refl)).
Defined.

(* ===================================================================== *)
(** * Properties of the segmentation *)
(* ===================================================================== *)

Lemma nth_error_modify_nth_eq {A : Type} (f : A -> A) (l : list A) (i : nat) (x : A) :
  nth_error l i = Some x -> nth_error (modify_nth i f l) i = Some (f x).
Proof.
  revert i; induction l as [|y l IH]; intros [|i] Hx; simpl in *; try discriminate.
  - injection Hx as ->. reflexivity.
  - apply IH. exact Hx.
Qed.

Lemma nth_error_modify_nth_ne {A : Type} (f : A -> A) (l : list A) (i j : nat) :
  i <> j -> nth_error (modify_nth i f l) j = nth_error l j.
Proof.
  revert i j; induction l as [|y l IH]; intros [|i] [|j] Hne; simpl; try reflexivity.
  - contradiction.
  - apply IH. lia.
Qed.

Lemma length_modify_nth {A : Type} (f : A -> A) (l : list A) (i : nat) :
  length (modify_nth i f l) = length l.
Proof.
  revert i; induction l as [|y l IH]; intros [|i]; simpl; try reflexivity.
  rewrite IH. reflexivity.
Qed.

Lemma map_modify_nth {A B : Type} (g : A -> B) (f : A -> A) (l : list A) (i : nat) :
  (forall x, g (f x) = g x) -> map g (modify_nth i f l) = map g l.
Proof.
  intros Hg. revert i; induction l as [|x l IH]; intros [|i]; simpl; try reflexivity.
  - now rewrite Hg.
  - now rewrite IH.
Qed.

Lemma same_part_goes_on (island_parts : IslandParts) (index : nat) (neighbor : Neighbor) :
  exists after,
    same_part island_parts index neighbor = Some after /\
    goes_on (island_parts, index) after.
Proof.
  eexists. split; [reflexivity|]. split; [reflexivity|].
  cbn [fst]. apply map_modify_nth. reflexivity.
Qed.

(** [add_part] at the index of a part, with the twin of the neighbor in
    the graph, makes one crossing and returns the index of a part. *)
Lemma add_part_crossing `{Collaborators} (g : VoronoiGraph) (island_parts : IslandParts)
  (index : nat) (to_type : IslandPartType) (neighbor twin : Neighbor) (limit : Z)
  (lines : Lines) (config : SampleConfig) :
  get_twin g neighbor = Some twin ->
  (index < length island_parts)%nat ->
  exists after,
    add_part g island_parts index to_type neighbor limit lines config = Some after /\
    crossing twin neighbor lines config to_type limit (island_parts, index) after /\
    (snd after < length (fst after))%nat.
Proof.
  intros Htwin Hindex. unfold add_part, crossing. rewrite Htwin.
  destruct (ends_in_distanace _ _).
  { eexists. split; [reflexivity|]. split; [reflexivity | exact Hindex]. }
  set (position := get_position_with_width neighbor limit lines).
  cbn [fst snd].
  destruct ((length island_parts =? 1)%nat &&
            ends_in_distanace (mkPosition twin (1 - pos_ratio position))
              (min_part_length config)) eqn:Hfirst.
  - eexists. split; [reflexivity|]. cbn [fst snd]. split.
    + exists (1 - pos_ratio position)%Q. cbn zeta. rewrite Hfirst.
      split; [reflexivity|]. cbn [fst].
      apply andb_true_iff in Hfirst as [Hone _]. apply Nat.eqb_eq in Hone.
      destruct island_parts as [|part [|]]; try discriminate.
      exists part. split; reflexivity.
    + rewrite length_modify_nth. exact Hindex.
  - eexists. split; [reflexivity|]. cbn [fst snd]. split.
    + exists (1 - pos_ratio position)%Q. cbn zeta. rewrite Hfirst.
      unfold appended. cbn [fst snd].
      split; [reflexivity|].
      split; [rewrite length_app, length_modify_nth; simpl; lia|].
      split; [|split].
      * rewrite nth_error_app2 by (rewrite length_modify_nth; lia).
        rewrite length_modify_nth, Nat.sub_diag. reflexivity.
      * intros part Hpart.
        rewrite nth_error_app1 by (rewrite length_modify_nth; exact Hindex).
        rewrite (nth_error_modify_nth_eq _ _ _ _ Hpart). reflexivity.
      * intros i Hne Hi.
        rewrite nth_error_app1 by (rewrite length_modify_nth; exact Hi).
        rewrite nth_error_modify_nth_ne by congruence. reflexivity.
    + rewrite length_app, length_modify_nth. simpl. lia.
Qed.




(** A crossing close to the contour: the transition is suppressed and the
    middle part goes on as the current part. *)
Example detect_interface_suppressed :
  detect_interface (H := near_collaborators) taper_graph thin_then_middle 1
    taper_01 [] example_config = Some (thin_then_middle, 1%nat).
Proof. reflexivity. Qed.

Lemma nth_error_erase_nth_lt {A : Type} (l : list A) (i j : nat) :
  (j < i)%nat -> nth_error (erase_nth i l) j = nth_error l j.
Proof.
  revert i j; induction l as [|y l IH]; intros [|i] [|j] Hlt; simpl; try reflexivity; try lia.
  apply IH. lia.
Qed.

Lemma length_erase_nth {A : Type} (l : list A) (i : nat) :
  (i < length l)%nat -> length (erase_nth i l) = (length l - 1)%nat.
Proof.
  revert i; induction l as [|y l IH]; intros [|i] Hlt; simpl in *; try lia.
  rewrite IH by lia. lia.
Qed.

(** [std::max_element] over a comparison of integer keys returns the first
    of the elements with the greatest key. *)
Lemma max_element_from_first_greatest {A : Type} (key : A -> Z) :
  forall (rest before_largest after_largest : list A) (largest : A),
    (forall c, In c before_largest -> key c < key largest) ->
    (forall c, In c after_largest -> key c <= key largest) ->
    exists before after,
      before_largest ++ largest :: after_largest ++ rest =
      before ++ max_element_from (fun a b => key a <? key b) largest rest :: after /\
      (forall c, In c before ->
                 key c < key (max_element_from (fun a b => key a <? key b) largest rest)) /\
      (forall c, In c after ->
                 key c <= key (max_element_from (fun a b => key a <? key b) largest rest)).
Proof.
  induction rest as [|x rest IH]; intros P Q largest HP HQ; cbn [max_element_from].
  - exists P, Q. rewrite app_nil_r. auto.
  - destruct (Z.ltb_spec (key largest) (key x)) as [Hlt|Hge].
    + destruct (IH (P ++ largest :: Q) [] x) as (before & after & Heq & Hb & Ha).
      * intros c Hc. apply in_app_or in Hc as [Hc|[<-|Hc]].
        -- specialize (HP c Hc). lia.
        -- exact Hlt.
        -- specialize (HQ c Hc). lia.
      * intros c [].
      * exists before, after. split; [|auto].
        rewrite <- Heq, <- app_assoc. reflexivity.
    + destruct (IH P (Q ++ [x]) largest HP) as (before & after & Heq & Hb & Ha).
      * intros c Hc. apply in_app_or in Hc as [Hc|[<-|[]]]; [auto | exact Hge].
      * exists before, after. split; [|auto].
        rewrite <- Heq, <- app_assoc. reflexivity.
Qed.

Lemma merge_island_parts_type (island_parts : IslandParts) (index remove_index : nat)
  (part remove_part : IslandPart) :
  (index < remove_index)%nat ->
  nth_error island_parts index = Some part ->
  nth_error island_parts remove_index = Some remove_part ->
  exists merged_parts merged,
    merge_island_parts island_parts index remove_index = Some merged_parts /\
    length merged_parts = (length island_parts - 1)%nat /\
    nth_error merged_parts index = Some merged /\
    part_type merged = part_type part /\
    sum_lengths merged = sum_lengths part.
Proof.
  intros Hlt Hpart Hremove. unfold merge_island_parts.
  destruct (Nat.eqb_spec index remove_index) as [Heq|_]; [lia|].
  rewrite Hpart, Hremove.
  eexists _, _. split; [reflexivity|].
  assert (Hlen : (remove_index < length island_parts)%nat).
  { apply nth_error_Some. rewrite Hremove. discriminate. }
  split.
  - rewrite length_map, length_erase_nth; rewrite length_modify_nth; [reflexivity | exact Hlen].
  - rewrite nth_error_map, nth_error_erase_nth_lt by exact Hlt.
    rewrite (nth_error_modify_nth_eq _ _ _ _ Hpart). cbn [option_map].
    split; [reflexivity|]. split; reflexivity.
Qed.

Lemma nth_error_erase_nth_ge {A : Type} (l : list A) (i j : nat) :
  (i <= j)%nat -> nth_error (erase_nth i l) j = nth_error l (S j).
Proof.
  revert i j; induction l as [|y l IH]; intros i j Hle.
  - destruct i, j; reflexivity.
  - destruct i as [|i]; [reflexivity|].
    destruct j as [|j]; [lia|].
    cbn [erase_nth nth_error]. apply IH. lia.
Qed.

Lemma max_element_from_In {A : Type} (comp : A -> A -> bool) (rest : list A) (largest : A) :
  In (max_element_from comp largest rest) (largest :: rest).
Proof.
  revert largest; induction rest as [|x rest IH]; intros largest; cbn [max_element_from].
  - left. reflexivity.
  - destruct (comp largest x).
    + right. apply IH.
    + destruct (IH largest) as [Heq|Hin]; [left; exact Heq | right; right; exact Hin].
Qed.

(** Merging two well linked parts leaves the island parts well linked,
    with one part less. *)
Lemma merge_island_parts_well_linked (island_parts : IslandParts)
  (index remove_index : nat) :
  (index < remove_index)%nat -> (remove_index < length island_parts)%nat ->
  well_linked island_parts ->
  exists merged_parts,
    merge_island_parts island_parts index remove_index = Some merged_parts /\
    length merged_parts = (length island_parts - 1)%nat /\
    well_linked merged_parts.
Proof.
  intros Hlt Hlen Hwl. unfold merge_island_parts.
  destruct (Nat.eqb_spec index remove_index) as [Heq|_]; [lia|].
  destruct (nth_error island_parts index) as [part|] eqn:Hpart;
    [|apply nth_error_None in Hpart; lia].
  destruct (nth_error island_parts remove_index) as [remove_part|] eqn:Hremove;
    [|apply nth_error_None in Hremove; lia].
  eexists. split; [reflexivity|].
  assert (Hlength : forall f : IslandPart -> IslandPart,
             length (erase_nth remove_index (modify_nth index f island_parts)) =
             (length island_parts - 1)%nat).
  { intros f. rewrite length_erase_nth; rewrite length_modify_nth; [reflexivity | exact Hlen]. }
  split; [rewrite length_map; apply Hlength|].
  intros k p c Hk Hc. rewrite length_map, Hlength.
  rewrite nth_error_map in Hk.
  destruct (nth_error (erase_nth remove_index _) k) as [q|] eqn:Hq; [|discriminate].
  injection Hk as <-. cbn [changes] in Hc.
  apply in_map_iff in Hc as (c0 & <- & Hc0).
  assert (Hsource : exists k0,
             nth_error (modify_nth index
                          (fun p0 => mkIslandPart (part_type p0)
                             (filter (fun c1 => negb (points_to remove_index c1)) (changes part) ++
                              filter (fun c1 => negb (points_to index c1)) (changes remove_part))
                             (sum_lengths p0)) island_parts) k0 = Some q /\
             k0 <> remove_index /\
             k = (if (k0 <? remove_index)%nat then k0 else (k0 - 1)%nat)).
  { destruct (Nat.ltb_spec k remove_index) as [Hkr|Hkr].
    - exists k. rewrite nth_error_erase_nth_lt in Hq by exact Hkr.
      split; [exact Hq|]. split; [lia|].
      destruct (Nat.ltb_spec k remove_index); [reflexivity | lia].
    - exists (S k). rewrite nth_error_erase_nth_ge in Hq by exact Hkr.
      split; [exact Hq|]. split; [lia|].
      destruct (Nat.ltb_spec (S k) remove_index); lia. }
  destruct Hsource as (k0 & Hk0 & Hk0r & Hkk0).
  assert (Htarget : (part_index c0 < length island_parts)%nat /\
                    part_index c0 <> k0 /\
                    (k0 = index -> part_index c0 <> remove_index)).
  { destruct (Nat.eq_dec k0 index) as [->|Hne].
    - rewrite (nth_error_modify_nth_eq _ _ _ _ Hpart) in Hk0. injection Hk0 as <-.
      cbn [changes] in Hc0. apply in_app_or in Hc0 as [Hc0|Hc0];
        apply filter_In in Hc0 as [Hin Hfilter]; unfold points_to in Hfilter;
        apply negb_true_iff, Nat.eqb_neq in Hfilter.
      + destruct (Hwl _ _ _ Hpart Hin). auto.
      + destruct (Hwl _ _ _ Hremove Hin). auto.
    - rewrite nth_error_modify_nth_ne in Hk0 by lia.
      destruct (Hwl _ _ _ Hk0 Hc0). split; [assumption|]. split; [assumption|]. contradiction. }
  destruct Htarget as (Ht1 & Ht2 & Ht3).
  assert (Hcases : ((k0 < remove_index)%nat /\ k = k0) \/
                   ((remove_index < k0)%nat /\ k = (k0 - 1)%nat)).
  { destruct (Nat.ltb_spec k0 remove_index); [left | right]; lia. }
  clear Hkk0. unfold fix_index.
  destruct (Nat.eqb_spec (part_index c0) remove_index) as [Hr|Hr]; cbn [part_index].
  - assert (k0 <> index) by (intros ->; exact (Ht3 eq_refl Hr)). lia.
  - destruct (Nat.ltb_spec remove_index (part_index c0)); cbn [part_index]; lia.
Qed.

Lemma set_part_type_well_linked (island_parts : IslandParts) (index : nat)
  (t : IslandPartType) :
  well_linked island_parts ->
  well_linked (modify_nth index (set_part_type t) island_parts).
Proof.
  intros Hwl k p c Hk Hc. rewrite length_modify_nth.
  destruct (Nat.eq_dec index k) as [->|Hne].
  - destruct (nth_error island_parts k) as [q|] eqn:Hq.
    + rewrite (nth_error_modify_nth_eq _ _ _ _ Hq) in Hk. injection Hk as <-.
      exact (Hwl _ _ _ Hq Hc).
    + apply nth_error_None in Hq.
      assert (Hnone : nth_error (modify_nth k (set_part_type t) island_parts) k = None)
        by (apply nth_error_None; rewrite length_modify_nth; exact Hq).
      congruence.
  - rewrite nth_error_modify_nth_ne in Hk by exact Hne. exact (Hwl _ _ _ Hk Hc).
Qed.

(** On well linked island parts the loop of
    [merge_middle_parts_into_biggest_neighbor] returns: a turn either
    steps to the next index or removes a part. *)
Lemma merge_middle_parts_loop_terminates :
  forall (fuel : nat) (island_parts : IslandParts) (index : nat),
    well_linked island_parts ->
    (index <= length island_parts)%nat ->
    (2 * length island_parts - index < fuel)%nat ->
    exists merged_parts,
      merge_middle_parts_loop fuel island_parts index = Some merged_parts.
Proof.
  induction fuel as [|fuel IH]; intros island_parts index Hwl Hindex Hfuel; [lia|].
  cbn [merge_middle_parts_loop].
  destruct (nth_error island_parts index) as [part|] eqn:Hpart;
    [|eexists; reflexivity].
  assert (Hlt : (index < length island_parts)%nat)
    by (apply nth_error_Some; rewrite Hpart; discriminate).
  destruct (part_type part); try (apply IH; [exact Hwl | lia | lia]).
  destruct (changes part) as [|first rest] eqn:Hchanges; cbn [max_element];
    [apply IH; [exact Hwl | lia | lia]|].
  set (max_change := max_element_from (less_sum_lengths island_parts) first rest).
  destruct (Hwl index part max_change Hpart) as [Hbound Hself].
  { rewrite Hchanges. apply max_element_from_In. }
  unfold merge_middle_part.
  destruct (nth_error island_parts (part_index max_change)) as [neighbor_part|] eqn:Hn;
    [|apply nth_error_None in Hn; lia].
  pose proof (set_part_type_well_linked island_parts index (part_type neighbor_part) Hwl)
    as Hwl'.
  destruct (Nat.ltb_spec (part_index max_change) index) as [Hlow|Hhigh].
  - destruct (merge_island_parts_well_linked
                (modify_nth index (set_part_type (part_type neighbor_part)) island_parts)
                (part_index max_change) index Hlow
                ltac:(rewrite length_modify_nth; exact Hlt) Hwl')
      as (merged & Hmerge & Hlen & Hwlm).
    rewrite Hmerge. rewrite length_modify_nth in Hlen.
    apply IH; [exact Hwlm | lia | lia].
  - destruct (merge_island_parts_well_linked
                (modify_nth index (set_part_type (part_type neighbor_part)) island_parts)
                index (part_index max_change) ltac:(lia)
                ltac:(rewrite length_modify_nth; exact Hbound) Hwl')
      as (merged & Hmerge & Hlen & Hwlm).
    rewrite Hmerge. rewrite length_modify_nth in Hlen.
    apply IH; [exact Hwlm | lia | lia].
Qed.




(* ===================================================================== *)
(** * Samples at a fixed spacing *)
(* ===================================================================== *)

Section ArcSamples.
Variable spacing : Z.
Hypothesis spacing_pos : 0 < spacing.

Lemma sample_count_none (first total : Z) :
  total <= first -> sample_count spacing first total = 0%nat.
Proof.
  intros Hle. unfold sample_count.
  destruct (Z.ltb_spec first total); [lia | reflexivity].
Qed.

Lemma sample_count_next (first total : Z) :
  first < total ->
  sample_count spacing first total = S (sample_count spacing (first + spacing) total).
Proof.
  intros Hlt. unfold sample_count.
  destruct (Z.ltb_spec first total) as [_|]; [|lia].
  destruct (Z.ltb_spec (first + spacing) total) as [Hlt2|Hge].
  - replace (total - first - 1) with ((total - (first + spacing) - 1) + 1 * spacing) by lia.
    rewrite Z.div_add by lia.
    assert (0 <= (total - (first + spacing) - 1) / spacing)
      by (apply Z.div_pos; lia).
    rewrite <- Z2Nat.inj_succ by lia. apply f_equal. lia.
  - rewrite Z.div_small by lia. reflexivity.
Qed.

Lemma arc_samples_none (first total : Z) :
  total <= first -> arc_samples spacing first total = [].
Proof.
  intros Hle. unfold arc_samples. rewrite sample_count_none by exact Hle. reflexivity.
Qed.

Lemma arc_samples_next (first total : Z) :
  first < total ->
  arc_samples spacing first total = first :: arc_samples spacing (first + spacing) total.
Proof.
  intros Hlt. unfold arc_samples. rewrite sample_count_next by exact Hlt.
  cbn [seq map]. f_equal; [lia|].
  rewrite <- seq_shift, map_map. apply map_ext. intros k. lia.
Qed.

Lemma arc_samples_shift (first total shift : Z) :
  arc_samples spacing (first + shift) (total + shift) =
  map (fun a => a + shift) (arc_samples spacing first total).
Proof.
  unfold arc_samples, sample_count.
  replace (total + shift - (first + shift) - 1) with (total - first - 1) by lia.
  destruct (Z.ltb_spec first total), (Z.ltb_spec (first + shift) (total + shift));
    try lia; [|reflexivity].
  rewrite map_map. apply map_ext. intros k. lia.
Qed.

Lemma arc_samples_in (first total a : Z) :
  In a (arc_samples spacing first total) -> first <= a < total.
Proof.
  unfold arc_samples, sample_count. intros Hin.
  apply in_map_iff in Hin as (k & <- & Hk). apply in_seq in Hk.
  destruct (Z.ltb_spec first total) as [Hlt|]; [|simpl in Hk; lia].
  assert (Hdiv : 0 <= (total - first - 1) / spacing) by (apply Z.div_pos; lia).
  assert (Hk' : Z.of_nat k <= (total - first - 1) / spacing) by lia.
  pose proof (Z.mul_div_le (total - first - 1) spacing spacing_pos).
  nia.
Qed.

Lemma sample_count_bound (first total : Z) :
  0 <= first -> 0 <= total ->
  (sample_count spacing first total <= Z.to_nat (total / spacing) + 1)%nat.
Proof.
  intros Hf Ht. unfold sample_count.
  destruct (Z.ltb_spec first total) as [Hlt|]; [|lia].
  assert (Hdiv : (total - first - 1) / spacing <= total / spacing).
  { apply Z.div_le_mono; lia. }
  assert (0 <= (total - first - 1) / spacing) by (apply Z.div_pos; lia).
  lia.
Qed.

(** The samples of a sequence are those of its first part followed by
    those of the rest, counted from the end of the first part. *)
Lemma arc_samples_split (n : nat) :
  forall (first len rest : Z),
    sample_count spacing first len = n -> 0 <= rest ->
    arc_samples spacing first (len + rest) =
    arc_samples spacing first len ++
    map (fun a => a + len)
        (arc_samples spacing (first + Z.of_nat n * spacing - len) rest).
Proof.
  induction n as [|n IH]; intros first len rest Hn Hrest.
  - assert (Hge : len <= first).
    { destruct (Z.ltb_spec first len) as [Hlt|]; [|lia].
      rewrite sample_count_next in Hn by exact Hlt. discriminate. }
    rewrite (arc_samples_none first len Hge). cbn [app].
    rewrite <- arc_samples_shift. f_equal; lia.
  - assert (Hlt : first < len).
    { destruct (Z.ltb_spec first len) as [|Hge]; [assumption|].
      rewrite sample_count_none in Hn by exact Hge. discriminate. }
    rewrite sample_count_next in Hn by exact Hlt. injection Hn as Hn.
    rewrite (arc_samples_next first len Hlt).
    rewrite (arc_samples_next first (len + rest)) by lia.
    cbn [app]. f_equal.
    rewrite (IH (first + spacing) len rest Hn Hrest).
    do 3 f_equal. lia.
Qed.

End ArcSamples.

Lemma sample_count_end (spacing first total : Z) :
  0 < spacing ->
  total <= first + Z.of_nat (sample_count spacing first total) * spacing.
Proof.
  intros Hpos. unfold sample_count.
  destruct (Z.ltb_spec first total) as [Hlt|]; [|simpl; lia].
  assert (Hdiv : 0 <= (total - first - 1) / spacing) by (apply Z.div_pos; lia).
  rewrite Z2Nat.id by lia.
  pose proof (Z.mod_pos_bound (total - first - 1) spacing Hpos) as Hmod.
  pose proof (Z.div_mod (total - first - 1) spacing ltac:(lia)) as Hdm.
  nia.
Qed.

(* ===================================================================== *)
(** * Properties of the thin part sampler *)
(* ===================================================================== *)

(** The supports placed on one neighbor: at the arc lengths
    [support_in + k * support_distance] up to [edge_length]; what is owed
    afterwards is counted from the start of the neighbor. *)
Lemma thin_add_supports_spec `{Collaborators}
  (neighbor : Neighbor) (edge_length support_distance : Z) :
  0 < support_distance ->
  forall (fuel : nat) (support_in : Z) (results : SupportIslandPoints),
    (sample_count support_distance support_in (edge_length + 1) < fuel)%nat ->
    thin_add_supports fuel neighbor edge_length support_distance support_in results =
    Some (support_in +
          Z.of_nat (sample_count support_distance support_in (edge_length + 1)) *
          support_distance,
          results ++
          map (fun a => SupportCenterIslandPoint
                          (mkPosition neighbor (inject_Z a / n_length neighbor)%Q)
                          thin_part_change)
              (arc_samples support_distance support_in (edge_length + 1))).
Proof.
  intros Hpos. induction fuel as [|fuel IH]; intros support_in results Hfuel; [lia|].
  cbn [thin_add_supports].
  destruct (Z.leb_spec support_in edge_length) as [Hle|Hgt].
  - rewrite sample_count_next in * by lia.
    rewrite (arc_samples_next support_distance Hpos support_in (edge_length + 1)) by lia.
    rewrite IH by lia.
    cbn [map]. rewrite <- app_assoc. cbn [app]. f_equal. f_equal. lia.
  - rewrite sample_count_none by lia. rewrite arc_samples_none by lia.
    cbn [map]. rewrite app_nil_r. f_equal. f_equal. lia.
Qed.

(** C8 (amended).  A turn of the loop of [create_supports_for_thin_part]
    on a neighbor that is not an end of the part and not the first
    neighbor, and whose twin is in the process queue (a loop of the part),
    first places the supports owed on the neighbor, every
    [support_distance] from [curr.support_in] up to the length of the
    edge.  With [owed] the arc length still to go to the next support
    after the end of the neighbor ([curr.support_in] less the length of
    the edge, a positive number), one more point, of type
    [thin_part_loop] and at ratio 1 on the neighbor, is added if and only
    if [owed < support_distance / 2]; no support placed before is looked
    at.  The twin is erased from the process queue and the branch stops
    (the current neighbor is null). *)
Theorem thin_part_step_loop `{Collaborators}
  (fuel : nat) (g : VoronoiGraph) (part : ThinPart) (config : SampleConfig)
  (st : ThinState) (curr_in : Z) (neighbor twin : Neighbor)
  (process : list SupportIn) :
  let support_distance := thin_max_distance config in
  let edge_length := to_coord (n_length neighbor) in
  let count := sample_count support_distance curr_in (edge_length + 1) in
  let owed := curr_in + Z.of_nat count * support_distance - edge_length in
  let placed :=
    map (fun a => SupportCenterIslandPoint
                    (mkPosition neighbor (inject_Z a / n_length neighbor)%Q)
                    thin_part_change)
        (arc_samples support_distance curr_in (edge_length + 1)) in
  let loop_point :=
    SupportCenterIslandPoint (mkPosition neighbor 1) thin_part_loop in
  0 < support_distance ->
  (count < fuel)%nat ->
  thin_part_current st = Some (curr_in, neighbor, process) ->
  find_part_end (thin_ends part) neighbor = None ->
  is_first_neighbor st = false ->
  get_twin g neighbor = Some twin ->
  in_process twin process = true ->
  0 < owed /\
  thin_part_step fuel g part config st =
  Some (mkThinState owed None (erase_first twin process) false
          (if owed <? Z.quot support_distance 2
           then results st ++ placed ++ [loop_point]
           else results st ++ placed)).
Proof.
  intros support_distance edge_length count owed placed loop_point
    Hpos Hfuel Hcurrent Hend Hfirst Htwin Hin.
  split.
  - pose proof (sample_count_end support_distance curr_in (edge_length + 1) Hpos).
    subst owed count. lia.
  - unfold thin_part_step. rewrite Hcurrent, Hend.
    fold support_distance. fold edge_length.
    rewrite (thin_add_supports_spec neighbor edge_length support_distance Hpos)
      by exact Hfuel.
    fold count. fold placed. fold owed.
    rewrite Htwin, Hfirst, Hin. cbn [negb andb].
    destruct (owed <? Z.quot support_distance 2);
      [rewrite <- app_assoc|]; reflexivity.
Qed.

Lemma thin_part_step_loop_witness :
  0 < thin_max_distance example_config /\
  thin_part_current ring_state = Some (2000000, ring_ab, [mkSupportIn 26500000 ring_ba]) /\
  find_part_end (thin_ends ring_part) ring_ab = None /\
  is_first_neighbor ring_state = false /\
  get_twin ring_graph ring_ab = Some ring_ba /\
  in_process ring_ba [mkSupportIn 26500000 ring_ba] = true /\
  thin_part_step (H := plain_collaborators) 20 ring_graph ring_part example_config
    ring_state =
  Some (mkThinState 2000000 None [] false
          (map (fun a => SupportCenterIslandPoint (H := plain_collaborators)
                           (mkPosition ring_ab (inject_Z a / 50000000)%Q)
                           thin_part_change)
               [2000000; 7000000; 12000000; 17000000; 22000000;
                27000000; 32000000; 37000000; 42000000; 47000000] ++
           [SupportCenterIslandPoint (H := plain_collaborators)
              (mkPosition ring_ab 1) thin_part_loop])).
Proof.
  split; [reflexivity|]. split; [reflexivity|]. split; [reflexivity|].
  split; [reflexivity|]. split; [reflexivity|]. split; [reflexivity|].
  exact (proj2 (thin_part_step_loop (H := plain_collaborators) 20 ring_graph ring_part
                  example_config ring_state 2000000 ring_ab ring_ba
                  [mkSupportIn 26500000 ring_ba]
                  eq_refl ltac:(vm_compute; lia) eq_refl eq_refl eq_refl eq_refl eq_refl)).
Defined.

(** C8, counterexample.  On the ring the cursor comes back to the first
    edge, whose twin still waits in the process queue, 2 mm before its
    next support is due: the point of type [thin_part_loop] is placed at
    the end of the edge (50 mm), although a support placed earlier on the
    same edge, at 48.5 mm, lies 1.5 mm from it, within
    [support_distance / 2] = 2.5 mm. *)
Lemma thin_part_step_loop_counterexample :
  exists results,
    create_supports_for_thin_part (H := plain_collaborators) 20 ring_graph ring_part []
      example_config = Some results /\
    length results = 36%nat /\
    nth_error results 4 =
      Some (SupportCenterIslandPoint (H := plain_collaborators)
              (mkPosition ring_ab (48500000 # 50000000)) thin_part_change) /\
    nth_error results 35 =
      Some (SupportCenterIslandPoint (H := plain_collaborators)
              (mkPosition ring_ab 1) thin_part_loop) /\
    calc_distance (mkPosition ring_ab 1) -
    calc_distance (mkPosition ring_ab (48500000 # 50000000)) = 1500000 /\
    1500000 < Z.quot (thin_max_distance example_config) 2.
Proof.
  eexists. split; [vm_compute; reflexivity|].
  split; [reflexivity|]. split; [reflexivity|]. split; [reflexivity|].
  split; reflexivity.
Qed.

(* ===================================================================== *)
(** * Properties of the outline sampler *)
(* ===================================================================== *)

Lemma round_coord_nonneg (q : Q) : (0 <= q)%Q -> 0 <= round_coord q.
Proof.
  intros Hq. unfold round_coord.
  destruct (Qle_bool 0 q) eqn:E.
  - change 0 with (Qfloor 0). apply Qfloor_resp_le.
    apply Qle_trans with q; [exact Hq|].
    rewrite <- (Qplus_0_r q) at 1. apply Qplus_le_r. discriminate.
  - apply Qle_bool_iff in Hq. congruence.
Qed.

Lemma skipn_cons_nth {A : Type} (l : list A) (i : nat) (x d : A) (rest : list A) :
  skipn i l = x :: rest -> nth i l d = x /\ skipn (S i) l = rest.
Proof.
  revert i; induction l as [|y l IH]; intros [|i] Hs; simpl in *; try discriminate.
  - injection Hs as -> ->. split; reflexivity.
  - apply IH. exact Hs.
Qed.

Section OutlineSampler.
Context `{Collaborators}.
Variable sample_distance : Z.
Variable restriction : Restriction.
Hypothesis sample_distance_pos : 0 < sample_distance.

(** The supports of one line: at the arc lengths
    [sample_distance - last_support + k * sample_distance] below the
    rounded length of the line. *)
Lemma add_sample_loop_spec (index : nat) (line_length : Z) (line_length_double : Q) :
  forall (fuel : nat) (last_support : Z) (result : SupportIslandPoints),
    (sample_count sample_distance (sample_distance - last_support) line_length < fuel)%nat ->
    add_sample_loop fuel index restriction line_length line_length_double
      sample_distance last_support result =
    Some (last_support -
          Z.of_nat (sample_count sample_distance (sample_distance - last_support)
                      line_length) * sample_distance,
          result ++
          map (fun a => SupportOutlineIslandPoint index
                          (sample_ratio a line_length_double) restriction
                          thick_part_outline)
              (arc_samples sample_distance (sample_distance - last_support) line_length)).
Proof.
  induction fuel as [|fuel IH]; intros last_support result Hfuel; [lia|].
  cbn [add_sample_loop].
  destruct (Z.ltb_spec sample_distance (last_support + line_length)) as [Hlt|Hge].
  - rewrite sample_count_next in * by lia.
    rewrite (arc_samples_next sample_distance sample_distance_pos
               (sample_distance - last_support) line_length) by lia.
    rewrite IH.
    + replace (sample_distance - (last_support - sample_distance))
        with (sample_distance - last_support + sample_distance) by lia.
      cbn [map]. rewrite <- app_assoc. cbn [app]. f_equal. f_equal. lia.
    + replace (sample_distance - (last_support - sample_distance))
        with (sample_distance - last_support + sample_distance) by lia.
      lia.
  - rewrite sample_count_none by lia. rewrite arc_samples_none by lia.
    cbn [map]. rewrite app_nil_r. f_equal. f_equal. lia.
Qed.

(** The supports of the lines from [index] on: at the arc lengths
    [sample_distance - last_support + k * sample_distance] below the sum
    of the rounded lengths, each on the line that holds it. *)
Lemma add_samples_spec (fuel : nat) :
  forall (lengths : list Q) (index : nat) (last_support : Z)
         (result : SupportIslandPoints),
    skipn index (r_lengths restriction) = lengths ->
    (forall q, In q lengths -> (0 <= q)%Q) ->
    last_support <= sample_distance ->
    (Z.to_nat (sum_Z (map round_coord lengths) / sample_distance) + 1 < fuel)%nat ->
    exists last_support',
      add_samples fuel sample_distance restriction index (length lengths)
        last_support result =
      Some (last_support',
            result ++
            map (outline_point_at restriction (map round_coord lengths) index)
                (arc_samples sample_distance (sample_distance - last_support)
                   (sum_Z (map round_coord lengths)))).
Proof.
  induction lengths as [|q lengths IH];
    intros index last_support result Hskip Hpos Hlast Hfuel.
  - exists last_support. cbn [length add_samples map sum_Z fold_right].
    rewrite arc_samples_none by lia. cbn [map]. rewrite app_nil_r. reflexivity.
  - destruct (skipn_cons_nth _ _ _ 0%Q _ Hskip) as [Hnth Hrest].
    cbn [length add_samples]. unfold add_sample. rewrite Hnth.
    cbn [map sum_Z fold_right] in *. fold (sum_Z (map round_coord lengths)) in *.
    set (l := round_coord q) in *.
    set (total := sum_Z (map round_coord lengths)) in *.
    assert (Hl : 0 <= l) by (apply round_coord_nonneg, Hpos; left; reflexivity).
    assert (Htotal : 0 <= total).
    { subst total. clear -Hpos. induction lengths as [|x xs IHx]; cbn; [lia|].
      assert (0 <= round_coord x) by (apply round_coord_nonneg, Hpos; right; left; reflexivity).
      assert (0 <= sum_Z (map round_coord xs)).
      { apply IHx. intros y [Hy|Hy]; apply Hpos; [left | right; right]; assumption. }
      unfold sum_Z in *. lia. }
    set (n := sample_count sample_distance (sample_distance - last_support) l).
    pose proof (sample_count_bound sample_distance sample_distance_pos
                  (sample_distance - last_support) l ltac:(lia) Hl) as Hbound.
    pose proof (sample_count_end sample_distance (sample_distance - last_support) l
                  sample_distance_pos) as Hend.
    fold n in Hbound, Hend.
    assert (Hdiv1 : l / sample_distance <= (l + total) / sample_distance)
      by (apply Z.div_le_mono; lia).
    assert (Hdiv2 : total / sample_distance <= (l + total) / sample_distance)
      by (apply Z.div_le_mono; lia).
    assert (0 <= l / sample_distance) by (apply Z.div_pos; lia).
    assert (0 <= total / sample_distance) by (apply Z.div_pos; lia).
    rewrite add_sample_loop_spec by (fold n; lia). fold n.
    destruct (IH (S index) (last_support - Z.of_nat n * sample_distance + l)
                (result ++
                 map (fun a => SupportOutlineIslandPoint index (sample_ratio a q)
                                 restriction thick_part_outline)
                     (arc_samples sample_distance (sample_distance - last_support) l))
                Hrest) as (last_support' & Hrun).
    { intros y Hy. apply Hpos. right. exact Hy. }
    { lia. }
    { fold total. lia. }
    exists last_support'. rewrite Hrun. f_equal. f_equal.
    rewrite <- app_assoc. f_equal.
    rewrite (arc_samples_split sample_distance sample_distance_pos n
               (sample_distance - last_support) l total eq_refl Htotal).
    rewrite map_app, map_map. f_equal.
    + apply map_ext_in. intros a Ha.
      apply (arc_samples_in sample_distance sample_distance_pos) in Ha.
      unfold outline_point_at. cbn [locate_arc]. fold l.
      destruct (Z.ltb_spec a l); [|lia]. rewrite Hnth. reflexivity.
    + replace (sample_distance - (last_support - Z.of_nat n * sample_distance + l))
        with (sample_distance - last_support + Z.of_nat n * sample_distance - l) by lia.
      apply map_ext_in. intros a Ha.
      apply (arc_samples_in sample_distance sample_distance_pos) in Ha.
      unfold outline_point_at. cbn [locate_arc]. fold l.
      destruct (Z.ltb_spec (a + l) l); [lia|].
      replace (a + l - l) with a by lia. reflexivity.
Qed.

End OutlineSampler.

Lemma first_arc_min (spacing length : Z) :
  first_arc spacing length = spacing - Z.quot (Z.min length spacing) 2.
Proof.
  unfold first_arc. destruct (Z.leb_spec spacing length).
  - now rewrite Z.min_r.
  - now rewrite Z.min_l by lia.
Qed.

Lemma sum_Z_app (l1 l2 : list Z) : sum_Z (l1 ++ l2) = sum_Z l1 + sum_Z l2.
Proof.
  unfold sum_Z. induction l1 as [|x l1 IH]; cbn [app fold_right]; [reflexivity|].
  rewrite IH. lia.
Qed.

Lemma sum_Z_nonneg (l : list Z) : Forall (fun x => 0 <= x) l -> 0 <= sum_Z l.
Proof.
  unfold sum_Z. induction 1 as [|x l Hx _ IH]; cbn [fold_right]; lia.
Qed.

Lemma sum_Z_firstn_skipn (n : nat) (l : list Z) :
  sum_Z l = sum_Z (firstn n l) + sum_Z (skipn n l).
Proof. now rewrite <- sum_Z_app, firstn_skipn. Qed.

Lemma Forall_firstn_of {A : Type} (P : A -> Prop) (n : nat) (l : list A) :
  Forall P l -> Forall P (firstn n l).
Proof.
  intros Hl. apply Forall_forall. intros x Hx.
  rewrite Forall_forall in Hl. apply Hl.
  rewrite <- (firstn_skipn n l). apply in_or_app. now left.
Qed.

Lemma Forall_skipn_of {A : Type} (P : A -> Prop) (n : nat) (l : list A) :
  Forall P l -> Forall P (skipn n l).
Proof.
  intros Hl. apply Forall_forall. intros x Hx.
  rewrite Forall_forall in Hl. apply Hl.
  rewrite <- (firstn_skipn n l). apply in_or_app. now right.
Qed.

Lemma sum_Z_firstn_le (n : nat) (l : list Z) :
  Forall (fun x => 0 <= x) l -> sum_Z (firstn n l) <= sum_Z l.
Proof.
  intros Hl. rewrite (sum_Z_firstn_skipn n l).
  pose proof (sum_Z_nonneg _ (Forall_skipn_of _ n l Hl)). lia.
Qed.

Lemma sum_Z_skipn_le (n : nat) (l : list Z) :
  Forall (fun x => 0 <= x) l -> sum_Z (skipn n l) <= sum_Z l.
Proof.
  intros Hl. rewrite (sum_Z_firstn_skipn n l).
  pose proof (sum_Z_nonneg _ (Forall_firstn_of _ n l Hl)). lia.
Qed.

Lemma inner_run_lines_map {A : Type} (f : Line -> A) (lines : Lines) (first last : nat) :
  map f (inner_run_lines lines first last) =
  if (S last <? first)%nat
  then skipn first (map f lines) ++ firstn (S last) (map f lines)
  else skipn first (firstn (S last) (map f lines)).
Proof.
  unfold inner_run_lines. destruct (S last <? first)%nat.
  - now rewrite map_app, skipn_map, firstn_map.
  - now rewrite firstn_map, skipn_map.
Qed.

Lemma inner_run_lines_Forall (P : Line -> Prop) (lines : Lines) (first last : nat) :
  Forall P lines -> Forall P (inner_run_lines lines first last).
Proof.
  intros Hl. unfold inner_run_lines. destruct (S last <? first)%nat.
  - apply Forall_app. split; [now apply Forall_skipn_of | now apply Forall_firstn_of].
  - now apply Forall_skipn_of, Forall_firstn_of.
Qed.

Section OutlineRuns.
Context `{Collaborators}.
Variable config : SampleConfig.
Hypothesis spacing_pos : 0 < thick_outline_max_distance config.

Lemma rounded_lengths_nonneg (lines : Lines) :
  Forall (fun line => (0 <= line_length line)%Q) lines ->
  Forall (fun x => 0 <= x) (rounded_lengths lines).
Proof.
  intros Hl. unfold rounded_lengths. rewrite map_map. apply Forall_map.
  revert Hl. apply Forall_impl. intros line. apply round_coord_nonneg.
Qed.

Lemma inner_run_lines_sum (lines : Lines) (first last : nat) :
  Forall (fun line => (0 <= line_length line)%Q) lines ->
  sum_Z (rounded_lengths (inner_run_lines lines first last)) <=
  sum_Z (rounded_lengths lines).
Proof.
  intros Hl. apply rounded_lengths_nonneg in Hl. revert Hl.
  unfold rounded_lengths. rewrite !map_map, inner_run_lines_map.
  set (w := map (fun line => round_coord (line_length line)) lines).
  intros Hl.
  destruct (Nat.ltb_spec (S last) first) as [Hwrap|Hrow].
  - rewrite sum_Z_app, (sum_Z_firstn_skipn (S last) w).
    replace first with ((first - S last) + S last)%nat by lia.
    rewrite <- skipn_skipn.
    pose proof (sum_Z_skipn_le (first - S last) (skipn (S last) w)
                  (Forall_skipn_of _ _ _ Hl)).
    lia.
  - pose proof (sum_Z_skipn_le first (firstn (S last) w) (Forall_firstn_of _ _ _ Hl)).
    pose proof (sum_Z_firstn_le (S last) w Hl). lia.
Qed.

(** A line sequence gets the points of [sequence_samples]. *)
Lemma sample_line_sequence_samples (fuel : nat) (circle : bool) (lines : Lines)
  (result : SupportIslandPoints) :
  Forall (fun line => (0 <= line_length line)%Q) lines ->
  (Z.to_nat (sum_Z (rounded_lengths lines) / thick_outline_max_distance config) + 1 < fuel)%nat ->
  sample_line_sequence fuel config circle lines result =
  Some (result ++ sequence_samples config circle lines).
Proof.
  intros Hl Hfuel. unfold sample_line_sequence, sequence_samples.
  set (spacing := thick_outline_max_distance config) in *.
  set (lengths := map line_length lines).
  set (restriction := mkRestriction lines lengths (max_align_distance config) circle).
  set (total := to_coord (sum_lengths_of lengths)).
  assert (Hhalf : Z.quot (Z.min total spacing) 2 <= spacing).
  { pose proof (Z.le_min_r total spacing) as Hmin.
    destruct (Z.le_gt_cases 0 (Z.min total spacing)) as [Hp|Hn].
    - rewrite Z.quot_div_nonneg by lia.
      apply Z.le_trans with (Z.min total spacing); [|lia].
      apply Z.div_le_upper_bound; lia.
    - pose proof (Z.quot_opp_l (Z.min total spacing) 2 ltac:(lia)) as Hopp.
      assert (0 <= Z.quot (- Z.min total spacing) 2) by (apply Z.quot_pos; lia).
      lia. }
  replace (length lines) with (length lengths) by apply length_map.
  destruct (add_samples_spec spacing restriction spacing_pos fuel lengths 0
              (Z.quot (Z.min total spacing) 2) result eq_refl) as (last_support & Hrun).
  - intros q Hq. apply in_map_iff in Hq as (line & <- & Hline).
    rewrite Forall_forall in Hl. now apply Hl.
  - exact Hhalf.
  - exact Hfuel.
  - rewrite Hrun. unfold run_length. fold lengths. fold total.
    rewrite first_arc_min. reflexivity.
Qed.

Variable field : Field.
Variable inner_lines : Lines.
Variable index_offset size : nat.


Hypothesis inner_nonneg : Forall (fun line => (0 <= line_length line)%Q) inner_lines.
Hypothesis mapped_in_range :
  forall i second : nat,
    (i < size)%nat ->
    lookup_index (i + index_offset) (field_2_inner field) = Some second ->
    (second - index_offset < length inner_lines)%nat.

(** [add_lines_samples] gives the lines of the inset from [first] to
    [last] the points of their sequence. *)
Lemma add_lines_samples_spec (fuel first last : nat) (result : SupportIslandPoints) :
  (Z.to_nat (sum_Z (rounded_lengths inner_lines) / thick_outline_max_distance config) + 1
   < fuel)%nat ->
  add_lines_samples fuel config inner_lines first last result =
  Some (result ++ sequence_samples config false (inner_run_lines inner_lines first last)).
Proof.
  intros Hfuel. unfold add_lines_samples.
  change (if (S last <? first)%nat
          then skipn first inner_lines ++ firstn (S last) inner_lines
          else skipn first (firstn (S last) inner_lines))
    with (inner_run_lines inner_lines first last).
  apply sample_line_sequence_samples.
  - now apply inner_run_lines_Forall.
  - pose proof (inner_run_lines_sum inner_lines first last inner_nonneg) as Hsum.
    set (run_total := sum_Z (rounded_lengths (inner_run_lines inner_lines first last))) in *.
    assert (0 <= run_total).
    { apply sum_Z_nonneg, rounded_lengths_nonneg. now apply inner_run_lines_Forall. }
    assert (run_total / thick_outline_max_distance config <=
            sum_Z (rounded_lengths inner_lines) / thick_outline_max_distance config)
      by (apply Z.div_le_mono; lia).
    assert (0 <= run_total / thick_outline_max_distance config)
      by (apply Z.div_pos; lia).
    lia.
Qed.

Lemma inner_of_run_app (run1 run2 : list nat) :
  inner_of_run field index_offset (run1 ++ run2) =
  inner_of_run field index_offset run1 ++ inner_of_run field index_offset run2.
Proof. unfold inner_of_run. apply flat_map_app. Qed.

Lemma inner_of_run_valid (run : list nat) :
  Forall (fun i => (i < size)%nat) run ->
  Forall (fun x => (x < length inner_lines)%nat) (inner_of_run field index_offset run).
Proof.
  induction 1 as [|i run Hi _ IH]; [constructor|].
  unfold inner_of_run. cbn [flat_map].
  destruct (lookup_index (i + index_offset) (field_2_inner field)) as [second|] eqn:Hs.
  - constructor; [exact (mapped_in_range i second Hi Hs) | exact IH].
  - exact IH.
Qed.

(** A run without an open first line has no points. *)
Lemma run_samples_unset (run : list nat) (inner_first inner_last : nat) :
  Forall (fun i => (i < size)%nat) run ->
  run_state field index_offset (length inner_lines) run inner_first inner_last ->
  inner_first = length inner_lines ->
  run_samples config field inner_lines index_offset run = [].
Proof.
  intros Hrun Hstate Hfirst. unfold run_samples, run_state in *.
  pose proof (inner_of_run_valid run Hrun) as Hvalid.
  destruct (inner_of_run field index_offset run) as [|first rest]; [reflexivity|].
  destruct Hstate as [-> _]. inversion Hvalid; subst. lia.
Qed.

(** A run with an open first line has the points of its lines. *)
Lemma run_samples_set (run : list nat) (inner_first inner_last : nat) :
  run_state field index_offset (length inner_lines) run inner_first inner_last ->
  inner_first <> length inner_lines ->
  run <> [] /\
  run_samples config field inner_lines index_offset run =
  sequence_samples config false (inner_run_lines inner_lines inner_first inner_last).
Proof.
  intros Hstate Hfirst. unfold run_samples, run_state in *.
  destruct run as [|i run]; [contradiction|].
  split; [discriminate|].
  destruct (inner_of_run field index_offset (i :: run)) as [|first rest]; [contradiction|].
  destruct Hstate as [-> ->]. reflexivity.
Qed.

(** The loop of [sample_polygon] over the lines [rest] of the ring: every
    run that ends among them gets its points. *)
Lemma sample_runs_spec (stop_index : nat) :
  forall (rest : list nat) (polygon_index fuel : nat) (run : list nat)
         (inner_first inner_last : nat) (result : SupportIslandPoints),
    at_cursor size stop_index polygon_index rest ->
    Forall (fun i => (i < size)%nat) rest ->
    Forall (fun i => (i < size)%nat) run ->
    run_state field index_offset (length inner_lines) run inner_first inner_last ->
    (length rest +
     Z.to_nat (sum_Z (rounded_lengths inner_lines) / thick_outline_max_distance config) + 1
     < fuel)%nat ->
    sample_runs fuel config field inner_lines index_offset size stop_index
      polygon_index inner_first inner_last result =
    Some (result ++
          flat_map (run_samples config field inner_lines index_offset)
                   (outline_runs (ring_outline field index_offset) rest run)).
Proof.
  induction rest as [|i rest IH];
    intros polygon_index fuel run inner_first inner_last result
           Hcursor Hrest Hrun Hstate Hfuel;
    (destruct fuel as [|fuel]; [lia|]); cbn [at_cursor] in Hcursor;
    cbn [sample_runs outline_runs].
  - subst polygon_index. rewrite Nat.eqb_refl.
    destruct (Nat.eqb_spec inner_first (length inner_lines)) as [Hunset|Hset].
    + pose proof (run_samples_unset run inner_first inner_last Hrun Hstate Hunset) as Hnone.
      destruct run; cbn [flat_map]; [|rewrite Hnone]; now rewrite app_nil_r.
    + destruct (run_samples_set run inner_first inner_last Hstate Hset) as [Hne Hsamples].
      rewrite add_lines_samples_spec by (cbn [length] in Hfuel; lia).
      destruct run; [contradiction|]. cbn [flat_map]. rewrite Hsamples.
      now rewrite app_nil_r.
  - destruct Hcursor as (Hstop & Hi & Hnext).
    destruct (Nat.eqb_spec polygon_index stop_index) as [|_]; [contradiction|].
    rewrite <- Hi. apply Forall_cons_iff in Hrest as [Hsize Hrest'].
    change (nth (i + index_offset) (is_outline field) false)
      with (ring_outline field index_offset i).
    cbn [length] in Hfuel.
    destruct (ring_outline field index_offset i) eqn:Hflag; cbn [negb].
    + (* an outline line: the run goes on *)
      assert (Hrun' : Forall (fun i => (i < size)%nat) (run ++ [i])).
      { apply Forall_app. split; [exact Hrun | now constructor]. }
      destruct (lookup_index (i + index_offset) (field_2_inner field))
        as [second|] eqn:Hsecond.
      * apply IH; try assumption; [|lia].
        unfold run_state in *. rewrite inner_of_run_app.
        unfold inner_of_run at 2. cbn [flat_map]. rewrite Hsecond. cbn [app].
        pose proof (inner_of_run_valid run Hrun) as Hvalid.
        destruct (inner_of_run field index_offset run) as [|first others].
        -- subst inner_first. rewrite Nat.eqb_refl. cbn [app last]. split; reflexivity.
        -- destruct Hstate as [-> _]. inversion Hvalid; subst.
           destruct (Nat.eqb_spec first (length inner_lines)) as [Heq|_]; [lia|].
           cbn [app]. split; [reflexivity|]. now rewrite last_last.
      * apply IH; try assumption; [|lia].
        unfold run_state in *. rewrite inner_of_run_app.
        unfold inner_of_run at 2. cbn [flat_map]. rewrite Hsecond.
        now rewrite !app_nil_r.
    + (* a line that is not outline: the run ends *)
      destruct (Nat.eqb_spec inner_first (length inner_lines)) as [Hunset|Hset].
      * pose proof (run_samples_unset run inner_first inner_last Hrun Hstate Hunset)
          as Hnone.
        rewrite (IH (S i) fuel [] inner_first inner_last result Hnext Hrest'
                   (Forall_nil _) Hunset ltac:(lia)).
        destruct run; cbn [flat_map]; [|rewrite Hnone]; reflexivity.
      * destruct (run_samples_set run inner_first inner_last Hstate Hset) as [Hne Hsamples].
        rewrite add_lines_samples_spec by lia.
        rewrite (IH (S i) fuel [] (length inner_lines) (length inner_lines) _ Hnext Hrest'
                   (Forall_nil _) eq_refl ltac:(lia)).
        destruct run; [contradiction|]. cbn [flat_map]. rewrite Hsamples.
        now rewrite <- app_assoc.
Qed.

End OutlineRuns.

Lemma find_seq_first (f : nat -> bool) :
  forall (n a c : nat),
    find f (seq a n) = Some c ->
    (a <= c < a + n)%nat /\ f c = true /\
    forall i, (a <= i < c)%nat -> f i = false.
Proof.
  induction n as [|n IH]; intros a c Hfind; cbn [seq find] in Hfind; [discriminate|].
  destruct (f a) eqn:Ha.
  - injection Hfind as <-. split; [lia|]. split; [exact Ha|]. intros i Hi. lia.
  - destruct (IH (S a) c Hfind) as (Hrange & Hc & Hbefore).
    split; [lia|]. split; [exact Hc|]. intros i Hi.
    destruct (Nat.eq_dec i a) as [->|Hne]; [exact Ha | apply Hbefore; lia].
Qed.

Lemma find_split {A : Type} (f : A -> bool) (l : list A) (s : A) :
  find f l = Some s ->
  exists pre post, l = pre ++ s :: post /\ Forall (fun i => f i = false) pre /\ f s = true.
Proof.
  induction l as [|x l IH]; cbn [find]; [discriminate|].
  destruct (f x) eqn:Hx.
  - intros [= <-]. exists [], l. split; [reflexivity|]. split; [constructor | exact Hx].
  - intros Hfind. destruct (IH Hfind) as (pre & post & -> & Hpre & Hs).
    exists (x :: pre), post. split; [reflexivity|]. split; [now constructor | exact Hs].
Qed.

Lemma outline_runs_skip (flag : nat -> bool) (pre rest : list nat) :
  Forall (fun i => flag i = false) pre ->
  outline_runs flag (pre ++ rest) [] = outline_runs flag rest [].
Proof.
  induction 1 as [|i pre Hi _ IH]; [reflexivity|].
  cbn [app outline_runs]. now rewrite Hi.
Qed.

Lemma outline_runs_none (flag : nat -> bool) (order : list nat) :
  (forall i, In i order -> flag i = false) -> outline_runs flag order [] = [].
Proof.
  induction order as [|i order IH]; intros Hnone; [reflexivity|].
  cbn [outline_runs]. rewrite (Hnone i) by now left.
  apply IH. intros j Hj. apply Hnone. now right.
Qed.

Lemma at_cursor_suffix (size stop_index : nat) (pre : list nat) :
  forall (polygon_index s : nat) (post : list nat),
    at_cursor size stop_index polygon_index (pre ++ s :: post) ->
    exists p, at_cursor size stop_index p (s :: post).
Proof.
  induction pre as [|i pre IH]; intros polygon_index s post Hcursor.
  - now exists polygon_index.
  - cbn [app at_cursor] in Hcursor. destruct Hcursor as (_ & _ & Hnext).
    exact (IH _ _ _ Hnext).
Qed.

(** The loop variable on the lines before the first change. *)
Lemma at_cursor_before (size c : nat) :
  (c < size)%nat ->
  forall (k b : nat), (b + k = c)%nat -> at_cursor size c b (seq b k).
Proof.
  intros Hc. induction k as [|k IH]; intros b Hb; cbn [seq at_cursor]; [lia|].
  split; [lia|]. destruct (Nat.eqb_spec b size) as [|_]; [lia|].
  split; [reflexivity|]. apply IH. lia.
Qed.

(** The loop variable on the lines after the first change, and on to the
    lines before it. *)
Lemma at_cursor_after (size c : nat) :
  (c < size)%nat ->
  forall (k a : nat),
    (a + k = size)%nat -> (c < a)%nat ->
    at_cursor size (if (c =? 0)%nat then size else c) a (seq a k ++ seq 0 c).
Proof.
  intros Hc. induction k as [|k IH]; intros a Ha Hca.
  - cbn [seq app]. assert (a = size) as -> by lia.
    destruct (Nat.eqb_spec c 0) as [->|Hne]; [reflexivity|].
    destruct c as [|c]; [contradiction|]. cbn [seq at_cursor].
    split; [lia|]. rewrite Nat.eqb_refl. split; [reflexivity|].
    apply at_cursor_before; [exact Hc | lia].
  - cbn [seq app at_cursor].
    split; [destruct (c =? 0)%nat; lia|].
    destruct (Nat.eqb_spec a size) as [|_]; [lia|].
    split; [reflexivity|]. apply IH; lia.
Qed.

Lemma first_change_index_from_find (is_outline : list bool) (index_offset : nat) :
  forall (count polygon_index : nat),
    first_change_index_from is_outline index_offset polygon_index count =
    match find (fun i => negb (nth (i + index_offset) is_outline false))
               (seq polygon_index count) with
    | Some c => c
    | None => (polygon_index + count)%nat
    end.
Proof.
  induction count as [|count IH]; intros polygon_index;
    cbn [first_change_index_from seq find]; [lia|].
  destruct (negb (nth (polygon_index + index_offset) is_outline false)); [reflexivity|].
  rewrite IH. destruct (find _ _); [reflexivity | lia].
Qed.

(** The [do ... while] of [sample_polygon] finds the first outline line
    after the first change, in the order of the ring. *)
Lemma search_first_outline_find (is_outline : list bool) (index_offset size c : nat) :
  ((0 < c)%nat -> nth (0 + index_offset) is_outline false = true) ->
  forall (k polygon_index fuel : nat),
    (S polygon_index + k = size)%nat -> (k < fuel)%nat ->
    search_first_outline fuel is_outline index_offset size c polygon_index =
    Some (find (fun i => nth (i + index_offset) is_outline false)
               (seq (S polygon_index) k ++ seq 0 c)).
Proof.
  intros Hzero. induction k as [|k IH]; intros polygon_index fuel Hk Hfuel;
    (destruct fuel as [|fuel]; [lia|]); cbn [search_first_outline seq app].
  - destruct (Nat.eqb_spec (S polygon_index) size) as [_|]; [|lia].
    destruct (Nat.eqb_spec c 0) as [->|Hne]; [reflexivity|].
    cbn [andb]. destruct c as [|c]; [contradiction|].
    cbn [seq find]. now rewrite Hzero by lia.
  - destruct (Nat.eqb_spec (S polygon_index) size) as [|_]; [lia|].
    cbn [andb find].
    destruct (nth (S polygon_index + index_offset) is_outline false); [reflexivity|].
    apply IH; lia.
Qed.

Section OutlinePolygon.
Context `{Collaborators}.
Variable config : SampleConfig.
Variable field : Field.
Hypothesis spacing_pos : 0 < thick_outline_max_distance config.

(** [sample_polygon] gives a ring the points of [polygon_samples]. *)
Lemma sample_polygon_samples (fuel : nat) (polygon inner_polygon : Polygon)
  (index_offset : nat) (result : SupportIslandPoints) :
  ring_in_range fuel config field polygon inner_polygon index_offset ->
  sample_polygon fuel config field polygon inner_polygon index_offset result =
  Some (result ++ polygon_samples config field polygon inner_polygon index_offset).
Proof.
  intros (_ & Hmapped & Hnonneg & _ & Hfuel).
  unfold sample_polygon, polygon_samples.
  destruct inner_polygon as [|front inner_rest]; [now rewrite app_nil_r|].
  set (inner_polygon := front :: inner_rest) in *.
  set (inner_lines := polygon_to_lines inner_polygon) in *.
  set (size := length polygon) in *.
  assert (Hbound : 0 <= sum_Z (rounded_lengths inner_lines) / thick_outline_max_distance config).
  { apply Z.div_pos; [|lia]. now apply sum_Z_nonneg, rounded_lengths_nonneg. }
  rewrite first_change_index_from_find. unfold first_change.
  change (fun i : nat => negb (nth (i + index_offset) (is_outline field) false))
    with (fun i : nat => negb (ring_outline field index_offset i)).
  destruct (find (fun i => negb (ring_outline field index_offset i)) (seq 0 size))
    as [c|] eqn:Hchange.
  2:{ (* every line is outline *)
    cbn [Nat.add]. rewrite Nat.eqb_refl. unfold add_circle_sample.
    apply sample_line_sequence_samples; [exact spacing_pos | exact Hnonneg | lia]. }
  destruct (find_seq_first _ _ _ _ Hchange) as (Hc & Hflag & Hbefore).
  apply negb_true_iff in Hflag.
  destruct (Nat.eqb_spec c size) as [|_]; [lia|].
  assert (Hzero : (0 < c)%nat -> nth (0 + index_offset) (is_outline field) false = true).
  { intros Hpos. specialize (Hbefore 0%nat ltac:(lia)).
    now apply negb_false_iff in Hbefore. }
  rewrite (search_first_outline_find (is_outline field) index_offset size c Hzero
             (size - S c) c fuel) by lia.
  change (fun i : nat => nth (i + index_offset) (is_outline field) false)
    with (ring_outline field index_offset).
  fold (ring_after size c).
  assert (Hcursor : at_cursor size (if (c =? 0)%nat then size else c) (S c)
                      (ring_after size c)).
  { unfold ring_after. apply at_cursor_after; lia. }
  assert (Hlines : Forall (fun i => (i < size)%nat) (ring_after size c)).
  { apply Forall_forall. intros i Hi. unfold ring_after in Hi.
    apply in_app_or in Hi as [Hi|Hi]; apply in_seq in Hi; lia. }
  assert (Hlength : (length (ring_after size c) < size)%nat).
  { unfold ring_after. rewrite length_app, !length_seq. lia. }
  destruct (find (ring_outline field index_offset) (ring_after size c))
    as [s|] eqn:Hsearch.
  2:{ (* no line is outline *)
    rewrite outline_runs_none by exact (List.find_none _ _ Hsearch).
    cbn [flat_map]. now rewrite app_nil_r. }
  destruct (find_split _ _ _ Hsearch) as (pre & post & Horder & Hpre & Hs).
  rewrite Horder in *. rewrite outline_runs_skip by exact Hpre.
  destruct (at_cursor_suffix _ _ _ _ _ _ Hcursor) as (p & Hp & Hsp & Hpost).
  apply Forall_app in Hlines as [_ Hlines].
  assert (Hs_size : (s < size)%nat) by now inversion Hlines.
  assert (Hs_stop : s <> (if (c =? 0)%nat then size else c)).
  { destruct (Nat.eqb_spec c 0) as [|Hne]; [lia|]. intros ->. congruence. }
  rewrite length_app in Hlength. cbn [length] in Hlength.
  apply (sample_runs_spec config spacing_pos field inner_lines index_offset size
           Hnonneg).
  - intros i second Hi Hsecond.
    rewrite Forall_forall in Hmapped.
    specialize (Hmapped i ltac:(apply in_seq; fold size; lia)).
    rewrite Hsecond in Hmapped. lia.
  - cbn [at_cursor]. split; [exact Hs_stop|].
    destruct (Nat.eqb_spec s size) as [|_]; [lia|]. split; [reflexivity | exact Hpost].
  - exact Hlines.
  - constructor.
  - reflexivity.
  - cbn [length]. fold inner_lines in Hfuel. fold size in Hfuel. lia.
Qed.

Lemma sample_holes_samples (fuel : nat) :
  forall (border_holes inner_holes : list Polygon) (index_offset : nat)
         (result : SupportIslandPoints),
    holes_in_range fuel config field border_holes inner_holes index_offset ->
    sample_holes fuel config field border_holes inner_holes index_offset result =
    Some (result ++ holes_samples config field border_holes inner_holes index_offset).
Proof.
  induction border_holes as [|hole border_holes IH];
    intros inner_holes index_offset result Hrange;
    cbn [sample_holes holes_samples]; [now rewrite app_nil_r|].
  destruct inner_holes as [|inner_hole inner_holes]; [now rewrite app_nil_r|].
  cbn [holes_in_range] in Hrange. destruct Hrange as [Hring Hrest].
  rewrite (sample_polygon_samples _ _ _ _ _ Hring).
  rewrite (IH _ _ _ Hrest). now rewrite <- app_assoc.
Qed.

End OutlinePolygon.




(* ===================================================================== *)
(** * Properties of [find_and_remove] *)
(* ===================================================================== *)

Section SequentialTextFacts.
Import Ascii String.
Local Open Scope string_scope.

Lemma prefix_append (key suffix : string) : prefix key (key ++ suffix) = true.
Proof.
  induction key as [|c key IH]; simpl.
  - destruct suffix; reflexivity.
  - destruct (ascii_dec c c) as [_|Hne]; [exact IH | contradiction].
Qed.

Lemma prefix_split (key src : string) :
  prefix key src = true -> exists suffix, src = key ++ suffix.
Proof.
  revert src; induction key as [|c key IH]; intros src Hp.
  - exists src; reflexivity.
  - destruct src as [|d src]; simpl in Hp; [discriminate|].
    destruct (ascii_dec c d) as [->|]; [|discriminate].
    destruct (IH src Hp) as [suffix ->]. exists suffix; reflexivity.
Qed.

Lemma drop_append (key suffix : string) : string_drop (length key) (key ++ suffix) = suffix.
Proof.
  induction key as [|c key IH]; simpl; [destruct suffix; reflexivity | exact IH].
Qed.

Lemma erase_append (before key suffix : string) :
  string_erase (length before) (length key) (before ++ key ++ suffix) = before ++ suffix.
Proof.
  induction before as [|c before IH]; simpl.
  - destruct (key ++ suffix) eqn:E; rewrite <- E; apply drop_append.
  - now rewrite IH.
Qed.

(** What [string_find] returns: the split of [src] at the first occurrence. *)
Lemma find_some (key src : string) (pos : nat) :
  string_find key src = Some pos ->
  exists before suffix,
    src = before ++ key ++ suffix /\ length before = pos /\
    forall before' suffix', src = before' ++ key ++ suffix' ->
                            (pos <= length before')%nat.
Proof.
  revert pos; induction src as [|c src IH]; intros pos Hf.
  - cbn [string_find] in Hf. destruct (prefix key EmptyString) eqn:Hp; [|discriminate].
    injection Hf as <-. destruct (prefix_split _ _ Hp) as [suffix E].
    exists EmptyString, suffix. repeat split; [exact E | intros; lia].
  - cbn [string_find] in Hf. destruct (prefix key (String c src)) eqn:Hp.
    + injection Hf as <-. destruct (prefix_split _ _ Hp) as [suffix E].
      exists EmptyString, suffix. repeat split; [exact E | intros; lia].
    + destruct (string_find key src) as [pos'|] eqn:Hf'; simpl in Hf; [|discriminate].
      injection Hf as <-.
      destruct (IH pos' eq_refl) as (before & suffix & E & Hlen & Hmin).
      exists (String c before), suffix. repeat split.
      * simpl. now rewrite E.
      * simpl. now rewrite Hlen.
      * intros before' suffix' E'. destruct before' as [|d before'].
        -- simpl in E'. rewrite E' in Hp. rewrite prefix_append in Hp. discriminate.
        -- simpl in E'. injection E' as _ E'. specialize (Hmin _ _ E'). simpl. lia.
Qed.

Lemma find_none (key src : string) :
  string_find key src = None -> forall before suffix, src <> before ++ key ++ suffix.
Proof.
  induction src as [|c src IH]; intros Hf before suffix E.
  - cbn [string_find] in Hf. destruct (prefix key EmptyString) eqn:Hp; [discriminate|].
    destruct before; simpl in E; [|discriminate].
    rewrite E in Hp. rewrite prefix_append in Hp. discriminate.
  - cbn [string_find] in Hf. destruct (prefix key (String c src)) eqn:Hp; [discriminate|].
    destruct (string_find key src) eqn:Hf'; simpl in Hf; [discriminate|].
    destruct before as [|d before]; simpl in E.
    + rewrite E in Hp. rewrite prefix_append in Hp. discriminate.
    + injection E as _ E. exact (IH eq_refl _ _ E).
Qed.

(** X1.  a successful [find_and_remove] cuts the first occurrence of the key
    out of the string: the string was [before ++ key ++ suffix], it becomes
    [before ++ suffix], and the key occurs nowhere further left. *)
Theorem find_and_remove_first_occurrence (src key src' : string) :
  find_and_remove src key = (true, src') ->
  exists before suffix,
    src = before ++ key ++ suffix /\ src' = before ++ suffix /\
    forall before' suffix', src = before' ++ key ++ suffix' ->
                            (length before <= length before')%nat.
Proof.
  unfold find_and_remove. destruct (string_find key src) as [pos|] eqn:Hf; [|discriminate].
  intros H. injection H as <-.
  destruct (find_some _ _ _ Hf) as (before & suffix & E & Hlen & Hmin).
  exists before, suffix. repeat split.
  - exact E.
  - rewrite <- Hlen. rewrite E at 1. apply erase_append.
  - now rewrite Hlen.
Qed.

Lemma find_and_remove_first_occurrence_witness :
  find_and_remove "POINT 12 34" "POINT" = (true, " 12 34") /\
  exists before suffix,
    "POINT 12 34" = before ++ "POINT" ++ suffix /\ " 12 34" = before ++ suffix /\
    forall before' suffix', "POINT 12 34" = before' ++ "POINT" ++ suffix' ->
                            (length before <= length before')%nat.
Proof.
  split; [reflexivity|].
  apply (find_and_remove_first_occurrence "POINT 12 34" "POINT" " 12 34").
  reflexivity.
Defined.

(** X2.  [find_and_remove] answers [false] exactly when the key occurs
    nowhere in the string, and then leaves the string as it is; an empty
    key is always found. *)
Theorem find_and_remove_missing_key (src key : string) :
  (fst (find_and_remove src key) = false <->
   forall before suffix, src <> before ++ key ++ suffix) /\
  (fst (find_and_remove src key) = false -> snd (find_and_remove src key) = src) /\
  find_and_remove src EmptyString = (true, src).
Proof.
  unfold find_and_remove. split; [|split].
  - destruct (string_find key src) as [pos|] eqn:Hf; simpl.
    + split; [discriminate|]. intros Hno.
      destruct (find_some _ _ _ Hf) as (before & suffix & E & _).
      exfalso. exact (Hno _ _ E).
    + split; [|reflexivity]. intros _. apply find_none. exact Hf.
  - destruct (string_find key src); simpl; [discriminate | reflexivity].
  - destruct src; reflexivity.
Qed.

End SequentialTextFacts.

Import SupportPointGenerator.

(* ===================================================================== *)
(** * Sampling of overhangs *)
(* ===================================================================== *)

Lemma point_eqb_eq (a b : Point) :
  (px a =? px b) && (py a =? py b) = true <-> a = b.
Proof.
  destruct a as [ax ay], b as [bx by_]; simpl. split.
  - intros H. apply andb_true_iff in H as [Hx Hy].
    apply Z.eqb_eq in Hx, Hy. now subst.
  - intros H. injection H as -> ->. now rewrite !Z.eqb_refl.
Qed.

Section ContainPoint.
Context `{GeneratorCollaborators}.

(** [Point::operator<] is a strict total order. *)
Hypothesis point_less_irrefl : forall a, point_less a a = false.
Hypothesis point_less_total :
  forall a b, point_less a b = false -> point_less b a = false -> a = b.

Local Abbreviation sorted_points :=
  (StronglySorted (fun a b => point_less b a = false)).

Lemma contain_point_iff (p : Point) (l : Points) :
  sorted_points l ->
  (contain_point p l = true <-> exists l1 l2, l = l1 ++ p :: p :: l2).
Proof.
  unfold contain_point. induction l as [|x l IH]; intros Hs.
  - simpl. split; [discriminate|]. intros (l1 & l2 & E). destruct l1; discriminate.
  - inversion Hs as [|? ? Hs' Hx]; subst. cbn [lower_bound].
    destruct (point_less x p) eqn:Hxp.
    + rewrite (IH Hs'). split.
      * intros (l1 & l2 & ->). exists (x :: l1), l2. reflexivity.
      * intros (l1 & l2 & E). destruct l1 as [|y l1]; simpl in E.
        -- injection E as -> _. rewrite point_less_irrefl in Hxp. discriminate.
        -- injection E as _ ->. now exists l1, l2.
    + destruct l as [|next l].
      * split; [discriminate|]. intros (l1 & l2 & E).
        destruct l1 as [|? [|? ?]]; discriminate.
      * rewrite point_eqb_eq. split.
        -- intros ->. exists [], l.
           assert (x = p) as ->; [|reflexivity].
           apply point_less_total; [exact Hxp|].
           rewrite Forall_forall in Hx. apply Hx. now left.
        -- intros (l1 & l2 & E).
           assert (Hin : In p (next :: l)).
           { destruct l1 as [|y l1]; simpl in E; injection E as _ E;
               rewrite E; [now left | apply in_or_app; right; now left]. }
           assert (x = p) as Hxeq.
           { apply point_less_total; [exact Hxp|].
             rewrite Forall_forall in Hx. now apply Hx. }
           subst x. destruct Hin as [Hin|Hin]; [exact Hin|].
           apply point_less_total.
           ++ rewrite Forall_forall in Hx. apply Hx. now left.
           ++ inversion Hs' as [|? ? _ Hnext]; subst.
              rewrite Forall_forall in Hnext. now apply Hnext.
Qed.

Lemma contain_point_no_repetition (p : Point) (l : Points) :
  sorted_points l -> NoDup l -> contain_point p l = false.
Proof.
  intros Hs Hnd. destruct (contain_point p l) eqn:Hc; [|reflexivity].
  apply (contain_point_iff p l Hs) in Hc as (l1 & l2 & ->).
  apply NoDup_remove_2 in Hnd. exfalso. apply Hnd.
  apply in_or_app. right. now left.
Qed.

(** X3.  on a sorted point list [contain_point] answers [true] exactly for
    a point that stands twice in a row in the list, the point after the
    lower bound being the one it compares; on a list without repetition
    it answers [false] for every point. *)
Theorem contain_point_twice (p : Point) (sorted : Points) :
  sorted_points sorted ->
  (contain_point p sorted = true <-> exists l1 l2, sorted = l1 ++ p :: p :: l2) /\
  (NoDup sorted -> contain_point p sorted = false).
Proof.
  intros Hs. split; [now apply contain_point_iff|].
  now apply contain_point_no_repetition.
Qed.

(** A polygon none of whose points [contain_point] finds. *)
Lemma sample_overhang_loop_free (fuel : nat) (prev_points : Points) (dist2 : Q)
  (pts rest : Points) (it first_bad start_it : nat) (samples : Points) :
  (it + length rest = length pts)%nat ->
  Forall (fun p => contain_point p prev_points = false) rest ->
  sample_overhang_loop fuel prev_points dist2 pts it rest first_bad start_it samples =
  Some (first_bad,
        match rest with
        | [] => start_it
        | _ => if (start_it =? length pts)%nat then it else start_it
        end,
        samples).
Proof.
  revert it start_it. induction rest as [|p rest IH]; intros it start_it Hlen Hall.
  - reflexivity.
  - inversion Hall as [|? ? Hp Hrest]; subst. cbn [sample_overhang_loop]. rewrite Hp.
    simpl in Hlen.
    destruct (start_it =? length pts)%nat eqn:Hst.
    + rewrite (IH (S it) it) by (assumption || lia). destruct rest; [reflexivity|].
      simpl in Hlen.
      destruct (it =? length pts)%nat eqn:Hit; [|reflexivity].
      apply Nat.eqb_eq in Hit. lia.
    + rewrite (IH (S it) start_it) by (assumption || lia). rewrite Hst. now destruct rest.
Qed.

(** X4.  when the sorted points of the previous layer are pairwise
    distinct, [sample_overhang] takes every polygon for an overhang as a
    whole and samples it as a closed ring, its first point repeated at the
    end, whether or not its points are points of the previous layer. *)
Theorem sample_overhang_whole_polygon (fuel : nat) (prev_points : Points)
  (dist2 : Q) (first : Point) (rest samples : Points) :
  sorted_points prev_points -> NoDup prev_points ->
  sample_overhang fuel prev_points dist2 (first :: rest) samples =
  match sample fuel ((first :: rest) ++ [first]) dist2 with
  | None => None
  | Some s => Some (samples ++ s)
  end.
Proof.
  intros Hs Hnd. unfold sample_overhang.
  rewrite sample_overhang_loop_free; [|reflexivity|].
  2:{ apply Forall_forall. intros p _.
      now apply contain_point_no_repetition. }
  rewrite Nat.eqb_refl. cbn [Nat.eqb length negb].
  reflexivity.
Qed.

End ContainPoint.

Section SampleOverhang.
Context `{GeneratorCollaborators}.

Lemma sample_segment_near (fuel : nat) (dist2 : Q) (prev_pt pt : Point) (r : Points) :
  (squared_distance (last r origin) pt <= dist2)%Q ->
  sample_segment (S fuel) dist2 prev_pt pt r = Some r.
Proof.
  intros Hle. cbn [sample_segment]. unfold Qlt_bool.
  apply Qle_bool_iff in Hle. now rewrite Hle.
Qed.

Lemma sample_segment_extends (fuel : nat) (dist2 : Q) (prev_pt pt : Point)
  (r r' : Points) :
  sample_segment fuel dist2 prev_pt pt r = Some r' -> exists extra, r' = r ++ extra.
Proof.
  revert prev_pt r. induction fuel as [|fuel IH]; intros prev_pt r Hrun; [discriminate|].
  cbn [sample_segment] in Hrun.
  destruct (Qlt_bool dist2 (squared_distance (last r origin) pt)).
  - apply IH in Hrun as [extra ->]. rewrite <- app_assoc. eexists; reflexivity.
  - injection Hrun as <-. exists []. now rewrite app_nil_r.
Qed.

Lemma sample_loop_extends (fuel : nat) (dist2 : Q) (it : Point) (rest r r' : Points) :
  sample_loop fuel dist2 it rest r = Some r' -> exists extra, r' = r ++ extra.
Proof.
  revert it r. induction rest as [|pt rest IH]; intros it r Hrun.
  - injection Hrun as <-. exists []. now rewrite app_nil_r.
  - cbn [sample_loop] in Hrun.
    destruct (sample_segment fuel dist2 it pt r) as [r1|] eqn:Hseg; [|discriminate].
    apply sample_segment_extends in Hseg as [e1 ->].
    apply IH in Hrun as [e2 ->]. rewrite <- app_assoc. eexists; reflexivity.
Qed.

Lemma sample_loop_near (fuel : nat) (dist2 : Q) (b it : Point) (rest : Points) :
  Forall (fun pt => (squared_distance b pt <= dist2)%Q) rest ->
  sample_loop (S fuel) dist2 it rest [b] = Some [b].
Proof.
  revert it. induction rest as [|pt rest IH]; intros it Hall; [reflexivity|].
  inversion Hall as [|? ? Hpt Hrest]; subst.
  cbn [sample_loop]. rewrite sample_segment_near by exact Hpt. now apply IH.
Qed.


Lemma points_range_head (head rest : Points) :
  points_range (head ++ rest) 0 (length head) = head.
Proof.
  unfold points_range. rewrite Nat.sub_0_r. cbn [skipn].
  rewrite firstn_app, Nat.sub_diag, firstn_all. cbn [firstn]. apply app_nil_r.
Qed.

Lemma sample_overhang_loop_prefix (fuel : nat) (prev_points : Points) (dist2 : Q)
  (pts head rest : Points) (it first_bad start_it : nat) (samples : Points) :
  (it + length (head ++ rest) = length pts)%nat ->
  Forall (fun p => contain_point p prev_points = false) head ->
  sample_overhang_loop fuel prev_points dist2 pts it (head ++ rest)
    first_bad start_it samples =
  sample_overhang_loop fuel prev_points dist2 pts (it + length head) rest first_bad
    match head with
    | [] => start_it
    | _ => if (start_it =? length pts)%nat then it else start_it
    end
    samples.
Proof.
  revert it start_it. induction head as [|p head IH]; intros it start_it Hlen Hall.
  - cbn [app length]. now rewrite Nat.add_0_r.
  - inversion Hall as [|? ? Hp Hhead]; subst.
    cbn [app sample_overhang_loop length]. rewrite Hp. cbn [app length] in Hlen.
    replace (it + S (length head))%nat with (S it + length head)%nat by lia.
    destruct (start_it =? length pts)%nat eqn:Hst.
    + rewrite (IH (S it) it) by (assumption || lia).
      destruct head; [reflexivity|].
      destruct (it =? length pts)%nat eqn:Hit; [|reflexivity].
      apply Nat.eqb_eq in Hit. cbn [app length] in Hlen. lia.
    + rewrite (IH (S it) start_it) by (assumption || lia). rewrite Hst.
      now destruct head.
Qed.

Lemma sample_overhang_loop_result (fuel : nat) (prev_points : Points) (dist2 : Q)
  (pts rest : Points) (it first_bad start_it : nat) (samples : Points)
  (first_bad' start_it' : nat) (samples' : Points) :
  sample_overhang_loop fuel prev_points dist2 pts it rest first_bad start_it samples =
    Some (first_bad', start_it', samples') ->
  (exists extra, samples' = samples ++ extra) /\
  (first_bad <> length pts -> first_bad' = first_bad) /\
  (rest <> [] -> contain_point (last rest origin) prev_points = true ->
   start_it' = length pts).
Proof.
  revert it first_bad start_it samples.
  induction rest as [|p rest IH]; intros it first_bad start_it samples Hrun.
  - injection Hrun as <- <- <-. split; [exists []; now rewrite app_nil_r|].
    split; [reflexivity | intros Hne; contradiction].
  - cbn [sample_overhang_loop] in Hrun.
    assert (Hlast : rest <> [] -> last (p :: rest) origin = last rest origin).
    { destruct rest; [intros Hne; contradiction | reflexivity]. }
    destruct (contain_point p prev_points) eqn:Hp.
    + destruct (negb (start_it =? length pts)%nat) eqn:Hst.
      * destruct (sample fuel (points_range pts start_it it) dist2) as [s|];
          [|discriminate].
        destruct rest as [|q rest].
        -- injection Hrun as <- <- <-. split; [now exists s|].
           split; [|reflexivity]. intros Hfb.
           destruct (first_bad =? length pts)%nat eqn:E; [|reflexivity].
           apply Nat.eqb_eq in E. contradiction.
        -- apply IH in Hrun as ((extra & ->) & Hfb & Hst').
           split; [exists (s ++ extra); now rewrite app_assoc|]. split.
           ++ intros Hne. destruct (first_bad =? length pts)%nat eqn:E.
              ** apply Nat.eqb_eq in E. contradiction.
              ** now apply Hfb.
           ++ intros _ Hc. apply Hst'; [discriminate | exact Hc].
      * apply negb_false_iff, Nat.eqb_eq in Hst. subst start_it.
        destruct rest as [|q rest].
        -- injection Hrun as <- <- <-. split; [exists []; now rewrite app_nil_r|].
           split; [|reflexivity]. intros Hfb.
           destruct (first_bad =? length pts)%nat eqn:E; [|reflexivity].
           apply Nat.eqb_eq in E. contradiction.
        -- apply IH in Hrun as (Hextra & Hfb & Hst').
           split; [exact Hextra|]. split.
           ++ intros Hne. destruct (first_bad =? length pts)%nat eqn:E.
              ** apply Nat.eqb_eq in E. contradiction.
              ** now apply Hfb.
           ++ intros _ Hc. apply Hst'; [discriminate | exact Hc].
    + assert (Hrun' : exists st,
                 sample_overhang_loop fuel prev_points dist2 pts (S it) rest
                   first_bad st samples = Some (first_bad', start_it', samples')).
      { destruct (start_it =? length pts)%nat; eexists; exact Hrun. }
      destruct Hrun' as [st Hrun'].
      apply IH in Hrun' as (Hextra & Hfb & Hst').
      split; [exact Hextra|]. split; [exact Hfb|].
      intros _ Hc. destruct rest as [|q rest].
      * cbn [last] in Hc. congruence.
      * apply Hst'; [discriminate | exact Hc].
Qed.

(** X6.  when a polygon begins with points that are not points of the
    previous layer, goes on with a point that is, and ends with such a
    point, [sample_overhang] samples the leading run twice: once where the
    run ends and once more after the loop. *)
Theorem sample_overhang_head_twice (fuel : nat) (prev_points : Points) (dist2 : Q)
  (head : Points) (bad : Point) (rest samples s_head result : Points) :
  head <> [] ->
  Forall (fun p => contain_point p prev_points = false) head ->
  contain_point bad prev_points = true ->
  contain_point (last (bad :: rest) origin) prev_points = true ->
  sample fuel head dist2 = Some s_head ->
  sample_overhang fuel prev_points dist2 (head ++ bad :: rest) samples = Some result ->
  exists middle, result = samples ++ s_head ++ middle ++ s_head.
Proof.
  intros Hne Hgood Hbad Hlast Hhead Hrun. unfold sample_overhang in Hrun.
  set (pts := head ++ bad :: rest) in *.
  assert (Hlen : (length pts = length head + S (length rest))%nat).
  { unfold pts. rewrite length_app. reflexivity. }
  assert (Hpos : (0 < length head)%nat).
  { destruct head; [contradiction | simpl; lia]. }
  change (sample_overhang_loop fuel prev_points dist2 pts 0 pts)
    with (sample_overhang_loop fuel prev_points dist2 pts 0 (head ++ bad :: rest)) in Hrun.
  rewrite sample_overhang_loop_prefix in Hrun
    by (try assumption; rewrite length_app; simpl; lia).
  rewrite Nat.eqb_refl in Hrun. cbn [Nat.add] in Hrun.
  assert (Hstart : match head with [] => length pts | _ :: _ => 0%nat end = 0%nat).
  { destruct head; [contradiction | reflexivity]. }
  rewrite Hstart in Hrun. cbn [sample_overhang_loop] in Hrun.
  rewrite Hbad, Nat.eqb_refl in Hrun.
  assert (H0 : (0 =? length pts)%nat = false) by (apply Nat.eqb_neq; lia).
  rewrite H0 in Hrun. cbn [negb] in Hrun.
  assert (Hrange : points_range pts 0 (length head) = head)
    by (unfold pts; apply points_range_head).
  rewrite Hrange, Hhead in Hrun.
  destruct (sample_overhang_loop fuel prev_points dist2 pts (S (length head)) rest
              (length head) (length pts) (samples ++ s_head))
    as [[[first_bad' start_it'] samples']|] eqn:Hloop; [|discriminate].
  assert (Hres := sample_overhang_loop_result _ _ _ _ _ _ _ _ _ _ _ _ Hloop).
  destruct Hres as ((extra & ->) & Hfb & Hst).
  rewrite Hfb in Hrun by lia.
  assert (start_it' = length pts) as ->.
  { destruct rest as [|q rest].
    - now injection Hloop as _ <- _.
    - apply Hst; [discriminate | exact Hlast]. }
  rewrite Nat.eqb_refl in Hrun.
  assert (Hh : (length head =? 0)%nat = false) by (apply Nat.eqb_neq; lia).
  rewrite Hh in Hrun. cbn [negb] in Hrun.
  rewrite Hrange, Hhead in Hrun.
  injection Hrun as <-. exists extra. now rewrite <- !app_assoc.
Qed.

End SampleOverhang.

Lemma plain_point_less_irrefl (a : Point) : @point_less plain_generator a a = false.
Proof.
  destruct a as [x y]. cbn. rewrite !Z.ltb_irrefl, Z.eqb_refl. reflexivity.
Qed.

Lemma plain_point_less_total (a b : Point) :
  @point_less plain_generator a b = false ->
  @point_less plain_generator b a = false -> a = b.
Proof.
  destruct a as [ax ay], b as [bx by_]. cbn. intros Hab Hba.
  apply orb_false_iff in Hab as [Hab1 Hab2], Hba as [Hba1 Hba2].
  apply Z.ltb_ge in Hab1, Hba1. assert (ax = bx) by lia. subst bx.
  rewrite Z.eqb_refl in Hab2, Hba2. cbn in Hab2, Hba2.
  apply Z.ltb_ge in Hab2, Hba2. f_equal. lia.
Qed.

Lemma contain_point_twice_witness :
  (@contain_point plain_generator (mkPoint 1 0)
     [mkPoint 0 0; mkPoint 1 0; mkPoint 1 0; mkPoint 2 5] = true <->
   exists l1 l2, [mkPoint 0 0; mkPoint 1 0; mkPoint 1 0; mkPoint 2 5] =
                 l1 ++ mkPoint 1 0 :: mkPoint 1 0 :: l2) /\
  (NoDup [mkPoint 0 0; mkPoint 1 0; mkPoint 1 0; mkPoint 2 5] ->
   @contain_point plain_generator (mkPoint 1 0)
     [mkPoint 0 0; mkPoint 1 0; mkPoint 1 0; mkPoint 2 5] = false).
Proof.
  apply (@contain_point_twice plain_generator plain_point_less_irrefl
           plain_point_less_total).
  repeat constructor.
Defined.

Lemma sample_overhang_whole_polygon_witness :
  @sample_overhang plain_generator 50 [mkPoint 3 3; mkPoint 5 5] 25
    [mkPoint 0 0; mkPoint 10 0; mkPoint 10 10] [mkPoint 7 7] =
  match @sample plain_generator 50
          ([mkPoint 0 0; mkPoint 10 0; mkPoint 10 10] ++ [mkPoint 0 0]) 25 with
  | None => None
  | Some s => Some ([mkPoint 7 7] ++ s)
  end.
Proof.
  apply (@sample_overhang_whole_polygon plain_generator plain_point_less_irrefl
           plain_point_less_total).
  - repeat constructor.
  - repeat constructor; simpl; intuition discriminate.
Defined.

Lemma sample_overhang_head_twice_witness :
  exists middle,
    [mkPoint 0 0; mkPoint 5 0; mkPoint 0 0; mkPoint 5 0] =
    [] ++ [mkPoint 0 0; mkPoint 5 0] ++ middle ++ [mkPoint 0 0; mkPoint 5 0].
Proof.
  apply (@sample_overhang_head_twice plain_generator 50
           [mkPoint 50 50; mkPoint 50 50] 25
           [mkPoint 0 0; mkPoint 10 0] (mkPoint 50 50) [] []
           [mkPoint 0 0; mkPoint 5 0]
           [mkPoint 0 0; mkPoint 5 0; mkPoint 0 0; mkPoint 5 0]).
  - discriminate.
  - repeat constructor.
  - reflexivity.
  - reflexivity.
  - reflexivity.
  - reflexivity.
Defined.

(* ===================================================================== *)
(** * Supports of a layer *)
(* ===================================================================== *)

Lemma Qlt_bool_inject_Z (a b : Z) : Qlt_bool (inject_Z a) (inject_Z b) = (a <? b).
Proof.
  unfold Qlt_bool. destruct (Z.ltb_spec a b) as [Hlt|Hge].
  - apply negb_true_iff. destruct (Qle_bool (inject_Z b) (inject_Z a)) eqn:E; [|reflexivity].
    apply Qle_bool_iff in E. rewrite <- Zle_Qle in E. lia.
  - apply negb_false_iff. apply Qle_bool_iff. rewrite <- Zle_Qle. exact Hge.
Qed.

Section LayerSupports.
Context `{LayerCollaborators}.


(** ** Merging grids *)

Lemma ltb_asym (a b : nat) : (a <? b)%nat = true -> (b <? a)%nat = false.
Proof. intros Hab. apply Nat.ltb_lt in Hab. apply Nat.ltb_ge. lia. Qed.

Lemma ltb_not_less_trans (a b c : nat) :
  (b <? a)%nat = false -> (c <? b)%nat = false -> (c <? a)%nat = false.
Proof. rewrite !Nat.ltb_ge. lia. Qed.

Lemma unique_from_spec (prev : nat) (rest : list nat) :
  StronglySorted (fun a b => (b <? a)%nat = false) (prev :: rest) ->
  StronglySorted lt (prev :: unique_from prev rest) /\
  forall i, In i (unique_from prev rest) <-> In i rest /\ i <> prev.
Proof.
  revert prev. induction rest as [|x rest IH]; intros prev Hs.
  - split; [repeat constructor|]. simpl. tauto.
  - inversion Hs as [|? ? Hs' Hall]; subst.
    inversion Hall as [|? ? Hx Hall']; subst. apply Nat.ltb_ge in Hx.
    cbn [unique_from]. destruct (Nat.eqb_spec prev x) as [->|Hne].
    + destruct (IH x Hs') as [Hsorted Hin]. split; [exact Hsorted|].
      intros i. rewrite Hin. simpl. split; [tauto|]. intros [[<-|Hi] Hn]; tauto.
    + destruct (IH x Hs') as [Hsorted Hin]. split.
      * constructor; [exact Hsorted|].
        constructor; [lia|].
        apply Forall_forall. intros i Hi. apply Hin in Hi as [Hi _].
        inversion Hs' as [|? ? _ Hxall]; subst.
        rewrite Forall_forall in Hxall. apply Hxall in Hi. apply Nat.ltb_ge in Hi. lia.
      * intros i. simpl. rewrite Hin. split.
        -- intros [<-|[Hi Hn]]; [split; [now left | lia]|].
           split; [now right|].
           inversion Hs' as [|? ? _ Hxall]; subst.
           rewrite Forall_forall in Hxall. apply Hxall in Hi. apply Nat.ltb_ge in Hi. lia.
        -- intros [[<-|Hi] Hn]; [now left|].
           destruct (Nat.eq_dec i x) as [->|Hix]; [now left | right; tauto].
Qed.

Lemma unique_spec (l : list nat) :
  StronglySorted (fun a b => (b <? a)%nat = false) l ->
  StronglySorted lt (unique l) /\ forall i, In i (unique l) <-> In i l.
Proof.
  destruct l as [|x l]; intros Hs; [split; [constructor | tauto]|].
  destruct (unique_from_spec x l Hs) as [Hsorted Hin]. split; [exact Hsorted|].
  intros i. simpl. rewrite Hin. split; [tauto|].
  intros [<-|Hi]; [now left|].
  destruct (Nat.eq_dec i x) as [->|Hix]; [now left | right; tauto].
Qed.

Lemma get_indices_In (supports : LayerSupportPoints) (tree : Tree) (i : nat) :
  In i (get_indices supports tree) <->
  In i (get_nodes tree) /\ (i < length supports)%nat.
Proof.
  unfold get_indices. rewrite filter_In, negb_true_iff, Nat.leb_gt. tauto.
Qed.

Lemma merge_indices_spec (supports : LayerSupportPoints) (tree near_point : Tree) :
  StronglySorted lt (merge_indices supports tree near_point) /\
  forall i, In i (merge_indices supports tree near_point) <->
            In i (get_indices supports tree) \/ In i (get_indices supports near_point).
Proof.
  unfold merge_indices.
  set (indices := get_indices supports tree ++ get_indices supports near_point).
  destruct (unique_spec (std_sort Nat.ltb indices)) as [Hsorted Hin].
  { apply std_sort_sorted; [exact ltb_asym | exact ltb_not_less_trans]. }
  split; [exact Hsorted|]. intros i. rewrite Hin.
  split; intros Hi.
  - apply (Permutation_in _ (std_sort_perm Nat.ltb indices)) in Hi.
    now apply in_app_or in Hi.
  - apply (Permutation_in _ (Permutation_sym (std_sort_perm Nat.ltb indices))).
    now apply in_or_app.
Qed.

(** X8.  [NearPoints::merge] rebuilds the tree from a strictly increasing
    list of indices, so that no support is in the merged grid twice, and
    the list holds exactly the nodes of either tree that are indices into
    the storage. *)
Theorem merge_indices_union (supports : LayerSupportPoints) (tree near_point : Tree) :
  StronglySorted lt (merge_indices supports tree near_point) /\
  forall i, In i (merge_indices supports tree near_point) <->
            (i < length supports)%nat /\
            (In i (get_nodes tree) \/ In i (get_nodes near_point)).
Proof.
  destruct (merge_indices_spec supports tree near_point) as [Hsorted Hin].
  split; [exact Hsorted|]. intros i. rewrite Hin, !get_indices_In. tauto.
Qed.

End LayerSupports.

Section Grids.
Context `{LayerCollaborators}.

(** The value of the unused leaves of a tree,
    [std::numeric_limits<size_t>::max()]: the nodes of a tree that has
    been built are the indices it was built from and unused leaves. *)
Variable npos : nat.
Hypothesis get_nodes_build :
  forall (supports : LayerSupportPoints) (indices : list nat) (i : nat),
    i <> npos -> (In i (get_nodes (build supports indices)) <-> In i indices).
Hypothesis get_nodes_empty_tree :
  forall i : nat, In i (get_nodes empty_tree) -> i = npos.

Lemma get_indices_build (supports built_on : LayerSupportPoints) (indices : list nat)
  (i : nat) :
  (length supports <= npos)%nat ->
  (In i (get_indices supports (build built_on indices)) <->
   In i indices /\ (i < length supports)%nat).
Proof.
  intros Hmax. rewrite get_indices_In. split.
  - intros [Hi Hlt]. split; [|exact Hlt]. apply get_nodes_build in Hi; [exact Hi | lia].
  - intros [Hi Hlt]. split; [|exact Hlt]. apply get_nodes_build; [lia | exact Hi].
Qed.

Lemma merge_prev_grids_spec (supports : LayerSupportPoints) (prev_grids : list Tree)
  (links : list nat) (near_points result : Tree) :
  (length supports <= npos)%nat ->
  merge_prev_grids supports prev_grids near_points links = Some result ->
  forall i, In i (get_indices supports result) <->
            In i (get_indices supports near_points) \/
            exists k grid, In k links /\ nth_error prev_grids k = Some grid /\
                           In i (get_indices supports grid).
Proof.
  intros Hmax. revert near_points.
  induction links as [|k links IH]; intros near_points Hrun i.
  - injection Hrun as <-. split; [now left|].
    intros [Hi|(k & grid & [] & _)]. exact Hi.
  - cbn [merge_prev_grids] in Hrun.
    destruct (nth_error prev_grids k) as [grid|] eqn:Hk; [|discriminate].
    rewrite (IH _ Hrun i). unfold merge. rewrite get_indices_build by exact Hmax.
    destruct (merge_indices_spec supports near_points grid) as [_ Hin].
    rewrite Hin. split.
    + intros [[[Hi|Hi] Hlt]|(k' & grid' & Hk' & Hnth & Hi)].
      * now left.
      * right. exists k, grid. split; [now left | split; assumption].
      * right. exists k', grid'. split; [now right | split; assumption].
    + intros [Hi|(k' & grid' & [<-|Hk'] & Hnth & Hi)].
      * left. split; [now left|]. now apply get_indices_In in Hi.
      * left. rewrite Hk in Hnth. injection Hnth as <-.
        split; [now right|]. now apply get_indices_In in Hi.
      * right. exists k', grid'. split; [exact Hk' | split; assumption].
Qed.

Lemma filter_length_all {A : Type} (f : A -> bool) (l : list A) :
  length (filter f l) = length l -> forall x, In x l -> f x = true.
Proof.
  induction l as [|y l IH]; intros Hlen x Hx; [contradiction|].
  cbn [filter] in Hlen. pose proof (filter_length_le f l) as Hle.
  destruct (f y) eqn:Hy; cbn [length] in Hlen; [|lia].
  destruct Hx as [<-|Hx]; [exact Hy | apply IH; [lia | exact Hx]].
Qed.

(** X9.  after [remove_out_of] the grid holds exactly the supports it held
    before whose position on the layer lies in one of the shapes; the
    storage is not changed, and a grid with no support outside the shapes
    is not rebuilt. *)
Theorem remove_out_of_keeps_inside (supports : LayerSupportPoints) (tree : Tree)
  (shapes : list ExPolygon) :
  (length supports <= npos)%nat ->
  (forall i,
     In i (get_indices supports (remove_out_of supports tree shapes)) <->
     In i (get_indices supports tree) /\
     exists support shape,
       nth_error supports i = Some support /\ In shape shapes /\
       contains shape (position_on_layer support) = true) /\
  ((forall i, In i (get_indices supports tree) ->
      exists support shape,
        nth_error supports i = Some support /\ In shape shapes /\
        contains shape (position_on_layer support) = true) ->
   remove_out_of supports tree shapes = tree).
Proof.
  intros Hmax. unfold remove_out_of.
  set (inside := fun point_index =>
                   existsb (fun shape =>
                              contains shape
                                (position_on_layer (support_at supports point_index)))
                           shapes).
  assert (Hinside : forall i, In i (get_indices supports tree) ->
            (inside i = true <->
             exists support shape,
               nth_error supports i = Some support /\ In shape shapes /\
               contains shape (position_on_layer support) = true)).
  { intros i Hi. apply get_indices_In in Hi as [_ Hlt].
    destruct (nth_error supports i) as [support|] eqn:Hsupport;
      [|apply nth_error_None in Hsupport; lia].
    assert (Hat : support_at supports i = support)
      by (unfold support_at; now apply nth_error_nth).
    unfold inside. rewrite Hat, existsb_exists. split.
    - intros (shape & Hshape & Hc). now exists support, shape.
    - intros (support' & shape & Heq & Hshape & Hc). injection Heq as <-.
      now exists shape. }
  split.
  - intros i.
    destruct (Nat.eqb_spec (length (filter inside (get_indices supports tree)))
                (length (get_indices supports tree))) as [Hsame|Hless].
    + split; [|tauto]. intros Hi. split; [exact Hi|].
      apply (Hinside i Hi). exact (filter_length_all _ _ Hsame i Hi).
    + rewrite get_indices_build by exact Hmax. rewrite filter_In. split.
      * intros [[Hi Hin] _]. split; [exact Hi | now apply Hinside].
      * intros [Hi Hin]. split; [split; [exact Hi | now apply Hinside]|].
        now apply get_indices_In in Hi.
  - intros Hall.
    replace (filter inside (get_indices supports tree)) with (get_indices supports tree).
    + now rewrite Nat.eqb_refl.
    + symmetry. apply forallb_filter_id. apply forallb_forall.
      intros i Hi. apply Hinside; [exact Hi | now apply Hall].
Qed.

(** X10.  the grid [create_near_points] makes for a part holds exactly the
    supports of the grids of the parts below it: a support is in it when
    it is in the grid of one of the previous parts, and a support that
    two previous parts share is in it once. *)
Theorem create_near_points_union (supports : LayerSupportPoints) (part : LayerPart)
  (prev_grids : list Tree) (near_points : Tree) :
  (length supports <= npos)%nat ->
  create_near_points supports part prev_grids = Some near_points ->
  forall i, In i (get_indices supports near_points) <->
            exists k grid, In k (prev_parts part) /\
                           nth_error prev_grids k = Some grid /\
                           In i (get_indices supports grid).
Proof.
  intros Hmax Hrun i. unfold create_near_points in Hrun.
  destruct (prev_parts part) as [|k links]; [discriminate|].
  destruct (nth_error prev_grids k) as [first_grid|] eqn:Hk; [|discriminate].
  rewrite (merge_prev_grids_spec _ _ _ _ _ Hmax Hrun i). split.
  - intros [Hi|(k' & grid' & Hk' & Hnth & Hi)].
    + exists k, first_grid. split; [now left | split; assumption].
    + exists k', grid'. split; [now right | split; assumption].
  - intros (k' & grid' & [<-|Hk'] & Hnth & Hi).
    + left. rewrite Hk in Hnth. now injection Hnth as <-.
    + right. exists k', grid'. split; [exact Hk' | split; assumption].
Qed.

(** ** Supports of an island *)

Lemma add_island_supports_spec (island_points : Points)
  (config : SupportPointGeneratorConfig) (supports : LayerSupportPoints)
  (near_points : Tree) (part_z : Q) (supports' : LayerSupportPoints)
  (near_points' : Tree) :
  add_island_supports island_points config supports near_points part_z =
    Some (supports', near_points') ->
  (length supports' <= npos)%nat ->
  (exists radius,
      (island_points <> [] -> first_radius config = Some radius) /\
      supports' =
        supports ++
        map (fun p => new_support config SupportPointType.island p (mkPoint 0 0)
                        part_z radius)
            island_points) /\
  forall i, In i (get_indices supports' near_points') <->
            In i (get_indices supports near_points) \/
            (length supports <= i < length supports')%nat.
Proof.
  revert supports near_points.
  induction island_points as [|p island_points IH]; intros supports near_points Hrun Hmax.
  - injection Hrun as <- <-. split.
    + exists 0. split; [intros Hne; contradiction|]. cbn [map]. now rewrite app_nil_r.
    + intros i. split; [now left | intros [Hi|Hi]; [exact Hi | lia]].
  - cbn [add_island_supports] in Hrun.
    destruct (first_radius config) as [radius|] eqn:Hradius; [|discriminate].
    unfold add in Hrun.
    destruct (IH _ _ Hrun Hmax) as [(radius' & Hfirst & Hsupports) Hgrid].
    assert (Hlen : (length supports < length supports')%nat).
    { rewrite Hsupports, !length_app. simpl. lia. }
    split.
    + exists radius. split; [intros _; reflexivity|].
      rewrite Hsupports, <- app_assoc. cbn [app map].
      destruct island_points as [|q island_points]; [reflexivity|].
      assert (Some radius = Some radius') as Heq by (apply Hfirst; discriminate).
      now injection Heq as <-.
    + intros i. rewrite Hgrid.
      assert (Hbuild : In i (get_indices (supports ++ [new_support config
                               SupportPointType.island p (mkPoint 0 0) part_z radius])
                             (build (supports ++ [new_support config
                               SupportPointType.island p (mkPoint 0 0) part_z radius])
                               (get_indices supports near_points ++ [length supports]))) <->
                       In i (get_indices supports near_points) \/ i = length supports).
      { rewrite get_indices_build.
        2:{ rewrite Hsupports in Hmax. rewrite !length_app in *. simpl in *. lia. }
        rewrite in_app_iff, length_app. simpl. split.
        - intros [[Hi|[<-|[]]] _]; [now left | now right].
        - intros [Hi| ->]; [|split; [right; now left | lia]].
          split; [now left|]. apply get_indices_In in Hi. lia. }
      rewrite Hbuild. rewrite length_app. simpl. split.
      * intros [[Hi| ->]|Hi]; [now left | right; lia | right; lia].
      * intros [Hi|Hi]; [left; now left|].
        destruct (Nat.eq_dec i (length supports)) as [->|Hne];
          [left; now right | right; lia].
Qed.

(** X11.  [support_island] on the empty grid of a new island appends one
    support of type island for every point [uniform_support_island]
    returns, in the same order and at the same position, changes no
    support that was in the storage, and leaves in the grid exactly the
    supports it has appended. *)
Theorem support_island_appends `{Collaborators} (fuel : nat) (part : LayerPart)
  (supports : LayerSupportPoints) (part_z : Q) (cfg : SupportPointGeneratorConfig)
  (supports' : LayerSupportPoints) (near_points' : Tree) :
  support_island fuel part supports empty_tree part_z cfg =
    Some (supports', near_points') ->
  (length supports' <= npos)%nat ->
  exists island_samples added,
    uniform_support_island fuel (shape part) (island_configuration cfg) =
      Some island_samples /\
    supports' = supports ++ added /\
    map position_on_layer added = to_points island_samples /\
    Forall (fun support => lsp_type support = SupportPointType.island) added /\
    forall i, In i (get_indices supports' near_points') <->
              (length supports <= i < length supports')%nat.
Proof.
  intros Hrun Hmax. unfold support_island in Hrun.
  destruct (uniform_support_island fuel (shape part) (island_configuration cfg))
    as [island_samples|]; [|discriminate].
  destruct (add_island_supports_spec _ _ _ _ _ _ _ Hrun Hmax)
    as [(radius & _ & Hsupports) Hgrid].
  exists island_samples. eexists. split; [reflexivity|].
  split; [exact Hsupports|]. split; [|split].
  - rewrite map_map. cbn [new_support position_on_layer]. apply map_id.
  - apply Forall_forall. intros support Hin.
    apply in_map_iff in Hin as (p & <- & _). reflexivity.
  - intros i. rewrite Hgrid. split; [|now right].
    intros [Hi|Hi]; [|exact Hi].
    apply get_indices_In in Hi as [Hi Hlt].
    apply get_nodes_empty_tree in Hi.
    assert (length supports <= length supports')%nat
      by (rewrite Hsupports, length_app; lia).
    lia.
Qed.

End Grids.

Section KeepSupports.
Context `{LayerCollaborators}.

(** ** Overhang samples *)

Lemma support_part_overhangs_extends (part_samples : Points)
  (config : SupportPointGeneratorConfig) (supports : LayerSupportPoints)
  (near_points : Tree) (part_z : Q) (maximal_radius : Z)
  (supports' : LayerSupportPoints) (near_points' : Tree) :
  support_part_overhangs part_samples config supports near_points part_z
    maximal_radius = Some (supports', near_points') ->
  exists added, supports' = supports ++ added.
Proof.
  revert supports near_points.
  induction part_samples as [|p part_samples IH]; intros supports near_points Hrun.
  - injection Hrun as <- <-. exists []. now rewrite app_nil_r.
  - cbn [support_part_overhangs] in Hrun.
    destruct (exist_true_in_radius supports near_points p maximal_radius
                is_supported) as [[|]|]; [| |discriminate].
    + exact (IH _ _ Hrun).
    + destruct (first_radius config) as [radius|]; [|discriminate].
      unfold add in Hrun. apply IH in Hrun as (added & ->).
      eexists (_ :: added). now rewrite <- app_assoc.
Qed.

(** X12.  [support_part_overhangs] changes no support that is in the
    storage; what it appends are supports of type slope at samples of the
    part, each with curve index 0 and the radius of the first point of the
    support curve. *)
Theorem support_part_overhangs_appends (part_samples : Points)
  (config : SupportPointGeneratorConfig) (supports : LayerSupportPoints)
  (near_points : Tree) (part_z : Q) (maximal_radius : Z)
  (supports' : LayerSupportPoints) (near_points' : Tree) :
  support_part_overhangs part_samples config supports near_points part_z
    maximal_radius = Some (supports', near_points') ->
  exists added,
    supports' = supports ++ added /\
    incl (map position_on_layer added) part_samples /\
    Forall (fun support => lsp_type support = SupportPointType.slope /\
                           radius_curve_index support = 0%nat /\
                           first_radius config = Some (current_radius support))
           added.
Proof.
  revert supports near_points.
  induction part_samples as [|p part_samples IH]; intros supports near_points Hrun.
  - injection Hrun as <- <-. exists []. rewrite app_nil_r.
    split; [reflexivity|]. split; [intros x []|constructor].
  - cbn [support_part_overhangs] in Hrun.
    destruct (exist_true_in_radius supports near_points p maximal_radius
                is_supported) as [[|]|]; [| |discriminate].
    + apply IH in Hrun as (added & -> & Hincl & Hall).
      exists added. split; [reflexivity|]. split; [|exact Hall].
      intros x Hx. right. now apply Hincl.
    + destruct (first_radius config) as [radius|] eqn:Hradius; [|discriminate].
      unfold add in Hrun. apply IH in Hrun as (added & -> & Hincl & Hall).
      eexists (_ :: added). rewrite <- app_assoc. split; [reflexivity|].
      split.
      * intros x [<-|Hx]; [now left | right; now apply Hincl].
      * constructor; [|exact Hall]. repeat split.
Qed.

(** ** The radius of a support on a layer *)

Lemma find_current_segment_spec (next : list Vec2f) (diff_z : Q) (index : nat) :
  let index' := find_current_segment next diff_z index in
  (index <= index' <= index + length next)%nat /\
  (forall k, (k < index' - index)%nat ->
             (c_y (nth k next (mkVec2f 0 0)) < diff_z)%Q) /\
  ((index' < index + length next)%nat ->
   (diff_z <= c_y (nth (index' - index) next (mkVec2f 0 0)))%Q).
Proof.
  revert index. induction next as [|c next IH]; intros index; cbn [find_current_segment].
  - cbn [length]. split; [lia|]. split; [intros k Hk; lia | intros Hlt; lia].
  - destruct (Qlt_bool (c_y c) diff_z) eqn:Hc.
    + specialize (IH (S index)). cbv zeta in IH. destruct IH as (Hrange & Hskipped & Hstop).
      cbn [length]. split; [lia|]. split.
      * intros k Hk. destruct k as [|k]; cbn [nth].
        -- unfold Qlt_bool in Hc. apply negb_true_iff in Hc.
           apply Qnot_le_lt. intros Hle. apply Qle_bool_iff in Hle. congruence.
        -- apply Hskipped. lia.
      * intros Hlt.
        replace (find_current_segment next diff_z (S index) - index)%nat
          with (S (find_current_segment next diff_z (S index) - S index)) by lia.
        cbn [nth]. apply Hstop. lia.
    + cbn [length]. split; [lia|]. split; [intros k Hk; lia|].
      intros _. rewrite Nat.sub_diag. cbn [nth].
      unfold Qlt_bool in Hc. apply negb_false_iff in Hc. now apply Qle_bool_iff.
Qed.

Lemma set_radius_fields (config : SupportPointGeneratorConfig)
  (support support' : LayerSupportPoint) (index : nat) (radius : Q) :
  set_radius config support index radius = Some support' ->
  placement support' = placement support /\ radius_curve_index support' = index.
Proof.
  unfold set_radius. intros Hset.
  destruct (negb (is_approx (density_relative config) 1 (1 # 10000)));
    [destruct (Qeq_bool (density_relative config) 0); [discriminate|]|];
    injection Hset as <-; split; reflexivity.
Qed.

Lemma prepare_support_prepared (config : SupportPointGeneratorConfig) (layer_z : Q)
  (support support' : LayerSupportPoint) :
  prepare_support config layer_z support = Some support' ->
  prepared (support_curve config) layer_z support support'.
Proof.
  unfold prepare_support, prepared. intros Hrun.
  set (curve := support_curve config) in *.
  set (index := radius_curve_index support) in *.
  destruct (Nat.leb_spec (length curve) (index + 1)) as [Hlast|Hmore].
  { injection Hrun as <-. fold index. repeat split; try lia; intros; lia. }
  set (diff_z := (layer_z - v_z (lsp_pos support))%Q) in *.
  assert (Hseg := find_current_segment_spec (skipn (S index) curve) diff_z index).
  cbv zeta in Hseg. rewrite length_skipn in Hseg.
  set (index' := find_current_segment (skipn (S index) curve) diff_z index) in *.
  destruct Hseg as (Hrange & Hskipped & Hstop).
  assert (Hnth : forall k, nth k (skipn (S index) curve) (mkVec2f 0 0) =
                           nth (S index + k) curve (mkVec2f 0 0)).
  { intros k. rewrite <- (firstn_skipn (S index) curve) at 2.
    rewrite app_nth2; rewrite length_firstn; [f_equal; lia | lia]. }
  assert (Hfields : placement support' = placement support /\
                    radius_curve_index support' = index').
  { destruct (length curve <=? index' + 1)%nat.
    - eapply set_radius_fields; exact Hrun.
    - destruct (Qeq_bool _ _); [discriminate|].
      eapply set_radius_fields; exact Hrun. }
  destruct Hfields as [Hplace Hindex]. rewrite Hindex.
  split; [exact Hplace|]. split; [lia|]. split; [lia|]. split; [lia|]. split.
  - intros j Hj. specialize (Hskipped (j - S index)%nat).
    rewrite Hnth in Hskipped. replace (S index + (j - S index))%nat with j in Hskipped by lia.
    apply Hskipped. lia.
  - intros _ Hlt. rewrite Hnth in Hstop.
    replace (S index + (index' - index))%nat with (S index') in Hstop by lia.
    apply Hstop. lia.
Qed.

Lemma prepare_supports_for_layer_each (supports : LayerSupportPoints)
  (layer_z : Q) (config : SupportPointGeneratorConfig)
  (supports' : LayerSupportPoints) :
  prepare_supports_for_layer supports layer_z config = Some supports' ->
  Forall2 (fun support support' =>
             prepare_support config layer_z support = Some support')
          supports supports'.
Proof.
  revert supports'. induction supports as [|support supports IH]; intros supports' Hrun.
  - injection Hrun as <-. constructor.
  - cbn [prepare_supports_for_layer] in Hrun.
    destruct (prepare_support config layer_z support) as [support'|] eqn:Hone;
      [|discriminate].
    destruct (prepare_supports_for_layer supports layer_z config) as [rest|];
      [|discriminate].
    injection Hrun as <-. constructor; [exact Hone | now apply IH].
Qed.


(** ** The storage over the layers *)

Lemma prepare_supports_for_layer_placement (supports : LayerSupportPoints)
  (layer_z : Q) (config : SupportPointGeneratorConfig)
  (supports' : LayerSupportPoints) :
  prepare_supports_for_layer supports layer_z config = Some supports' ->
  map placement supports' = map placement supports.
Proof.
  intros Hrun. apply prepare_supports_for_layer_each in Hrun.
  induction Hrun as [|support support' supports supports' Hone _ IH]; [reflexivity|].
  cbn [map]. apply prepare_support_prepared in Hone as [-> _]. now rewrite IH.
Qed.

Lemma add_island_supports_extends (island_points : Points)
  (config : SupportPointGeneratorConfig) (supports : LayerSupportPoints)
  (near_points : Tree) (part_z : Q) (supports' : LayerSupportPoints)
  (near_points' : Tree) :
  add_island_supports island_points config supports near_points part_z =
    Some (supports', near_points') ->
  exists added, supports' = supports ++ added.
Proof.
  revert supports near_points.
  induction island_points as [|p island_points IH]; intros supports near_points Hrun.
  - injection Hrun as <- <-. exists []. now rewrite app_nil_r.
  - cbn [add_island_supports] in Hrun.
    destruct (first_radius config) as [radius|]; [|discriminate].
    unfold add in Hrun. apply IH in Hrun as [added ->].
    rewrite <- app_assoc. eexists; reflexivity.
Qed.

Lemma support_peninsulas_extends `{Collaborators} (fuel : nat)
  (part_peninsulas : list Peninsula) (supports : LayerSupportPoints)
  (near_points : Tree) (part_z : Q) (cfg : SupportPointGeneratorConfig)
  (supports' : LayerSupportPoints) (near_points' : Tree) :
  support_peninsulas fuel part_peninsulas supports near_points part_z cfg =
    Some (supports', near_points') ->
  exists added, supports' = supports ++ added.
Proof.
  revert supports near_points.
  induction part_peninsulas as [|peninsula part_peninsulas IH];
    intros supports near_points Hrun.
  - injection Hrun as <- <-. exists []. now rewrite app_nil_r.
  - cbn [support_peninsulas] in Hrun.
    destruct (uniform_support_peninsula fuel peninsula (island_configuration cfg))
      as [peninsula_supports|]; [|discriminate].
    destruct (add_island_supports (to_points peninsula_supports) cfg supports
                near_points part_z) as [[supports1 near_points1]|] eqn:Hadd;
      [|discriminate].
    apply add_island_supports_extends in Hadd as [added1 ->].
    apply IH in Hrun as [added2 ->].
    rewrite <- app_assoc. eexists; reflexivity.
Qed.

Lemma support_layer_part_extends `{Collaborators} (fuel : nat)
  (config : SupportPointGeneratorConfig) (layer_z : Q) (maximal_radius : Z)
  (prev_grids : list Tree) (supports : LayerSupportPoints) (part : LayerPart)
  (supports' : LayerSupportPoints) (grid : Tree) :
  support_layer_part fuel config layer_z maximal_radius prev_grids supports part =
    Some (supports', grid) ->
  exists added, supports' = supports ++ added.
Proof.
  unfold support_layer_part. intros Hrun.
  destruct (prev_parts part) as [|k links].
  - unfold support_island in Hrun.
    destruct (uniform_support_island fuel (shape part) (island_configuration config));
      [|discriminate].
    now apply add_island_supports_extends in Hrun.
  - destruct (create_near_points supports part prev_grids) as [near_points|];
      [|discriminate].
    destruct (support_peninsulas fuel (peninsulas part) supports
                (remove_supports_out_of_part supports near_points part config)
                layer_z config) as [[supports1 near_points1]|] eqn:Hpen;
      [|discriminate].
    apply support_peninsulas_extends in Hpen as [added1 ->].
    apply support_part_overhangs_extends in Hrun as (added2 & ->).
    rewrite <- app_assoc. eexists; reflexivity.
Qed.

Lemma support_layer_parts_extends `{Collaborators} (fuel : nat)
  (config : SupportPointGeneratorConfig) (layer_z : Q) (maximal_radius : Z)
  (prev_grids : list Tree) (layer_parts : list LayerPart)
  (supports : LayerSupportPoints) (grids : list Tree)
  (supports' : LayerSupportPoints) (grids' : list Tree) :
  support_layer_parts fuel config layer_z maximal_radius prev_grids layer_parts
    supports grids = Some (supports', grids') ->
  (exists added, supports' = supports ++ added) /\
  length grids' = (length grids + length layer_parts)%nat.
Proof.
  revert supports grids.
  induction layer_parts as [|part layer_parts IH]; intros supports grids Hrun.
  - injection Hrun as <- <-. split; [exists []; now rewrite app_nil_r | simpl; lia].
  - cbn [support_layer_parts] in Hrun.
    destruct (support_layer_part fuel config layer_z maximal_radius prev_grids
                supports part) as [[supports1 grid]|] eqn:Hpart; [|discriminate].
    apply support_layer_part_extends in Hpart as [added1 ->].
    apply IH in Hrun as [[added2 ->] Hlen]. split.
    + rewrite <- app_assoc. eexists; reflexivity.
    + rewrite Hlen, length_app. simpl. lia.
Qed.

(** X14.  over the layers [generate_support_points] never takes a support
    out of the storage and never moves one: after any number of layers
    the places, heads and types of the supports begin with those of the
    supports the loop started from, in the same order. *)
Theorem support_layers_keeps_supports `{Collaborators} (fuel : nat)
  (config : SupportPointGeneratorConfig) (maximal_radius : Z)
  (layers : list Layer) (result : LayerSupportPoints) (prev_grids : list Tree)
  (result' : LayerSupportPoints) :
  support_layers fuel config maximal_radius layers result prev_grids = Some result' ->
  exists added, map placement result' = map placement result ++ map placement added.
Proof.
  revert result prev_grids.
  induction layers as [|layer layers IH]; intros result prev_grids Hrun.
  - injection Hrun as <-. exists []. cbn [map]. now rewrite app_nil_r.
  - cbn [support_layers] in Hrun.
    destruct (prepare_supports_for_layer result (print_z layer) config)
      as [prepared_result|] eqn:Hprepare; [|discriminate].
    destruct (support_layer_parts fuel config (print_z layer) maximal_radius
                prev_grids (parts layer) prepared_result [])
      as [[result1 grids]|] eqn:Hparts; [|discriminate].
    apply prepare_supports_for_layer_placement in Hprepare.
    apply support_layer_parts_extends in Hparts as [[added1 ->] _].
    apply IH in Hrun as [added2 Hrun]. exists (added1 ++ added2).
    rewrite Hrun, !map_app, Hprepare, app_assoc. reflexivity.
Qed.

End KeepSupports.

Lemma list_tree_get_nodes_build (supports : LayerSupportPoints) (indices : list nat)
  (i : nat) :
  i <> example_npos ->
  (In i (@get_nodes list_tree (@build list_tree supports indices)) <-> In i indices).
Proof.
  intros Hi. cbn. rewrite in_app_iff. split; [|now left].
  intros [Hin|[Heq|[]]]; [exact Hin | congruence].
Qed.

Lemma list_tree_get_nodes_empty_tree (i : nat) :
  In i (@get_nodes list_tree (@empty_tree list_tree)) -> i = example_npos.
Proof. intros []. Qed.

Lemma create_near_points_union_witness :
  @create_near_points list_tree example_supports joining_part
    [[0%nat; example_npos]; [1%nat; example_npos]] =
    Some [0%nat; 1%nat; example_npos] /\
  forall i,
    In i (@get_indices list_tree example_supports [0%nat; 1%nat; example_npos]) <->
    exists k grid,
      In k (prev_parts joining_part) /\
      nth_error [[0%nat; example_npos]; [1%nat; example_npos]] k = Some grid /\
      In i (@get_indices list_tree example_supports grid).
Proof.
  split; [reflexivity|].
  apply (@create_near_points_union list_tree example_npos list_tree_get_nodes_build
           example_supports joining_part
           [[0%nat; example_npos]; [1%nat; example_npos]]
           [0%nat; 1%nat; example_npos]).
  - vm_compute. repeat constructor.
  - reflexivity.
Defined.

Lemma support_island_appends_witness :
  exists supports' near_points',
    @support_island list_tree row_collaborators 0 island_part example_supports
      (@empty_tree list_tree) 0 example_generator_config =
      Some (supports', near_points') /\
    length supports' = 4%nat /\
    exists island_samples added,
      uniform_support_island (H := row_collaborators) 0 (shape island_part)
        (island_configuration example_generator_config) = Some island_samples /\
      supports' = example_supports ++ added /\
      map position_on_layer added = to_points island_samples /\
      Forall (fun support => lsp_type support = SupportPointType.island) added /\
      forall i, In i (@get_indices list_tree supports' near_points') <->
                (length example_supports <= i < length supports')%nat.
Proof.
  eexists _, _. split; [lazy; reflexivity|]. split; [reflexivity|].
  apply (@support_island_appends list_tree example_npos list_tree_get_nodes_build
           list_tree_get_nodes_empty_tree row_collaborators 0 island_part
           example_supports 0 example_generator_config).
  - vm_compute. reflexivity.
  - vm_compute. repeat constructor.
Defined.


Lemma support_layers_keeps_supports_witness :
  exists result',
    @support_layers list_tree row_collaborators 0 example_generator_config 5000000
      [mkLayer (3 # 2) [joining_part; island_part]] example_supports
      [[0%nat; example_npos]; [1%nat; example_npos]] = Some result' /\
    length result' = 4%nat /\
    exists added,
      map placement result' = map placement example_supports ++ map placement added.
Proof.
  eexists. split; [lazy; reflexivity|]. split; [reflexivity|].
  apply (@support_layers_keeps_supports list_tree row_collaborators 0
           example_generator_config 5000000
           [mkLayer (3 # 2) [joining_part; island_part]] example_supports
           [[0%nat; example_npos]; [1%nat; example_npos]]).
  vm_compute. reflexivity.
Defined.

Lemma remove_out_of_keeps_inside_witness :
  @remove_out_of list_tree example_supports [0%nat; 1%nat; example_npos]
    [flat_rectangle] = [0%nat; example_npos] /\
  (forall i,
     In i (@get_indices list_tree example_supports
             (@remove_out_of list_tree example_supports [0%nat; 1%nat; example_npos]
                [flat_rectangle])) <->
     In i (@get_indices list_tree example_supports [0%nat; 1%nat; example_npos]) /\
     exists support shape,
       nth_error example_supports i = Some support /\ In shape [flat_rectangle] /\
       @contains list_tree shape (position_on_layer support) = true) /\
  ((forall i,
      In i (@get_indices list_tree example_supports [0%nat; 1%nat; example_npos]) ->
      exists support shape,
        nth_error example_supports i = Some support /\ In shape [flat_rectangle] /\
        @contains list_tree shape (position_on_layer support) = true) ->
   @remove_out_of list_tree example_supports [0%nat; 1%nat; example_npos]
     [flat_rectangle] = [0%nat; 1%nat; example_npos]).
Proof.
  split; [reflexivity|].
  apply (@remove_out_of_keeps_inside list_tree example_npos list_tree_get_nodes_build
           example_supports [0%nat; 1%nat; example_npos] [flat_rectangle]).
  vm_compute. repeat constructor.
Defined.

Lemma support_part_overhangs_appends_witness :
  exists supports' near_points',
    @support_part_overhangs list_tree [mkPoint 350000 100000; mkPoint 2000000 2000000]
      example_generator_config example_supports [0%nat; 1%nat; example_npos] (3 # 2)
      5000000 = Some (supports', near_points') /\
    length supports' = 3%nat /\
    exists added,
      supports' = example_supports ++ added /\
      incl (map position_on_layer added)
           [mkPoint 350000 100000; mkPoint 2000000 2000000] /\
      Forall (fun support =>
                lsp_type support = SupportPointType.slope /\
                radius_curve_index support = 0%nat /\
                @first_radius list_tree example_generator_config =
                  Some (current_radius support))
             added.
Proof.
  eexists _, _. split; [lazy; reflexivity|]. split; [reflexivity|].
  eapply (@support_part_overhangs_appends list_tree
           [mkPoint 350000 100000; mkPoint 2000000 2000000]
           example_generator_config example_supports [0%nat; 1%nat; example_npos]
           (3 # 2) 5000000).
  vm_compute. reflexivity.
Defined.

(* ===================================================================== *)
(** * Samples on the triangular grid *)
(* ===================================================================== *)

Lemma sort_insert_by_perm {A : Type} (less : A -> A -> bool) (x : A) (l : list A) :
  Permutation (sort_insert_by less x l) (x :: l).
Proof.
  induction l as [|y l IH]; cbn [sort_insert_by]; [reflexivity|].
  destruct (less x y); [reflexivity|].
  rewrite IH. apply perm_swap.
Qed.

Lemma std_sort_by_perm {A : Type} (less : A -> A -> bool) (l : list A) :
  Permutation (std_sort_by less l) l.
Proof.
  unfold std_sort_by.
  assert (Hgen : forall acc,
             Permutation (fold_left (fun a x => sort_insert_by less x a) l acc) (acc ++ l)).
  { induction l as [|x l IH]; intros acc; cbn [fold_left].
    - rewrite app_nil_r. reflexivity.
    - rewrite IH, sort_insert_by_perm. apply Permutation_middle. }
  exact (Hgen []).
Qed.

Lemma sample_interval_spec (fuel : nat) (triangle_side y end_x x : Z)
  (result result' : Points) :
  sample_interval fuel triangle_side y end_x x result = Some result' ->
  exists xs,
    result' = result ++ map (fun v => mkPoint v y) xs /\
    Forall (fun v => v < end_x /\ exists j, 0 <= j /\ v = x + j * triangle_side) xs.
Proof.
  revert x result. induction fuel as [|fuel IH]; intros x result Hrun; [discriminate|].
  cbn [sample_interval] in Hrun. destruct (Z.ltb_spec x end_x) as [Hlt|Hge].
  - apply IH in Hrun as (xs & -> & Hall). exists (x :: xs).
    rewrite <- app_assoc. split; [reflexivity|].
    constructor; [split; [exact Hlt | exists 0; lia]|].
    eapply Forall_impl; [|exact Hall]. intros v [Hv (j & Hj & ->)].
    split; [exact Hv|]. exists (j + 1). lia.
  - injection Hrun as <-. exists []. cbn [map]. rewrite app_nil_r. split; [reflexivity|].
    constructor.
Qed.

Lemma sample_interval_total (triangle_side y end_x x : Z) (result : Points) (fuel : nat) :
  0 < triangle_side ->
  (Z.to_nat (end_x - x) < fuel)%nat ->
  exists result', sample_interval fuel triangle_side y end_x x result = Some result'.
Proof.
  intros Hside. revert x result.
  induction fuel as [|fuel IH]; intros x result Hfuel; [lia|].
  cbn [sample_interval]. destruct (Z.ltb_spec x end_x) as [Hlt|Hge].
  - apply IH. lia.
  - eexists; reflexivity.
Qed.

Lemma quot_next_multiple (start triangle_side : Z) :
  0 < triangle_side ->
  start <= (if 0 <? start then Z.quot start triangle_side + 1
            else Z.quot start triangle_side) * triangle_side.
Proof.
  intros Hside. assert (Hquot := Z.quot_rem' start triangle_side).
  destruct (Z.ltb_spec 0 start) as [Hpos|Hneg].
  - assert (Hrem := Z.rem_bound_pos start triangle_side ltac:(lia) Hside). nia.
  - assert (Hrem := Z.rem_bound_pos_neg start triangle_side Hside Hneg). nia.
Qed.

Lemma first_sample_x_spec (triangle_side half_triangle_side : Z) (is_odd : bool)
  (start_x x : Z) :
  0 < triangle_side ->
  first_sample_x triangle_side half_triangle_side is_odd start_x = Some x ->
  start_x <= x /\
  exists m, x = m * triangle_side - (if is_odd then half_triangle_side else 0).
Proof.
  intros Hside. unfold first_sample_x.
  destruct (Z.eqb_spec triangle_side 0) as [->|_]; [lia|].
  intros Hx. injection Hx as <-. destruct is_odd.
  - assert (Hle := quot_next_multiple (start_x + half_triangle_side) triangle_side Hside).
    split; [lia | eexists; reflexivity].
  - assert (Hle := quot_next_multiple start_x triangle_side Hside).
    split; [lia | eexists; now rewrite Z.sub_0_r].
Qed.

Lemma list_pairs_ind {A : Type} (P : list A -> Prop) :
  P [] -> (forall x, P [x]) -> (forall x y l, P l -> P (x :: y :: l)) ->
  forall l, P l.
Proof.
  intros Hnil Hone Hpair. fix IH 1.
  intros [|x [|y l]]; [exact Hnil | apply Hone | apply Hpair, IH].
Qed.

(** The samples of one row. *)
Lemma sample_row_spec (fuel : nat) (triangle_side half_triangle_side : Z)
  (is_odd : bool) (y : Z) (intersections : list Z) (result result' : Points) :
  0 < triangle_side ->
  sample_row fuel triangle_side half_triangle_side is_odd y intersections result =
    Some result' ->
  exists added,
    result' = result ++ added /\
    Forall (fun p =>
              py p = y /\
              (exists m, px p = m * triangle_side -
                                (if is_odd then half_triangle_side else 0)) /\
              exists start_x end_x,
                In start_x intersections /\ In end_x intersections /\
                start_x <= px p < end_x)
           added.
Proof.
  intros Hside. revert result.
  induction intersections as [|start_x|start_x end_x rest IH] using list_pairs_ind;
    intros result Hrun.
  - injection Hrun as <-. exists []. rewrite app_nil_r. split; [reflexivity | constructor].
  - injection Hrun as <-. exists []. rewrite app_nil_r. split; [reflexivity | constructor].
  - cbn [sample_row] in Hrun.
    destruct (first_sample_x triangle_side half_triangle_side is_odd start_x)
      as [x|] eqn:Hfirst; [|discriminate].
    destruct (sample_interval fuel triangle_side y end_x x result)
      as [result1|] eqn:Hinterval; [|discriminate].
    apply first_sample_x_spec in Hfirst as [Hstart [m Hm]]; [|exact Hside].
    apply sample_interval_spec in Hinterval as (xs & -> & Hxs).
    apply IH in Hrun as (added & -> & Hadded).
    exists (map (fun v => mkPoint v y) xs ++ added).
    rewrite <- app_assoc. split; [reflexivity|].
    apply Forall_app. split.
    + apply Forall_forall. intros p Hp. apply in_map_iff in Hp as (v & <- & Hv).
      rewrite Forall_forall in Hxs. destruct (Hxs v Hv) as [Hend (j & Hj & ->)].
      cbn [px py]. split; [reflexivity|]. split.
      * exists (m + j). rewrite Hm. lia.
      * exists start_x, end_x. split; [now left|]. split; [right; now left|]. nia.
    + eapply Forall_impl; [|exact Hadded].
      intros p (Hy & Hgrid & s & e & Hs & He & Hbetween).
      split; [exact Hy|]. split; [exact Hgrid|].
      exists s, e. split; [right; now right|]. split; [right; now right | exact Hbetween].
Qed.

Lemma sample_row_total (triangle_side half_triangle_side : Z) (is_odd : bool) (y : Z)
  (intersections : list Z) :
  0 < triangle_side ->
  exists fuel0, forall fuel result, (fuel0 <= fuel)%nat ->
    exists result',
      sample_row fuel triangle_side half_triangle_side is_odd y intersections result =
        Some result'.
Proof.
  intros Hside.
  induction intersections as [|start_x|start_x end_x rest IH] using list_pairs_ind.
  - exists 0%nat. intros fuel result _. eexists; reflexivity.
  - exists 0%nat. intros fuel result _. eexists; reflexivity.
  - destruct IH as [fuel_rest Hrest].
    destruct (first_sample_x triangle_side half_triangle_side is_odd start_x)
      as [x|] eqn:Hfirst.
    2:{ unfold first_sample_x in Hfirst.
        destruct (Z.eqb_spec triangle_side 0); [lia | discriminate]. }
    exists (Nat.max fuel_rest (S (Z.to_nat (end_x - x)))).
    intros fuel result Hfuel. cbn [sample_row]. rewrite Hfirst.
    destruct (sample_interval_total triangle_side y end_x x result fuel Hside)
      as [result1 ->]; [lia|].
    apply Hrest. lia.
Qed.

Lemma row_intersections_sound (lines : Lines) (y : Z) (increase : bool)
  (start_index : nat) (v : Z) :
  In v (snd (row_intersections lines y increase start_index)) ->
  exists line, In line lines /\
               py (line_a line) < y < py (line_b line) /\ v = row_intersection line y.
Proof.
  revert increase start_index.
  induction lines as [|line lines IH]; intros increase start_index Hin; [contradiction|].
  cbn [row_intersections] in Hin.
  destruct (Z.leb_spec (py (line_b line)) y) as [Hb|Hb].
  - apply IH in Hin as (l & Hl & Hcross). exists l. split; [now right | exact Hcross].
  - destruct (Z.leb_spec y (py (line_a line))) as [Ha|Ha]; [contradiction|].
    destruct (row_intersections lines y false start_index) as [s xs] eqn:Hrest.
    cbn [snd] in Hin. destruct Hin as [<-|Hin].
    + exists line. split; [now left|]. split; [lia | reflexivity].
    + assert (Hin' : In v (snd (row_intersections lines y false start_index)))
        by now rewrite Hrest.
      apply IH in Hin' as (l & Hl & Hcross). exists l. split; [now right | exact Hcross].
Qed.

Lemma in_skipn {A : Type} (n : nat) (l : list A) (x : A) : In x (skipn n l) -> In x l.
Proof.
  intros Hin. rewrite <- (firstn_skipn n l). apply in_or_app. now right.
Qed.

(** The samples of all rows from row [k] on. *)
Lemma sample_rows_spec (fuel : nat) (lines : Lines)
  (triangle_side triangle_height first_y max_y : Z) (k : Z) (start_index : nat)
  (is_odd : bool) (result result' : Points) :
  0 < triangle_side -> 0 <= k -> is_odd = Z.odd k ->
  sample_rows fuel lines triangle_side (Z.quot triangle_side 2) triangle_height max_y
    (first_y + k * triangle_height) start_index is_odd result = Some result' ->
  exists added,
    result' = result ++ added /\
    Forall (fun p => on_triangular_grid triangle_side triangle_height first_y max_y p /\
                     between_crossings lines p)
           added.
Proof.
  intros Hside. revert k start_index is_odd result.
  induction fuel as [|fuel IH]; intros k start_index is_odd result Hk Hodd Hrun;
    [discriminate|].
  cbn [sample_rows] in Hrun.
  destruct (Z.ltb_spec (first_y + k * triangle_height) max_y) as [Hlt|Hge].
  2:{ injection Hrun as <-. exists []. rewrite app_nil_r.
      split; [reflexivity | constructor]. }
  destruct (row_intersections (skipn start_index lines) (first_y + k * triangle_height)
              true start_index) as [start_index' intersections] eqn:Hrow.
  destruct (sample_row (S fuel) triangle_side (Z.quot triangle_side 2) (negb is_odd)
              (first_y + k * triangle_height) (std_sort_by Z.ltb intersections) result)
    as [result1|] eqn:Hsample; [|discriminate].
  apply sample_row_spec in Hsample as (added1 & -> & Hadded1); [|exact Hside].
  replace (first_y + k * triangle_height + triangle_height)
    with (first_y + (k + 1) * triangle_height) in Hrun by lia.
  apply IH in Hrun as (added2 & -> & Hadded2);
    [|lia | rewrite Hodd, Z.odd_add; simpl; now destruct (Z.odd k)].
  exists (added1 ++ added2). rewrite <- app_assoc. split; [reflexivity|].
  apply Forall_app. split; [|exact Hadded2].
  eapply Forall_impl; [|exact Hadded1].
  intros p (Hy & [m Hm] & s & e & Hs & He & Hbetween). split.
  - exists k, m. split; [exact Hk|]. split; [exact Hy|]. split; [lia|].
    rewrite Hm, Hodd, <- Z.negb_even, negb_involutive. reflexivity.
  - assert (Hsound : forall v, In v (std_sort_by Z.ltb intersections) ->
                exists line, In line lines /\
                             py (line_a line) < py p < py (line_b line) /\
                             v = row_intersection line (py p)).
    { intros v Hv. apply (Permutation_in _ (std_sort_by_perm Z.ltb intersections)) in Hv.
      assert (Hv' : In v (snd (row_intersections (skipn start_index lines)
                                 (first_y + k * triangle_height) true start_index)))
        by now rewrite Hrow.
      apply row_intersections_sound in Hv' as (line & Hline & Hcross & ->).
      exists line. rewrite Hy. split; [eapply in_skipn; exact Hline|].
      split; [exact Hcross | reflexivity]. }
    destruct (Hsound s Hs) as (l1 & Hl1 & Hc1 & ->).
    destruct (Hsound e He) as (l2 & Hl2 & Hc2 & ->).
    exists l1, l2. repeat split; try assumption; lia.
Qed.

Lemma sample_rows_total (lines : Lines)
  (triangle_side half_triangle_side triangle_height max_y : Z) :
  0 < triangle_side -> 0 < triangle_height ->
  forall (n : nat) (y : Z) (start_index : nat) (is_odd : bool),
    (Z.to_nat (max_y - y) <= n)%nat ->
    exists fuel0, forall fuel result, (fuel0 <= fuel)%nat ->
      exists result',
        sample_rows fuel lines triangle_side half_triangle_side triangle_height
          max_y y start_index is_odd result = Some result'.
Proof.
  intros Hside Hheight. induction n as [|n IH]; intros y start_index is_odd Hn.
  - exists 1%nat. intros fuel result Hfuel. destruct fuel as [|fuel]; [lia|].
    cbn [sample_rows]. destruct (Z.ltb_spec y max_y) as [Hlt|Hge]; [lia|].
    eexists; reflexivity.
  - destruct (Z.ltb_spec y max_y) as [Hlt|Hge].
    + destruct (row_intersections (skipn start_index lines) y true start_index)
        as [start_index' intersections] eqn:Hrow.
      destruct (sample_row_total triangle_side half_triangle_side (negb is_odd) y
                  (std_sort_by Z.ltb intersections) Hside) as [fuel_row Hrow_total].
      destruct (IH (y + triangle_height) start_index' (negb is_odd)) as [fuel_rest Hrest];
        [lia|].
      exists (Nat.max fuel_row (S fuel_rest)). intros fuel result Hfuel.
      destruct fuel as [|fuel]; [lia|].
      cbn [sample_rows]. destruct (Z.ltb_spec y max_y) as [_|Hge]; [|lia].
      rewrite Hrow.
      destruct (Hrow_total (S fuel) result) as [result1 ->]; [lia|].
      apply Hrest. lia.
    + exists 1%nat. intros fuel result Hfuel. destruct fuel as [|fuel]; [lia|].
      cbn [sample_rows]. destruct (Z.ltb_spec y max_y) as [Hlt|_]; [lia|].
      eexists; reflexivity.
Qed.

Lemma sampling_lines_In (lines : Lines) (line : Line) :
  In line (sampling_lines lines) ->
  py (line_a line) < py (line_b line) /\
  (In line lines \/ In (mkLine (line_b line) (line_a line)) lines).
Proof.
  unfold sampling_lines. intros Hin.
  apply (Permutation_in _ (std_sort_by_perm _ _)) in Hin.
  apply in_map_iff in Hin as (l & Hl & Hin).
  apply filter_In in Hin as [Hin Hflat].
  apply negb_true_iff, Z.eqb_neq in Hflat.
  destruct (Z.ltb_spec (py (line_b l)) (py (line_a l))) as [Hlt|Hge]; subst line.
  - cbn [line_a line_b]. split; [lia|]. right. now destruct l.
  - split; [lia | now left].
Qed.

(** X15.  for a contour, lines and a [triangle_side] within
    [sample_coord_limit], with a positive [triangle_side] and a positive
    height of the triangle, [sample_expolygon] returns, and every sample
    lies on a triangular grid: on a row at
    [min_y + triangle_height / 2 + k * triangle_height] below the highest y
    of the contour, at a multiple of [triangle_side], shifted left by half
    a side on the rows with even [k].  [triangle_height] is the height the
    code computes in [float]. *)
Theorem sample_expolygon_triangular_grid `{Collaborators} (expoly : ExPolygon)
  (triangle_side : Z) (front : Point) (rest : Points) :
  0 < triangle_side <= sample_coord_limit ->
  0 < triangle_height_of triangle_side ->
  Forall within_sample_limit (contour expoly) ->
  lines_within_sample_limit (to_lines expoly) ->
  contour expoly = front :: rest ->
  let range := fold_left extend_y_range (contour expoly) (py front, py front) in
  let triangle_height := triangle_height_of triangle_side in
  let first_y := fst range + Z.quot triangle_height 2 in
  exists fuel0, forall fuel, (fuel0 <= fuel)%nat ->
    exists result,
      sample_expolygon fuel expoly triangle_side = Some result /\
      Forall (on_triangular_grid triangle_side triangle_height first_y (snd range))
             result.
Proof.
  intros [Hside _] Hheight _ _ Hcontour range triangle_height first_y.
  fold triangle_height in Hheight.
  destruct (sample_rows_total (sampling_lines (to_lines expoly)) triangle_side
              (Z.quot triangle_side 2) triangle_height (snd range) Hside Hheight
              (Z.to_nat (snd range - first_y)) first_y 0%nat false (Nat.le_refl _))
    as [fuel0 Htotal].
  exists fuel0. intros fuel Hfuel.
  destruct (Htotal fuel [] Hfuel) as [result Hrun]. exists result.
  unfold sample_expolygon. rewrite Hcontour. rewrite <- Hcontour. fold range.
  destruct range as [min_y max_y] eqn:Hrange. cbn [fst snd] in *.
  fold triangle_height. fold first_y. split; [exact Hrun|].
  replace first_y with (first_y + 0 * triangle_height) in Hrun by lia.
  apply sample_rows_spec in Hrun as (added & -> & Hadded);
    [|exact Hside | lia | reflexivity].
  cbn [app]. eapply Forall_impl; [|exact Hadded]. now intros p [Hgrid _].
Qed.

(** X16.  for lines and a [triangle_side] within [sample_coord_limit],
    every sample of [sample_expolygon] lies on its row between two lines
    of the expolygon that cross the row: at or right of the x the code
    computes, in [float], for the place where one of them meets the row,
    and left of the x it computes for the other. *)
Theorem sample_expolygon_between_crossings `{Collaborators} (fuel : nat)
  (expoly : ExPolygon) (triangle_side : Z) (result : Points) :
  0 < triangle_side <= sample_coord_limit ->
  Forall within_sample_limit (contour expoly) ->
  lines_within_sample_limit (to_lines expoly) ->
  sample_expolygon fuel expoly triangle_side = Some result ->
  Forall (between_crossings (sampling_lines (to_lines expoly))) result.
Proof.
  intros [Hside _] _ _ Hrun. unfold sample_expolygon in Hrun.
  destruct (contour expoly) as [|front rest] eqn:Hcontour; [discriminate|].
  destruct (fold_left extend_y_range (front :: rest) (py front, py front))
    as [min_y max_y].
  set (first_y := min_y + Z.quot (triangle_height_of triangle_side) 2) in *.
  replace first_y with (first_y + 0 * triangle_height_of triangle_side) in Hrun by lia.
  apply sample_rows_spec in Hrun as (added & -> & Hadded);
    [|exact Hside | lia | reflexivity].
  cbn [app]. eapply Forall_impl; [|exact Hadded]. now intros p [_ Hbetween].
Qed.

Lemma holed_square_within_limit :
  Forall within_sample_limit (contour holed_square) /\
  lines_within_sample_limit (to_lines (Collaborators := outline_collaborators) holed_square).
Proof.
  split; repeat (apply Forall_cons; [vm_compute; intuition discriminate|]);
    apply Forall_nil.
Qed.

Lemma sample_expolygon_triangular_grid_witness :
  triangle_height_of 3000000 = 2598076 /\
  triangle_height_of 5000004 = 4330131 /\
  exists fuel0, forall fuel, (fuel0 <= fuel)%nat ->
    exists result,
      sample_expolygon (H := outline_collaborators) fuel holed_square 3000000 =
        Some result /\
      Forall (on_triangular_grid 3000000 (triangle_height_of 3000000)
                (0 + Z.quot (triangle_height_of 3000000) 2) 10000000) result.
Proof.
  split; [vm_compute; reflexivity|]. split; [vm_compute; reflexivity|].
  exact (sample_expolygon_triangular_grid (H := outline_collaborators) holed_square
           3000000 (mkPoint 0 0)
           [mkPoint 10000000 0; mkPoint 10000000 10000000; mkPoint 0 10000000]
           ltac:(unfold sample_coord_limit; lia) ltac:(vm_compute; reflexivity)
           (proj1 holed_square_within_limit) (proj2 holed_square_within_limit)
           eq_refl).
Defined.

Lemma sample_expolygon_between_crossings_witness :
  exists result,
    sample_expolygon (H := outline_collaborators) 20 holed_square 3000000 =
      Some result /\
    length result = 14%nat /\
    Forall (between_crossings
              (sampling_lines (to_lines (Collaborators := outline_collaborators)
                                 holed_square)))
           result.
Proof.
  eexists. split; [vm_compute; reflexivity|]. split; [reflexivity|].
  apply (sample_expolygon_between_crossings (H := outline_collaborators) 20
           holed_square 3000000);
    [unfold sample_coord_limit; lia
    | exact (proj1 holed_square_within_limit)
    | exact (proj2 holed_square_within_limit)
    | vm_compute; reflexivity].
Defined.

(* ===================================================================== *)
(** * The biggest hole as contour *)
(* ===================================================================== *)

Section BiggestHole.
Variable bounding_box_size : Points -> Point.

Local Abbreviation width := (fun polygon : Polygon => px (bounding_box_size polygon)).

Lemma find_biggest_hole_spec (shape_holes : list Polygon) (hole_index : nat)
  (contour_size_x : Z) (contour_index : nat) :
  let found :=
    find_biggest_hole bounding_box_size shape_holes hole_index contour_size_x
      contour_index in
  (Forall (fun hole => width hole < contour_size_x) shape_holes /\
   found = contour_index) \/
  (exists k hole,
      found = (hole_index + k)%nat /\ nth_error shape_holes k = Some hole /\
      contour_size_x <= width hole /\
      Forall (fun other => width other <= width hole) shape_holes /\
      Forall (fun later => width later < width hole) (skipn (S k) shape_holes)).
Proof.
  revert hole_index contour_size_x contour_index.
  induction shape_holes as [|hole shape_holes IH];
    intros hole_index contour_size_x contour_index; cbn [find_biggest_hole].
  - left. split; [constructor | reflexivity].
  - destruct (Z.ltb_spec (width hole) contour_size_x) as [Hsmall|Hbig].
    + destruct (IH (S hole_index) contour_size_x contour_index)
        as [[Hall Hfound]|(k & h & Hfound & Hnth & Hsize & Hmax & Hlater)].
      * left. split; [constructor; assumption | exact Hfound].
      * right. exists (S k), h. split; [rewrite Hfound; lia|].
        split; [exact Hnth|]. split; [exact Hsize|].
        split; [constructor; [lia | exact Hmax] | exact Hlater].
    + destruct (IH (S hole_index) (width hole) hole_index)
        as [[Hall Hfound]|(k & h & Hfound & Hnth & Hsize & Hmax & Hlater)].
      * right. exists 0%nat, hole. split; [rewrite Hfound; lia|].
        split; [reflexivity|]. split; [exact Hbig|].
        split; [|exact Hall].
        constructor; [lia|]. eapply Forall_impl; [|exact Hall]. intros other Hother. cbv beta in *. lia.
      * right. exists (S k), h. split; [rewrite Hfound; lia|].
        split; [exact Hnth|]. split; [lia|].
        split; [constructor; [lia | exact Hmax] | exact Hlater].
Qed.

Lemma fold_left_lengths (blocks : list (list nat)) (shape_holes : list Polygon)
  (offset : nat) :
  Forall2 (fun block hole => length block = length hole) blocks shape_holes ->
  fold_left (fun offset hole => (offset + length hole)%nat) shape_holes offset =
  (offset + length (concat blocks))%nat.
Proof.
  intros Hall. revert offset.
  induction Hall as [|block hole blocks shape_holes Hlen _ IH]; intros offset;
    [simpl; lia|].
  cbn [fold_left concat]. rewrite IH, length_app. lia.
Qed.

Lemma Forall2_firstn {A B : Type} (R : A -> B -> Prop) (n : nat) (l1 : list A)
  (l2 : list B) :
  Forall2 R l1 l2 -> Forall2 R (firstn n l1) (firstn n l2).
Proof.
  intros Hall. revert n. induction Hall as [|x y l1 l2 Hxy _ IH]; intros [|n];
    cbn [firstn]; constructor; auto.
Qed.

Lemma concat_split_nth (blocks : list (list nat)) (k : nat) (block : list nat) :
  nth_error blocks k = Some block ->
  concat blocks = concat (firstn k blocks) ++ block ++ concat (skipn (S k) blocks).
Proof.
  revert k. induction blocks as [|b blocks IH]; intros [|k] Hnth; try discriminate.
  - injection Hnth as ->. reflexivity.
  - cbn [firstn skipn concat]. rewrite (IH k Hnth), <- app_assoc. reflexivity.
Qed.

Lemma concat_set_nth (blocks : list (list nat)) (k : nat) (block new : list nat) :
  nth_error blocks k = Some block ->
  concat (set_nth k new blocks) =
  concat (firstn k blocks) ++ new ++ concat (skipn (S k) blocks).
Proof.
  revert k. induction blocks as [|b blocks IH]; intros [|k] Hnth; try discriminate.
  - reflexivity.
  - cbn [firstn skipn concat set_nth]. rewrite (IH k Hnth), <- app_assoc. reflexivity.
Qed.

Lemma firstn_exact {A : Type} (l1 l2 : list A) (n : nat) :
  n = length l1 -> firstn n (l1 ++ l2) = l1.
Proof.
  intros ->. rewrite firstn_app, Nat.sub_diag, firstn_all. cbn [firstn]. apply app_nil_r.
Qed.

Lemma skipn_exact {A : Type} (l1 l2 : list A) (n : nat) :
  n = length l1 -> skipn n (l1 ++ l2) = l2.
Proof.
  intros ->. rewrite skipn_app, Nat.sub_diag, skipn_all. reflexivity.
Qed.

(** X18.  [set_biggest_hole_as_contour] leaves the shape and the indices
    alone exactly when every hole is narrower than the contour.
    Otherwise the hole that becomes the contour is at least as wide as the
    contour and as every hole, and wider than every hole after it; the old
    contour takes its place among the holes. *)
Theorem set_biggest_hole_as_contour_widest (shape : ExPolygon) (ids : list nat)
  (changed : bool) (shape' : ExPolygon) (ids' : list nat) :
  set_biggest_hole_as_contour bounding_box_size shape ids =
    Some (changed, shape', ids') ->
  (changed = false <->
   Forall (fun hole => width hole < width (contour shape)) (holes shape)) /\
  (changed = false -> shape' = shape /\ ids' = ids) /\
  (changed = true ->
   exists k,
     nth_error (holes shape) k = Some (contour shape') /\
     holes shape' = set_nth k (contour shape) (holes shape) /\
     width (contour shape) <= width (contour shape') /\
     Forall (fun hole => width hole <= width (contour shape')) (holes shape) /\
     Forall (fun later => width later < width (contour shape'))
            (skipn (S k) (holes shape))).
Proof.
  unfold set_biggest_hole_as_contour. intros Hrun.
  destruct (find_biggest_hole_spec (holes shape) 0 (width (contour shape))
              (length (holes shape)))
    as [[Hall Hfound]|(k & hole & Hfound & Hnth & Hsize & Hmax & Hlater)];
    cbv zeta in Hfound; rewrite Hfound in Hrun.
  - rewrite Nat.eqb_refl in Hrun. injection Hrun as <- <- <-.
    split; [split; [intros _; exact Hall | reflexivity]|].
    split; [intros _; split; reflexivity | discriminate].
  - cbn [Nat.add] in Hrun.
    assert (Hk : (k < length (holes shape))%nat)
      by (apply nth_error_Some; congruence).
    assert (Hne : (k =? length (holes shape))%nat = false) by (apply Nat.eqb_neq; lia).
    rewrite Hne in Hrun.
    destruct (_ <? _)%nat in Hrun; [discriminate|].
    injection Hrun as <- <- <-. cbn [contour holes].
    rewrite (nth_error_nth _ _ _ Hnth).
    split; [split; [discriminate|]|].
    { intros Hall. rewrite Forall_forall in Hall.
      assert (Hin := nth_error_In _ _ Hnth). apply Hall in Hin. lia. }
    split; [discriminate|]. intros _. exists k.
    repeat split; assumption.
Qed.

Lemma swap_ids (C B H A R : list nat) :
  let ids := (C ++ B) ++ H ++ A ++ R in
  let offset := (length C + length B)%nat in
  let ids1 := firstn offset ids ++ skipn (offset + length H) ids in
  firstn (offset + length H - offset) (skipn offset ids) ++
  skipn (length C)
    (firstn offset ids1 ++ firstn (length C) ids1 ++ skipn offset ids1) =
  H ++ B ++ C ++ A ++ R.
Proof.
  intros ids offset ids1.
  assert (Hoffset : offset = length (C ++ B)) by (unfold offset; now rewrite length_app).
  assert (Hend : (offset + length H)%nat = length ((C ++ B) ++ H))
    by (rewrite Hoffset, (length_app _ H); reflexivity).
  replace (offset + length H - offset)%nat with (length H) by lia.
  assert (H1 : skipn offset ids = H ++ A ++ R)
    by (unfold ids; now apply skipn_exact).
  assert (H2 : firstn offset ids = C ++ B)
    by (unfold ids; now apply firstn_exact).
  assert (H3 : skipn (offset + length H) ids = A ++ R).
  { unfold ids. rewrite (app_assoc (C ++ B) H). now apply skipn_exact. }
  assert (H4 : ids1 = (C ++ B) ++ A ++ R) by (unfold ids1; now rewrite H2, H3).
  rewrite H1, H4, (firstn_exact H _ (length H)) by reflexivity.
  rewrite (firstn_exact (C ++ B) _ offset), (skipn_exact (C ++ B) _ offset)
    by exact Hoffset.
  rewrite <- (app_assoc C B (A ++ R)), (firstn_exact C _ (length C)) by reflexivity.
  rewrite <- (app_assoc C B (C ++ A ++ R)), (skipn_exact C _ (length C)) by reflexivity.
  reflexivity.
Qed.

(** X19.  when the indices are laid out as the points of the shape are,
    the indices of the contour first and then those of each hole,
    [set_biggest_hole_as_contour] returns, and after a swap the indices
    are laid out as the points of the new shape are: the indices of the
    hole that is now the contour come first, and the indices of the old
    contour stand where those of that hole stood. *)
Theorem set_biggest_hole_as_contour_ids (shape : ExPolygon)
  (contour_ids : list nat) (blocks : list (list nat)) (rest : list nat) :
  length contour_ids = length (contour shape) ->
  Forall2 (fun block hole => length block = length hole) blocks (holes shape) ->
  exists changed shape' ids',
    set_biggest_hole_as_contour bounding_box_size shape
      (contour_ids ++ concat blocks ++ rest) = Some (changed, shape', ids') /\
    (changed = true ->
     exists k block,
       nth_error blocks k = Some block /\
       nth_error (holes shape) k = Some (contour shape') /\
       holes shape' = set_nth k (contour shape) (holes shape) /\
       ids' = block ++ concat (set_nth k contour_ids blocks) ++ rest).
Proof.
  intros Hcontour Hblocks. unfold set_biggest_hole_as_contour.
  destruct (find_biggest_hole_spec (holes shape) 0 (width (contour shape))
              (length (holes shape)))
    as [[Hall Hfound]|(k & hole & Hfound & Hnth & _)];
    cbv zeta in Hfound; rewrite Hfound.
  - rewrite Nat.eqb_refl. do 3 eexists. split; [reflexivity | discriminate].
  - cbn [Nat.add].
    assert (Hk : (k < length (holes shape))%nat)
      by (apply nth_error_Some; congruence).
    assert (Hne : (k =? length (holes shape))%nat = false) by (apply Nat.eqb_neq; lia).
    rewrite Hne. rewrite (nth_error_nth _ _ _ Hnth).
    assert (Hlen := Forall2_length Hblocks).
    destruct (nth_error blocks k) as [block|] eqn:Hblock.
    2:{ apply nth_error_None in Hblock. unfold Polygon, Points in *. lia. }
    assert (Hblock_len : length block = length hole).
    { clear - Hblocks Hblock Hnth. revert k Hblock Hnth.
      induction Hblocks as [|b h bs hs Hbh _ IH]; intros [|k] Hb Hh; try discriminate.
      - injection Hb as <-. injection Hh as <-. exact Hbh.
      - eapply IH; eassumption. }
    rewrite (fold_left_lengths (firstn k blocks)) by now apply Forall2_firstn.
    set (before := concat (firstn k blocks)).
    set (after := concat (skipn (S k) blocks)).
    assert (Hids : contour_ids ++ concat blocks ++ rest =
                   (contour_ids ++ before) ++ block ++ after ++ rest).
    { rewrite (concat_split_nth blocks k block Hblock). fold before after.
      now rewrite <- !app_assoc. }
    rewrite Hids, <- Hcontour, <- Hblock_len.
    destruct (Nat.ltb_spec (length ((contour_ids ++ before) ++ block ++ after ++ rest))
                (length contour_ids + length before + length block)) as [Hshort|_].
    { rewrite !length_app in Hshort. lia. }
    do 3 eexists. split; [reflexivity|]. intros _. exists k, block.
    split; [exact Hblock|]. cbn [contour holes].
    split; [exact Hnth|]. split; [reflexivity|].
    rewrite (concat_set_nth blocks k block contour_ids Hblock). fold before after.
    replace (block ++ (before ++ contour_ids ++ after) ++ rest)
      with (block ++ before ++ contour_ids ++ after ++ rest)
      by (now rewrite <- !app_assoc).
    exact (swap_ids contour_ids before block after rest).
Qed.

End BiggestHole.

Lemma set_biggest_hole_as_contour_widest_witness :
  exists shape' ids',
    set_biggest_hole_as_contour box_size inverted_field
      [0; 1; 2; 3; 4; 5; 6; 7; 8; 9; 10; 11]%nat = Some (true, shape', ids') /\
    (true = false <->
     Forall (fun hole => px (box_size hole) < px (box_size (contour inverted_field)))
            (holes inverted_field)) /\
    (true = false ->
     shape' = inverted_field /\ ids' = [0; 1; 2; 3; 4; 5; 6; 7; 8; 9; 10; 11]%nat) /\
    (true = true ->
     exists k,
       nth_error (holes inverted_field) k = Some (contour shape') /\
       holes shape' = set_nth k (contour inverted_field) (holes inverted_field) /\
       px (box_size (contour inverted_field)) <= px (box_size (contour shape')) /\
       Forall (fun hole => px (box_size hole) <= px (box_size (contour shape')))
              (holes inverted_field) /\
       Forall (fun later => px (box_size later) < px (box_size (contour shape')))
              (skipn (S k) (holes inverted_field))).
Proof.
  eexists _, _. split; [lazy; reflexivity|].
  apply (set_biggest_hole_as_contour_widest box_size inverted_field
           [0; 1; 2; 3; 4; 5; 6; 7; 8; 9; 10; 11]%nat).
  vm_compute. reflexivity.
Defined.

Lemma set_biggest_hole_as_contour_ids_witness :
  exists changed shape' ids',
    set_biggest_hole_as_contour box_size inverted_field
      ([0; 1; 2; 3] ++ concat [[4; 5; 6]; [7; 8; 9; 10]] ++ [11])%nat =
      Some (changed, shape', ids') /\
    (changed = true ->
     exists k block,
       nth_error [[4; 5; 6]; [7; 8; 9; 10]]%nat k = Some block /\
       nth_error (holes inverted_field) k = Some (contour shape') /\
       holes shape' = set_nth k (contour inverted_field) (holes inverted_field) /\
       ids' = (block ++
               concat (set_nth k [0; 1; 2; 3] [[4; 5; 6]; [7; 8; 9; 10]]) ++ [11])%nat).
Proof.
  apply (set_biggest_hole_as_contour_ids box_size inverted_field [0; 1; 2; 3]%nat
           [[4; 5; 6]; [7; 8; 9; 10]]%nat [11%nat]).
  - reflexivity.
  - repeat constructor.
Defined.

(* ===================================================================== *)
(** * The centre of the bounding box and the simplified island *)
(* ===================================================================== *)

Lemma fold_min_In (l : list Z) (v x : Z) : In x (v :: l) -> fold_left Z.min l v <= x.
Proof.
  revert v. induction l as [|y l IH]; intros v Hin; cbn [fold_left].
  - destruct Hin as [<-|[]]. lia.
  - destruct Hin as [Hv|[Hy|Hin]].
    + subst x. pose proof (fold_min_le l (Z.min v y)). lia.
    + subst x. pose proof (fold_min_le l (Z.min v y)). lia.
    + apply IH. now right.
Qed.

Lemma fold_max_In (l : list Z) (v x : Z) : In x (v :: l) -> x <= fold_left Z.max l v.
Proof.
  revert v. induction l as [|y l IH]; intros v Hin; cbn [fold_left].
  - destruct Hin as [<-|[]]. lia.
  - destruct Hin as [Hv|[Hy|Hin]].
    + subst x. pose proof (fold_max_ge l (Z.max v y)). lia.
    + subst x. pose proof (fold_max_ge l (Z.max v y)). lia.
    + apply IH. now right.
Qed.

Lemma coord_range_In (f : Point -> Z) (points : Points) (p : Point) :
  In p points -> coord_min f points <= f p <= coord_max f points.
Proof.
  intros Hin. destruct points as [|first rest]; [contradiction|].
  unfold coord_min, coord_max. split.
  - apply fold_min_In. change (In (f p) (map f (first :: rest))). now apply in_map.
  - apply fold_max_In. change (In (f p) (map f (first :: rest))). now apply in_map.
Qed.

Lemma half_sum_bounds (lo hi : Z) :
  lo + hi - 2 <= 2 * (Z.quot lo 2 + Z.quot hi 2) <= lo + hi + 2.
Proof.
  assert (Hlo := Z.quot_rem' lo 2). assert (Hhi := Z.quot_rem' hi 2).
  assert (Hrl := Z.rem_bound_abs lo 2 ltac:(lia)).
  assert (Hrh := Z.rem_bound_abs hi 2 ltac:(lia)).
  lia.
Qed.

(** X20.  for points with coordinates in [-2^30, 2^30), where no
    difference of two coordinates leaves the 32 bits of [coord_t]: when
    [get_center] accepts the point list for a [max_radius] that is not
    negative, every point of the list lies, in x and in y, within half of
    [max_radius] plus one unit of the centre it returns. *)
Theorem get_center_within_radius (points : Points) (max_radius : Z) (center p : Point) :
  Forall in_half_coord_range points ->
  0 <= max_radius < 2 ^ 31 ->
  get_center points max_radius = Some center ->
  In p points ->
  2 * Z.abs (px p - px center) <= max_radius + 2 /\
  2 * Z.abs (py p - py center) <= max_radius + 2.
Proof.
  intros _ [Hr _] Hcenter Hin. rewrite get_center_eq in Hcenter by exact Hr.
  destruct (2 <? length points)%nat; [|discriminate].
  destruct (Z.leb_spec (bbox_width points) max_radius) as [Hw|_]; [|discriminate].
  destruct (Z.leb_spec (bbox_height points) max_radius) as [Hh|_]; [|discriminate].
  cbn [andb] in Hcenter. injection Hcenter as <-. cbn [px py].
  unfold bbox_width, bbox_height in *.
  pose proof (coord_range_In px points p Hin) as Hx.
  pose proof (coord_range_In py points p Hin) as Hy.
  pose proof (half_sum_bounds (coord_min px points) (coord_max px points)).
  pose proof (half_sum_bounds (coord_min py points) (coord_max py points)).
  lia.
Qed.

(** X21.  [get_expolygon_with_biggest_contour] returns the first of the
    expolygons with the most contour points: the expolygons before it
    have fewer points in their contour, the ones after it at most as
    many. *)
Theorem get_expolygon_with_biggest_contour_first (front : ExPolygon)
  (rest : list ExPolygon) :
  exists before after,
    front :: rest =
      before ++ get_expolygon_with_biggest_contour front rest :: after /\
    Forall (fun e => (length (contour e) <
                      length (contour (get_expolygon_with_biggest_contour front rest)))%nat)
           before /\
    Forall (fun e => (length (contour e) <=
                      length (contour (get_expolygon_with_biggest_contour front rest)))%nat)
           after.
Proof.
  assert (Hgen : forall rest before_biggest after_biggest biggest,
             Forall (fun e => (length (contour e) < length (contour biggest))%nat)
                    before_biggest ->
             Forall (fun e => (length (contour e) <= length (contour biggest))%nat)
                    after_biggest ->
             exists before after,
               before_biggest ++ biggest :: after_biggest ++ rest =
                 before ++ get_expolygon_with_biggest_contour biggest rest :: after /\
               Forall (fun e => (length (contour e) <
                   length (contour (get_expolygon_with_biggest_contour biggest rest)))%nat)
                 before /\
               Forall (fun e => (length (contour e) <=
                   length (contour (get_expolygon_with_biggest_contour biggest rest)))%nat)
                 after).
  { clear. induction rest as [|current rest IH];
      intros before_biggest after_biggest biggest Hbefore Hafter;
      cbn [get_expolygon_with_biggest_contour].
    - exists before_biggest, after_biggest. rewrite app_nil_r. auto.
    - destruct (Nat.ltb_spec (length (contour biggest)) (length (contour current)))
        as [Hlt|Hge].
      + destruct (IH (before_biggest ++ biggest :: after_biggest) [] current)
          as (before & after & Heq & Hb & Ha).
        * apply Forall_app. split.
          -- eapply Forall_impl; [|exact Hbefore]. intros e He. cbv beta in *. lia.
          -- constructor; [exact Hlt|].
             eapply Forall_impl; [|exact Hafter]. intros e He. cbv beta in *. lia.
        * constructor.
        * exists before, after. split; [|auto].
          rewrite <- Heq, <- app_assoc. reflexivity.
      + destruct (IH before_biggest (after_biggest ++ [current]) biggest Hbefore)
          as (before & after & Heq & Hb & Ha).
        * apply Forall_app. split; [exact Hafter|]. constructor; [exact Hge | constructor].
        * exists before, after. split; [|auto].
          rewrite <- Heq, <- app_assoc. reflexivity. }
  exact (Hgen rest [] [] front (Forall_nil _) (Forall_nil _)).
Qed.

(* ===================================================================== *)
(** * What alignment keeps *)
(* ===================================================================== *)

Section AlignedFrom.
Context `{Collaborators}.

Lemma aligned_from_refl (support : SupportIslandPoint) : aligned_from support support.
Proof. split; reflexivity. Qed.

Lemma aligned_from_trans (a b c : SupportIslandPoint) :
  aligned_from a b -> aligned_from b c -> aligned_from a c.
Proof.
  intros [Hab Hab'] [Hbc Hbc']. split; [congruence|].
  intros Ha. specialize (Hab' Ha). subst b. exact (Hbc' Ha).
Qed.

Lemma move_aligned_from (support : SupportIslandPoint) (destination : Point) :
  aligned_from support (fst (move support destination)).
Proof.
  split; [apply move_type|].
  unfold move, can_move. destruct (movement support); try discriminate. reflexivity.
Qed.

Lemma align_support_aligned_from (island : ExPolygon) (cell_polygon : Polygon)
  (support : SupportIslandPoint) (max_move : Z) :
  aligned_from support (fst (align_support island cell_polygon support max_move)).
Proof.
  unfold align_support.
  destruct (negb (can_move support)); [apply aligned_from_refl|].
  destruct (_ <? _)%nat; [apply aligned_from_refl|].
  match goal with
  | |- context [match ?c with Some _ => _ | None => _ end] => destruct c as [cell|]
  end; [|apply aligned_from_refl].
  pose proof (move_aligned_from support (centroid cell)) as Hmove.
  destruct (move support (centroid cell)) as [moved d]. exact Hmove.
Qed.

Lemma align_once_loop_aligned_from (island : ExPolygon) (cell_polygons : list Polygon) :
  forall supports i max_move,
    Forall2 aligned_from supports
      (fst (align_once_loop island cell_polygons i supports max_move)).
Proof.
  induction supports as [|support supports IH]; intros i max_move;
    cbn [align_once_loop]; [constructor|].
  pose proof (align_support_aligned_from island (nth i cell_polygons []) support max_move)
    as Hone.
  destruct (align_support island (nth i cell_polygons []) support max_move)
    as [support' m].
  specialize (IH (S i) m).
  destruct (align_once_loop island cell_polygons (S i) supports m) as [rest m'].
  constructor; assumption.
Qed.

Lemma Forall2_set_nth_aligned (base supports : SupportIslandPoints) (i : nat)
  (support support' : SupportIslandPoint) :
  Forall2 aligned_from base supports ->
  nth_error supports i = Some support ->
  aligned_from support support' ->
  Forall2 aligned_from base (set_nth i support' supports).
Proof.
  intros Hall. revert i. induction Hall as [|b s base supports Hbs Hrest IH];
    intros [|i] Hnth Hmove; try discriminate.
  - injection Hnth as ->. cbn [set_nth]. constructor; [|exact Hrest].
    eapply aligned_from_trans; eassumption.
  - cbn [set_nth]. constructor; [exact Hbs|]. now apply IH.
Qed.

Lemma move_duplicit_positions_loop_aligned_from (prev_position : Points)
  (base : SupportIslandPoints) :
  forall fuel supports aligned sorted out,
    move_duplicit_positions_loop fuel supports aligned sorted prev_position = Some out ->
    Forall2 aligned_from base supports -> Forall2 aligned_from base out.
Proof.
  induction fuel as [|fuel IH]; intros supports aligned sorted out Hrun Hbase;
    [discriminate|].
  cbn [move_duplicit_positions_loop] in Hrun.
  destruct (_ <=? _)%nat; [injection Hrun as <-; exact Hbase|].
  destruct (nth_error supports _) as [support|] eqn:Hnth; [|discriminate].
  pose proof (move_aligned_from support
                (point_add (point_half (nth (get_duplicit_index sorted aligned)
                                          prev_position origin))
                           (point_half (nth (get_duplicit_index sorted aligned)
                                          aligned origin)))) as Hmove.
  destruct (move support _) as [support' d]. cbn [fst] in Hmove.
  apply (IH _ _ _ _ Hrun).
  eapply Forall2_set_nth_aligned; eassumption.
Qed.

Lemma align_once_aligned_from (fuel : nat) (supports : SupportIslandPoints)
  (island : ExPolygon) (config : SampleConfig) (out : SupportIslandPoints) (m : Z) :
  align_once fuel supports island config = Some (out, m) ->
  Forall2 aligned_from supports out.
Proof.
  unfold align_once. intros Hrun.
  pose proof (align_once_loop_aligned_from island
                (create_voronoi_cells_cgal (to_points supports)
                   (Z.max (Z.max (thin_max_distance config)
                                 (thick_inner_max_distance config))
                          (thick_outline_max_distance config)))
                supports 0%nat 0) as Hloop.
  destruct (align_once_loop _ _ _ _ _) as [moved m'].
  cbn [fst] in Hloop. unfold move_duplicit_positions in Hrun.
  destruct (move_duplicit_positions_loop _ _ _ _ _) as [r|] eqn:Hdup; [|discriminate].
  injection Hrun as <- _.
  exact (move_duplicit_positions_loop_aligned_from _ _ _ _ _ _ _ Hdup Hloop).
Qed.

Lemma Forall2_aligned_from_refl (supports : SupportIslandPoints) :
  Forall2 aligned_from supports supports.
Proof. induction supports; constructor; [apply aligned_from_refl | assumption]. Qed.

Lemma Forall2_aligned_from_trans (a b c : SupportIslandPoints) :
  Forall2 aligned_from a b -> Forall2 aligned_from b c -> Forall2 aligned_from a c.
Proof.
  intros Hab. revert c. induction Hab as [|x y a b Hxy _ IH]; intros c Hbc;
    inversion Hbc; subst; constructor.
  - eapply aligned_from_trans; eassumption.
  - now apply IH.
Qed.

Lemma align_samples_loop_aligned_from
  (sweep : SupportIslandPoints -> option (SupportIslandPoints * Z))
  (minimal_move' : Z) :
  (forall s s' m, sweep s = Some (s', m) -> Forall2 aligned_from s s') ->
  forall fuel count samples sweeps out k,
    align_samples_loop sweep minimal_move' fuel count samples sweeps = Some (out, k) ->
    Forall2 aligned_from samples out.
Proof.
  intros Hsweep.
  induction fuel as [|fuel IH]; intros count samples sweeps out k Hrun; [discriminate|].
  cbn [align_samples_loop] in Hrun.
  destruct (1 <? _); [|injection Hrun as <- _; apply Forall2_aligned_from_refl].
  destruct (sweep samples) as [[s' m]|] eqn:Es; [|discriminate].
  pose proof (Hsweep _ _ _ Es) as Hone.
  destruct (m <? minimal_move'); [injection Hrun as <- _; exact Hone|].
  eapply Forall2_aligned_from_trans; [exact Hone|]. exact (IH _ _ _ _ _ Hrun).
Qed.

(** X23.  alignment returns the supports it was given, one for one and in
    the same order: each keeps its type, and a support that cannot move is
    returned as it was, at the same position. *)
Theorem align_samples_keeps_supports (fuel fuel_duplicit : nat)
  (samples : SupportIslandPoints) (island : ExPolygon) (config : SampleConfig)
  (out : SupportIslandPoints) (sweeps : Z) :
  align_samples fuel fuel_duplicit samples island config = Some (out, sweeps) ->
  Forall2 aligned_from samples out.
Proof.
  unfold align_samples, align_samples_with. intros Hrun.
  destruct (length samples =? 1)%nat;
    [injection Hrun as <- _; apply Forall2_aligned_from_refl|].
  destruct (negb (existsb can_move samples));
    [injection Hrun as <- _; apply Forall2_aligned_from_refl|].
  eapply align_samples_loop_aligned_from; [|exact Hrun].
  intros s s' m Hs. eapply align_once_aligned_from. exact Hs.
Qed.

End AlignedFrom.

(* ===================================================================== *)
(** * Links between island parts *)
(* ===================================================================== *)

Lemma nth_error_snoc {A : Type} (l : list A) (x : A) (k : nat) :
  nth_error (l ++ [x]) k =
  if (k <? length l)%nat then nth_error l k
  else if (k =? length l)%nat then Some x else None.
Proof.
  destruct (Nat.ltb_spec k (length l)) as [Hlt|Hge].
  - now apply nth_error_app1.
  - rewrite nth_error_app2 by exact Hge.
    destruct (Nat.eqb_spec k (length l)) as [->|Hne].
    + now rewrite Nat.sub_diag.
    + destruct (k - length l)%nat as [|d] eqn:Hd; [lia|]. now destruct d.
Qed.

Lemma nth_error_modify_nth {A : Type} (f : A -> A) (l : list A) (i k : nat) :
  nth_error (modify_nth i f l) k =
  if (k =? i)%nat then option_map f (nth_error l k) else nth_error l k.
Proof.
  destruct (Nat.eqb_spec k i) as [->|Hne].
  - destruct (nth_error l i) as [x|] eqn:Hx.
    + now apply nth_error_modify_nth_eq.
    + apply nth_error_None. rewrite length_modify_nth. now apply nth_error_None.
  - apply nth_error_modify_nth_ne. lia.
Qed.

Lemma set_part_type_linked_back (island_parts : IslandParts) (index : nat)
  (t : IslandPartType) :
  linked_back island_parts ->
  linked_back (modify_nth index (set_part_type t) island_parts).
Proof.
  intros Hlb i part c Hpart Hc.
  assert (Hsource : exists part0, nth_error island_parts i = Some part0 /\
                                  changes part = changes part0).
  { rewrite nth_error_modify_nth in Hpart. destruct (i =? index)%nat.
    - destruct (nth_error island_parts i) as [part0|]; [|discriminate].
      injection Hpart as <-. now exists part0.
    - now exists part. }
  destruct Hsource as (part0 & Hpart0 & Hchanges). rewrite Hchanges in Hc.
  destruct (Hlb i part0 c Hpart0 Hc) as (neighbor_part & back & Hn & Hback & Hi).
  rewrite nth_error_modify_nth. destruct (part_index c =? index)%nat.
  - rewrite Hn. eexists _, back. split; [reflexivity|]. split; assumption.
  - exists neighbor_part, back. split; [exact Hn|]. split; assumption.
Qed.

Section AddPart.
Context `{Collaborators}.

(** [add_part] keeps the links between the parts in order and returns
    the index of a part. *)
Lemma add_part_linked (g : VoronoiGraph) (island_parts : IslandParts)
  (index : nat) (to_type : IslandPartType) (neighbor : Neighbor) (limit : Z)
  (lines : Lines) (config : SampleConfig) (island_parts' : IslandParts) (next : nat) :
  add_part g island_parts index to_type neighbor limit lines config =
    Some (island_parts', next) ->
  (index < length island_parts)%nat ->
  well_linked island_parts -> linked_back island_parts ->
  well_linked island_parts' /\ linked_back island_parts' /\
  (next < length island_parts')%nat /\
  (length island_parts <= length island_parts' <= S (length island_parts))%nat.
Proof.
  unfold add_part. intros Hrun Hindex Hwl Hlb.
  destruct (ends_in_distanace _ _).
  { injection Hrun as <- <-. (split; [assumption|split; [assumption|split; [assumption|lia]]]). }
  destruct (get_twin g neighbor) as [twin|]; [|discriminate].
  destruct (_ && _).
  { injection Hrun as <- <-.
    change (match island_parts with
            | [] => []
            | x :: l' => set_part_type to_type x :: l'
            end) with (modify_nth 0 (set_part_type to_type) island_parts).
    rewrite length_modify_nth.
    split; [now apply set_part_type_well_linked|].
    split; [now apply set_part_type_linked_back|]. lia. }
  injection Hrun as <- <-.
  set (position := get_position_with_width neighbor limit lines) in *.
  set (new_index := length island_parts) in *.
  set (extend := fun p => mkIslandPart (part_type p)
                            (changes p ++ [mkChange position new_index])
                            (sum_lengths p + calc_distance position)).
  set (new_part := mkIslandPart to_type
                     [mkChange (mkPosition twin (1 - pos_ratio position)) index]
                     (calc_distance (mkPosition twin (1 - pos_ratio position)))).
  assert (Hlen : length (modify_nth index extend island_parts ++ [new_part]) =
                 S new_index).
  { rewrite length_app, length_modify_nth. simpl. unfold new_index. lia. }
  assert (Hnth : forall k,
             nth_error (modify_nth index extend island_parts ++ [new_part]) k =
             if (k <? new_index)%nat then
               if (k =? index)%nat then option_map extend (nth_error island_parts k)
               else nth_error island_parts k
             else if (k =? new_index)%nat then Some new_part else None).
  { intros k. rewrite nth_error_snoc, length_modify_nth, nth_error_modify_nth.
    reflexivity. }
  destruct (nth_error island_parts index) as [indexed|] eqn:Hindexed.
  2:{ apply nth_error_None in Hindexed. lia. }
  split; [|split; [|lia]].
  - (* well linked *)
    intros k part c Hpart Hc. rewrite Hlen. rewrite Hnth in Hpart.
    destruct (Nat.ltb_spec k new_index) as [Hk|Hk].
    + destruct (Nat.eqb_spec k index) as [->|Hne].
      * rewrite Hindexed in Hpart. injection Hpart as <-. cbn [extend changes] in Hc.
        apply in_app_or in Hc as [Hc|[<-|[]]].
        -- destruct (Hwl index indexed c Hindexed Hc). fold new_index in H0. lia.
        -- cbn [part_index]. lia.
      * destruct (Hwl k part c Hpart Hc). fold new_index in H0. lia.
    + destruct (Nat.eqb_spec k new_index) as [->|]; [|discriminate].
      injection Hpart as <-. destruct Hc as [<-|[]]. cbn [part_index]. lia.
  - (* linked back *)
    intros k part c Hpart Hc. rewrite Hnth in Hpart. rewrite Hnth.
    destruct (Nat.ltb_spec k new_index) as [Hk|Hk].
    + assert (Hold : forall part0, nth_error island_parts k = Some part0 ->
                       In c (changes part0) ->
                       exists neighbor_part back,
                         (if (part_index c <? new_index)%nat
                          then if (part_index c =? index)%nat
                               then option_map extend (nth_error island_parts (part_index c))
                               else nth_error island_parts (part_index c)
                          else if (part_index c =? new_index)%nat
                               then Some new_part else None) = Some neighbor_part /\
                         In back (changes neighbor_part) /\ part_index back = k).
      { intros part0 Hpart0 Hc0.
        destruct (Hwl k part0 c Hpart0 Hc0) as [Hbound _]. fold new_index in Hbound.
        destruct (Hlb k part0 c Hpart0 Hc0) as (np & back & Hnp & Hback & Hbk).
        destruct (Nat.ltb_spec (part_index c) new_index) as [_|]; [|lia].
        destruct (Nat.eqb_spec (part_index c) index) as [Heq|_].
        - rewrite Hnp. eexists _, back. split; [reflexivity|].
          split; [|exact Hbk]. cbn [extend changes]. apply in_or_app. now left.
        - exists np, back. split; [exact Hnp|]. split; assumption. }
      destruct (Nat.eqb_spec k index) as [->|Hne].
      * rewrite Hindexed in Hpart. injection Hpart as <-. cbn [extend changes] in Hc.
        apply in_app_or in Hc as [Hc|[<-|[]]]; [exact (Hold indexed Hindexed Hc)|].
        cbn [part_index]. rewrite Nat.ltb_irrefl, Nat.eqb_refl.
        eexists _, _. split; [reflexivity|]. split; [now left | reflexivity].
      * exact (Hold part Hpart Hc).
    + destruct (Nat.eqb_spec k new_index) as [->|]; [|discriminate].
      injection Hpart as <-. destruct Hc as [<-|[]]. cbn [part_index].
      destruct (Nat.ltb_spec index new_index) as [_|]; [|lia].
      rewrite Nat.eqb_refl, Hindexed. eexists _, _. split; [reflexivity|].
      split; [cbn [extend changes]; apply in_or_app; right; now left | reflexivity].
Qed.

Lemma same_part_linked (island_parts : IslandParts) (index : nat) (neighbor : Neighbor)
  (island_parts' : IslandParts) (next : nat) :
  same_part island_parts index neighbor = Some (island_parts', next) ->
  (index < length island_parts)%nat ->
  well_linked island_parts -> linked_back island_parts ->
  well_linked island_parts' /\ linked_back island_parts' /\
  (next < length island_parts')%nat /\ length island_parts' = length island_parts.
Proof.
  unfold same_part. intros Hrun Hindex Hwl Hlb. injection Hrun as <- <-.
  set (longer := fun p => mkIslandPart (part_type p) (changes p)
                            (sum_lengths p + to_coord (n_length neighbor))).
  assert (Hsource : forall k part,
             nth_error (modify_nth index longer island_parts) k = Some part ->
             exists part0, nth_error island_parts k = Some part0 /\
                           changes part = changes part0).
  { intros k part Hpart. rewrite nth_error_modify_nth in Hpart.
    destruct (k =? index)%nat.
    - destruct (nth_error island_parts k) as [part0|]; [|discriminate].
      injection Hpart as <-. now exists part0.
    - now exists part. }
  rewrite length_modify_nth. split; [|split; [|split; [exact Hindex | reflexivity]]].
  - intros k part c Hpart Hc. rewrite length_modify_nth.
    destruct (Hsource k part Hpart) as (part0 & Hpart0 & Hchanges).
    rewrite Hchanges in Hc. exact (Hwl k part0 c Hpart0 Hc).
  - intros k part c Hpart Hc.
    destruct (Hsource k part Hpart) as (part0 & Hpart0 & Hchanges).
    rewrite Hchanges in Hc.
    destruct (Hlb k part0 c Hpart0 Hc) as (np & back & Hnp & Hback & Hbk).
    rewrite nth_error_modify_nth. destruct (part_index c =? index)%nat.
    + rewrite Hnp. eexists _, back. split; [reflexivity|]. split; assumption.
    + exists np, back. split; [exact Hnp|]. split; assumption.
Qed.

(** X24.  [detect_interface] keeps the island parts linked: when every
    change of a part names another part that exists and has a change back
    from it, the same holds after the call; the index it returns is the
    index of a part, no part is removed and at most two are added. *)
Theorem detect_interface_keeps_links (g : VoronoiGraph) (island_parts : IslandParts)
  (index : nat) (neighbor : Neighbor) (lines : Lines) (config : SampleConfig)
  (island_parts' : IslandParts) (next : nat) :
  detect_interface g island_parts index neighbor lines config =
    Some (island_parts', next) ->
  well_linked island_parts -> linked_back island_parts ->
  well_linked island_parts' /\ linked_back island_parts' /\
  (next < length island_parts')%nat /\
  (length island_parts <= length island_parts' <= length island_parts + 2)%nat.
Proof.
  unfold detect_interface. intros Hrun Hwl Hlb.
  destruct (nth_error island_parts index) as [part|] eqn:Hpart; [|discriminate].
  assert (Hindex : (index < length island_parts)%nat)
    by (apply nth_error_Some; congruence).
  assert (Hone : forall t limit parts1 next1,
             add_part g island_parts index t neighbor limit lines config =
               Some (parts1, next1) ->
             well_linked parts1 /\ linked_back parts1 /\ (next1 < length parts1)%nat /\
             (length island_parts <= length parts1 <= length island_parts + 2)%nat).
  { intros t limit parts1 next1 Hadd.
    destruct (add_part_linked _ _ _ _ _ _ _ _ _ _ Hadd Hindex Hwl Hlb)
      as (H1 & H2 & H3 & H4).
    (split; [assumption|split; [assumption|split; [assumption|lia]]]). }
  assert (Hsame : forall parts1 next1,
             same_part island_parts index neighbor = Some (parts1, next1) ->
             well_linked parts1 /\ linked_back parts1 /\ (next1 < length parts1)%nat /\
             (length island_parts <= length parts1 <= length island_parts + 2)%nat).
  { intros parts1 next1 Hs.
    destruct (same_part_linked _ _ _ _ _ Hs Hindex Hwl Hlb) as (H1 & H2 & H3 & H4).
    (split; [assumption|split; [assumption|split; [assumption|lia]]]). }
  assert (Htwo : forall t1 limit1 t2 limit2 (stop : bool),
             match add_part g island_parts index t1 neighbor limit1 lines config with
             | Some (parts1, next1) =>
                 if stop then Some (parts1, next1)
                 else add_part g parts1 next1 t2 neighbor limit2 lines config
             | None => None
             end = Some (island_parts', next) ->
             well_linked island_parts' /\ linked_back island_parts' /\
             (next < length island_parts')%nat /\
             (length island_parts <= length island_parts' <=
              length island_parts + 2)%nat).
  { intros t1 limit1 t2 limit2 stop Hboth.
    destruct (add_part g island_parts index t1 neighbor limit1 lines config)
      as [[parts1 next1]|] eqn:Hfirst; [|discriminate].
    destruct (add_part_linked _ _ _ _ _ _ _ _ _ _ Hfirst Hindex Hwl Hlb)
      as (H1 & H2 & H3 & H4).
    destruct stop.
    - injection Hboth as <- <-. (split; [assumption|split; [assumption|split; [assumption|lia]]]).
    - destruct (add_part_linked _ _ _ _ _ _ _ _ _ _ Hboth H3 H1 H2)
        as (H5 & H6 & H7 & H8).
      (split; [assumption|split; [assumption|split; [assumption|lia]]]). }
  destruct (part_type part).
  - destruct (_ <? _); [exact (Hsame _ _ Hrun)|].
    exact (Htwo _ _ _ _ _ Hrun).
  - destruct (_ <? _); [exact (Hone _ _ _ _ Hrun)|].
    destruct (_ <? _); [exact (Hone _ _ _ _ Hrun) | exact (Hsame _ _ Hrun)].
  - destruct (_ <? _); [exact (Hsame _ _ Hrun)|].
    exact (Htwo _ _ _ _ _ Hrun).
Qed.

End AddPart.

(** Merging two parts keeps every change answered by a change back; the
    parts in front of the erased one keep their place and their type, and
    all but the merged one keep the number of their changes. *)
Lemma merge_island_parts_linked_back (island_parts : IslandParts)
  (index remove_index : nat) (merged_parts : IslandParts) :
  (index < remove_index)%nat -> (remove_index < length island_parts)%nat ->
  well_linked island_parts -> linked_back island_parts ->
  merge_island_parts island_parts index remove_index = Some merged_parts ->
  linked_back merged_parts /\
  (forall k p, (k < remove_index)%nat -> nth_error merged_parts k = Some p ->
     exists q, nth_error island_parts k = Some q /\ part_type p = part_type q /\
               (k <> index -> length (changes p) = length (changes q))).
Proof.
  intros Hlt Hlen Hwl Hlb. unfold merge_island_parts.
  destruct (Nat.eqb_spec index remove_index) as [Heq|_]; [lia|].
  destruct (nth_error island_parts index) as [part|] eqn:Hpart;
    [|apply nth_error_None in Hpart; lia].
  destruct (nth_error island_parts remove_index) as [remove_part|] eqn:Hremove;
    [|apply nth_error_None in Hremove; lia].
  intros Hrun. injection Hrun as <-.
  set (kept := filter (fun c => negb (points_to remove_index c)) (changes part)).
  set (moved := filter (fun c => negb (points_to index c)) (changes remove_part)).
  set (F := fun p => mkIslandPart (part_type p) (kept ++ moved) (sum_lengths p)).
  set (G := fun p => mkIslandPart (part_type p)
                       (map (fix_index index remove_index) (changes p))
                       (sum_lengths p)).
  set (P1 := modify_nth index F island_parts).
  set (place := fun x => if (remove_index <? x)%nat then (x - 1)%nat else x).
  assert (HP1 : forall x, nth_error P1 x =
                  if (x =? index)%nat then Some (F part) else nth_error island_parts x).
  { intros x. unfold P1. rewrite nth_error_modify_nth.
    destruct (Nat.eqb_spec x index) as [->|]; [now rewrite Hpart | reflexivity]. }
  assert (Hat : forall x, x <> remove_index ->
                  nth_error (map G (erase_nth remove_index P1)) (place x) =
                  option_map G (nth_error P1 x)).
  { intros x Hx. rewrite nth_error_map. unfold place.
    destruct (Nat.ltb_spec remove_index x) as [Hhigh|Hlow].
    - rewrite nth_error_erase_nth_ge by lia.
      replace (S (x - 1)) with x by lia. reflexivity.
    - rewrite nth_error_erase_nth_lt by lia. reflexivity. }
  assert (Hfrom : forall k p, nth_error (map G (erase_nth remove_index P1)) k = Some p ->
                    exists k0 q, k0 <> remove_index /\ k = place k0 /\
                                 nth_error P1 k0 = Some q /\ p = G q).
  { intros k p Hp. rewrite nth_error_map in Hp. unfold place.
    destruct (nth_error (erase_nth remove_index P1) k) as [q|] eqn:Hq; [|discriminate].
    injection Hp as <-.
    destruct (Nat.ltb_spec k remove_index) as [Hkr|Hkr].
    - exists k, q. rewrite nth_error_erase_nth_lt in Hq by exact Hkr.
      destruct (Nat.ltb_spec remove_index k); [lia|].
      split; [lia|]. split; [reflexivity|]. split; [exact Hq | reflexivity].
    - exists (S k), q. rewrite nth_error_erase_nth_ge in Hq by exact Hkr.
      destruct (Nat.ltb_spec remove_index (S k)); [|lia].
      split; [lia|]. split; [lia|]. split; [exact Hq | reflexivity]. }
  assert (Hshift : forall c0, part_index (fix_index index remove_index c0) =
                     if (part_index c0 =? remove_index)%nat then index
                     else place (part_index c0)).
  { intros c0. unfold fix_index, place.
    destruct (part_index c0 =? remove_index)%nat; [reflexivity|].
    destruct (remove_index <? part_index c0)%nat; reflexivity. }
  assert (Hplace_index : place index = index).
  { unfold place. destruct (Nat.ltb_spec remove_index index); [lia | reflexivity]. }
  assert (Hkept : forall c0, In c0 kept <->
                    In c0 (changes part) /\ part_index c0 <> remove_index).
  { intros c0. unfold kept. rewrite filter_In. unfold points_to.
    rewrite negb_true_iff, Nat.eqb_neq. reflexivity. }
  assert (Hmoved : forall c0, In c0 moved <->
                     In c0 (changes remove_part) /\ part_index c0 <> index).
  { intros c0. unfold moved. rewrite filter_In. unfold points_to.
    rewrite negb_true_iff, Nat.eqb_neq. reflexivity. }
  split.
  - intros k p c Hp Hc.
    destruct (Hfrom k p Hp) as (k0 & q & Hk0 & -> & Hq & ->).
    cbn [G changes] in Hc. apply in_map_iff in Hc as (c0 & <- & Hc0).
    (* it is enough to name the place the change leads to before the merge *)
    assert (Hsuffices : forall t q' b0,
               t <> remove_index ->
               part_index (fix_index index remove_index c0) = place t ->
               nth_error P1 t = Some q' -> In b0 (changes q') ->
               part_index (fix_index index remove_index b0) = place k0 ->
               exists neighbor_part back,
                 nth_error (map G (erase_nth remove_index P1))
                   (part_index (fix_index index remove_index c0)) = Some neighbor_part /\
                 In back (changes neighbor_part) /\ part_index back = place k0).
    { intros t q' b0 Ht Hto Hq' Hb0 Hback.
      exists (G q'), (fix_index index remove_index b0).
      split; [rewrite Hto, (Hat t Ht), Hq'; reflexivity|].
      split; [cbn [G changes]; now apply in_map | exact Hback]. }
    rewrite HP1 in Hq. destruct (Nat.eqb_spec k0 index) as [->|Hk0i].
    + injection Hq as <-. cbn [F changes] in Hc0.
      apply in_app_or in Hc0 as [Hc0|Hc0].
      * apply Hkept in Hc0 as [Hc0 Hnr].
        destruct (Hwl _ _ _ Hpart Hc0) as [Hbound Hself].
        destruct (Hlb _ _ _ Hpart Hc0) as (np & b0 & Hnp & Hb0 & Hbi).
        apply (Hsuffices (part_index c0) np b0 Hnr).
        -- rewrite Hshift. destruct (Nat.eqb_spec (part_index c0) remove_index);
             [contradiction | reflexivity].
        -- rewrite HP1. destruct (Nat.eqb_spec (part_index c0) index);
             [contradiction | exact Hnp].
        -- exact Hb0.
        -- rewrite Hshift, Hbi.
           destruct (Nat.eqb_spec index remove_index); [lia | reflexivity].
      * apply Hmoved in Hc0 as [Hc0 Hni].
        destruct (Hwl _ _ _ Hremove Hc0) as [Hbound Hself].
        destruct (Hlb _ _ _ Hremove Hc0) as (np & b0 & Hnp & Hb0 & Hbi).
        apply (Hsuffices (part_index c0) np b0 Hself).
        -- rewrite Hshift. destruct (Nat.eqb_spec (part_index c0) remove_index);
             [contradiction | reflexivity].
        -- rewrite HP1. destruct (Nat.eqb_spec (part_index c0) index);
             [contradiction | exact Hnp].
        -- exact Hb0.
        -- rewrite Hshift, Hbi, Nat.eqb_refl. symmetry. exact Hplace_index.
    + destruct (Hwl _ _ _ Hq Hc0) as [Hbound Hself].
      destruct (Hlb _ _ _ Hq Hc0) as (np & b0 & Hnp & Hb0 & Hbi).
      assert (Hback : part_index (fix_index index remove_index b0) = place k0).
      { rewrite Hshift, Hbi. destruct (Nat.eqb_spec k0 remove_index);
          [contradiction | reflexivity]. }
      destruct (Nat.eq_dec (part_index c0) remove_index) as [Htr|Htr].
      * apply (Hsuffices index (F part) b0 ltac:(lia)).
        -- rewrite Hshift, Htr, Nat.eqb_refl. symmetry. exact Hplace_index.
        -- rewrite HP1, Nat.eqb_refl. reflexivity.
        -- cbn [F changes]. apply in_or_app. right. apply Hmoved.
           rewrite Htr, Hremove in Hnp. injection Hnp as <-.
           split; [exact Hb0 | lia].
        -- exact Hback.
      * destruct (Nat.eq_dec (part_index c0) index) as [Hti|Hti].
        -- apply (Hsuffices index (F part) b0 ltac:(lia)).
           ++ rewrite Hshift, Hti.
              destruct (Nat.eqb_spec index remove_index); [lia | reflexivity].
           ++ rewrite HP1, Nat.eqb_refl. reflexivity.
           ++ cbn [F changes]. apply in_or_app. left. apply Hkept.
              rewrite Hti, Hpart in Hnp. injection Hnp as <-.
              split; [exact Hb0 | lia].
           ++ exact Hback.
        -- apply (Hsuffices (part_index c0) np b0 Htr).
           ++ rewrite Hshift. destruct (Nat.eqb_spec (part_index c0) remove_index);
                [contradiction | reflexivity].
           ++ rewrite HP1. destruct (Nat.eqb_spec (part_index c0) index);
                [contradiction | exact Hnp].
           ++ exact Hb0.
           ++ exact Hback.
  - intros k p Hk Hp. rewrite nth_error_map, nth_error_erase_nth_lt in Hp by exact Hk.
    rewrite HP1 in Hp. destruct (Nat.eqb_spec k index) as [->|Hne].
    + injection Hp as <-. exists part. split; [exact Hpart|].
      split; [reflexivity | intros Hc; now contradiction Hc].
    + destruct (nth_error island_parts k) as [q|]; [|discriminate].
      injection Hp as <-. exists q. split; [reflexivity|]. split; [reflexivity|].
      intros _. cbn [G changes]. apply length_map.
Qed.

Lemma set_part_type_nth (island_parts : IslandParts) (index k : nat)
  (t : IslandPartType) (q : IslandPart) :
  nth_error (modify_nth index (set_part_type t) island_parts) k = Some q ->
  exists q0, nth_error island_parts k = Some q0 /\ changes q = changes q0 /\
             (k <> index -> q = q0).
Proof.
  rewrite nth_error_modify_nth. destruct (Nat.eqb_spec k index) as [->|Hne].
  - destruct (nth_error island_parts index) as [q0|]; [|discriminate].
    intros Hq. injection Hq as <-. exists q0.
    split; [reflexivity|]. split; [reflexivity | intros Hc; now contradiction Hc].
  - intros Hq. exists q. split; [exact Hq|]. split; reflexivity.
Qed.

(** The loop of [merge_middle_parts_into_biggest_neighbor] keeps the parts
    in front of [index] settled. *)
Lemma merge_middle_parts_loop_settles :
  forall (fuel : nat) (island_parts : IslandParts) (index : nat)
         (merged_parts : IslandParts),
    well_linked island_parts -> linked_back island_parts ->
    (forall k p, (k < index)%nat -> nth_error island_parts k = Some p -> settled p) ->
    merge_middle_parts_loop fuel island_parts index = Some merged_parts ->
    well_linked merged_parts /\ linked_back merged_parts /\
    (forall p, In p merged_parts -> settled p) /\
    (length merged_parts <= length island_parts)%nat.
Proof.
  induction fuel as [|fuel IH]; intros island_parts index merged_parts Hwl Hlb Hdone Hrun;
    [discriminate|].
  cbn [merge_middle_parts_loop] in Hrun.
  destruct (nth_error island_parts index) as [part|] eqn:Hpart.
  2:{ injection Hrun as <-. split; [exact Hwl|]. split; [exact Hlb|]. split; [|lia].
      intros p Hp. apply In_nth_error in Hp as [k Hk].
      apply (Hdone k p); [|exact Hk].
      apply nth_error_None in Hpart.
      assert (k < length island_parts)%nat by (apply nth_error_Some; congruence). lia. }
  assert (Hlt : (index < length island_parts)%nat)
    by (apply nth_error_Some; congruence).
  assert (Hnext : settled part ->
            merge_middle_parts_loop fuel island_parts (S index) = Some merged_parts ->
            well_linked merged_parts /\ linked_back merged_parts /\
            (forall p, In p merged_parts -> settled p) /\
            (length merged_parts <= length island_parts)%nat).
  { intros Hsettled Hloop. apply (IH island_parts (S index)); try assumption.
    intros k p Hk Hp. destruct (Nat.eq_dec k index) as [->|Hne].
    - rewrite Hpart in Hp. injection Hp as <-. exact Hsettled.
    - apply (Hdone k p); [lia | exact Hp]. }
  destruct (part_type part) eqn:Htype;
    try (apply Hnext; [intros Hmiddle; congruence | exact Hrun]).
  destruct (changes part) as [|first rest] eqn:Hchanges; cbn [max_element] in Hrun;
    [apply Hnext; [intros _; exact Hchanges | exact Hrun]|].
  clear Hnext.
  set (max_change := max_element_from (less_sum_lengths island_parts) first rest) in *.
  assert (Hmax : In max_change (changes part))
    by (rewrite Hchanges; apply max_element_from_In).
  destruct (Hwl index part max_change Hpart Hmax) as [Hbound Hself].
  destruct (Hlb index part max_change Hpart Hmax) as (np & back & Hnp & Hback & _).
  unfold merge_middle_part in Hrun. rewrite Hnp in Hrun.
  set (typed := modify_nth index (set_part_type (part_type np)) island_parts) in *.
  assert (Hwl' : well_linked typed) by now apply set_part_type_well_linked.
  assert (Hlb' : linked_back typed) by now apply set_part_type_linked_back.
  assert (Hlen' : length typed = length island_parts) by apply length_modify_nth.
  destruct (Nat.ltb_spec (part_index max_change) index) as [Hlow|Hhigh].
  - destruct (merge_island_parts_well_linked typed (part_index max_change) index Hlow
                ltac:(lia) Hwl') as (merged & Hmerge & Hlen & Hwlm).
    rewrite Hmerge in Hrun.
    destruct (merge_island_parts_linked_back typed (part_index max_change) index merged
                Hlow ltac:(lia) Hwl' Hlb' Hmerge) as [Hlbm Hsame].
    destruct (IH merged index merged_parts Hwlm Hlbm) as (H1 & H2 & H3 & H4);
      [|exact Hrun|split; [exact H1|]; split; [exact H2|]; split; [exact H3 | lia]].
    intros k p Hk Hp. destruct (Hsame k p Hk Hp) as (q & Hq & Htq & Hcount).
    apply set_part_type_nth in Hq as (q0 & Hq0 & _ & Heq).
    assert (q = q0) as -> by (apply Heq; lia). clear Heq.
    pose proof (Hdone k q0 Hk Hq0) as Hsettled. intros Hmiddle.
    destruct (Nat.eq_dec k (part_index max_change)) as [->|Hne].
    + rewrite Hnp in Hq0. injection Hq0 as <-.
      rewrite Hsettled in Hback by congruence. contradiction.
    + specialize (Hcount Hne). rewrite Hsettled in Hcount by congruence.
      now apply length_zero_iff_nil.
  - destruct (merge_island_parts_well_linked typed index (part_index max_change)
                ltac:(lia) ltac:(lia) Hwl') as (merged & Hmerge & Hlen & Hwlm).
    rewrite Hmerge in Hrun.
    destruct (merge_island_parts_linked_back typed index (part_index max_change) merged
                ltac:(lia) ltac:(lia) Hwl' Hlb' Hmerge) as [Hlbm Hsame].
    destruct (IH merged index merged_parts Hwlm Hlbm) as (H1 & H2 & H3 & H4);
      [|exact Hrun|split; [exact H1|]; split; [exact H2|]; split; [exact H3 | lia]].
    intros k p Hk Hp. destruct (Hsame k p ltac:(lia) Hp) as (q & Hq & Htq & Hcount).
    apply set_part_type_nth in Hq as (q0 & Hq0 & _ & Heq).
    assert (q = q0) as -> by (apply Heq; lia). clear Heq.
    pose proof (Hdone k q0 Hk Hq0) as Hsettled. intros Hmiddle.
    specialize (Hcount ltac:(lia)). rewrite Hsettled in Hcount by congruence.
    now apply length_zero_iff_nil.
Qed.

(** X25.  on island parts whose changes all lead to another part that
    exists and has a change back, [merge_middle_parts_into_biggest_neighbor]
    returns, and afterwards no middle part with a change is left; the
    links are kept and no part is added. *)
Theorem merge_middle_parts_none_left (fuel : nat) (island_parts : IslandParts) :
  well_linked island_parts -> linked_back island_parts ->
  (2 * length island_parts < fuel)%nat ->
  exists merged_parts,
    merge_middle_parts_into_biggest_neighbor fuel island_parts = Some merged_parts /\
    (forall part, In part merged_parts ->
                  part_type part = middle -> changes part = []) /\
    well_linked merged_parts /\ linked_back merged_parts /\
    (length merged_parts <= length island_parts)%nat.
Proof.
  intros Hwl Hlb Hfuel. unfold merge_middle_parts_into_biggest_neighbor.
  destruct (merge_middle_parts_loop_terminates fuel island_parts 0 Hwl) as [merged Hrun];
    [lia | lia |].
  exists merged. split; [exact Hrun|].
  destruct (merge_middle_parts_loop_settles fuel island_parts 0 merged Hwl Hlb)
    as (H1 & H2 & H3 & H4); [intros k p Hk; lia | exact Hrun |].
  split; [exact H3|]. split; [exact H1|]. split; assumption.
Qed.

(* ===================================================================== *)
(** * Neighbor parts of the same type *)
(* ===================================================================== *)

Lemma IslandPartType_eqb_eq (a b : IslandPartType) :
  IslandPartType_eqb a b = true <-> a = b.
Proof. destruct a, b; simpl; split; congruence. Qed.

Lemma find_same_type_found (island_parts : IslandParts) (type : IslandPartType)
  (cs : list IslandPartChange) (change : IslandPartChange) :
  find_same_type island_parts type cs = Some (Some change) ->
  In change cs /\
  exists neighbor_part,
    nth_error island_parts (part_index change) = Some neighbor_part /\
    part_type neighbor_part = type.
Proof.
  induction cs as [|c cs IH]; cbn [find_same_type]; [discriminate|].
  destruct (nth_error island_parts (part_index c)) as [np|] eqn:Hnp; [|discriminate].
  destruct (IslandPartType_eqb (part_type np) type) eqn:Heq.
  - intros Hfound. injection Hfound as <-. split; [now left|].
    exists np. split; [exact Hnp | now apply IslandPartType_eqb_eq].
  - intros Hfound. destruct (IH Hfound) as [Hin Hrest]. split; [now right | exact Hrest].
Qed.

Lemma find_same_type_end (island_parts : IslandParts) (type : IslandPartType)
  (cs : list IslandPartChange) :
  find_same_type island_parts type cs = Some None ->
  forall c neighbor_part, In c cs ->
    nth_error island_parts (part_index c) = Some neighbor_part ->
    part_type neighbor_part <> type.
Proof.
  induction cs as [|c cs IH]; cbn [find_same_type]; [intros _ c np []|].
  destruct (nth_error island_parts (part_index c)) as [np|] eqn:Hnp; [|discriminate].
  destruct (IslandPartType_eqb (part_type np) type) eqn:Heq; [discriminate|].
  intros Hend c' np' [<-|Hin] Hnp'.
  - rewrite Hnp in Hnp'. injection Hnp' as <-. intros Htype.
    apply IslandPartType_eqb_eq in Htype. congruence.
  - exact (IH Hend c' np' Hin Hnp').
Qed.

Lemma find_same_type_total (island_parts : IslandParts) (type : IslandPartType)
  (cs : list IslandPartChange) :
  (forall c, In c cs -> (part_index c < length island_parts)%nat) ->
  exists found, find_same_type island_parts type cs = Some found.
Proof.
  induction cs as [|c cs IH]; cbn [find_same_type]; intros Hbound;
    [eexists; reflexivity|].
  destruct (nth_error island_parts (part_index c)) as [np|] eqn:Hnp.
  - destruct (IslandPartType_eqb (part_type np) type); [eexists; reflexivity|].
    apply IH. intros c' Hc'. apply Hbound. now right.
  - apply nth_error_None in Hnp. specialize (Hbound c (or_introl eq_refl)). lia.
Qed.

(** Where the parts and their changes are after a merge. *)
Lemma merge_island_parts_shape (island_parts : IslandParts)
  (index remove_index : nat) (merged_parts : IslandParts) :
  (index < remove_index)%nat ->
  merge_island_parts island_parts index remove_index = Some merged_parts ->
  (forall k p, (k < index)%nat -> nth_error merged_parts k = Some p ->
     exists q, nth_error island_parts k = Some q /\ part_type p = part_type q /\
               changes p = map (fix_index index remove_index) (changes q)) /\
  (forall x q, x <> remove_index -> nth_error island_parts x = Some q ->
     exists p,
       nth_error merged_parts (if (remove_index <? x)%nat then (x - 1)%nat else x) =
         Some p /\
       part_type p = part_type q).
Proof.
  intros Hlt. unfold merge_island_parts.
  destruct (Nat.eqb_spec index remove_index) as [Heq|_]; [lia|].
  destruct (nth_error island_parts index) as [part|] eqn:Hpart; [|discriminate].
  destruct (nth_error island_parts remove_index) as [remove_part|] eqn:Hremove;
    [|discriminate].
  intros Hrun. injection Hrun as <-. split.
  - intros k p Hk Hp.
    rewrite nth_error_map, nth_error_erase_nth_lt in Hp by lia.
    rewrite nth_error_modify_nth in Hp.
    destruct (Nat.eqb_spec k index) as [Hki|_]; [lia|].
    destruct (nth_error island_parts k) as [q|]; [|discriminate].
    injection Hp as <-. exists q. split; [reflexivity|]. split; reflexivity.
  - intros x q Hx Hq. rewrite nth_error_map.
    assert (Hplace : nth_error (erase_nth remove_index
                        (modify_nth index
                           (fun p => mkIslandPart (part_type p)
                              (filter (fun c => negb (points_to remove_index c))
                                 (changes part) ++
                               filter (fun c => negb (points_to index c))
                                 (changes remove_part))
                              (sum_lengths p)) island_parts))
                       (if (remove_index <? x)%nat then (x - 1)%nat else x) =
                     nth_error (modify_nth index
                           (fun p => mkIslandPart (part_type p)
                              (filter (fun c => negb (points_to remove_index c))
                                 (changes part) ++
                               filter (fun c => negb (points_to index c))
                                 (changes remove_part))
                              (sum_lengths p)) island_parts) x).
    { destruct (Nat.ltb_spec remove_index x) as [Hhigh|Hlow].
      - rewrite nth_error_erase_nth_ge by lia.
        replace (S (x - 1)) with x by lia. reflexivity.
      - rewrite nth_error_erase_nth_lt by lia. reflexivity. }
    rewrite Hplace, nth_error_modify_nth, Hq.
    destruct (x =? index)%nat; cbn [option_map]; eexists; split; reflexivity.
Qed.

(** The loop of [merge_same_neighbor_type_parts] returns on linked parts,
    and keeps the parts in front of the index without a neighbor of their
    own type. *)
Lemma merge_same_neighbor_type_parts_loop_spec :
  forall (fuel : nat) (island_parts : IslandParts) (index : nat) (in_while : bool),
    well_linked island_parts -> linked_back island_parts ->
    (forall j, (j < index)%nat -> no_same_type_neighbor island_parts j) ->
    (index <= length island_parts)%nat ->
    (in_while = true -> (index < length island_parts)%nat) ->
    (2 * length island_parts - index < fuel)%nat ->
    exists merged_parts,
      merge_same_neighbor_type_parts_loop fuel island_parts index in_while =
        Some merged_parts /\
      (forall j, no_same_type_neighbor merged_parts j) /\
      well_linked merged_parts /\ linked_back merged_parts /\
      (length merged_parts <= length island_parts)%nat.
Proof.
  induction fuel as [|fuel IH];
    intros island_parts index in_while Hwl Hlb Hdone Hindex Hwhile Hfuel; [lia|].
  cbn [merge_same_neighbor_type_parts_loop].
  destruct (nth_error island_parts index) as [part|] eqn:Hpart.
  2:{ destruct in_while;
        [apply nth_error_None in Hpart; specialize (Hwhile eq_refl); lia|].
      exists island_parts. split; [reflexivity|].
      split; [|split; [exact Hwl|split; [exact Hlb | lia]]].
      intros j. destruct (Nat.lt_ge_cases j index) as [Hj|Hj]; [now apply Hdone|].
      intros p np c Hp. apply nth_error_None in Hpart.
      assert (j < length island_parts)%nat by (apply nth_error_Some; congruence). lia. }
  assert (Hlt : (index < length island_parts)%nat)
    by (apply nth_error_Some; congruence).
  destruct (find_same_type_total island_parts (part_type part) (changes part))
    as [found Hfound].
  { intros c Hc. exact (proj1 (Hwl index part c Hpart Hc)). }
  rewrite Hfound. destruct found as [change|].
  - (* a neighbor of the same type: it comes later *)
    destruct (find_same_type_found _ _ _ _ Hfound) as (Hin & np & Hnp & Htype).
    destruct (Hwl index part change Hpart Hin) as [Hbound Hself].
    assert (Hlater : (index < part_index change)%nat).
    { destruct (Nat.lt_ge_cases index (part_index change)) as [|Hle]; [assumption|].
      exfalso. assert (Hearlier : (part_index change < index)%nat) by lia.
      destruct (Hlb index part change Hpart Hin) as (np' & back & Hnp' & Hback & Hbi).
      rewrite Hnp in Hnp'. injection Hnp' as <-.
      apply (Hdone (part_index change) Hearlier np part back Hnp Hback);
        [rewrite Hbi; exact Hpart | congruence]. }
    destruct (merge_island_parts_well_linked island_parts index (part_index change)
                Hlater Hbound Hwl) as (merged & Hmerge & Hlen & Hwlm).
    rewrite Hmerge.
    destruct (merge_island_parts_linked_back island_parts index (part_index change)
                merged Hlater Hbound Hwl Hlb Hmerge) as [Hlbm _].
    destruct (merge_island_parts_shape island_parts index (part_index change) merged
                Hlater Hmerge) as [Hfront Hplaces].
    destruct (IH merged index true Hwlm Hlbm) as (result & Hrun & H1 & H2 & H3 & H4);
      [|lia|intros _; lia|lia|exists result; split; [exact Hrun|]; split; [exact H1|];
                split; [exact H2|]; split; [exact H3 | lia]].
    intros j Hj p q' c' Hp Hc' Hq'.
    destruct (Hfront j p Hj Hp) as (q & Hq & Htq & Hchanges).
    rewrite Hchanges in Hc'. apply in_map_iff in Hc' as (c0 & <- & Hc0).
    destruct (Hwl j q c0 Hq Hc0) as [Hbound0 _].
    destruct (nth_error island_parts (part_index c0)) as [q0|] eqn:Hq0;
      [|apply nth_error_None in Hq0; lia].
    pose proof (Hdone j Hj q q0 c0 Hq Hc0 Hq0) as Hdiffer.
    rewrite Htq. unfold fix_index in Hq'.
    destruct (Nat.eqb_spec (part_index c0) (part_index change)) as [Hremoved|Hother].
    + cbn [part_index] in Hq'.
      destruct (Hplaces index part ltac:(lia) Hpart) as (p' & Hp' & Htp').
      destruct (Nat.ltb_spec (part_index change) index); [lia|].
      rewrite Hp' in Hq'. injection Hq' as <-.
      rewrite Hremoved, Hnp in Hq0. injection Hq0 as <-. congruence.
    + destruct (Hplaces (part_index c0) q0 Hother Hq0) as (p' & Hp' & Htp').
      destruct (Nat.ltb_spec (part_index change) (part_index c0));
        cbn [part_index] in Hq'; rewrite Hp' in Hq'; injection Hq' as <-; congruence.
  - (* no more changes *)
    destruct (IH island_parts (S index) false Hwl Hlb) as (result & Hrun & Hrest);
      [|lia|discriminate|lia|exists result; split; [exact Hrun | exact Hrest]].
    intros j Hj. destruct (Nat.eq_dec j index) as [->|Hne]; [|apply Hdone; lia].
    intros p np c Hp Hc Hnp. rewrite Hpart in Hp. injection Hp as <-.
    exact (find_same_type_end _ _ _ Hfound c np Hc Hnp).
Qed.

(** X26.  on island parts whose changes all lead to another part that
    exists and has a change back, [merge_same_neighbor_type_parts]
    returns, and afterwards no change of a part leads into a part of the
    same type; the links are kept and no part is added. *)
Theorem merge_same_neighbor_type_parts_separates (fuel : nat)
  (island_parts : IslandParts) :
  well_linked island_parts -> linked_back island_parts ->
  (2 * length island_parts < fuel)%nat ->
  exists merged_parts,
    merge_same_neighbor_type_parts fuel island_parts = Some merged_parts /\
    (forall j, no_same_type_neighbor merged_parts j) /\
    well_linked merged_parts /\ linked_back merged_parts /\
    (length merged_parts <= length island_parts)%nat.
Proof.
  intros Hwl Hlb Hfuel. unfold merge_same_neighbor_type_parts.
  apply merge_same_neighbor_type_parts_loop_spec; try assumption; try lia.
Qed.

(* ===================================================================== *)
(** * Examples *)
(* ===================================================================== *)

Lemma links_from_spec (check : nat -> IslandPartChange -> bool) :
  forall (island_parts : IslandParts) (index : nat),
    links_from check index island_parts = true ->
    forall k part c, nth_error island_parts k = Some part -> In c (changes part) ->
                     check (index + k)%nat c = true.
Proof.
  induction island_parts as [|first island_parts IH]; intros index Hlinks k part c Hpart Hc.
  - destruct k; discriminate.
  - cbn [links_from] in Hlinks. apply andb_true_iff in Hlinks as [Hfirst Hrest].
    destruct k as [|k].
    + injection Hpart as <-. rewrite Nat.add_0_r.
      rewrite forallb_forall in Hfirst. now apply Hfirst.
    + replace (index + S k)%nat with (S index + k)%nat by lia.
      exact (IH (S index) Hrest k part c Hpart Hc).
Qed.

Lemma well_linkedb_sound (island_parts : IslandParts) :
  well_linkedb island_parts = true -> well_linked island_parts.
Proof.
  intros Hcheck i part c Hpart Hc.
  pose proof (links_from_spec _ island_parts 0 Hcheck i part c Hpart Hc) as Hc'.
  cbn beta in Hc'. apply andb_true_iff in Hc' as [Hbound Hself].
  apply Nat.ltb_lt in Hbound. apply negb_true_iff, Nat.eqb_neq in Hself.
  split; assumption.
Qed.

Lemma linked_backb_sound (island_parts : IslandParts) :
  linked_backb island_parts = true -> linked_back island_parts.
Proof.
  intros Hcheck i part c Hpart Hc.
  pose proof (links_from_spec _ island_parts 0 Hcheck i part c Hpart Hc) as Hc'.
  cbn beta in Hc'.
  destruct (nth_error island_parts (part_index c)) as [np|]; [|discriminate].
  apply existsb_exists in Hc' as (back & Hback & Hi). apply Nat.eqb_eq in Hi.
  exists np, back. split; [reflexivity|]. split; assumption.
Qed.

Lemma get_center_within_radius_witness :
  get_center (contour l_shaped_island) (head_radius example_config) =
    Some (mkPoint 150000 150000) /\
  2 * Z.abs (px (mkPoint 300000 100000) - px (mkPoint 150000 150000)) <=
    head_radius example_config + 2 /\
  2 * Z.abs (py (mkPoint 300000 100000) - py (mkPoint 150000 150000)) <=
    head_radius example_config + 2.
Proof.
  split; [reflexivity|].
  apply (get_center_within_radius (contour l_shaped_island) (head_radius example_config)
           (mkPoint 150000 150000) (mkPoint 300000 100000)).
  - repeat (apply Forall_cons; [vm_compute; intuition discriminate|]).
    apply Forall_nil.
  - vm_compute. intuition discriminate.
  - reflexivity.
  - right. right. left. reflexivity.
Defined.

Lemma align_samples_keeps_supports_witness :
  exists out sweeps,
    align_samples (H := plain_collaborators) 200 20 mixed_supports square_inset
      example_config = Some (out, sweeps) /\
    Forall2 aligned_from mixed_supports out.
Proof.
  eexists _, _. split; [lazy; reflexivity|].
  apply (align_samples_keeps_supports (H := plain_collaborators) 200 20 mixed_supports
           square_inset example_config _ 1).
  vm_compute. reflexivity.
Defined.

Lemma detect_interface_keeps_links_witness :
  exists island_parts',
    detect_interface (H := plain_collaborators) taper_graph thin_then_middle 1
      taper_01 [] example_config = Some (island_parts', 2%nat) /\
    well_linked island_parts' /\ linked_back island_parts' /\
    (2 < length island_parts')%nat /\
    (length thin_then_middle <= length island_parts' <=
     length thin_then_middle + 2)%nat.
Proof.
  eexists. split; [lazy; reflexivity|].
  apply (detect_interface_keeps_links (H := plain_collaborators) taper_graph
           thin_then_middle 1 taper_01 [] example_config).
  - vm_compute. reflexivity.
  - apply well_linkedb_sound. reflexivity.
  - apply linked_backb_sound. reflexivity.
Defined.

Lemma merge_middle_parts_none_left_witness :
  exists merged_parts,
    merge_middle_parts_into_biggest_neighbor 7 tied_parts = Some merged_parts /\
    (forall part, In part merged_parts ->
                  part_type part = middle -> changes part = []) /\
    well_linked merged_parts /\ linked_back merged_parts /\
    (length merged_parts <= length tied_parts)%nat.
Proof.
  apply (merge_middle_parts_none_left 7 tied_parts).
  - apply well_linkedb_sound. reflexivity.
  - apply linked_backb_sound. reflexivity.
  - simpl. lia.
Defined.

Lemma merge_same_neighbor_type_parts_separates_witness :
  exists merged_parts,
    merge_same_neighbor_type_parts 7 twin_parts = Some merged_parts /\
    (forall j, no_same_type_neighbor merged_parts j) /\
    well_linked merged_parts /\ linked_back merged_parts /\
    (length merged_parts <= length twin_parts)%nat.
Proof.
  apply (merge_same_neighbor_type_parts_separates 7 twin_parts).
  - apply well_linkedb_sound. reflexivity.
  - apply linked_backb_sound. reflexivity.
  - simpl. lia.
Defined.
